(* ===== verification/_CoqProject ===== *)
-Q . S2P
Prelude.v
IntrusiveList.v
Links.v
Deque.v
Array.v
Heap.v
Cid.v
BitMap.v
SpinLock.v
TimeWheel.v
HashMap.v
HashMapRefines.v
World.v
Coroutine.v
InnerFd.v
Task.v
Sched.v
Event.v
Schedule.v
Mutex.v
MutexProtocol.v
Cond.v
Sem.v
Blocking.v
Hook.v
HookIO.v
Log.v
Helper.v
Poll.v
Chan.v
ChanObjects.v
Descriptors.v
Runtime.v
TaskSafety.v
IoSafety.v
WakeSafety.v
HookSafety.v
ChanSafety.v
Scripts.v
Machine.v
Boot.v
Lifecycle.v
ChanSteps.v
ChanProtocol.v
