(* ===== verification/Prelude.v ===== *)
(** * libcask: a coroutine library in C

    libcask runs many coroutines ("tasks") on each thread.  A task runs until it
    blocks; the blocking system calls are hooked so that instead of blocking the
    thread they register the descriptor with epoll and switch to the scheduler
    of the thread, which picks the next runnable task.  This development models
    the library's C code function by function and proves what each part
    promises to the others.

    ** The parts, and the files that model them

    - IntrusiveList.v: list.c, the circular doubly linked list that everything
      else is built on, as stores of prev/next fields.  Links.v says where the
      list nodes of the library live and models [list_to_struct].
    - Deque.v: deque.c, queue.h, stack.h.  Array.v: array.c.  Heap.v: heap.c.
      BitMap.v: bit_map.c.  HashMap.v: hash_map.c and co_specs.c, and
      HashMapRefines.v what they promise.
    - Cid.v: cid.c, the identifiers of tasks.
    - SpinLock.v: atomic.h and both spin locks of co_spin_lock.c, as functions
      and as step relations between threads.
    - TimeWheel.v: time_wheel.c.
    - World.v: the state the rest shares, that is the records of task.h,
      task_sched.h, event.h, inner_fd.h, co_mutex.h and co_sem.h, the per-thread
      variables, and a state monad [M] with its weakest preconditions.
    - InnerFd.v: inner_fd.c, the table of descriptors, and the hooked [close].
    - Task.v: task.c and the macros of co_define.h on the current task.
    - Sched.v: the run queue of sched_RR.c and, from task_sched.c, the creation
      of a scheduler and the movements of tasks in and out of the run queue.
    - Event.v: event.c.  Schedule.v: [RR_picknext] and the loop of [schedule].
    - Mutex.v, Cond.v, Sem.v: co_mutex.c; co_cond.c and timer.c; co_sem.c.
    - MutexProtocol.v: co_mutex.c once more, one shared access at a time, with
      tasks of several threads interleaving.
    - Coroutine.v: functions that switch to the scheduler and go on later, as
      computations [C] that return or yield, and the logic [cwp] for them.
      Blocking.v puts the blocking functions together from their parts.
    - Hook.v: sys_hook.c.  HookIO.v proves what the hooked calls promise.
      Helper.v: sys_helper.c, the rest of timer.c, and the two service tasks of a
      scheduler ([_timeout_task], [_active_task]) and the function every task
      starts in ([_task_func]).  Poll.v: what [co_poll] reports, and how a task
      ends.
    - Log.v: log.c, log.h and the macros of types.h, with the part of printf they
      use.
    - Descriptors.v: what the kernel promises about descriptors.  Runtime.v: the
      invariant [good] of a thread with its declared objects and the owners of its
      descriptors, and what it means for a computation to be safe under it.  One rule for each function a task calls:
      TaskSafety.v (tasks and synchronisation), IoSafety.v ([event_poll], the
      descriptor table), WakeSafety.v ([event_wait] and the tick of the timer task),
      HookSafety.v (the hooked calls and the two service tasks) and ChanSafety.v
      (channels and barriers).  Scripts.v:
      task functions as scripts of calls, with their typing.  Machine.v: the loop of
      [schedule] together with the saved contexts of the tasks.  Boot.v: a program
      from its first call to the last turn.  Lifecycle.v: how [schedule] ends and
      what it leaves behind.
    - Chan.v: chan.c, co_bar.h and co_await.c.  ChanObjects.v says what a channel
      holds and what a push and a pop do to it.  ChanSteps.v proves what their
      functions do between two switches; ChanProtocol.v lets any number of tasks
      use a channel and relates that to the code.

    ** How code becomes definitions

    A C function becomes a definition of the same name.  A pure one is a
    function; one that can go wrong returns [res], whose cases are a normal
    return, the library's [PANIC], undefined behaviour and a cut-off loop; one
    that works on the shared state is a computation in [M].  A pointer is an
    integer, NULL being 0, and an object lives in a finite map until it is
    freed, so every use after free and every NULL dereference is [Undef].
    Integers keep their width where the code can reach it ([u64], [s32], ...).
    A function of the runtime that switches to another task in the middle is
    split there: its first part ends with the task blocked ([event_poll_begin],
    [co_cond_wait_begin]), the second ([event_poll_end], ...) is what runs after
    the task has been resumed; a loop that may switch in every turn is given by
    its turn ([lock_turn], [sem_wait_turn], [schedule_turn], [timeout_turn]).  A
    task's own run between two switches is an argument of [schedule_turn].  The
    functions tasks call are put together again as computations in [C], which
    yield where the code does: [cwp lax Y E c Q w] says that [c], run from [w],
    switches away only in states with [Y] and returns with [Q], when what the
    others do until it is back is in [E].  [E] is an argument of the theorems,
    restricted by what they name ([gives_back], [comes_back]).

    The operating system is the class [Kernel] of World.v, and [Sockets] of
    Hook.v for the calls behind the hooks: each system call is an argument of the
    model.  The theorems assume of it only what they name,
    for instance the result of one call.  [EventSource] (Event.v) is what the
    scheduler needs to know of [event_wait]: it may wake tasks and does nothing
    else to the run queue; a kernel that reports no events satisfies it
    ([quiet_event_source]).  [Descriptors] (Descriptors.v) states the manual pages
    on descriptors: which calls open one (with a number that was not open and fits
    the table), that [close] removes it from the epoll sets, that [epoll_wait]
    reports registered ones only, that the others change neither, and that a write
    reports no more than it was given; the kernel of the example in Boot.v satisfies
    it.  [Clock] (Log.v) has the clock and the texts of error
    numbers.

    ** What the theorems show

    - Data structures: programs of operations on lists, deques, bit maps, the
      descriptor table and the coroutine-specific data refine the same programs
      on sequences, sets and finite maps; destroying the latter leaks nothing;
      heap operations keep the heap order and lose nothing, and a heap sorts like
      merge sort; the vector grows without losing elements.
    - Identifiers: no identifier is handed out twice while it is held.
    - Timeouts: a descriptor armed with timeout k is in the slot that expires
      after k+1 ticks, and a tick wakes exactly the tasks of the expired slot;
      [event_poll] reports what woke it.
    - Scheduling: a task in the run queue runs within as many turns as there are
      tasks before it, whatever is woken meanwhile; an exited task is destroyed
      in the next turn; the first call on a thread builds its scheduler; when
      only the service tasks are left the loop ends and the scheduler is released
      with everything it owns ([schedule_ends_clean]).
    - The whole runtime: [program_type_safety] starts with a process that has not
      called the library, lets it create its first task, initialise its mutexes,
      conditions, semaphores, channels and barriers and enter the loop, and runs any
      number of turns.
      The task functions are scripts: each call's result decides the next.  They
      create tasks, yield, exit, lock, wait, signal, post, send, receive, open, accept,
      connect, read, write and close in any order that the typing of Scripts.v allows: a
      function uses declared objects and descriptors it owns; it owns what it was
      created with, what it opened and what it accepted, until it closes it or gives
      it to a task it creates.  The library's timer task and active task run among
      them with their own code.  No turn reaches undefined behaviour, so no task,
      list, descriptor object or scheduler is used after it was freed; it ends in
      the invariant or in one of the panics the code states ([deliberate]).
    - Logging: a line reaches the kernel once, as formatted; a format or line
      that is too long overflows a buffer ([log_overflows]); the lines of two
      tasks can mix ([ex_lines_mix]).
    - Synchronisation: what lock, unlock, wait, signal, broadcast and post do to
      the run queue and the wait lists; mutual exclusion of the spin locks and
      of the mutex between threads; the ticket lock is first come, first served;
      the mutex loses no wakeup.
    - Hooked calls: on a registered descriptor [write] sends every byte once and
      in order, [read] hands over exactly the bytes that left the kernel, and
      both block the task, not the thread; [socket] registers what it opens;
      [co_poll] reports exactly the descriptors something was recorded for.
    - Channels and barriers: a send or receive is one atomic step between waits
      that leave the channel alone; in every interleaving messages arrive once
      and in order, and a buffered channel loses no wakeup; an unbuffered one can
      ([chan_unbuffered_deadlock]); nobody passes a barrier before the last task
      has arrived.
    - Defects: theorems on what the code does where it does not do what it is
      meant to do, such as [sem_lone_waiter_lost], [wheel_long_timeout_early] or
      [hash_map_prefix_alias].

    The invariant [rt] (Sched.v) of the running thread carries most of the
    runtime theorems: the scheduler of the thread has its run queue, every list
    of the process is well formed, every task belongs to this thread or to none,
    and no list holds a task that has been destroyed.

    ** Bounds and assumptions

    Loops that walk a list have the number of objects that can be on it as
    fuel, which the theorems show to be enough; [RR_picknext] polls until there
    is a task, and its theorem gives the fuel one poll needs when the queue is
    not empty.  The loops of a [C] computation that wait for other tasks take
    fuel too; how long they wait is up to the others, so the theorems that do not
    bound it hold for every fuel with [lax] true, and the others (a [write] to a
    descriptor that is writable when the task wakes, an operation that need not
    wait) with [lax] false.  [malloc] succeeds.  Where the order of evaluation of the source
    is unspecified, the model has both orders and the other files use gcc's.
    The calls of DBG_LOG and ERR_LOG inside the functions of other files are left
    out of these; PANIC there is the outcome [Panic].  The wake-up byte that [sched_active_event] writes is
    one system call, as it is for a scheduler or a pipe with room; the retry
    loop of the hooked [write] around it is not modelled.  The load factor test
    of the hash map is exact up to 2^24 entries, which its theorem assumes.
    [program_type_safety] holds for every number of turns and every fuel, a loop
    that is cut off counting as not having finished; it assumes that there are at
    most THREAD_MAX_TASK_SIZE tasks at the start of each turn ([within_limit]), since
    more than that get the same identifier, and that epoll_create and timerfd_create
    succeed in the first call, which the code does not check.

    ** Not modelled

    The stack switch itself ([swapcontext], assembled by libc): a saved context is
    the rest of the task's computation.  co_rwlock.h and sched_ctl.h, which no file
    includes and which do not compile.  The scripts of [program_type_safety] have
    channels of pointers only, since a channel that copies needs a valid block of
    memory, and no coroutine-specific data, [sleep], [poll], [sendmsg], [fcntl] or
    resolver, which are modelled and have theorems of their own or none; and no two
    of its tasks use one descriptor, for which the code keeps a single waiting task.
    The theorems on channels and barriers are about tasks of one
    thread; between threads only the mutex they use is covered.  The resolver
    and the first half of [co_poll] are modelled without theorems of their own.

    This file holds what all others use: outcomes, loops, machine integers, a
    few lemmas on lists, and tactics. *)

From Stdlib Require Import ZArith Lia.
From stdpp Require Import base numbers strings sets gmap list.

Declare Scope cask_scope.
Delimit Scope cask_scope with cask.
Open Scope cask_scope.

(** * Outcome of a C computation *)

(** [Ok a] is a normal return; [Panic msg] is the [PANIC] macro of types.h
    (log and [exit(-1)]); [Undef] is an access the C standard gives no meaning
    to (NULL or dangling pointer, read of an uninitialised cell, index outside
    an allocation, signed overflow); [OutOfFuel] is a bounded loop of the model
    that was cut off. *)
Inductive res (A : Type) : Type :=
| Ok (a : A)
| Panic (msg : string)
| Undef
| OutOfFuel.
Arguments Ok {A} a.
Arguments Panic {A} msg%_string.
Arguments Undef {A}.
Arguments OutOfFuel {A}.

Definition res_bind {A B : Type} (k : A → res B) (c : res A) : res B :=
  match c with
  | Ok a => k a
  | Panic msg => Panic msg
  | Undef => Undef
  | OutOfFuel => OutOfFuel
  end.

Notation "'let*' x := c 'in' k" := (res_bind (λ x, k) c)
  (at level 10, x pattern, c at level 200, k at level 200,
   format "'[v' 'let*'  x  :=  c  'in' '/' k ']'") : cask_scope.

(** A partial lookup whose failure is an invalid access. *)
Definition deref {A : Type} (o : option A) : res A :=
  match o with Some a => Ok a | None => Undef end.

(** [for(i = i0; ...; i++) body], [n] iterations. *)
Fixpoint for_up {S : Type} (n : nat) (i : Z) (body : Z → S → res S) (s : S) : res S :=
  match n with
  | O => Ok s
  | S n' => let* s' := body i s in for_up n' (i + 1)%Z body s'
  end.

(** Loop invariants. *)
Lemma for_up_inv {S : Type} (P : Z → S → Prop) (body : Z → S → res S) n i s :
  P i s →
  (∀ k s, (i ≤ k < i + Z.of_nat n)%Z → P k s → ∃ s', body k s = Ok s' ∧ P (k + 1)%Z s') →
  ∃ s', for_up n i body s = Ok s' ∧ P (i + Z.of_nat n)%Z s'.
Proof.
  revert i s. induction n as [|n IH]; intros i s HP Hstep; simpl.
  - exists s. by rewrite Z.add_0_r.
  - destruct (Hstep i s) as (s1 & -> & HP1); [lia|done|]. simpl.
    destruct (IH (i + 1)%Z s1 HP1) as (s' & Hs' & HP').
    + intros k s2 Hk. apply Hstep. lia.
    + exists s'. split; [done|]. by replace (i + Z.of_nat (Datatypes.S n))%Z
        with (i + 1 + Z.of_nat n)%Z by lia.
Qed.

(** * Machine integers *)

Definition u32 (z : Z) : Z := (z mod 2 ^ 32)%Z.
Definition u64 (z : Z) : Z := (z mod 2 ^ 64)%Z.
Definition s8 (z : Z) : Z := ((z + 2 ^ 7) mod 2 ^ 8 - 2 ^ 7)%Z.
Definition s32 (z : Z) : Z := ((z + 2 ^ 31) mod 2 ^ 32 - 2 ^ 31)%Z.
Definition INT_MAX : Z := (2 ^ 31 - 1)%Z.

(** A generic pointer: its 64-bit value, NULL being 0. *)
Abbreviation ptr := Z.
Definition NULL : ptr := 0%Z.

Lemma u64_small (z : Z) : (0 ≤ z < 2 ^ 64)%Z → u64 z = z.
Proof. intros. unfold u64. by apply Z.mod_small. Qed.

Lemma u32_small (z : Z) : (0 ≤ z < 2 ^ 32)%Z → u32 z = z.
Proof. intros. unfold u32. by apply Z.mod_small. Qed.

Lemma s32_small (z : Z) : (- 2 ^ 31 ≤ z < 2 ^ 31)%Z → s32 z = z.
Proof. intros. unfold s32. rewrite Z.mod_small; lia. Qed.

Lemma s32_range (z : Z) : (- 2 ^ 31 ≤ s32 z < 2 ^ 31)%Z.
Proof. unfold s32. pose proof (Z.mod_pos_bound (z + 2 ^ 31) (2 ^ 32)). lia. Qed.

Lemma u64_range (z : Z) : (0 ≤ u64 z < 2 ^ 64)%Z.
Proof. unfold u64. apply Z.mod_pos_bound. lia. Qed.

(** * Lists *)

Section lists.
Context {A : Type} `{EqDecision A}.
Implicit Types (l : list A) (e : A).

Lemma filter_ne_id e l : e ∉ l → filter (λ x, x ≠ e) l = l.
Proof.
  induction l as [|x l IH]; [done|]. intros [??]%not_elem_of_cons.
  rewrite filter_cons_True by done. by rewrite IH.
Qed.

Lemma filter_ne_split e l1 l2 :
  NoDup (l1 ++ e :: l2) → filter (λ x, x ≠ e) (l1 ++ e :: l2) = l1 ++ l2.
Proof.
  intros (_ & H1 & [H2 _]%NoDup_cons)%NoDup_app.
  rewrite filter_app, filter_cons_False, !filter_ne_id; [done|done| |auto].
  intros Hin. apply (H1 e Hin). set_solver.
Qed.
End lists.

(** Distinct live objects are no more than there are objects. *)
Lemma NoDup_dom_length {V} (m : gmap Z V) (il : list Z) :
  NoDup il → (∀ i, i ∈ il → is_Some (m !! i)) → (length il ≤ size m)%nat.
Proof.
  intros Hnd Hin. rewrite <-(size_list_to_set (C := gset Z) il), <-(size_dom m) by done.
  apply subseteq_size. intros i Hi%elem_of_list_to_set. apply elem_of_dom. by apply Hin.
Qed.

(** * Tactics *)

(** Split the first [let*] of a hypothesis that returned [Ok]. *)
Lemma res_bind_Ok {A B : Type} (k : A → res B) (c : res A) (b : B) :
  res_bind k c = Ok b ↔ ∃ a, c = Ok a ∧ k a = Ok b.
Proof. destruct c; simpl; naive_solver. Qed.

Ltac inv_ok :=
  repeat match goal with
  | H : res_bind _ _ = Ok _ |- _ =>
      apply res_bind_Ok in H; destruct H as (? & ? & H)
  | H : Ok _ = Ok _ |- _ => injection H as H; subst
  | H : deref ?o = Ok _ |- _ =>
      let E := fresh "E" in destruct o eqn:E; simpl in H; [|discriminate H]
  end.

(** Case analysis on lookups in updated maps, in the goal and hypotheses. *)
Ltac map_cases :=
  repeat match goal with
  | H : <[_ := _]> _ !! _ = Some _ |- _ => rewrite lookup_insert in H; case_decide; simplify_eq
  | |- context [<[_ := _]> _ !! _] => rewrite lookup_insert; case_decide; simplify_eq
  end.

Create HintDb cask.
Create Rewrite HintDb cask_int.
Create Rewrite HintDb cask.
#[export] Hint Rewrite @u64_small @u32_small @s32_small using lia : cask_int.
