(* ===== verification/IntrusiveList.v ===== *)
(** The intrusive circular doubly linked list of list.c / list.h.

    A [list_t] is two pointers, [prev] and [next], embedded in other structs;
    the model is a store [gmap A lnode] from the addresses of the live [list_t]
    objects to their two fields, and each function of list.c is a function on
    that store.  An access outside the store is [Undef].

    [ring m h xs] says that the store holds a circular list with sentinel [h]
    and elements [xs] in [next] order; [rings m R] says it of several pairwise
    disjoint lists at once and is what the components built on list.c use.
    The functions of list.c are shown to implement the operations on finite
    sequences ([rings_add_before], [rings_add_after], [rings_delete]). *)

From S2P Require Import Prelude.
From stdpp Require Import base gmap list.

Record lnode (A : Type) := LNode { prev : A; next : A }.
Arguments LNode {A} _ _.
Arguments prev {A} _.
Arguments next {A} _.

(** The order in which a compiler evaluates the operands of an assignment
    where C leaves them unsequenced. *)
Inductive eval_order := LeftFirst | RightFirst.

Section list_c.
Context {A : Type} `{Countable A}.
Implicit Types (m : gmap A (lnode A)) (a ls elm : A).

Definition rd_prev m a : res A := let* n := deref (m !! a) in Ok (prev n).
Definition rd_next m a : res A := let* n := deref (m !! a) in Ok (next n).
Definition wr_prev m a (v : A) : res (gmap A (lnode A)) :=
  let* n := deref (m !! a) in Ok (<[a := LNode v (next n)]> m).
Definition wr_next m a (v : A) : res (gmap A (lnode A)) :=
  let* n := deref (m !! a) in Ok (<[a := LNode (prev n) v]> m).

(** [ls->prev = ls->next = ls]; [ls] lies in an object the caller has just
    allocated or owns. *)
Definition list_init m ls : gmap A (lnode A) := <[ls := LNode ls ls]> m.

(** [_list_add(elm, ls->prev, ls)]: the macro textually re-reads [ls->prev],
    and its last statement is [ls->prev->next = ls->prev = elm], whose left
    operand reads the field the right operand writes, unsequenced. *)
Definition list_add_before_ord (o : eval_order) m ls elm : res (gmap A (lnode A)) :=
  let* p := rd_prev m ls in
  let* m := wr_prev m elm p in
  let* m := wr_next m elm ls in
  match o with
  | LeftFirst =>
      let* p := rd_prev m ls in
      let* m := wr_prev m ls elm in
      wr_next m p elm
  | RightFirst =>
      let* m := wr_prev m ls elm in
      let* p := rd_prev m ls in
      wr_next m p elm
  end.

(** gcc, the compiler of build.sh, evaluates the left operand first. *)
Definition list_add_before m ls elm : res (gmap A (lnode A)) :=
  list_add_before_ord LeftFirst m ls elm.

(** [_list_add(elm, ls, ls->next)]: here the store to [ls->next] is sequenced
    after the evaluation of [ls->next->prev = elm]. *)
Definition list_add_after m ls elm : res (gmap A (lnode A)) :=
  let* m := wr_prev m elm ls in
  let* n := rd_next m ls in
  let* m := wr_next m elm n in
  let* n := rd_next m ls in
  let* m := wr_prev m n elm in
  wr_next m ls elm.

Definition list_add m ls elm : res (gmap A (lnode A)) := list_add_after m ls elm.

(** [_list_delete(elm->prev, elm->next); list_init(elm)]. *)
Definition list_delete m elm : res (gmap A (lnode A)) :=
  let* p := rd_prev m elm in
  let* n := rd_next m elm in
  let* m := wr_next m p n in
  let* n := rd_next m elm in
  let* p := rd_prev m elm in
  let* m := wr_prev m n p in
  Ok (list_init m elm).

Definition list_next m ls : res A := rd_next m ls.
Definition list_prev m ls : res A := rd_prev m ls.

Definition list_empty m ls : res bool :=
  let* p := rd_prev m ls in
  let* n := rd_next m ls in
  Ok (bool_decide (p = n) && bool_decide (p = ls)).

(** * Rings *)

(** The two fields of the store. *)
Definition nx m a : option A := next <$> m !! a.
Definition pv m a : option A := prev <$> m !! a.

(** [b] follows [a]. *)
Definition link m a (b : A) : Prop := nx m a = Some b ∧ pv m b = Some a.

(** From [a] through [xs] to [b]. *)
Fixpoint chain m a (xs : list A) (b : A) : Prop :=
  match xs with
  | [] => link m a b
  | x :: xs => link m a x ∧ chain m x xs b
  end.

Definition ring m (h : A) (xs : list A) : Prop := NoDup (h :: xs) ∧ chain m h xs h.

Lemma chain_app m a xs x ys b :
  chain m a (xs ++ x :: ys) b ↔ chain m a xs x ∧ chain m x ys b.
Proof. revert a. induction xs as [|y xs IH]; intros a; simpl; [done|]. rewrite IH. tauto. Qed.

Lemma chain_frame m m' a xs b :
  (∀ c, c ∈ a :: xs → nx m' c = nx m c) →
  (∀ c, c ∈ b :: xs → pv m' c = pv m c) →
  chain m a xs b → chain m' a xs b.
Proof.
  revert a. unfold link. induction xs as [|x xs IH]; intros a Hn Hp; simpl; unfold link.
  - rewrite Hn, Hp by set_solver. done.
  - rewrite Hn, Hp by set_solver. intros [Hl Hc]. split; [done|].
    apply IH; [| |done]; intros; [apply Hn|apply Hp]; set_solver.
Qed.

Lemma ring_frame m m' h xs :
  (∀ c, c ∈ h :: xs → m' !! c = m !! c) → ring m h xs → ring m' h xs.
Proof.
  intros Hf [Hnd Hc]. split; [done|]. unfold nx, pv in *.
  apply (chain_frame m); [| |done]; intros c Hin; unfold nx, pv; by rewrite Hf.
Qed.

Lemma link_dom m a b : link m a b → is_Some (m !! a) ∧ is_Some (m !! b).
Proof. unfold link, nx, pv. destruct (m !! a), (m !! b); naive_solver. Qed.

Lemma chain_dom m a xs b c : chain m a xs b → c ∈ a :: b :: xs → is_Some (m !! c).
Proof.
  revert a. induction xs as [|x xs IH]; intros a; simpl.
  - intros [??]%link_dom Hin. set_solver.
  - intros [[??]%link_dom Hc] Hin.
    rewrite !elem_of_cons in Hin. destruct Hin as [->|Hin]; [done|].
    apply (IH x); [done|]. set_solver.
Qed.

Lemma ring_dom m h xs c : ring m h xs → c ∈ h :: xs → is_Some (m !! c).
Proof. intros [_ Hc] Hin. apply (chain_dom m h xs h c Hc). set_solver. Qed.

(** A ring read from one of its elements. *)
Lemma ring_rotate m h xs x ys :
  ring m h (xs ++ x :: ys) → ring m x (ys ++ h :: xs).
Proof.
  intros [Hnd Hc]. apply chain_app in Hc as [H1 H2]. split.
  - assert (x :: ys ++ h :: xs ≡ₚ h :: xs ++ x :: ys) as ->; [|done].
    solve_Permutation.
  - apply chain_app. done.
Qed.

Lemma ring_nil m h : ring m h [] ↔ m !! h = Some (LNode h h).
Proof.
  unfold ring, chain, link, nx, pv. split.
  - intros [_ [H1 H2]]. destruct (m !! h) as [[p n]|]; naive_solver.
  - intros ->. split; [apply NoDup_singleton|done].
Qed.

(** First and last element, the sentinel when there is none. *)
Definition first_or (h : A) (xs : list A) : A := default h (head xs).
Definition last_or (h : A) (xs : list A) : A := default h (last xs).

Lemma chain_nx m a xs b : chain m a xs b → nx m a = Some (first_or b xs).
Proof. destruct xs; simpl; unfold link; naive_solver. Qed.

Lemma chain_pv m a xs b : chain m a xs b → pv m b = Some (last_or a xs).
Proof.
  unfold last_or. destruct xs as [|x xs] using rev_ind; [by intros [_ ?]|].
  intros [_ [_ ?]]%chain_app. by rewrite last_snoc.
Qed.

Lemma first_or_in (h : A) xs : first_or h xs ∈ h :: xs.
Proof. destruct xs; set_solver. Qed.

Lemma last_or_in (h : A) xs : last_or h xs ∈ h :: xs.
Proof. unfold last_or. destruct xs as [|x xs] using rev_ind; [|rewrite last_snoc]; set_solver. Qed.

(** * What the operations do to the two fields *)

Lemma rd_next_Ok m a b : rd_next m a = Ok b ↔ nx m a = Some b.
Proof. unfold rd_next, nx. destruct (m !! a); simpl; naive_solver. Qed.
Lemma rd_prev_Ok m a b : rd_prev m a = Ok b ↔ pv m a = Some b.
Proof. unfold rd_prev, pv. destruct (m !! a); simpl; naive_solver. Qed.

(** [m'] is [m] with [e] linked in between [p] and [n]. *)
Definition spliced m (p n e : A) m' : Prop :=
  (∀ c, nx m' c = if decide (c = p) then Some e
                  else if decide (c = e) then Some n else nx m c) ∧
  (∀ c, pv m' c = if decide (c = n) then Some e
                  else if decide (c = e) then Some p else pv m c) ∧
  (∀ c, c ≠ p → c ≠ n → c ≠ e → m' !! c = m !! c) ∧
  dom m' = dom m.

(** [m'] is [m] with [e], which lay between [p] and [n], unlinked. *)
Definition unspliced m (p n e : A) m' : Prop :=
  (∀ c, nx m' c = if decide (c = e) then Some e
                  else if decide (c = p) then Some n else nx m c) ∧
  (∀ c, pv m' c = if decide (c = e) then Some e
                  else if decide (c = n) then Some p else pv m c) ∧
  (∀ c, c ≠ p → c ≠ n → c ≠ e → m' !! c = m !! c) ∧
  dom m' = dom m.

Ltac store_step :=
  first [ progress simplify_map_eq
        | rewrite lookup_insert; case_decide; simplify_eq ].

Ltac store_solve :=
  split_and!;
  [ intros c; unfold nx, pv; repeat case_decide; simplify_eq; repeat store_step; done
  | intros c; unfold nx, pv; repeat case_decide; simplify_eq; repeat store_step; done
  | intros c ???; repeat store_step; done
  | rewrite ?dom_insert_L;
    repeat match goal with H : _ !! _ = Some _ |- _ => apply elem_of_dom_2 in H end;
    set_solver ].

Lemma list_add_before_spliced m h e p :
  pv m h = Some p → is_Some (m !! p) → is_Some (m !! e) → e ≠ h → e ≠ p →
  ∃ m', list_add_before m h e = Ok m' ∧ spliced m p h e m'.
Proof.
  unfold pv. intros Hp [np Hnp] [ne He] Heh Hep.
  destruct (m !! h) as [nh|] eqn:Hh; simplify_eq/=.
  unfold list_add_before, list_add_before_ord, rd_prev, wr_prev, wr_next.
  rewrite Hh. simpl. rewrite He. simpl. simplify_map_eq.
  destruct (decide (h = prev nh)) as [Hhp|Hhp]; simplify_map_eq.
  all: eexists; (split; [done|]); unfold spliced; store_solve.
Qed.

Lemma list_add_after_spliced m h e n :
  nx m h = Some n → is_Some (m !! n) → is_Some (m !! e) → e ≠ h → e ≠ n →
  ∃ m', list_add_after m h e = Ok m' ∧ spliced m h n e m'.
Proof.
  unfold nx. intros Hp [np Hnp] [ne He] Heh Hep.
  destruct (m !! h) as [nh|] eqn:Hh; simplify_eq/=.
  unfold list_add_after, rd_next, wr_prev, wr_next.
  rewrite He. simpl. simplify_map_eq.
  destruct (decide (h = next nh)) as [Hhp|Hhp]; simplify_map_eq.
  all: eexists; (split; [done|]); unfold spliced; store_solve.
Qed.

Lemma list_delete_unspliced m e p n :
  pv m e = Some p → nx m e = Some n → is_Some (m !! p) → is_Some (m !! n) →
  ((p = e) ↔ (n = e)) →
  ∃ m', list_delete m e = Ok m' ∧ unspliced m p n e m'.
Proof.
  unfold nx, pv. intros Hp Hn [np Hnp] [nn Hnn] Heq.
  destruct (m !! e) as [ne|] eqn:He; simplify_eq/=.
  unfold list_delete, list_init, rd_next, rd_prev, wr_prev, wr_next.
  rewrite He. simpl. simplify_map_eq.
  destruct (decide (e = prev ne)) as [Hep|Hep].
  - assert (Hen : next ne = e) by (apply Heq; done).
    rewrite <-Hep, Hen in *. simplify_map_eq.
    eexists; (split; [done|]); unfold unspliced. store_solve.
  - assert (Hen : e ≠ next ne) by (intros Hne; apply Hep; symmetry; by apply Heq).
    simplify_map_eq.
    destruct (decide (next ne = prev ne)) as [Hpn|Hpn].
    + rewrite Hpn in *. simplify_map_eq.
      eexists; (split; [done|]); unfold unspliced. store_solve.
    + simplify_map_eq. eexists; (split; [done|]); unfold unspliced. store_solve.
Qed.

(** * Effect on rings *)

Lemma ring_spliced_last m h xs e m' :
  ring m h xs → e ∉ h :: xs → spliced m (last_or h xs) h e m' → ring m' h (xs ++ [e]).
Proof.
  intros [Hnd Hc] He (Hn & Hp & _).
  assert (Hnd' : NoDup (h :: xs ++ [e])).
  { change (NoDup ((h :: xs) ++ [e])). apply NoDup_app. split_and!; [done| |apply NoDup_singleton].
    set_solver. }
  split; [done|]. apply chain_app. unfold last_or in *.
  destruct xs as [|p xs] using rev_ind; simpl in *.
  - unfold link. rewrite !Hn, !Hp. repeat case_decide; simplify_eq; set_solver.
  - rewrite last_snoc in *. simpl in *. apply chain_app in Hc as [Hc1 _].
    apply NoDup_cons in Hnd as [Hh Hnd]. apply NoDup_app in Hnd as (_ & Hxp & _).
    split.
    + apply chain_app. split.
      * apply (chain_frame m); [| |done]; intros c Hin; rewrite ?Hn, ?Hp;
          repeat case_decide; subst; set_solver.
      * simpl. unfold link. rewrite Hn, Hp. repeat case_decide; subst; set_solver.
    + simpl. unfold link. rewrite Hn, Hp. repeat case_decide; subst; set_solver.
Qed.

Lemma ring_spliced_first m h xs e m' :
  ring m h xs → e ∉ h :: xs → spliced m h (first_or h xs) e m' → ring m' h (e :: xs).
Proof.
  intros [Hnd Hc] He (Hn & Hp & _).
  split; [apply NoDup_cons in Hnd; apply NoDup_cons; rewrite NoDup_cons; set_solver|].
  destruct xs as [|x xs]; simpl in *.
  - unfold link. rewrite !Hn, !Hp. repeat case_decide; simplify_eq; set_solver.
  - destruct Hc as [_ Hc]. apply NoDup_cons in Hnd as [Hh [Hx _]%NoDup_cons].
    unfold link, first_or in *. simpl in *. rewrite !Hn, !Hp. split_and!.
    1-4: repeat case_decide; subst; set_solver.
    apply (chain_frame m); [| |done]; intros c Hin; rewrite ?Hn, ?Hp;
      repeat case_decide; subst; set_solver.
Qed.

Lemma ring_unspliced m e y ys m' :
  ring m e (y :: ys) → unspliced m (last_or e (y :: ys)) y e m' →
  ring m' e [] ∧ ring m' y ys.
Proof.
  intros [Hnd Hc] (Hn & Hp & _). unfold last_or in *.
  apply NoDup_cons in Hnd as [He Hnd]. simpl in Hc. destruct Hc as [_ Hc].
  split.
  - split; [apply NoDup_singleton|]. simpl. unfold link. rewrite Hn, Hp.
    by rewrite !decide_True by done.
  - split; [done|]. apply NoDup_cons in Hnd as [Hy Hnd].
    destruct ys as [|p ys] using rev_ind; simpl in *.
    + unfold link. rewrite Hn, Hp. repeat case_decide; simplify_eq; set_solver.
    + change (y :: ys ++ [p]) with ((y :: ys) ++ [p]) in *. rewrite last_snoc in *. simpl in *.
      apply chain_app in Hc as [Hc1 _]. apply NoDup_app in Hnd as (_ & Hxp & _).
      apply chain_app. split.
      * apply (chain_frame m); [| |done]; intros c Hin; rewrite ?Hn, ?Hp;
          repeat case_decide; subst; set_solver.
      * simpl. unfold link. rewrite Hn, Hp. repeat case_decide; subst; set_solver.
Qed.

Lemma ring_pv m h xs : ring m h xs → pv m h = Some (last_or h xs).
Proof. intros [_ Hc]. by apply (chain_pv m h xs h). Qed.

Lemma ring_nx m h xs : ring m h xs → nx m h = Some (first_or h xs).
Proof. intros [_ Hc]. by apply (chain_nx m h xs h). Qed.

(** [list_add_before] appends to the sequence, [list_add_after] puts in front. *)
Lemma ring_add_before m h xs e :
  ring m h xs → e ∉ h :: xs → is_Some (m !! e) →
  ∃ m', list_add_before m h e = Ok m' ∧ ring m' h (xs ++ [e]) ∧
    spliced m (last_or h xs) h e m'.
Proof.
  intros Hr He Hs. pose proof (last_or_in h xs) as Hl.
  destruct (list_add_before_spliced m h e (last_or h xs)) as (m' & Hm' & Hsp).
  - by apply ring_pv.
  - by apply (ring_dom m h xs).
  - done.
  - set_solver.
  - intros ->. done.
  - exists m'. split_and!; [done|by apply (ring_spliced_last m)|done].
Qed.

Lemma ring_add_after m h xs e :
  ring m h xs → e ∉ h :: xs → is_Some (m !! e) →
  ∃ m', list_add_after m h e = Ok m' ∧ ring m' h (e :: xs) ∧
    spliced m h (first_or h xs) e m'.
Proof.
  intros Hr He Hs. pose proof (first_or_in h xs) as Hl.
  destruct (list_add_after_spliced m h e (first_or h xs)) as (m' & Hm' & Hsp).
  - by apply ring_nx.
  - by apply (ring_dom m h xs).
  - done.
  - set_solver.
  - intros ->. done.
  - exists m'. split_and!; [done|by apply (ring_spliced_first m)|done].
Qed.

(** [list_delete] takes the element out of the sequence and leaves it alone in
    a ring of its own. *)
Lemma ring_delete m h xs e ys :
  ring m h (xs ++ e :: ys) →
  ∃ m', list_delete m e = Ok m' ∧ ring m' h (xs ++ ys) ∧ ring m' e [] ∧
    (∀ c, c ∉ h :: xs ++ e :: ys → m' !! c = m !! c) ∧ dom m' = dom m.
Proof.
  intros Hr%ring_rotate.
  destruct (ys ++ h :: xs) as [|y zs] eqn:Hz; [by destruct ys|].
  pose proof (ring_nx m e _ Hr) as Hn. pose proof (ring_pv m e _ Hr) as Hp.
  pose proof (last_or_in y zs) as Hl. pose proof Hr as [[He _]%NoDup_cons _].
  assert (Hle : last_or e (y :: zs) = last_or y zs).
  { unfold last_or. destruct zs as [|z zs] using rev_ind; [done|].
    change (y :: zs ++ [z]) with ((y :: zs) ++ [z]). by rewrite !last_snoc. }
  destruct (list_delete_unspliced m e (last_or e (y :: zs)) y) as (m' & Hm' & Hun); [done..| | | |].
  - rewrite Hle. apply (ring_dom m e (y :: zs)); [done|set_solver].
  - apply (ring_dom m e (y :: zs)); [done|set_solver].
  - rewrite Hle. split; intros; subst; set_solver.
  - destruct (ring_unspliced m e y zs m' Hr Hun) as [He' Hy].
    destruct Hun as (_ & _ & Hfr & Hdom). exists m'. split_and!; [done| |done| |done].
    + destruct ys as [|y' ys]; simplify_eq/=; [by rewrite app_nil_r|].
      by apply ring_rotate.
    + intros c Hc.
      assert (Hc' : c ∉ e :: y :: zs) by (rewrite <-Hz; clear -Hc; set_solver).
      apply not_elem_of_cons in Hc' as [? Hc']. apply Hfr; [|set_solver|done].
      intros ->. by rewrite Hle in Hc'.
Qed.

(** Deleting a node that is alone in its ring changes nothing. *)
Lemma ring_delete_self m e : ring m e [] → list_delete m e = Ok m.
Proof.
  intros He%ring_nil. unfold list_delete, list_init, rd_next, rd_prev, wr_prev, wr_next.
  repeat (rewrite ?lookup_insert_eq, ?He; simpl). f_equal.
  rewrite !insert_insert_eq. by apply insert_id.
Qed.

Lemma ring_init m h : ring (list_init m h) h [].
Proof. apply ring_nil. unfold list_init. by rewrite lookup_insert_eq. Qed.

Lemma ring_list_empty m h xs : ring m h xs → list_empty m h = Ok (bool_decide (xs = [])).
Proof.
  intros Hr. pose proof (ring_nx m h _ Hr) as Hn%rd_next_Ok.
  pose proof (ring_pv m h _ Hr) as Hp%rd_prev_Ok. unfold list_empty.
  rewrite Hn, Hp. simpl. f_equal. destruct Hr as [[Hh _]%NoDup_cons _].
  pose proof (last_or_in h xs). unfold first_or, last_or in *.
  destruct xs as [|x xs]; [simpl; by rewrite !bool_decide_eq_true_2|].
  rewrite (bool_decide_eq_false_2 (x :: xs = [])) by done.
  destruct (last (x :: xs)) as [l|] eqn:El; [|by apply last_None in El].
  apply last_Some_elem_of in El. apply andb_false_intro2.
  apply bool_decide_eq_false. intros Hl. simpl in Hl. subst. done.
Qed.

(** Every node of a non-empty ring is non-empty in the sense of [list_empty];
    the loops [while(!list_empty(ls))] that walk a list rely on it. *)
Lemma ring_list_empty_elem m h xs x : ring m h xs → x ∈ xs → list_empty m x = Ok false.
Proof.
  intros Hr (l1 & l2 & ->)%list_elem_of_split.
  apply ring_rotate in Hr. rewrite (ring_list_empty m x _ Hr).
  by destruct l2.
Qed.

(** * Several rings *)

Definition rings m (R : gmap A (list A)) : Prop :=
  (∀ h xs, R !! h = Some xs → ring m h xs) ∧
  (∀ h1 xs1 h2 xs2 c, R !! h1 = Some xs1 → R !! h2 = Some xs2 →
     c ∈ h1 :: xs1 → c ∈ h2 :: xs2 → h1 = h2).

Definition in_rings (R : gmap A (list A)) (c : A) : Prop :=
  ∃ h xs, R !! h = Some xs ∧ c ∈ h :: xs.

#[global] Instance in_rings_dec R c : Decision (in_rings R c).
Proof.
  refine (cast_if (decide (Exists (λ p, c ∈ p.1 :: p.2) (map_to_list R))));
    [abstract by apply Exists_exists in e as ([h xs] & Hh%elem_of_map_to_list & Hc); exists h, xs|].
  abstract (intros (h & xs & Hh & Hc); apply n, Exists_exists; exists (h, xs);
    by rewrite elem_of_map_to_list).
Defined.

Definition ring_remove (e : A) (R : gmap A (list A)) : gmap A (list A) :=
  filter (λ x, x ≠ e) <$> R.

Lemma in_rings_remove e R c : in_rings (ring_remove e R) c → in_rings R c.
Proof.
  unfold in_rings, ring_remove. intros (h & xs & Hh & Hc).
  rewrite lookup_fmap in Hh. destruct (R !! h) as [ys|] eqn:E; simplify_eq/=.
  exists h, ys. split; [done|]. apply elem_of_cons in Hc as [->|Hc]; [set_solver|].
  apply list_elem_of_filter in Hc. set_solver.
Qed.

Lemma ring_remove_notin e R : ¬ in_rings R e → ring_remove e R = R.
Proof.
  intros Hn. apply map_eq. intros h. unfold ring_remove. rewrite lookup_fmap.
  destruct (R !! h) as [xs|] eqn:E; [|done]. simpl. f_equal.
  apply filter_ne_id. intros Hx. apply Hn. exists h, xs. split; [done|set_solver].
Qed.

Lemma rings_frame m m' R :
  (∀ c, in_rings R c → m' !! c = m !! c) → rings m R → rings m' R.
Proof.
  intros Hf [Hr Hd]. split; [|done]. intros h xs Hh. apply (ring_frame m); [|by apply Hr].
  intros c Hc. apply Hf. by exists h, xs.
Qed.

Lemma rings_insert_head m R h :
  rings m R → ¬ in_rings R h → rings (list_init m h) (<[h := []]> R).
Proof.
  intros [Hr Hd] Hh. split.
  - intros h' xs. rewrite lookup_insert. case_decide; intros; simplify_eq.
    + apply ring_init.
    + apply (ring_frame m); [|by apply Hr]. intros c Hc. unfold list_init.
      rewrite lookup_insert_ne; [done|]. intros ->. apply Hh. by exists h', xs.
  - intros h1 xs1 h2 xs2 c. rewrite !lookup_insert.
    repeat case_decide; intros; simplify_eq; [done| | |by eapply Hd].
    all: exfalso; apply Hh; match goal with H : _ ∈ [_] |- _ => apply list_elem_of_singleton in H end;
      subst; eexists _, _; done.
Qed.

Lemma rings_update m m' R h xs ys :
  rings m R → R !! h = Some xs → ring m' h ys →
  (∀ c, c ∈ ys → c ∈ xs ∨ ¬ in_rings R c) →
  (∀ h' zs c, R !! h' = Some zs → h' ≠ h → c ∈ h' :: zs → m' !! c = m !! c) →
  rings m' (<[h := ys]> R).
Proof.
  intros [Hr Hd] Hh Hy Hsub Hf. split.
  - intros h' zs. rewrite lookup_insert. case_decide; intros; simplify_eq; [done|].
    apply (ring_frame m); [|by apply Hr]. intros c Hc. by eapply Hf.
  - assert (Haux : ∀ h' zs c, R !! h' = Some zs → c ∈ h :: ys → c ∈ h' :: zs → h = h').
    { intros h' zs c Hz Hc1 Hc2. apply elem_of_cons in Hc1 as [->|Hc1].
      - eapply (Hd h xs h' zs h); [done..|set_solver|done].
      - destruct (Hsub c Hc1) as [Hx|Hx].
        + eapply (Hd h xs h' zs c); [done..|set_solver|done].
        + destruct Hx. by exists h', zs. }
    intros h1 xs1 h2 xs2 c. rewrite !lookup_insert.
    repeat case_decide; intros; simplify_eq; [done|by eapply Haux| |by eapply Hd].
    symmetry. by eapply Haux.
Qed.

(** What [list_add_before] does to a store of disjoint rings. *)
Lemma rings_add_before m R h xs e :
  rings m R → R !! h = Some xs → ¬ in_rings R e → is_Some (m !! e) →
  ∃ m', list_add_before m h e = Ok m' ∧ rings m' (<[h := xs ++ [e]]> R) ∧
    (∀ c, c ∉ h :: xs → c ≠ e → m' !! c = m !! c) ∧ dom m' = dom m.
Proof.
  intros HR Hh He Hs. pose proof (proj1 HR h xs Hh) as Hring.
  assert (He' : e ∉ h :: xs) by (intros Hin; apply He; by exists h, xs).
  destruct (ring_add_before m h xs e) as (m' & Hm' & Hr' & (_ & _ & Hfr & Hdom)); [done..|].
  pose proof (last_or_in h xs).
  assert (Hfr' : ∀ c, c ∉ h :: xs → c ≠ e → m' !! c = m !! c).
  { intros c Hc Hce. apply Hfr; [|set_solver|done]. by intros ->. }
  exists m'. split_and!; [done| |done|done].
  apply (rings_update m m' R h xs); [done..| |].
  - intros c Hc. apply elem_of_app in Hc as [Hc|Hc]; [by left|right].
    apply list_elem_of_singleton in Hc. by subst.
  - intros h' zs c Hz Hne Hc. apply Hfr'.
    + intros Hin. apply Hne. symmetry. by eapply (proj2 HR h xs h' zs c).
    + intros ->. apply He. by exists h', zs.
Qed.

Lemma rings_add_after m R h xs e :
  rings m R → R !! h = Some xs → ¬ in_rings R e → is_Some (m !! e) →
  ∃ m', list_add_after m h e = Ok m' ∧ rings m' (<[h := e :: xs]> R) ∧
    (∀ c, c ∉ h :: xs → c ≠ e → m' !! c = m !! c) ∧ dom m' = dom m.
Proof.
  intros HR Hh He Hs. pose proof (proj1 HR h xs Hh) as Hring.
  assert (He' : e ∉ h :: xs) by (intros Hin; apply He; by exists h, xs).
  destruct (ring_add_after m h xs e) as (m' & Hm' & Hr' & (_ & _ & Hfr & Hdom)); [done..|].
  pose proof (first_or_in h xs).
  assert (Hfr' : ∀ c, c ∉ h :: xs → c ≠ e → m' !! c = m !! c).
  { intros c Hc Hce. apply Hfr; [set_solver| |done]. by intros ->. }
  exists m'. split_and!; [done| |done|done].
  apply (rings_update m m' R h xs); [done..| |].
  - intros c Hc. apply elem_of_cons in Hc as [->|Hc]; [by right|by left].
  - intros h' zs c Hz Hne Hc. apply Hfr'.
    + intros Hin. apply Hne. symmetry. by eapply (proj2 HR h xs h' zs c).
    + intros ->. apply He. by exists h', zs.
Qed.

(** What [list_delete] does: the node leaves whatever list it was in, or
    nothing happens if it was in none. *)
Lemma rings_delete m R e :
  rings m R → R !! e = None → (in_rings R e ∨ ring m e []) →
  ∃ m', list_delete m e = Ok m' ∧ rings m' (ring_remove e R) ∧ ring m' e [] ∧
    ¬ in_rings (ring_remove e R) e ∧
    (∀ c, ¬ in_rings R c → c ≠ e → m' !! c = m !! c) ∧ dom m' = dom m.
Proof.
  intros HR Hhd Hcase.
  assert (Hni : ¬ in_rings (ring_remove e R) e).
  { intros (h & xs & Hh & Hin). unfold ring_remove in Hh. rewrite lookup_fmap in Hh.
    destruct (R !! h) as [ys|] eqn:E; simplify_eq/=.
    apply elem_of_cons in Hin as [->|Hin]; [congruence|].
    by apply list_elem_of_filter in Hin as [? _]. }
  destruct (decide (in_rings R e)) as [(h & xs & Hh & Hin)|Hne].
  - apply elem_of_cons in Hin as [->|Hin]; [congruence|].
    pose proof (proj1 HR h xs Hh) as Hring. pose proof Hring as [Hnd _].
    apply list_elem_of_split in Hin as (l1 & l2 & ->).
    destruct (ring_delete m h l1 e l2 Hring) as (m' & Hm' & Hr' & He' & Hfr & Hdom).
    assert (HRR : ring_remove e R = <[h := l1 ++ l2]> R).
    { apply map_eq. intros h'. unfold ring_remove. rewrite lookup_fmap, lookup_insert.
      case_decide as Hhh; [subst; rewrite Hh; simpl; f_equal; apply filter_ne_split;
        by apply NoDup_cons in Hnd as [_ ?]|].
      destruct (R !! h') as [zs|] eqn:E; [|done]. simpl. f_equal. apply filter_ne_id.
      intros Hz. apply Hhh. eapply (proj2 HR h _ h' zs e); [done|done|set_solver|set_solver]. }
    exists m'. split_and!; [done| |done|done| |done].
    + rewrite HRR. apply (rings_update m m' R h (l1 ++ e :: l2)); [done..| |].
      * intros c Hc. left. clear -Hc. set_solver.
      * intros h' zs c Hz Hne Hc. apply Hfr. intros Hin. apply Hne. symmetry.
        by eapply (proj2 HR h _ h' zs c).
    + intros c Hc _. apply Hfr. intros Hin. apply Hc. by exists h, (l1 ++ e :: l2).
  - destruct Hcase as [?|He]; [done|].
    exists m. rewrite ring_delete_self, ring_remove_notin by done. done.
Qed.

(** Reading along a ring. *)
Lemma ring_next_elem m h xs x ys :
  ring m h (xs ++ x :: ys) → list_next m x = Ok (first_or h ys).
Proof.
  intros [_ [_ Hc]%chain_app]. apply rd_next_Ok. by apply chain_nx in Hc.
Qed.

Lemma ring_next_head m h xs : ring m h xs → list_next m h = Ok (first_or h xs).
Proof. intros Hr. by apply rd_next_Ok, ring_nx. Qed.

Lemma ring_prev_head m h xs : ring m h xs → list_prev m h = Ok (last_or h xs).
Proof. intros Hr. by apply rd_prev_Ok, ring_pv. Qed.

(** * Refinement: programs over list.c against programs over sequences *)

Inductive lop := AddBefore (h e : A) | AddAfter (h e : A) | Delete (e : A).

(** The code. *)
Definition lop_run m (op : lop) : res (gmap A (lnode A)) :=
  match op with
  | AddBefore h e => list_add_before m h e
  | AddAfter h e => list_add m h e
  | Delete e => list_delete m e
  end.

Fixpoint lops_run m (ops : list lop) : res (gmap A (lnode A)) :=
  match ops with
  | [] => Ok m
  | op :: ops => let* m := lop_run m op in lops_run m ops
  end.

(** The abstract operations, on a map from sentinels to sequences; [D] is the
    set of live nodes. *)
Inductive lop_abs (D : gset A) (R : gmap A (list A)) : lop → gmap A (list A) → Prop :=
| abs_add_before h e xs :
    R !! h = Some xs → ¬ in_rings R e → e ∈ D →
    lop_abs D R (AddBefore h e) (<[h := xs ++ [e]]> R)
| abs_add_after h e xs :
    R !! h = Some xs → ¬ in_rings R e → e ∈ D →
    lop_abs D R (AddAfter h e) (<[h := e :: xs]> R)
| abs_delete e :
    R !! e = None → e ∈ D → lop_abs D R (Delete e) (ring_remove e R).

Inductive lops_abs (D : gset A) : gmap A (list A) → list lop → gmap A (list A) → Prop :=
| lops_abs_nil R : lops_abs D R [] R
| lops_abs_cons R R' R'' op ops :
    lop_abs D R op R' → lops_abs D R' ops R'' → lops_abs D R (op :: ops) R''.

(** The store represents [R], and every live node outside [R] is alone. *)
Definition lrep m (R : gmap A (list A)) : Prop :=
  rings m R ∧ ∀ e, e ∈ dom m → ¬ in_rings R e → ring m e [].

Lemma in_rings_insert R h xs ys c :
  R !! h = Some xs → (∀ x, x ∈ xs → x ∈ ys) → in_rings R c → in_rings (<[h := ys]> R) c.
Proof.
  intros Hh Hsub (h' & zs & Hz & Hc). destruct (decide (h = h')) as [->|Hne].
  - exists h', ys. rewrite lookup_insert_eq. split; [done|]. set_solver.
  - exists h', zs. by rewrite lookup_insert_ne.
Qed.

Lemma in_rings_head R h c : in_rings (<[h := []]> R) c → c = h ∨ in_rings R c.
Proof.
  intros (h' & xs & [[<- <-]|[_ Hx]]%lookup_insert_Some & Hc); [left; by apply list_elem_of_singleton in Hc|].
  right. by exists h', xs.
Qed.

Lemma lrep_insert m m' R h xs ys e :
  lrep m R → R !! h = Some xs → rings m' (<[h := ys]> R) → dom m' = dom m →
  (∀ c, c ∈ ys ↔ c = e ∨ c ∈ xs) →
  (∀ c, c ∉ h :: xs → c ≠ e → m' !! c = m !! c) → lrep m' (<[h := ys]> R).
Proof.
  intros [HR Hlone] Hh HR' Hdom Hys Hfr. split; [done|]. intros c Hc Hn.
  assert (Hn' : ¬ in_rings R c).
  { intros Hin. apply Hn, (in_rings_insert R h xs); [done| |done]. set_solver. }
  assert (Hne : c ≠ e).
  { intros ->. apply Hn. exists h, ys. rewrite lookup_insert_eq. set_solver. }
  apply (ring_frame m); [|apply Hlone; [by rewrite <-Hdom|done]].
  intros c' ->%list_elem_of_singleton. apply Hfr; [|done].
  intros Hin. apply Hn'. by exists h, xs.
Qed.

Lemma lop_run_abs m R op R' :
  lrep m R → lop_abs (dom m) R op R' →
  ∃ m', lop_run m op = Ok m' ∧ lrep m' R' ∧ dom m' = dom m.
Proof.
  intros Hrep Hop. pose proof Hrep as [HR Hlone]. destruct Hop as [h e xs|h e xs|e]; simpl.
  - destruct (rings_add_before m R h xs e) as (m' & ? & ? & ? & ?); [by try apply elem_of_dom..|].
    exists m'. split_and!; [done|eapply lrep_insert; [done..| |done]|done].
    set_solver.
  - destruct (rings_add_after m R h xs e) as (m' & ? & ? & ? & ?); [by try apply elem_of_dom..|].
    exists m'. split_and!; [done|eapply lrep_insert; [done..| |done]|done].
    set_solver.
  - assert (Hcase : in_rings R e ∨ ring m e []).
    { destruct (decide (in_rings R e)) as [?|?]; [by left|right; by apply Hlone]. }
    destruct (rings_delete m R e) as (m' & ? & ? & He & ? & Hfr & Hdom); [done..|].
    exists m'. split_and!; [done|split; [done|]|done]. intros c Hc Hn.
    destruct (decide (c = e)) as [->|Hce]; [done|].
    assert (Hn' : ¬ in_rings R c).
    { intros (h & xs & Hh & Hin). apply Hn. exists h, (filter (λ x, x ≠ e) xs).
      unfold ring_remove. rewrite lookup_fmap, Hh. split; [done|].
      apply elem_of_cons in Hin as [->|Hin]; [set_solver|].
      apply elem_of_cons. right. by apply list_elem_of_filter. }
    apply (ring_frame m); [|apply Hlone; [by rewrite <-Hdom|done]].
    intros c' ->%list_elem_of_singleton. by apply Hfr.
Qed.

(** C17. Any program of insertions and deletions run by list.c on a store that
    represents a family of disjoint sequences ends normally, without touching a
    dead node, in a store that represents what the same program does to the
    sequences. *)
Theorem lops_run_refines m R ops R' :
  lrep m R → lops_abs (dom m) R ops R' →
  ∃ m', lops_run m ops = Ok m' ∧ lrep m' R' ∧ dom m' = dom m.
Proof.
  intros Hrep Habs. remember (dom m) as D eqn:HD.
  revert m HD Hrep. induction Habs as [R|R R1 R2 op ops Hop _ IH]; intros m HD Hrep; simpl.
  - by exists m.
  - rewrite HD in Hop. destruct (lop_run_abs m R op R1 Hrep Hop) as (m1 & Hm1 & Hrep1 & Hd1).
    rewrite Hm1. simpl. apply IH; [congruence|done].
Qed.

(** Had a compiler stored [ls->prev] before evaluating the left operand of
    [ls->prev->next = ls->prev = elm], every [list_add_before] would leave the
    new node pointing to itself and the list without its new last element. *)
Theorem list_add_before_right_first_breaks m h xs e :
  ring m h xs → e ∉ h :: xs → is_Some (m !! e) →
  ∃ m', list_add_before_ord RightFirst m h e = Ok m' ∧
    list_next m' e = Ok e ∧ ¬ ring m' h (xs ++ [e]).
Proof.
  intros Hr He [ne Hne]. pose proof (ring_pv m h xs Hr) as Hp.
  assert (h ≠ e) by set_solver.
  unfold pv in Hp. destruct (m !! h) as [nh|] eqn:Hh; simplify_eq/=.
  unfold list_add_before_ord, rd_prev, wr_prev, wr_next. rewrite Hh. simpl. rewrite Hne. simpl.
  simplify_map_eq. eexists. split; [done|]. unfold list_next, rd_next. simplify_map_eq.
  split; [done|]. intros [_ [_ [Hn _]]%chain_app]. unfold nx in Hn. by simplify_map_eq.
Qed.

End list_c.

(** * Examples *)

Lemma rings_one {A} `{Countable A} (m : gmap A (lnode A)) h :
  ring m h [] → rings m {[h := []]}.
Proof.
  intros Hr. split.
  - intros h' xs [-> <-]%lookup_singleton_Some. done.
  - intros h1 xs1 h2 xs2 c [-> <-]%lookup_singleton_Some [-> <-]%lookup_singleton_Some. done.
Qed.

(** A store with an empty list at 0 and a detached node 1. *)
Definition ex_store : gmap nat (lnode nat) := list_init (list_init ∅ 0) 1.

Lemma ex_store_lrep : lrep ex_store {[0 := []]}.
Proof.
  split; [apply rings_one, ring_nil; reflexivity|].
  intros e He _. apply ring_nil. unfold ex_store, list_init in *.
  rewrite !dom_insert_L in He. assert (e = 0 ∨ e = 1) as [->| ->] by set_solver; reflexivity.
Qed.

Lemma lops_run_refines_witness :
  ∃ m', lops_run ex_store [AddBefore 0 1; Delete 1] = Ok m' ∧
    lrep m' {[0 := []]} ∧ dom m' = dom ex_store.
Proof.
  apply (lops_run_refines ex_store {[0 := []]}); [apply ex_store_lrep|].
  eapply lops_abs_cons; [apply (abs_add_before _ _ 0 1 [])|].
  - reflexivity.
  - intros (h & xs & [<- <-]%lookup_singleton_Some & Hc).
    by apply list_elem_of_singleton in Hc.
  - apply elem_of_dom. by eexists.
  - eapply lops_abs_cons; [apply abs_delete; [done|apply elem_of_dom; by eexists]|].
    apply lops_abs_nil.
Defined.

Lemma list_add_before_right_first_breaks_witness :
  ∃ m', list_add_before_ord RightFirst ex_store 0 1 = Ok m' ∧
    list_next m' 1 = Ok 1 ∧ ¬ ring m' 0 ([] ++ [1]).
Proof.
  apply list_add_before_right_first_breaks.
  - by apply ring_nil.
  - by intros ?%list_elem_of_singleton.
  - by eexists.
Defined.
