(* ===== verification/Links.v ===== *)
(** Where the [list_t] objects of libcask live: each one is a member of a
    struct, so its address is the kind of the member together with the identity
    of the struct.  [list_to_struct] (list.h) goes from the member back to the
    struct; on a pointer that is not such a member it has no meaning. *)

From stdpp Require Import base gmap list countable.
From S2P Require Import Prelude IntrusiveList.

Inductive lkind :=
| LDequeHead   (* deque_t.head *)
| LDequeNode   (* node_t.link of deque.c *)
| LRunList     (* run_queue_t.run_list *)
| LRunLink     (* task_t.run_link *)
| LMutexWait   (* co_mutex_t.wait_list *)
| LCondWait    (* co_cond_t.wait_list *)
| LSemWait     (* co_sem_t.wait_list *)
| LWheelSlot   (* time_wheel_t.wheel[i] *)
| LFdLink      (* inner_fd.link *)
| LMapHead     (* map_head_t.head *)
| LMapNode.    (* map_node_t.link *)

#[global] Instance lkind_eq_dec : EqDecision lkind.
Proof. solve_decision. Defined.

Definition lkind_code (k : lkind) : nat :=
  match k with
  | LDequeHead => 0 | LDequeNode => 1 | LRunList => 2 | LRunLink => 3 | LMutexWait => 4
  | LCondWait => 5 | LSemWait => 6 | LWheelSlot => 7 | LFdLink => 8 | LMapHead => 9
  | LMapNode => 10
  end.

Definition lkind_decode (n : nat) : option lkind :=
  match n with
  | 0 => Some LDequeHead | 1 => Some LDequeNode | 2 => Some LRunList | 3 => Some LRunLink
  | 4 => Some LMutexWait | 5 => Some LCondWait | 6 => Some LSemWait | 7 => Some LWheelSlot
  | 8 => Some LFdLink | 9 => Some LMapHead | 10 => Some LMapNode | _ => None
  end.

#[global] Instance lkind_countable : Countable lkind.
Proof. refine (inj_countable lkind_code lkind_decode _). by intros []. Defined.

Record laddr := LAddr { lk : lkind; lid : Z }.

#[global] Instance laddr_eq_dec : EqDecision laddr.
Proof. solve_decision. Defined.

#[global] Instance laddr_countable : Countable laddr.
Proof.
  refine (inj_countable' (λ a, (lk a, lid a)) (λ p, LAddr p.1 p.2) _). by intros [].
Defined.

(** The live [list_t] objects. *)
Abbreviation lmem := (gmap laddr (lnode laddr)).

(** [list_to_struct(ptr, type, mem)]. *)
Definition list_to_struct (k : lkind) (a : laddr) : res Z :=
  if decide (lk a = k) then Ok (lid a) else Undef.

Lemma list_to_struct_member (k : lkind) (i : Z) : list_to_struct k (LAddr k i) = Ok i.
Proof. unfold list_to_struct. by rewrite decide_True. Qed.

#[global] Instance LAddr_inj k : Inj (=) (=) (LAddr k).
Proof. by intros ?? [=]. Qed.

Lemma LAddr_notin k k' i (l : list Z) : k ≠ k' → LAddr k i ∉ LAddr k' <$> l.
Proof. intros Hk (j & [=] & _)%list_elem_of_fmap. congruence. Qed.

Lemma first_or_fmap k h (ns : list Z) :
  first_or h (LAddr k <$> ns) = match ns with [] => h | n :: _ => LAddr k n end.
Proof. by destruct ns. Qed.

Lemma last_or_snoc (h x : laddr) xs : last_or h (xs ++ [x]) = x.
Proof. unfold last_or. by rewrite last_snoc. Qed.

(** Allocating and freeing a node outside every list. *)
Lemma lrep_init (m : lmem) R e : lrep m R → ¬ in_rings R e → lrep (list_init m e) R.
Proof.
  intros [HR Hlone] He. split.
  - apply (rings_frame m); [|done]. intros c Hc. unfold list_init.
    rewrite lookup_insert_ne; [done|]. by intros ->.
  - intros c Hc Hn. destruct (decide (c = e)) as [->|Hne]; [apply ring_init|].
    unfold list_init in *. apply (ring_frame m).
    + intros c' ->%list_elem_of_singleton. by rewrite lookup_insert_ne.
    + apply Hlone; [|done]. rewrite dom_insert_L in Hc. set_solver.
Qed.

Lemma lrep_free (m : lmem) R e : lrep m R → ¬ in_rings R e → lrep (delete e m) R.
Proof.
  intros [HR Hlone] He. split.
  - apply (rings_frame m); [|done]. intros c Hc. rewrite lookup_delete_ne; [done|]. by intros ->.
  - intros c Hc Hn. rewrite dom_delete_L in Hc. apply (ring_frame m).
    + intros c' ->%list_elem_of_singleton. rewrite lookup_delete_ne; [done|]. set_solver.
    + apply Hlone; [set_solver|done].
Qed.

(** The three list operations on a represented store. *)
Lemma lrep_add_before (m : lmem) R h e xs :
  lrep m R → R !! h = Some xs → ¬ in_rings R e → is_Some (m !! e) →
  ∃ m', list_add_before m h e = Ok m' ∧ lrep m' (<[h := xs ++ [e]]> R) ∧ dom m' = dom m.
Proof.
  intros Hr Hh He Hs. apply (lop_run_abs m R (AddBefore h e)); [done|].
  apply abs_add_before; [done..|]. by apply elem_of_dom.
Qed.

Lemma lrep_add_after (m : lmem) R h e xs :
  lrep m R → R !! h = Some xs → ¬ in_rings R e → is_Some (m !! e) →
  ∃ m', list_add_after m h e = Ok m' ∧ lrep m' (<[h := e :: xs]> R) ∧ dom m' = dom m.
Proof.
  intros Hr Hh He Hs. apply (lop_run_abs m R (AddAfter h e)); [done|].
  apply abs_add_after; [done..|]. by apply elem_of_dom.
Qed.

Lemma lrep_delete (m : lmem) R e :
  lrep m R → R !! e = None → is_Some (m !! e) →
  ∃ m', list_delete m e = Ok m' ∧ lrep m' (ring_remove e R) ∧ dom m' = dom m ∧
    ¬ in_rings (ring_remove e R) e.
Proof.
  intros Hr Hh Hs. pose proof Hr as [HR Hlone].
  destruct (rings_delete m R e HR Hh) as (m' & Hd & _ & _ & Hni & _).
  { destruct (decide (in_rings R e)); [by left|right]. apply Hlone; [|done]. by apply elem_of_dom. }
  destruct (lop_run_abs m R (Delete e) (ring_remove e R) Hr) as (m2 & Hd2 & ? & ?).
  - apply abs_delete; [done|]. by apply elem_of_dom.
  - exists m2. done.
Qed.

#[export] Hint Resolve LAddr_notin : cask.
#[export] Hint Rewrite list_to_struct_member : cask.
