(* ===== verification/Deque.v ===== *)
(** deque.c with its queue.h and stack.h faces: a double-ended queue of
    [void*] over an intrusive list of malloc'ed nodes.

    The state is the links of the live nodes, the [elm] field of each node and
    the [size] field of the deque; a node is freed by removing it from both
    maps, so a use after free is [Undef].  [deque_refines] relates any program
    over a deque to the same program over a sequence. *)

From stdpp Require Import base gmap list fin_maps.
From S2P Require Import Prelude IntrusiveList Links.

(** [node_t.elm] for every live node, the links, and [deque_t] itself ([dq_id]
    names the deque object). *)
Record deque := Deque {
  dq_links : lmem;
  dq_elm : gmap Z ptr;
  dq_id : Z;
  dq_size : Z
}.

Definition dq_head (d : deque) : laddr := LAddr LDequeHead (dq_id d).
Definition node_link (n : Z) : laddr := LAddr LDequeNode n.

(** [malloc(sizeof(node_t))]: an address not in use. *)
Definition malloc_node (d : deque) : Z := fresh (dom (dq_elm d)).

Definition deque_init (d : deque) : deque :=
  Deque (list_init (dq_links d) (dq_head d)) (dq_elm d) (dq_id d) 0.

Definition deque_size (d : deque) : Z := dq_size d.
Definition deque_empty (d : deque) : bool := bool_decide (deque_size d = 0%Z).

Definition new_node (d : deque) (elm : ptr) : Z * deque :=
  let n := malloc_node d in
  (n, Deque (list_init (dq_links d) (node_link n)) (<[n := elm]> (dq_elm d))
        (dq_id d) (dq_size d)).

(** [list_delete(&n->link); free(n)]. *)
Definition delete_node (d : deque) (n : Z) : res deque :=
  let* m := list_delete (dq_links d) (node_link n) in
  Ok (Deque (delete (node_link n) m) (delete n (dq_elm d)) (dq_id d) (dq_size d)).

(** [d->size++] and [d->size--] on an [int]. *)
Definition size_add (d : deque) (k : Z) : res deque :=
  let s := (dq_size d + k)%Z in
  if decide (- 2 ^ 31 ≤ s ≤ INT_MAX)%Z
  then Ok (Deque (dq_links d) (dq_elm d) (dq_id d) s) else Undef.

Definition with_links (d : deque) (m : lmem) : deque :=
  Deque m (dq_elm d) (dq_id d) (dq_size d).

Definition deque_push_front (d : deque) (elm : ptr) : res deque :=
  let '(n, d) := new_node d elm in
  let* m := list_add_after (dq_links d) (dq_head d) (node_link n) in
  size_add (with_links d m) 1.

Definition deque_push_back (d : deque) (elm : ptr) : res deque :=
  let '(n, d) := new_node d elm in
  let* m := list_add_before (dq_links d) (dq_head d) (node_link n) in
  size_add (with_links d m) 1.

Definition deque_pop (d : deque) (op : Z) : res (ptr * deque) :=
  if deque_empty d then Ok (NULL, d) else
  let* l := if decide (op = 1%Z) then list_next (dq_links d) (dq_head d)
            else list_prev (dq_links d) (dq_head d) in
  let* m := list_delete (dq_links d) l in
  let* n := list_to_struct LDequeNode l in
  let* elm := deref (dq_elm d !! n) in
  let* d := delete_node (with_links d m) n in
  let* d := size_add d (-1) in
  Ok (elm, d).

Definition deque_pop_front (d : deque) : res (ptr * deque) := deque_pop d 1.
Definition deque_pop_back (d : deque) : res (ptr * deque) := deque_pop d 0.

(** [while(!deque_empty(d)) deque_pop_front(d)]. *)
Fixpoint deque_clear_loop (fuel : nat) (d : deque) : res deque :=
  if deque_empty d then Ok d else
  match fuel with
  | O => OutOfFuel
  | S fuel => let* r := deque_pop_front d in deque_clear_loop fuel r.2
  end.

Definition deque_clear (d : deque) : res deque :=
  deque_clear_loop (Z.to_nat (dq_size d)) d.

(** [do { deque_pop_back(d); } while(!deque_empty(d))]. *)
Fixpoint deque_destory_loop (fuel : nat) (d : deque) : res deque :=
  match fuel with
  | O => OutOfFuel
  | S fuel =>
      let* r := deque_pop_back d in
      if deque_empty r.2 then Ok r.2 else deque_destory_loop fuel r.2
  end.

Definition deque_destory (d : deque) : res deque :=
  deque_destory_loop (S (Z.to_nat (dq_size d))) d.

(** queue.h and stack.h rename the deque operations. *)
Definition queue_push := deque_push_back.
Definition queue_pop := deque_pop_front.
Definition stack_push := deque_push_back.
Definition stack_pop := deque_pop_back.

(** * Representation *)

Record deque_rep (d : deque) (ns : list Z) (xs : list ptr) : Prop := {
  rep_ring : ring (dq_links d) (dq_head d) (node_link <$> ns);
  rep_elm : Forall2 (λ n x, dq_elm d !! n = Some x) ns xs;
  rep_size : dq_size d = Z.of_nat (length xs);
  rep_bound : (Z.of_nat (length xs) ≤ INT_MAX)%Z
}.

Lemma malloc_node_fresh d : dq_elm d !! malloc_node d = None.
Proof. unfold malloc_node. apply not_elem_of_dom. apply is_fresh. Qed.

Lemma rep_nodes_live d ns xs n : deque_rep d ns xs → n ∈ ns → is_Some (dq_elm d !! n).
Proof.
  intros [_ He _ _] Hn. apply list_elem_of_lookup in Hn as [i Hi].
  destruct (Forall2_lookup_l _ _ _ _ _ He Hi) as (x & _ & Hx). eauto.
Qed.

Lemma rep_fresh d ns xs : deque_rep d ns xs → malloc_node d ∉ ns.
Proof.
  intros Hr Hn. destruct (rep_nodes_live _ _ _ _ Hr Hn) as [x Hx].
  by rewrite malloc_node_fresh in Hx.
Qed.

Lemma elms_frame (e e' : gmap Z ptr) ns xs :
  (∀ n, n ∈ ns → e' !! n = e !! n) →
  Forall2 (λ n x, e !! n = Some x) ns xs → Forall2 (λ n x, e' !! n = Some x) ns xs.
Proof.
  intros Hf H. induction H as [|n x ns xs Hn _ IH]; constructor.
  - rewrite Hf; [done|]. set_solver.
  - apply IH. intros k Hk. apply Hf. set_solver.
Qed.

Lemma ring_init_other (m : lmem) h xs a :
  a ∉ h :: xs → ring m h xs → ring (list_init m a) h xs.
Proof.
  intros Ha. apply ring_frame. intros c Hc. unfold list_init.
  rewrite lookup_insert_ne; [done|]. by intros ->.
Qed.

Lemma ring_delete_other (m : lmem) h xs a :
  a ∉ h :: xs → ring m h xs → ring (delete a m) h xs.
Proof.
  intros Ha. apply ring_frame. intros c Hc. rewrite lookup_delete_ne; [done|]. by intros ->.
Qed.

Lemma node_link_notin d n ns : n ∉ ns → node_link n ∉ dq_head d :: (node_link <$> ns).
Proof.
  intros Hn [?|(k & [=] & Hk)%list_elem_of_fmap]%elem_of_cons; [done|]. by subst.
Qed.

(** [new_node] keeps the contents and yields a detached node. *)
Lemma new_node_rep d ns xs elm n d' :
  deque_rep d ns xs → new_node d elm = (n, d') →
  ring (dq_links d') (dq_head d') (node_link <$> ns) ∧ (n ∉ ns) ∧
  is_Some (dq_links d' !! node_link n) ∧ dq_elm d' !! n = Some elm ∧
  Forall2 (λ n x, dq_elm d' !! n = Some x) ns xs ∧
  dq_size d' = Z.of_nat (length xs) ∧ dq_id d' = dq_id d.
Proof.
  intros Hr [= <- <-]. pose proof (rep_fresh _ _ _ Hr) as Hf. destruct Hr as [Hring Hel Hsz _].
  simpl. split_and!; [|done| | | |done|done].
  - apply ring_init_other; [by apply node_link_notin|done].
  - unfold list_init. rewrite lookup_insert_eq. eauto.
  - by rewrite lookup_insert_eq.
  - apply (elms_frame (dq_elm d)); [|done]. intros k Hk.
    rewrite lookup_insert_ne; [done|]. by intros <-.
Qed.

Lemma size_add_Ok d k :
  (- 2 ^ 31 ≤ dq_size d + k ≤ INT_MAX)%Z →
  size_add d k = Ok (Deque (dq_links d) (dq_elm d) (dq_id d) (dq_size d + k)).
Proof. intros. unfold size_add. by rewrite decide_True. Qed.

Lemma deque_push_back_rep d ns xs elm :
  deque_rep d ns xs → (Z.of_nat (length xs) < INT_MAX)%Z →
  ∃ d' n, deque_push_back d elm = Ok d' ∧ deque_rep d' (ns ++ [n]) (xs ++ [elm]) ∧ dq_id d' = dq_id d.
Proof.
  intros Hr Hlt. unfold deque_push_back. destruct (new_node d elm) as [n d1] eqn:En.
  destruct (new_node_rep _ _ _ _ _ _ Hr En) as (Hring & Hn & Hs & Hel & Hels & Hsz & Hid).
  destruct (ring_add_before _ _ _ (node_link n) Hring) as (m' & Hm' & Hr' & _);
    [by apply node_link_notin|done|].
  rewrite Hm'. simpl. rewrite size_add_Ok by (simpl; unfold INT_MAX in *; lia).
  eexists _, n. split; [done|]. split; [|done]. split; simpl.
  - by rewrite fmap_app.
  - apply Forall2_app; [done|]. by constructor.
  - rewrite length_app. simpl. lia.
  - rewrite length_app. simpl. lia.
Qed.

Lemma deque_push_front_rep d ns xs elm :
  deque_rep d ns xs → (Z.of_nat (length xs) < INT_MAX)%Z →
  ∃ d' n, deque_push_front d elm = Ok d' ∧ deque_rep d' (n :: ns) (elm :: xs) ∧ dq_id d' = dq_id d.
Proof.
  intros Hr Hlt. unfold deque_push_front. destruct (new_node d elm) as [n d1] eqn:En.
  destruct (new_node_rep _ _ _ _ _ _ Hr En) as (Hring & Hn & Hs & Hel & Hels & Hsz & Hid).
  destruct (ring_add_after _ _ _ (node_link n) Hring) as (m' & Hm' & Hr' & _);
    [by apply node_link_notin|done|].
  rewrite Hm'. simpl. rewrite size_add_Ok by (simpl; unfold INT_MAX in *; lia).
  eexists _, n. split; [done|]. split; [|done]. split; simpl; [done|by constructor|lia|lia].
Qed.

(** Unlinking and freeing one node of the deque. *)
Lemma pop_node_rep d ns1 n ns2 xs1 x xs2 :
  deque_rep d (ns1 ++ n :: ns2) (xs1 ++ x :: xs2) → length ns1 = length xs1 →
  ∃ m d', list_delete (dq_links d) (node_link n) = Ok m ∧
    dq_elm d !! n = Some x ∧
    delete_node (with_links d m) n = Ok d' ∧
    size_add d' (-1) = Ok (Deque (dq_links d') (dq_elm d') (dq_id d') (dq_size d - 1)) ∧
    deque_rep (Deque (dq_links d') (dq_elm d') (dq_id d') (dq_size d - 1))
      (ns1 ++ ns2) (xs1 ++ xs2) ∧ dq_id d' = dq_id d.
Proof.
  intros [Hring Hel Hsz Hbd] Hlen. rewrite fmap_app in Hring. simpl in Hring.
  destruct (ring_delete _ _ _ _ _ Hring) as (m & Hm & Hr & Hself & _ & _).
  apply Forall2_app_inv in Hel as [Hel1 Hel2]; [|done].
  inversion_clear Hel2 as [|???? Hx Hel3].
  assert (Hn : n ∉ ns1 ++ ns2).
  { destruct Hring as [[_ Hnd]%NoDup_cons _].
    intros Hin. apply NoDup_app in Hnd as (_ & Hd1 & [Hd2 _]%NoDup_cons).
    apply elem_of_app in Hin as [Hin|Hin].
    - apply (Hd1 (node_link n)); [by apply list_elem_of_fmap_2|set_solver].
    - apply Hd2. by apply list_elem_of_fmap_2. }
  exists m, (Deque (delete (node_link n) m) (delete n (dq_elm d)) (dq_id d) (dq_size d)).
  split_and!; [done|done| | |split; simpl|done].
  - unfold delete_node. simpl. by rewrite (ring_delete_self _ _ Hself).
  - rewrite length_app in *. simpl in *. rewrite size_add_Ok; [done|]. simpl. lia.
  - rewrite fmap_app. apply ring_delete_other; [|done]. rewrite <-fmap_app. by apply node_link_notin.
  - apply Forall2_app; (eapply elms_frame; [|done]); intros k Hk;
      rewrite lookup_delete_ne; try done; intros ->; apply Hn; set_solver.
  - rewrite length_app in *. simpl in *. lia.
  - rewrite length_app in *. simpl in *. lia.
Qed.

Lemma deque_empty_rep d ns xs : deque_rep d ns xs → deque_empty d = bool_decide (xs = []).
Proof.
  intros [_ _ Hsz _]. unfold deque_empty, deque_size. rewrite Hsz.
  apply bool_decide_ext. destruct xs; simpl; split; intros; first [done|lia].
Qed.

Lemma deque_pop_empty d ns op : deque_rep d ns [] → deque_pop d op = Ok (NULL, d).
Proof. intros Hr. unfold deque_pop. by rewrite (deque_empty_rep _ _ _ Hr). Qed.

(** The common part of both pops: [l] is the node at the chosen end. *)
Lemma deque_pop_node d ns1 n ns2 xs1 x xs2 op :
  deque_rep d (ns1 ++ n :: ns2) (xs1 ++ x :: xs2) → length ns1 = length xs1 →
  (if decide (op = 1%Z) then list_next (dq_links d) (dq_head d)
   else list_prev (dq_links d) (dq_head d)) = Ok (node_link n) →
  ∃ d', deque_pop d op = Ok (x, d') ∧ deque_rep d' (ns1 ++ ns2) (xs1 ++ xs2) ∧ dq_id d' = dq_id d.
Proof.
  intros Hr Hlen Hl. unfold deque_pop. rewrite (deque_empty_rep _ _ _ Hr).
  rewrite bool_decide_eq_false_2 by (by destruct xs1). rewrite Hl. simpl.
  destruct (pop_node_rep _ _ _ _ _ _ _ Hr Hlen) as (m & d' & -> & Hx & Hd & Hs & Hr' & Hid).
  cbn [res_bind]. rewrite Hx. cbn [res_bind deref]. rewrite Hd. cbn [res_bind]. rewrite Hs. simpl.
  eexists. by split.
Qed.

Lemma deque_pop_front_rep d ns x xs :
  deque_rep d ns (x :: xs) →
  ∃ d' ns', deque_pop_front d = Ok (x, d') ∧ deque_rep d' ns' xs ∧ dq_id d' = dq_id d.
Proof.
  intros Hr. destruct ns as [|n ns]; [by destruct Hr as [_ Hel _ _]; inversion Hel|].
  destruct (deque_pop_node d [] n ns [] x xs 1 Hr) as (d' & ? & ? & ?); [done| |by exists d', ns].
  simpl. by rewrite (ring_next_head _ _ _ (rep_ring _ _ _ Hr)).
Qed.

Lemma deque_pop_back_rep d ns x xs :
  deque_rep d ns (xs ++ [x]) →
  ∃ d' ns', deque_pop_back d = Ok (x, d') ∧ deque_rep d' ns' xs ∧ dq_id d' = dq_id d.
Proof.
  intros Hr. pose proof (rep_elm _ _ _ Hr) as Hel.
  apply Forall2_app_inv_r in Hel as (ns1 & ns2 & Hel1 & Hel2 & ->).
  apply Forall2_cons_inv_r in Hel2 as (n & ns3 & Hn & ->%Forall2_nil_inv_r & ->).
  destruct (deque_pop_node d ns1 n [] xs x [] 0 Hr) as (d' & ? & ? & ?).
  - by apply Forall2_length in Hel1.
  - simpl. rewrite (ring_prev_head _ _ _ (rep_ring _ _ _ Hr)).
    rewrite fmap_app. exact (f_equal Ok (last_or_snoc _ _ _)).
  - rewrite !app_nil_r in *. by exists d', ns1.
Qed.

Lemma deque_clear_loop_rep fuel d ns xs :
  deque_rep d ns xs → length xs ≤ fuel →
  ∃ d', deque_clear_loop fuel d = Ok d' ∧ deque_rep d' [] [] ∧ dq_id d' = dq_id d.
Proof.
  revert d ns xs. induction fuel as [|fuel IH]; intros d ns xs Hr Hlen; simpl;
    rewrite (deque_empty_rep _ _ _ Hr).
  - destruct xs; [|simpl in Hlen; lia]. destruct ns; [by exists d|].
    destruct Hr as [_ Hel _ _]. inversion Hel.
  - destruct xs as [|x xs].
    + destruct ns; [by exists d|]. destruct Hr as [_ Hel _ _]. inversion Hel.
    + rewrite bool_decide_eq_false_2 by done.
      destruct (deque_pop_front_rep _ _ _ _ Hr) as (d' & ns' & -> & Hr' & Hid). simpl.
      destruct (IH d' ns' xs Hr') as (d'' & ? & ? & ?); [simpl in Hlen; lia|].
      exists d''. split_and!; [done|done|congruence].
Qed.

Lemma deque_clear_rep d ns xs :
  deque_rep d ns xs →
  ∃ d', deque_clear d = Ok d' ∧ deque_rep d' [] [] ∧ dq_id d' = dq_id d.
Proof.
  intros Hr. apply (deque_clear_loop_rep _ _ ns xs); [done|]. rewrite (rep_size _ _ _ Hr). lia.
Qed.

Lemma deque_destory_loop_rep fuel d ns xs :
  deque_rep d ns xs → length xs ≤ S fuel →
  ∃ d' ns', deque_destory_loop (S fuel) d = Ok d' ∧ deque_rep d' ns' [] ∧ dq_id d' = dq_id d.
Proof.
  revert d ns xs. induction fuel as [|fuel IH]; intros d ns xs Hr Hlen;
    destruct xs as [|x xs] using rev_ind.
  1,3: simpl; unfold deque_pop_back; rewrite (deque_pop_empty _ _ _ Hr); simpl;
       rewrite (deque_empty_rep _ _ _ Hr); by eexists _, _.
  all: rewrite length_app in Hlen; simpl in Hlen;
       destruct (deque_pop_back_rep _ _ _ _ Hr) as (d' & ns' & Hp & Hr' & Hid);
       cbn [deque_destory_loop]; rewrite Hp; cbn [res_bind snd];
       rewrite (deque_empty_rep _ _ _ Hr').
  - destruct xs; [|simpl in Hlen; lia]. by eexists _, _.
  - case_bool_decide as Hx; [subst; by eexists _, _|].
    destruct (IH d' ns' xs Hr') as (d'' & ns'' & ? & ? & ?); [lia|].
    exists d'', ns''. split_and!; [done|done|congruence].
Qed.

(** * Refinement *)

Inductive dq_op := PushFront (e : ptr) | PushBack (e : ptr) | PopFront | PopBack | Clear.

(** The code: result of the call ([None] for [void]) and the new state. *)
Definition dq_run (d : deque) (op : dq_op) : res (option ptr * deque) :=
  match op with
  | PushFront e => let* d := deque_push_front d e in Ok (None, d)
  | PushBack e => let* d := deque_push_back d e in Ok (None, d)
  | PopFront => let* r := deque_pop_front d in Ok (Some r.1, r.2)
  | PopBack => let* r := deque_pop_back d in Ok (Some r.1, r.2)
  | Clear => let* d := deque_clear d in Ok (None, d)
  end.

Fixpoint dq_exec (d : deque) (ops : list dq_op) : res (list (option ptr) * deque) :=
  match ops with
  | [] => Ok ([], d)
  | op :: ops =>
      let* r := dq_run d op in
      let* q := dq_exec r.2 ops in
      Ok (r.1 :: q.1, q.2)
  end.

(** The abstract double-ended queue. *)
Definition seq_run (xs : list ptr) (op : dq_op) : option ptr * list ptr :=
  match op with
  | PushFront e => (None, e :: xs)
  | PushBack e => (None, xs ++ [e])
  | PopFront => (Some (default NULL (head xs)), tail xs)
  | PopBack => (Some (default NULL (last xs)), removelast xs)
  | Clear => (None, [])
  end.

Fixpoint seq_exec (xs : list ptr) (ops : list dq_op) : list (option ptr) * list ptr :=
  match ops with
  | [] => ([], xs)
  | op :: ops =>
      let r := seq_run xs op in
      let q := seq_exec r.2 ops in
      (r.1 :: q.1, q.2)
  end.

Lemma dq_run_refines d ns xs op :
  deque_rep d ns xs → (Z.of_nat (length xs) < INT_MAX)%Z →
  ∃ d' ns', dq_run d op = Ok ((seq_run xs op).1, d') ∧ deque_rep d' ns' (seq_run xs op).2.
Proof.
  intros Hr Hlt. destruct op as [e|e| | |]; simpl.
  - destruct (deque_push_front_rep _ _ _ e Hr Hlt) as (d' & n & -> & ? & _). by eexists _, _.
  - destruct (deque_push_back_rep _ _ _ e Hr Hlt) as (d' & n & -> & ? & _). by eexists _, _.
  - destruct xs as [|x xs]; simpl.
    + unfold deque_pop_front. rewrite (deque_pop_empty _ _ _ Hr). by eexists _, _.
    + destruct (deque_pop_front_rep _ _ _ _ Hr) as (d' & ns' & -> & ? & _). by eexists _, _.
  - destruct xs as [|x xs] using rev_ind; simpl.
    + unfold deque_pop_back. rewrite (deque_pop_empty _ _ _ Hr). by eexists _, _.
    + destruct (deque_pop_back_rep _ _ _ _ Hr) as (d' & ns' & -> & ? & _).
      rewrite last_snoc, removelast_last. by eexists _, _.
  - destruct (deque_clear_rep _ _ _ Hr) as (d' & -> & ? & _). by eexists _, _.
Qed.

Lemma dq_exec_refines d ns xs ops :
  deque_rep d ns xs → (Z.of_nat (length xs + length ops) ≤ INT_MAX)%Z →
  ∃ d' ns', dq_exec d ops = Ok ((seq_exec xs ops).1, d') ∧
    deque_rep d' ns' (seq_exec xs ops).2.
Proof.
  revert d ns xs. induction ops as [|op ops IH]; intros d ns xs Hr Hlen; simpl in *.
  - by eexists _, _.
  - destruct (dq_run_refines d ns xs op Hr) as (d1 & ns1 & -> & Hr1); [lia|]. simpl.
    destruct (IH d1 ns1 _ Hr1) as (d2 & ns2 & -> & Hr2); [|by eexists _, _].
    assert (length (seq_run xs op).2 ≤ S (length xs)); [|lia].
    destruct op; simpl; rewrite ?length_app; simpl; try lia.
    + destruct xs; simpl; lia.
    + destruct xs using rev_ind; [simpl; lia|].
      rewrite removelast_last, length_app. lia.
Qed.

(** [n] calls of a push or pop function in a row. *)
Fixpoint push_all (push : deque → ptr → res deque) (d : deque) (es : list ptr) : res deque :=
  match es with
  | [] => Ok d
  | e :: es => let* d := push d e in push_all push d es
  end.

Fixpoint pop_all (pop : deque → res (ptr * deque)) (n : nat) (d : deque)
    : res (list ptr * deque) :=
  match n with
  | O => Ok ([], d)
  | S n => let* r := pop d in let* q := pop_all pop n r.2 in Ok (r.1 :: q.1, q.2)
  end.

Lemma push_all_rep d ns xs es :
  deque_rep d ns xs → (Z.of_nat (length xs + length es) ≤ INT_MAX)%Z →
  ∃ d' ns', push_all deque_push_back d es = Ok d' ∧ deque_rep d' ns' (xs ++ es).
Proof.
  revert d ns xs. induction es as [|e es IH]; intros d ns xs Hr Hlen; simpl in *.
  - rewrite app_nil_r. by eexists _, _.
  - destruct (deque_push_back_rep _ _ _ e Hr) as (d1 & n & -> & Hr1 & _); [lia|]. simpl.
    destruct (IH _ _ _ Hr1) as (d2 & ns2 & -> & Hr2).
    + rewrite length_app. simpl. lia.
    + rewrite <-app_assoc in Hr2. by eexists _, _.
Qed.

Lemma pop_all_front_rep d ns es :
  deque_rep d ns es →
  ∃ d' ns', pop_all deque_pop_front (length es) d = Ok (es, d') ∧ deque_rep d' ns' [].
Proof.
  revert d ns. induction es as [|e es IH]; intros d ns Hr; simpl; [by eexists _, _|].
  destruct (deque_pop_front_rep _ _ _ _ Hr) as (d1 & ns1 & -> & Hr1 & _). simpl.
  destruct (IH _ _ Hr1) as (d2 & ns2 & -> & Hr2). by eexists _, _.
Qed.

Lemma pop_all_back_rep d ns es :
  deque_rep d ns es →
  ∃ d' ns', pop_all deque_pop_back (length es) d = Ok (reverse es, d') ∧ deque_rep d' ns' [].
Proof.
  revert d ns. induction es as [|e es IH] using rev_ind; intros d ns Hr; [by eexists _, _|].
  rewrite length_app, Nat.add_comm. cbn [length Nat.add pop_all].
  destruct (deque_pop_back_rep _ _ _ _ Hr) as (d1 & ns1 & -> & Hr1 & _). cbn [res_bind fst snd].
  destruct (IH _ _ Hr1) as (d2 & ns2 & -> & Hr2). simpl. rewrite reverse_snoc. by eexists _, _.
Qed.

(** C23. Every program of pushes, pops and clears, run on the linked nodes of
    deque.c, returns the values and leaves the contents that the same program
    has on a plain sequence, as long as the element count fits an [int]; no
    freed node is ever touched. *)
Theorem deque_refines d ns xs ops :
  deque_rep d ns xs → (Z.of_nat (length xs + length ops) ≤ INT_MAX)%Z →
  ∃ d' ns', dq_exec d ops = Ok ((seq_exec xs ops).1, d') ∧
    deque_rep d' ns' (seq_exec xs ops).2.
Proof. apply dq_exec_refines. Qed.

(** queue.h is first in, first out, and stack.h last in, first out: popping
    as many elements as were pushed on an empty deque returns them in push
    order, respectively in reverse order, and ends with the empty deque. *)
Theorem queue_fifo_stack_lifo d es :
  deque_rep d [] [] → (Z.of_nat (length es) ≤ INT_MAX)%Z →
  (∃ d1 d2 ns, push_all queue_push d es = Ok d1 ∧
     pop_all queue_pop (length es) d1 = Ok (es, d2) ∧ deque_rep d2 ns []) ∧
  (∃ d1 d2 ns, push_all stack_push d es = Ok d1 ∧
     pop_all stack_pop (length es) d1 = Ok (reverse es, d2) ∧ deque_rep d2 ns []).
Proof.
  intros Hr Hlen. destruct (push_all_rep _ _ _ es Hr) as (d1 & ns & Hp & Hr1); [done|].
  split; exists d1.
  - destruct (pop_all_front_rep _ _ _ Hr1) as (d2 & ns2 & ? & ?). by exists d2, ns2.
  - destruct (pop_all_back_rep _ _ _ Hr1) as (d2 & ns2 & ? & ?). by exists d2, ns2.
Qed.

(** * Examples *)

(** A fresh deque object. *)
Definition ex_deque : deque := deque_init (Deque ∅ ∅ 1 77).

Lemma deque_init_rep d : deque_rep (deque_init d) [] [].
Proof.
  split; simpl; [apply ring_init|constructor|done|]. unfold INT_MAX. lia.
Qed.

Lemma deque_refines_witness :
  ∃ d' ns', dq_exec ex_deque [PushBack 5; PushFront 7; PopBack]%Z =
    Ok ((seq_exec [] [PushBack 5; PushFront 7; PopBack]%Z).1, d') ∧
    deque_rep d' ns' (seq_exec [] [PushBack 5; PushFront 7; PopBack]%Z).2.
Proof. apply (deque_refines ex_deque [] []); [apply deque_init_rep|done]. Defined.

Lemma queue_fifo_stack_lifo_witness :
  (∃ d1 d2 ns, push_all queue_push ex_deque [5; 7]%Z = Ok d1 ∧
     pop_all queue_pop 2 d1 = Ok ([5; 7]%Z, d2) ∧ deque_rep d2 ns []) ∧
  (∃ d1 d2 ns, push_all stack_push ex_deque [5; 7]%Z = Ok d1 ∧
     pop_all stack_pop 2 d1 = Ok ([7; 5]%Z, d2) ∧ deque_rep d2 ns []).
Proof. apply (queue_fifo_stack_lifo ex_deque [5; 7]%Z); [apply deque_init_rep|done]. Defined.
