(* ===== verification/Array.v ===== *)
(** array.c: a growable vector of [void*].

    [array_t] keeps its three fields; the cells of an allocation are [option],
    [None] being a cell malloc left uninitialised.  A read of such a cell or an
    access outside the allocation is [Undef].  [size_t] arithmetic wraps at 64
    bits.  An [array_t *] argument that the code tests against NULL is an
    [option]. *)

From Stdlib Require Import ZArith Lia.
From stdpp Require Import base numbers list.
From S2P Require Import Prelude IntrusiveList.
Open Scope Z_scope.

Record array_t := Arr {
  a_vector : option (list (option ptr));
  a_size : Z;
  a_capcity : Z
}.

Definition MIN_ARRAY_CAPCITY : Z := 256.

Definition with_vector (a : array_t) (v : list (option ptr)) : array_t :=
  Arr (Some v) (a_size a) (a_capcity a).

(** [array->vector[i]] as an rvalue and as an lvalue. *)
Definition rd_cell (v : option (list (option ptr))) (i : Z) : res ptr :=
  let* v := deref v in
  if decide (0 ≤ i) then let* c := deref (v !! Z.to_nat i) in deref c else Undef.
Definition wr_cell (v : option (list (option ptr))) (i : Z) (e : ptr)
    : res (list (option ptr)) :=
  let* v := deref v in
  if decide (0 ≤ i < Z.of_nat (length v)) then Ok (<[Z.to_nat i := Some e]> v) else Undef.

(** [malloc(sizeof(void * ) * n)]; the product is a [size_t]. *)
Definition malloc_cells (n : Z) : list (option ptr) :=
  replicate (Z.to_nat (u64 (8 * n) `div` 8)) None.

Definition array_init (array : option array_t) : Z * option array_t :=
  match array with
  | None => (-1, None)
  | Some _ => (0, Some (Arr None 0 0))
  end.

Definition array_destory (a : array_t) : array_t := Arr None 0 0.

Definition copy_cell (ta : option (list (option ptr))) (i : Z) (v : list (option ptr))
    : res (list (option ptr)) :=
  let* e := rd_cell ta i in wr_cell (Some v) i e.

Definition realloc_array (array : option array_t) : res (Z * option array_t) :=
  match array with
  | None => Ok (-1, None)
  | Some a =>
      match a_vector a with
      | None =>
          let cap := if decide (a_capcity a = 0) then MIN_ARRAY_CAPCITY else a_capcity a in
          Ok (0, Some (Arr (Some (malloc_cells cap)) 0 cap))
      | Some ta =>
          let cap := u64 (Z.shiftl (a_capcity a) 1) in
          (* the loop counter is an int *)
          if decide (a_size a ≤ INT_MAX) then
            let* v := for_up (Z.to_nat (a_size a)) 0 (copy_cell (Some ta)) (malloc_cells cap) in
            Ok (0, Some (Arr (Some v) (a_size a) cap))
          else Undef
      end
  end.

Definition array_size (a : array_t) : Z := a_size a.

(** [vector[loc + 1] = vector[loc]]. *)
Definition shift_cell (loc : Z) (v : list (option ptr)) : res (list (option ptr)) :=
  let* e := rd_cell (Some v) loc in wr_cell (Some v) (loc + 1) e.

Definition array_insert (array : option array_t) (idx : Z) (elm : ptr)
    : res (Z * option array_t) :=
  match array with
  | None => Ok (-1, None)
  | Some a =>
      if decide (a_size a < idx) then Ok (-1, Some a) else
      let* a :=
        (if decide (a_vector a = None ∨ a_capcity a ≤ a_size a)
         then let* r := realloc_array (Some a) in deref r.2 else Ok a) in
      let* v := deref (a_vector a) in
      let* v := for_up (Z.to_nat (a_size a - idx)) idx shift_cell v in
      let* v := wr_cell (Some v) idx elm in
      Ok (0, Some (Arr (Some v) (u64 (a_size a + 1)) (a_capcity a)))
  end.

Definition array_put (array : option array_t) (idx : Z) (elm : ptr)
    : res (Z * option array_t) :=
  match array with
  | None => Ok (-1, None)
  | Some a =>
      if decide (¬ idx < array_size a) then Ok (-1, Some a) else
      let* v := wr_cell (a_vector a) idx elm in
      Ok (0, Some (with_vector a v))
  end.

Definition array_get (array : option array_t) (idx : Z) : res ptr :=
  match array with
  | None => Ok NULL
  | Some a => if decide (a_size a ≤ idx) then Ok NULL else rd_cell (a_vector a) idx
  end.

(** [vector[idx] = vector[++idx]]: the left operand uses [idx] and the right
    one changes it, unsequenced. *)
Definition del_cell (o : eval_order) (idx : Z) (v : list (option ptr))
    : res (list (option ptr)) :=
  let* e := rd_cell (Some v) (idx + 1) in
  wr_cell (Some v) (match o with LeftFirst => idx | RightFirst => idx + 1 end) e.

Definition array_del_ord (o : eval_order) (array : option array_t) (idx : Z)
    : res (ptr * option array_t) :=
  match array with
  | None => Ok (NULL, None)
  | Some a =>
      if decide (a_size a ≤ idx) then Ok (NULL, Some a) else
      let* elm := rd_cell (a_vector a) idx in
      let* v := deref (a_vector a) in
      let* v := for_up (Z.to_nat (a_size a - 1 - idx)) idx (del_cell o) v in
      Ok (elm, Some (Arr (Some v) (u64 (a_size a - 1)) (a_capcity a)))
  end.

Definition array_del (array : option array_t) (idx : Z) : res (ptr * option array_t) :=
  array_del_ord LeftFirst array idx.

(** * Representation *)

(** The vector holds [l] in its first [size] cells and has [capcity] cells; it
    is either unallocated and empty or has a capacity. The bound keeps every
    counter below its width. *)
Record array_rep (a : array_t) (l : list ptr) : Prop := {
  ar_size : a_size a = Z.of_nat (length l);
  ar_cells : match a_vector a with
             | None => l = [] ∧ a_capcity a = 0
             | Some v => Z.of_nat (length v) = a_capcity a ∧ 0 < a_capcity a ∧
                         (length l ≤ length v)%nat ∧
                         (∀ i x, l !! i = Some x → v !! i = Some (Some x))
             end;
  ar_bound : a_capcity a < 2 ^ 32
}.

Lemma rd_cell_Ok v (i : nat) x :
  v !! i = Some (Some x) → rd_cell (Some v) (Z.of_nat i) = Ok x.
Proof.
  intros Hx. unfold rd_cell. simpl. rewrite decide_True by lia.
  by rewrite Nat2Z.id, Hx.
Qed.

Lemma wr_cell_Ok v (i : nat) e :
  (i < length v)%nat → wr_cell (Some v) (Z.of_nat i) e = Ok (<[i := Some e]> v).
Proof.
  intros Hi. unfold wr_cell. simpl. rewrite decide_True by lia. by rewrite Nat2Z.id.
Qed.

Lemma length_malloc_cells n : 0 ≤ n < 2 ^ 60 → Z.of_nat (length (malloc_cells n)) = n.
Proof.
  intros Hn. unfold malloc_cells. rewrite length_replicate, u64_small by lia.
  rewrite Z.mul_comm, Z.div_mul by lia. lia.
Qed.

(** The copy loop of [realloc_array]. *)
Lemma copy_loop ta v l :
  (length l ≤ length v)%nat → (∀ i x, l !! i = Some x → ta !! i = Some (Some x)) →
  ∃ v', for_up (length l) 0 (copy_cell (Some ta)) v = Ok v' ∧ length v' = length v ∧
    (∀ i x, l !! i = Some x → v' !! i = Some (Some x)).
Proof.
  intros Hlen Hta.
  destruct (for_up_inv (λ k v', length v' = length v ∧
    ∀ i x, Z.of_nat i < k → l !! i = Some x → v' !! i = Some (Some x))
    (copy_cell (Some ta)) (length l) 0 v) as (v' & Hv' & Hl' & HP).
  - split; [done|]. lia.
  - intros k v1 Hk [Hl1 HP]. destruct (lookup_lt_is_Some_2 l (Z.to_nat k)) as [x Hx]; [lia|].
    unfold copy_cell. replace k with (Z.of_nat (Z.to_nat k)) by lia.
    rewrite (rd_cell_Ok _ _ x) by auto. simpl. rewrite wr_cell_Ok by lia.
    eexists. split; [done|]. rewrite length_insert. split; [done|].
    intros i y Hi Hy. destruct (decide (i = Z.to_nat k)) as [->|Hne].
    + rewrite list_lookup_insert_eq by lia. congruence.
    + rewrite list_lookup_insert_ne by done. apply HP; [lia|done].
  - exists v'. split_and!; [done..|]. intros i x Hx. apply HP; [|done].
    apply lookup_lt_Some in Hx. lia.
Qed.

Lemma realloc_array_rep a l :
  array_rep a l → Z.of_nat (length l) < 2 ^ 31 →
  (a_vector a = None ∨ a_capcity a ≤ a_size a) →
  ∃ a' v, realloc_array (Some a) = Ok (0, Some a') ∧ array_rep a' l ∧
    a_vector a' = Some v ∧ (length l < length v)%nat.
Proof.
  intros [Hs Hc Hb] Hl Hcase. unfold realloc_array. destruct (a_vector a) as [ta|] eqn:Hv.
  - destruct Hcase as [?|Hcap]; [done|]. destruct Hc as (Hlen & Hpos & Hll & Hcells).
    rewrite Z.shiftl_mul_pow2 by lia. change (2 ^ 1) with 2. rewrite u64_small by lia.
    rewrite decide_True by (unfold INT_MAX; lia). rewrite Hs, Nat2Z.id.
    pose proof (length_malloc_cells (a_capcity a * 2)) as Hmc.
    destruct (copy_loop ta (malloc_cells (a_capcity a * 2)) l) as (v' & -> & Hl' & Hv'); [lia|done|].
    simpl. eexists _, v'. split; [done|]. split; [|split; [done|lia]].
    split; simpl; [done| |lia]. split_and!; [lia|lia|lia|done].
  - destruct Hc as [-> Hc]. rewrite decide_True by done.
    pose proof (length_malloc_cells MIN_ARRAY_CAPCITY) as Hmc. unfold MIN_ARRAY_CAPCITY in *.
    eexists _, _. split; [done|]. split; [|split; [done|simpl; lia]].
    split; simpl; [done| |lia]. split_and!; [lia|lia|lia|done].
Qed.

(** The loop of [array_insert] copies the cell at [idx] over every later one. *)
Lemma shift_loop v (idx n : nat) x :
  (idx + n < length v)%nat → v !! idx = Some (Some x) →
  ∃ v', for_up n (Z.of_nat idx) shift_cell v = Ok v' ∧ length v' = length v ∧
    ∀ j, v' !! j = if decide (idx ≤ j ≤ idx + n)%nat then Some (Some x) else v !! j.
Proof.
  intros Hlen Hx.
  destruct (for_up_inv (λ k v', length v' = length v ∧ ∀ j, v' !! j =
    if decide (Z.of_nat idx ≤ Z.of_nat j ≤ k) then Some (Some x) else v !! j)
    shift_cell n (Z.of_nat idx) v) as (v' & Hv' & Hl' & HP).
  - split; [done|]. intros j. case_decide; [|done].
    replace j with idx by lia. done.
  - intros k v1 Hk [Hl1 HP]. unfold shift_cell.
    replace k with (Z.of_nat (Z.to_nat k)) by lia.
    rewrite (rd_cell_Ok _ _ x) by (rewrite HP, decide_True by lia; done). simpl.
    replace (Z.of_nat (Z.to_nat k) + 1) with (Z.of_nat (S (Z.to_nat k))) by lia.
    rewrite wr_cell_Ok by lia. eexists. split; [done|]. rewrite length_insert. split; [done|].
    intros j. destruct (decide (j = S (Z.to_nat k))) as [->|Hne].
    + rewrite list_lookup_insert_eq by lia. by rewrite decide_True by lia.
    + rewrite list_lookup_insert_ne by done. rewrite HP. repeat case_decide; try done; lia.
  - exists v'. split_and!; [done..|]. intros j. rewrite HP.
    repeat case_decide; try done; lia.
Qed.

(** What [array_insert] leaves in the vector. *)
Definition inserted (l : list ptr) (idx : nat) (e : ptr) : list ptr :=
  take idx l ++ e :: match l !! idx with
                     | Some x => replicate (length l - idx) x
                     | None => []
                     end.

Lemma length_inserted l idx e :
  (idx ≤ length l)%nat → length (inserted l idx e) = S (length l).
Proof.
  intros Hi. unfold inserted. rewrite length_app, length_take. simpl.
  destruct (l !! idx) eqn:E; simpl.
  - rewrite length_replicate. lia.
  - apply lookup_ge_None in E. lia.
Qed.

Lemma lookup_inserted l idx e i x :
  (idx ≤ length l)%nat → inserted l idx e !! i = Some x →
  (i < idx)%nat ∧ l !! i = Some x ∨ i = idx ∧ x = e ∨
  (idx < i ≤ length l)%nat ∧ l !! idx = Some x.
Proof.
  intros Hi. unfold inserted. intros Hx.
  destruct (decide (i < idx)%nat) as [Hlt|Hge].
  - left. rewrite lookup_app_l in Hx by (rewrite length_take; lia).
    rewrite lookup_take_lt in Hx by done. done.
  - right. rewrite lookup_app_r in Hx by (rewrite length_take; lia).
    rewrite length_take, Nat.min_l in Hx by lia.
    destruct (i - idx)%nat as [|k] eqn:Ek; simpl in Hx.
    + left. split; [lia|congruence].
    + right. destruct (l !! idx) as [y|] eqn:E; [|done].
      apply lookup_replicate in Hx as [-> ?]. split; [lia|done].
Qed.

Lemma insert_cells a l v v' (idx : nat) e :
  array_rep a l → a_vector a = Some v → (idx ≤ length l < length v)%nat →
  (∀ j, v' !! j = if decide (idx ≤ j ≤ length l ∧ idx ≠ length l)%nat
                  then v !! idx else v !! j) →
  length v' = length v →
  array_rep (Arr (Some (<[idx := Some e]> v')) (a_size a + 1) (a_capcity a)) (inserted l idx e).
Proof.
  intros [Hs Hc Hb] Hv Hidx Hv' Hl'. rewrite Hv in Hc. destruct Hc as (Hlen & Hpos & Hll & Hcells).
  split; simpl.
  - rewrite length_inserted by lia. lia.
  - rewrite length_insert, length_inserted by lia. split_and!; [lia|lia|lia|].
    intros i x [(Hi & Hx)|[[-> ->]|(Hi & Hx)]]%lookup_inserted; [| | |lia].
    + rewrite list_lookup_insert_ne, Hv', decide_False by lia. auto.
    + by rewrite list_lookup_insert_eq by lia.
    + rewrite list_lookup_insert_ne, Hv', decide_True by lia. auto.
  - done.
Qed.

Lemma array_insert_rep a l (idx : nat) e :
  array_rep a l → Z.of_nat (length l) < 2 ^ 31 → (idx ≤ length l)%nat →
  ∃ a', array_insert (Some a) (Z.of_nat idx) e = Ok (0, Some a') ∧
    array_rep a' (inserted l idx e).
Proof.
  intros Hr Hl Hidx. unfold array_insert.
  rewrite decide_False by (rewrite (ar_size _ _ Hr); lia).
  assert (∃ a1 v, (if decide (a_vector a = None ∨ a_capcity a ≤ a_size a)
    then let* r := realloc_array (Some a) in deref r.2 else Ok a) = Ok a1 ∧
    array_rep a1 l ∧ a_vector a1 = Some v ∧ (length l < length v)%nat) as (a1 & v & -> & Hr1 & Hv & Hlt).
  { case_decide as Hd.
    - destruct (realloc_array_rep a l Hr Hl Hd) as (a1 & v & -> & ?). by exists a1, v.
    - destruct (a_vector a) as [v|] eqn:Hv; [|naive_solver]. exists a, v. split_and!; [done..|].
      destruct Hr as [Hs Hc _]. rewrite Hv in Hc. naive_solver lia. }
  simpl. rewrite Hv. simpl. rewrite (ar_size _ _ Hr1).
  replace (Z.to_nat (Z.of_nat (length l) - Z.of_nat idx)) with (length l - idx)%nat by lia.
  assert (∃ v', for_up (length l - idx) (Z.of_nat idx) shift_cell v = Ok v' ∧ length v' = length v ∧
    ∀ j, v' !! j = if decide (idx ≤ j ≤ length l ∧ idx ≠ length l)%nat then v !! idx else v !! j)
    as (v' & -> & Hl' & Hv').
  { destruct (decide (idx = length l)) as [->|Hne].
    - rewrite Nat.sub_diag. exists v. split_and!; [done..|]. intros j.
      by rewrite decide_False by lia.
    - destruct (lookup_lt_is_Some_2 l idx) as [x Hx]; [lia|].
      pose proof (ar_cells _ _ Hr1) as Hc. rewrite Hv in Hc. destruct Hc as (_ & _ & _ & Hc).
      destruct (shift_loop v idx (length l - idx) x) as (v' & ? & ? & HP); [lia|auto|].
      exists v'. split_and!; [done..|]. intros j. rewrite HP, (Hc idx x Hx).
      repeat case_decide; try done; lia. }
  simpl. rewrite wr_cell_Ok by lia. simpl. eexists. split; [done|].
  replace (u64 (Z.of_nat (length l) + 1)) with (a_size a1 + 1)
    by (rewrite (ar_size _ _ Hr1), u64_small; lia).
  apply (insert_cells a1 l v); [done..|lia|done|done].
Qed.

Lemma array_get_rep a l (i : nat) :
  array_rep a l → array_get (Some a) (Z.of_nat i) = Ok (default NULL (l !! i)).
Proof.
  intros [Hs Hc _]. unfold array_get. case_decide as Hi.
  - rewrite lookup_ge_None_2 by lia. done.
  - destruct (lookup_lt_is_Some_2 l i) as [x Hx]; [lia|]. rewrite Hx. simpl.
    destruct (a_vector a) as [v|]; [apply rd_cell_Ok; naive_solver|].
    destruct Hc as [-> _]. done.
Qed.

Lemma array_put_rep a l (i : nat) e :
  array_rep a l → (i < length l)%nat →
  ∃ a', array_put (Some a) (Z.of_nat i) e = Ok (0, Some a') ∧ array_rep a' (<[i := e]> l).
Proof.
  intros [Hs Hc Hb] Hi. unfold array_put, array_size. rewrite decide_False by lia.
  destruct (a_vector a) as [v|] eqn:Hv; [|by destruct Hc as [-> _]; simpl in Hi; lia].
  destruct Hc as (Hlen & Hpos & Hll & Hcells). rewrite wr_cell_Ok by lia. simpl.
  eexists. split; [done|]. split; simpl; [by rewrite length_insert| |done].
  rewrite !length_insert. split_and!; [lia|lia|lia|].
  intros j x Hx. destruct (decide (i = j)) as [->|Hne].
  - rewrite list_lookup_insert_eq in Hx by lia. rewrite list_lookup_insert_eq by lia. congruence.
  - rewrite list_lookup_insert_ne in Hx by done. rewrite list_lookup_insert_ne by done. auto.
Qed.

Lemma array_put_out a l (i : nat) e :
  array_rep a l → (length l ≤ i)%nat → array_put (Some a) (Z.of_nat i) e = Ok (-1, Some a).
Proof.
  intros [Hs _ _] Hi. unfold array_put, array_size. by rewrite decide_True by lia.
Qed.

(** The loop of [array_del], left operand first. *)
Lemma del_loop v (idx n : nat) l :
  (idx + n < length l)%nat → (∀ i x, l !! i = Some x → v !! i = Some (Some x)) →
  (length l ≤ length v)%nat →
  ∃ v', for_up n (Z.of_nat idx) (del_cell LeftFirst) v = Ok v' ∧ length v' = length v ∧
    ∀ j, v' !! j = if decide (idx ≤ j < idx + n)%nat then v !! S j else v !! j.
Proof.
  intros Hlen Hcells Hll.
  destruct (for_up_inv (λ k v', length v' = length v ∧ ∀ j, v' !! j =
    if decide (Z.of_nat idx ≤ Z.of_nat j < k) then v !! S j else v !! j)
    (del_cell LeftFirst) n (Z.of_nat idx) v) as (v' & Hv' & Hl' & HP).
  - split; [done|]. intros j. by rewrite decide_False by lia.
  - intros k v1 Hk [Hl1 HP]. unfold del_cell.
    destruct (lookup_lt_is_Some_2 l (S (Z.to_nat k))) as [x Hx]; [lia|].
    replace (k + 1) with (Z.of_nat (S (Z.to_nat k))) by lia.
    rewrite (rd_cell_Ok _ _ x) by (rewrite HP, decide_False by lia; auto). simpl.
    assert (wr_cell (Some v1) k x = Ok (<[Z.to_nat k := Some x]> v1)) as ->
      by (rewrite <-(wr_cell_Ok v1 (Z.to_nat k) x) by lia; f_equal; lia).
    eexists. split; [done|]. rewrite length_insert. split; [done|].
    intros j. destruct (decide (j = Z.to_nat k)) as [->|Hne].
    + rewrite list_lookup_insert_eq by lia. rewrite decide_True by lia. symmetry. auto.
    + rewrite list_lookup_insert_ne by done. rewrite HP. repeat case_decide; try done; lia.
  - exists v'. split_and!; [done..|]. intros j. rewrite HP.
    repeat case_decide; try done; lia.
Qed.

Lemma array_del_rep a l (idx : nat) x :
  array_rep a l → l !! idx = Some x →
  ∃ a', array_del (Some a) (Z.of_nat idx) = Ok (x, Some a') ∧ array_rep a' (delete idx l).
Proof.
  intros [Hs Hc Hb] Hx. pose proof (lookup_lt_Some _ _ _ Hx) as Hi.
  unfold array_del, array_del_ord. rewrite decide_False by lia.
  destruct (a_vector a) as [v|] eqn:Hv; [|by destruct Hc as [-> _]].
  destruct Hc as (Hlen & Hpos & Hll & Hcells).
  rewrite (rd_cell_Ok _ _ x) by auto. simpl.
  replace (Z.to_nat (a_size a - 1 - Z.of_nat idx)) with (length l - 1 - idx)%nat by lia.
  destruct (del_loop v idx (length l - 1 - idx) l) as (v' & -> & Hl' & HP); [lia|done|done|].
  simpl. rewrite u64_small by lia. eexists. split; [done|]. split; simpl; [| |done].
  - rewrite length_delete by eauto. lia.
  - rewrite length_delete by eauto. split_and!; [lia|lia|lia|].
    intros j y Hy. rewrite HP. pose proof (lookup_lt_Some _ _ _ Hy) as Hj.
    rewrite length_delete in Hj by eauto. destruct (decide (j < idx)%nat) as [Hji|Hji].
    + rewrite decide_False by lia. rewrite list_lookup_delete_lt in Hy by done. auto.
    + rewrite decide_True by lia. rewrite list_lookup_delete_ge in Hy by lia. auto.
Qed.

Lemma del_loop_right_first v (idx n : nat) l :
  (idx + n < length l)%nat → (∀ i x, l !! i = Some x → v !! i = Some (Some x)) →
  (length l ≤ length v)%nat →
  for_up n (Z.of_nat idx) (del_cell RightFirst) v = Ok v.
Proof.
  intros Hlen Hcells Hll.
  destruct (for_up_inv (λ _ v', v' = v) (del_cell RightFirst) n (Z.of_nat idx) v)
    as (v' & Hv' & ->); [done| |done].
  intros k v1 Hk ->. unfold del_cell.
  destruct (lookup_lt_is_Some_2 l (S (Z.to_nat k))) as [x Hx]; [lia|].
  replace (k + 1) with (Z.of_nat (S (Z.to_nat k))) by lia.
  rewrite (rd_cell_Ok _ _ x) by auto. simpl.
  rewrite wr_cell_Ok by lia. eexists. split; [done|]. apply list_insert_id. auto.
Qed.

Lemma array_del_right_first_rep a l (idx : nat) x :
  array_rep a l → l !! idx = Some x →
  ∃ a', array_del_ord RightFirst (Some a) (Z.of_nat idx) = Ok (x, Some a') ∧
    array_rep a' (take (length l - 1) l).
Proof.
  intros [Hs Hc Hb] Hx. pose proof (lookup_lt_Some _ _ _ Hx) as Hi.
  unfold array_del_ord. rewrite decide_False by lia.
  destruct (a_vector a) as [v|] eqn:Hv; [|by destruct Hc as [-> _]].
  destruct Hc as (Hlen & Hpos & Hll & Hcells).
  rewrite (rd_cell_Ok _ _ x) by auto. simpl.
  replace (Z.to_nat (a_size a - 1 - Z.of_nat idx)) with (length l - 1 - idx)%nat by lia.
  rewrite (del_loop_right_first v idx (length l - 1 - idx) l) by (try done; lia).
  simpl. rewrite u64_small by lia. eexists. split; [done|].
  split; simpl; [rewrite length_take; lia| |done].
  rewrite length_take. split_and!; [lia|lia|lia|].
  intros j y Hy. pose proof (lookup_lt_Some _ _ _ Hy) as Hj. rewrite length_take in Hj.
  rewrite lookup_take_lt in Hy by lia. auto.
Qed.

(** Removing the last element runs no iteration of the loop, so the order of
    evaluation does not matter. *)
Lemma array_del_last_ord o a l x :
  array_rep a (l ++ [x]) →
  ∃ a', array_del_ord o (Some a) (Z.of_nat (length l)) = Ok (x, Some a') ∧ array_rep a' l.
Proof.
  intros Hr. destruct (array_del_rep a (l ++ [x]) (length l) x Hr) as (a' & Hd & Hr').
  - by rewrite lookup_app_r, Nat.sub_diag by lia.
  - exists a'. rewrite delete_middle, app_nil_r in Hr'. split; [|done]. rewrite <-Hd.
    unfold array_del, array_del_ord. rewrite (ar_size _ _ Hr), length_app. simpl.
    by replace (Z.to_nat (Z.of_nat (length l + 1) - 1 - Z.of_nat (length l))) with 0%nat by lia.
Qed.

(** * Properties *)

(** Appending with [array_insert] at [size], as every caller in the library
    does, grows the vector when needed, keeps all elements and adds the new one
    at the end; the vector stays well formed and no cell outside the allocation
    is touched. *)
Theorem array_append a l e :
  array_rep a l → Z.of_nat (length l) < 2 ^ 31 →
  ∃ a', array_insert (Some a) (array_size a) e = Ok (0, Some a') ∧ array_rep a' (l ++ [e]).
Proof.
  intros Hr Hl. destruct (array_insert_rep a l (length l) e Hr Hl) as (a' & Hi & Hr'); [lia|].
  exists a'. unfold array_size. rewrite (ar_size _ _ Hr). split; [done|].
  unfold inserted in Hr'. by rewrite firstn_all, lookup_ge_None_2 in Hr' by lia.
Qed.

(** [array_insert] before the last element does not shift: its loop runs
    upwards, so every element after [idx] is overwritten by the one at [idx].
    Two different elements after the insertion point are enough to lose data. *)
Theorem array_insert_clobbers a l (idx : nat) e x y :
  array_rep a l → Z.of_nat (length l) < 2 ^ 31 →
  l !! idx = Some x → l !! S idx = Some y → x ≠ y →
  ∃ a', array_insert (Some a) (Z.of_nat idx) e = Ok (0, Some a') ∧
    array_rep a' (take idx l ++ e :: replicate (length l - idx) x) ∧
    ¬ array_rep a' (take idx l ++ e :: drop idx l).
Proof.
  intros Hr Hl Hx Hy Hne. pose proof (lookup_lt_Some _ _ _ Hx) as Hi.
  destruct (array_insert_rep a l idx e Hr Hl) as (a' & Ha & Hr'); [lia|].
  exists a'. unfold inserted in Hr'. rewrite Hx in Hr'. split_and!; [done..|].
  intros Hr2.
  assert (Hlook : ∀ l1 l2 i, array_rep a' l1 → array_rep a' l2 →
    default NULL (l1 !! i) = default NULL (l2 !! i)).
  { intros l1 l2 i H1 H2. pose proof (array_get_rep _ _ i H1) as E.
    rewrite (array_get_rep _ _ i H2) in E. by injection E. }
  specialize (Hlook _ _ (idx + 2)%nat Hr' Hr2).
  rewrite !lookup_app_r in Hlook by (rewrite length_take; lia).
  rewrite !length_take, !Nat.min_l in Hlook by lia.
  pose proof (lookup_lt_Some _ _ _ Hy).
  replace (idx + 2 - idx)%nat with 2%nat in Hlook by lia. simpl in Hlook.
  rewrite lookup_replicate_2 in Hlook by lia. rewrite lookup_drop in Hlook.
  replace (idx + 1)%nat with (S idx) in Hlook by lia. by rewrite Hy in Hlook.
Qed.

(** [array_del] with gcc's order of evaluation removes exactly the element
    at [idx], returns it and keeps the others in order; with the other order C
    allows for [vector[idx] = vector[++idx]] the same element is returned but
    the last one is dropped instead. *)
Theorem array_del_removes a l (idx : nat) x :
  array_rep a l → l !! idx = Some x →
  (∃ a', array_del (Some a) (Z.of_nat idx) = Ok (x, Some a') ∧
    array_rep a' (take idx l ++ drop (S idx) l)) ∧
  (∃ a', array_del_ord RightFirst (Some a) (Z.of_nat idx) = Ok (x, Some a') ∧
    array_rep a' (take (length l - 1) l)).
Proof.
  intros Hr Hx. split; [|by apply array_del_right_first_rep].
  rewrite <-delete_take_drop. by apply array_del_rep.
Qed.

(** * Examples *)

Definition ex_array (l : list ptr) : array_t :=
  Arr (Some ((Some <$> l) ++ replicate 4 None)) (Z.of_nat (length l)) (Z.of_nat (length l) + 4).

Lemma ex_array_rep l : Z.of_nat (length l) < 2 ^ 31 → array_rep (ex_array l) l.
Proof.
  intros Hl. split; simpl; [done| |lia]. rewrite length_app, length_fmap. simpl.
  split_and!; [lia|lia|lia|]. intros i x Hx.
  rewrite lookup_app_l by (rewrite length_fmap; by apply lookup_lt_Some in Hx).
  by rewrite list_lookup_fmap, Hx.
Qed.

Lemma array_append_witness :
  ∃ a', array_insert (Some (Arr None 0 0)) (array_size (Arr None 0 0)) 9 = Ok (0, Some a') ∧
    array_rep a' ([] ++ [9]).
Proof. apply array_append; [by split|done]. Defined.

Lemma array_insert_clobbers_witness :
  ∃ a', array_insert (Some (ex_array [1; 2; 3])) (Z.of_nat 0) 9 = Ok (0, Some a') ∧
    array_rep a' (take 0 [1; 2; 3] ++ 9 :: replicate (length [1; 2; 3] - 0) 1) ∧
    ¬ array_rep a' (take 0 [1; 2; 3] ++ 9 :: drop 0 [1; 2; 3]).
Proof.
  by apply (array_insert_clobbers (ex_array [1; 2; 3]) [1; 2; 3] 0 9 1 2); [apply ex_array_rep|..].
Defined.

Lemma array_del_removes_witness :
  (∃ a', array_del (Some (ex_array [1; 2; 3])) (Z.of_nat 0) = Ok (1, Some a') ∧
    array_rep a' (take 0 [1; 2; 3] ++ drop 1 [1; 2; 3])) ∧
  (∃ a', array_del_ord RightFirst (Some (ex_array [1; 2; 3])) (Z.of_nat 0) = Ok (1, Some a') ∧
    array_rep a' (take (length [1; 2; 3] - 1) [1; 2; 3])).
Proof. by apply (array_del_removes (ex_array [1; 2; 3]) [1; 2; 3] 0 1); [apply ex_array_rep|]. Defined.
