(* ===== verification/Heap.v ===== *)
(** heap.c: a binary heap over array.c with a user comparison, where
    [cmp(a, b) != 0] says that [a] belongs nearer to the root.

    [int] and [size_t] are kept apart: indices are [int]s that become [size_t]
    when they reach array.c, and [parent(heap_size(hp) - 1)] is a [size_t]
    expression that wraps on the empty heap.  The heap invariant is stated for
    any preorder the comparison agrees with ([HeapOrder]). *)

From Stdlib Require Import ZArith Lia Sorted.
From stdpp Require Import base numbers sets list sorting.
From S2P Require Import Prelude IntrusiveList Array.
Open Scope Z_scope.

Definition comp_t : Type := ptr → ptr → Z.

Record heap_t := Heap { h_array : array_t; h_cmp : comp_t }.

Definition _default_cmp : comp_t := λ first second, if decide (first > second) then 0 else 1.

Definition heap_init (comp : option comp_t) : heap_t :=
  Heap (default (Arr None 0 0) (array_init (Some (Arr None 0 0))).2)
       (match comp with Some c => c | None => _default_cmp end).

(** The fields of the object afterwards. *)
Definition heap_destory (hp : heap_t) : array_t * option comp_t := (array_destory (h_array hp), None).

Definition heap_size (hp : heap_t) : Z := array_size (h_array hp).
Definition heap_empty (hp : heap_t) : bool := bool_decide (heap_size hp = 0).

(** An [int] expression whose value must be representable. *)
Definition c_int (z : Z) : res Z := if decide (- 2 ^ 31 ≤ z ≤ INT_MAX) then Ok z else Undef.

(** [int x = parent(heap_size(hp) - 1)], all in [size_t] up to the conversion. *)
Definition parent_last (hp : heap_t) : Z :=
  let n := u64 (heap_size hp - 1) in
  s32 (if decide (n ≤ 0) then 0 else Z.shiftr (u64 (n - 1)) 1).

Definition left_child (idx : Z) : res Z := c_int (Z.shiftl idx 1 + 1).
Definition right_child (idx : Z) : res Z := c_int (Z.shiftl idx 1 + 2).

Definition heap_get (hp : heap_t) (idx : Z) : res ptr := array_get (Some (h_array hp)) (u64 idx).
Definition heap_put (hp : heap_t) (idx : Z) (elm : ptr) : res heap_t :=
  let* r := array_put (Some (h_array hp)) (u64 idx) elm in
  let* a := deref r.2 in Ok (Heap a (h_cmp hp)).

Definition swap (h : heap_t) (l r : Z) : res heap_t :=
  let* tmp := heap_get h l in
  let* x := heap_get h r in
  let* h := heap_put h l x in
  heap_put h r tmp.

(** One branch of [heapify]: [if(c > 0 && cmp(get(c), get(max))) max = c]. *)
Definition better (hp : heap_t) (c max : Z) : res Z :=
  if decide (c > 0) then
    let* x := heap_get hp c in
    let* y := heap_get hp max in
    Ok (if decide (h_cmp hp x y = 0) then max else c)
  else Ok max.

Definition heapify (hp : heap_t) (root : Z) : res (Z * heap_t) :=
  let size := s32 (heap_size hp) in
  if decide (¬ root < size) then Ok (0, hp) else
  let* lc := left_child root in
  let* rc := right_child root in
  let left := if decide (lc < size) then lc else -1 in
  let right := if decide (rc < size) then rc else -1 in
  let* max := better hp left root in
  let* max := better hp right max in
  let* hp := if decide (max = root) then Ok hp else swap hp max root in
  Ok (max, hp).

(** [for(; start >= 0; start--) heapify(hp, start)] for [n] values of start. *)
Fixpoint fixup_loop (n : nat) (hp : heap_t) : res heap_t :=
  match n with
  | O => Ok hp
  | S n => let* r := heapify hp (Z.of_nat n) in fixup_loop n r.2
  end.

Definition heap_fixup (hp : heap_t) : res heap_t :=
  fixup_loop (Z.to_nat (parent_last hp + 1)) hp.

Fixpoint fixdown_loop (fuel : nat) (stop root : Z) (hp : heap_t) : res heap_t :=
  if decide (root ≤ stop) then
    match fuel with
    | O => OutOfFuel
    | S fuel =>
        let* r := heapify hp root in
        if decide (r.1 = root) then Ok r.2 else fixdown_loop fuel stop r.1 r.2
    end
  else Ok hp.

(** Every round moves [root] to a larger index, at most [stop + 1] times. *)
Definition heap_fixdown (hp : heap_t) : res heap_t :=
  let stop := parent_last hp in
  fixdown_loop (Z.to_nat (stop + 1)) stop 0 hp.

Definition heap_push (hp : heap_t) (elm : ptr) : res (Z * heap_t) :=
  let* r := array_insert (Some (h_array hp)) (heap_size hp) elm in
  let* a := deref r.2 in
  let* hp := heap_fixup (Heap a (h_cmp hp)) in
  Ok (0, hp).

(** The result is the return value, what was stored to [*elm] and the heap. *)
Definition heap_pop (hp : heap_t) : res (Z * option ptr * heap_t) :=
  if decide (heap_size hp = 0) then Ok (-1, None, hp) else
  let* top := heap_get hp 0 in
  let* r := array_del (Some (h_array hp)) (u64 (heap_size hp - 1)) in
  let* a := deref r.2 in
  let* hp := heap_put (Heap a (h_cmp hp)) 0 r.1 in
  let* hp := heap_fixdown hp in
  Ok (0, Some top, hp).

(** * The interface to the comparison *)

Class HeapOrder (cmp : comp_t) (le : relation ptr) : Prop := {
  ho_preorder : PreOrder le;
  cmp_yes x y : cmp x y ≠ 0 → le x y;
  cmp_no x y : cmp x y = 0 → le y x
}.
#[global] Existing Instance ho_preorder.

#[global] Instance default_cmp_order : HeapOrder _default_cmp Z.le.
Proof.
  split; [split; [intros ?|intros ???]; lia|..]; intros x y; unfold _default_cmp;
    case_decide; lia.
Qed.

(** * Lists as heaps *)

Definition lget (l : list ptr) (i : nat) : ptr := default NULL (l !! i).
Definition lswap (l : list ptr) (i j : nat) : list ptr := <[j := lget l i]> (<[i := lget l j]> l).
Definition par (i : nat) : nat := ((i - 1) / 2)%nat.

Lemma par_spec i : (0 < i)%nat → (i = 2 * par i + 1 ∨ i = 2 * par i + 2)%nat.
Proof. intros Hi. unfold par. pose proof (Nat.div_mod_eq (i - 1) 2).
  pose proof (Nat.mod_upper_bound (i - 1) 2). lia. Qed.

Lemma par_lt i : (0 < i)%nat → (par i < i)%nat.
Proof. intros Hi. pose proof (par_spec i Hi). lia. Qed.

Lemma length_lswap l i j : length (lswap l i j) = length l.
Proof. unfold lswap. by rewrite !length_insert. Qed.

Lemma lget_lookup l i : (i < length l)%nat → l !! i = Some (lget l i).
Proof. intros Hi. unfold lget. by destruct (lookup_lt_is_Some_2 l i Hi) as [x ->]. Qed.

Lemma lget_insert l i j x :
  (i < length l)%nat → lget (<[i := x]> l) j = if decide (i = j) then x else lget l j.
Proof.
  intros Hi. unfold lget. case_decide as Hij.
  - subst. by rewrite list_lookup_insert_eq.
  - by rewrite list_lookup_insert_ne.
Qed.

Lemma lget_lswap l i j k :
  (i < length l)%nat → (j < length l)%nat →
  lget (lswap l i j) k = if decide (k = j) then lget l i
                         else if decide (k = i) then lget l j else lget l k.
Proof.
  intros Hi Hj. unfold lswap. rewrite lget_insert by (rewrite length_insert; lia).
  rewrite lget_insert by lia. repeat case_decide; congruence.
Qed.

Lemma insert_Permutation (l : list ptr) i x y :
  l !! i = Some x → x :: <[i := y]> l ≡ₚ y :: l.
Proof.
  intros Hi. rewrite <-(take_drop_middle l i x Hi) at 2.
  rewrite insert_take_drop by (by apply lookup_lt_Some in Hi). solve_Permutation.
Qed.

Lemma lswap_Permutation l i j :
  (i < length l)%nat → (j < length l)%nat → lswap l i j ≡ₚ l.
Proof.
  intros Hi Hj. destruct (decide (i = j)) as [->|Hne].
  - unfold lswap. rewrite list_insert_insert_eq. rewrite list_insert_id; [done|].
    by apply lget_lookup.
  - apply (Permutation_cons_inv (a := lget l j)). unfold lswap.
    rewrite (insert_Permutation (<[i := lget l j]> l) j (lget l j)).
    + apply insert_Permutation. by apply lget_lookup.
    + rewrite list_lookup_insert_ne by done. by apply lget_lookup.
Qed.

Section order.
Context (cmp : comp_t) (le : relation ptr) `{!HeapOrder cmp le}.
Implicit Types (l : list ptr) (i s b r : nat).

(** The index [heapify] ends on. *)
Definition pick1 l (c m : nat) : nat :=
  if decide (c < length l)%nat then
    if decide (cmp (lget l c) (lget l m) = 0) then m else c
  else m.
Definition pick l s : nat := pick1 l (2 * s + 2) (pick1 l (2 * s + 1) s).

Definition heap_ok l : Prop :=
  ∀ i, (0 < i < length l)%nat → le (lget l (par i)) (lget l i).

(** Only the pair of [b] and its parent may be out of order. *)
Definition ok_above l b : Prop :=
  (∀ i, (0 < i < length l)%nat → i ≠ b → le (lget l (par i)) (lget l i)) ∧
  ((0 < b)%nat → ∀ i, (0 < i < length l)%nat → par i = b → le (lget l (par b)) (lget l i)).

(** Only the pairs of [r] and its children may be out of order. *)
Definition ok_below l r : Prop :=
  (∀ i, (0 < i < length l)%nat → par i ≠ r → le (lget l (par i)) (lget l i)) ∧
  ((0 < r)%nat → ∀ i, (0 < i < length l)%nat → par i = r → le (lget l (par r)) (lget l i)).

Lemma pick1_spec l c m :
  (m < length l)%nat →
  (pick1 l c m = m ∨ pick1 l c m = c) ∧ (pick1 l c m < length l)%nat ∧
  le (lget l (pick1 l c m)) (lget l m) ∧
  ((c < length l)%nat → le (lget l (pick1 l c m)) (lget l c)).
Proof.
  intros Hm. unfold pick1. repeat case_decide; split_and!; try done; auto; try lia.
  - intros. by apply cmp_no.
  - by apply cmp_yes.
Qed.

Lemma pick_spec l s :
  (s < length l)%nat →
  (pick l s = s ∨ (0 < pick l s)%nat ∧ par (pick l s) = s) ∧ (pick l s < length l)%nat ∧
  le (lget l (pick l s)) (lget l s) ∧
  ∀ i, (0 < i < length l)%nat → par i = s → le (lget l (pick l s)) (lget l i).
Proof.
  intros Hs. destruct (pick1_spec l (2 * s + 1) s Hs) as (Hc1 & Hl1 & Hle1 & Hch1).
  destruct (pick1_spec l (2 * s + 2) (pick1 l (2 * s + 1) s) Hl1) as (Hc2 & Hl2 & Hle2 & Hch2).
  assert (Hpar : ∀ c, (c = 2 * s + 1 ∨ c = 2 * s + 2)%nat → (0 < c)%nat ∧ par c = s).
  { intros c Hc. split; [lia|]. pose proof (par_spec c). lia. }
  unfold pick in *. split_and!; [|done|by etrans|].
  - destruct Hc2 as [->| ->]; [destruct Hc1 as [->| ->]|]; auto.
  - intros i Hi Hpi. destruct (par_spec i) as [E|E]; [lia|..]; rewrite Hpi in E.
    + rewrite E. etrans; [done|]. apply Hch1. lia.
    + rewrite E. apply Hch2. lia.
Qed.

(** One round of [heapify]. *)
Definition sift l s : list ptr := lswap l (pick l s) s.

Lemma lswap_same l i : (i < length l)%nat → lswap l i i = l.
Proof.
  intros Hi. unfold lswap. rewrite list_insert_insert_eq, list_insert_id; [done|].
  by apply lget_lookup.
Qed.

Ltac index_cases :=
  rewrite !lget_lswap by (try done; lia); repeat case_decide; subst; try done; try lia; auto.

Lemma sift_below l r :
  (r < length l)%nat → ok_below l r →
  (pick l r = r ∧ sift l r = l ∧ heap_ok l) ∨ ((r < pick l r)%nat ∧ ok_below (sift l r) (pick l r)).
Proof.
  intros Hr [H1 H2]. destruct (pick_spec l r Hr) as (Hp & Hpl & Hpr & Hpc).
  destruct Hp as [Hp|[Hp0 Hp]].
  - left. unfold sift. rewrite Hp, lswap_same by done. split_and!; [done..|].
    intros i Hi. destruct (decide (par i = r)) as [Hpi|Hpi]; [|by apply H1].
    rewrite Hpi, <-Hp at 1. by apply Hpc.
  - right. pose proof (par_lt _ Hp0) as Hlt. split; [lia|].
    set (p := pick l r) in *. unfold sift. fold p.
    split; intros; rewrite ?length_lswap in *.
    + rewrite !lget_lswap by lia.
      destruct (decide (i = r)) as [->|].
      { pose proof (par_lt r). rewrite decide_False, decide_False by lia.
        apply (H2 ltac:(lia) p); [lia|done]. }
      destruct (decide (par i = r)) as [Hpi|Hpi].
      * case_decide; [done|]. apply Hpc; [lia|done].
      * case_decide; [done|]. case_decide; [congruence|]. apply H1; [lia|done].
    + pose proof (par_lt i). rewrite !lget_lswap by lia.
      rewrite (decide_True (P := par p = r)) by done.
      rewrite decide_False by (intros ->; lia). rewrite decide_False by lia.
      match goal with H : par i = p |- _ => rewrite <-H at 1 end. apply H1; [lia|]. lia.
Qed.

Lemma sift_above_at l b :
  (0 < b < length l)%nat → ok_above l b → ok_above (sift l (par b)) (par b).
Proof.
  intros Hb [H1 H2]. pose proof (par_lt b ltac:(lia)) as Hpb. set (s := par b) in *.
  destruct (pick_spec l s ltac:(lia)) as (Hp & Hpl & Hps & Hpc). unfold sift.
  set (p := pick l s) in *.
  assert (Hchild : ∀ i, (0 < i < length l)%nat → par i = p → p ≠ s → le (lget l s) (lget l i)).
  { intros i Hi Hpi Hps'. destruct Hp as [?|[Hp0 Hp]]; [done|].
    destruct (decide (p = b)) as [E|E].
    - rewrite E in *. apply (H2 ltac:(lia) i Hi Hpi).
    - trans (lget l p).
      + rewrite <-Hp. apply H1; [lia|done].
      + rewrite <-Hpi. pose proof (par_lt i). apply H1; [done|]. intros ->.
        fold s in Hpi. lia. }
  split; rewrite ?length_lswap; intros.
  - (* a pair not below the parent of s *)
    pose proof (par_lt i ltac:(lia)). rewrite !lget_lswap by lia.
    destruct (decide (i = s)) as [?|_]; [done|].
    destruct (decide (par i = s)) as [Hpi|Hpi].
    + case_decide as E; [subst i; done|]. by apply Hpc.
    + destruct (decide (i = p)) as [->|].
      { destruct Hp as [?|[_ Hp]]; congruence. }
      destruct (decide (par i = p)) as [Hpp|Hpp].
      * apply Hchild; [done..|]. intros E. congruence.
      * apply H1; [done|]. intros ->. by fold s in Hpi.
  - (* the children of s against its parent *)
    pose proof (par_lt s ltac:(lia)). rewrite !lget_lswap by lia.
    pose proof (par_lt p).
    rewrite (decide_False (P := par s = s)), (decide_False (P := par s = p)) by lia.
    assert (Hss : le (lget l (par s)) (lget l s)) by (apply H1; lia).
    pose proof (par_lt i ltac:(lia)). rewrite decide_False by lia.
    case_decide as E; [done|].
    destruct (decide (i = b)) as [->|Hib].
    + destruct Hp as [Hp|[Hp0 Hp]].
      * trans (lget l s); [done|]. rewrite <-Hp. by apply Hpc.
      * trans (lget l s); [done|]. trans (lget l p); [|by apply Hpc].
        rewrite <-Hp. apply H1; [lia|]. congruence.
    + trans (lget l s); [done|]. match goal with H : par i = s |- _ => rewrite <-H end.
      apply H1; [lia|done].
Qed.

Lemma sift_above_other l b s :
  (par b < s < b)%nat → (b < length l)%nat → ok_above l b → ok_above (sift l s) b.
Proof.
  intros Hs Hb [H1 H2].
  destruct (pick_spec l s ltac:(lia)) as (Hp & Hpl & Hps & Hpc). unfold sift.
  set (p := pick l s) in *.
  destruct Hp as [E|[Hp0 Hp]]; [rewrite E, lswap_same by lia; done|].
  assert (Hpb : p ≠ b) by (intros E; rewrite E in Hp; lia).
  assert (Hsp : le (lget l s) (lget l p)) by (rewrite <-Hp; apply H1; [lia|done]).
  pose proof (par_lt p Hp0). split; rewrite ?length_lswap; intros.
  - pose proof (par_lt i ltac:(lia)). rewrite !lget_lswap by lia.
    assert (Hi : le (lget l (par i)) (lget l i)) by (apply H1; [lia|done]).
    destruct (decide (i = s)) as [->|].
    { rewrite decide_False, decide_False by lia. by trans (lget l s). }
    destruct (decide (par i = s)) as [Hpi|Hpi].
    + case_decide; [done|]. by apply Hpc.
    + destruct (decide (i = p)) as [->|]; [congruence|]. case_decide as E; [|done].
      trans (lget l p); [done|]. by rewrite <-E.
  - pose proof (par_lt b ltac:(lia)). rewrite !lget_lswap by lia.
    rewrite (decide_False (P := par b = s)), (decide_False (P := par b = p)) by lia.
    assert (Hi : le (lget l (par b)) (lget l i)) by (apply H2; [lia|lia|done]).
    case_decide as Eis; [rewrite Eis in Hi; by trans (lget l s)|].
    case_decide as Eip; [|done]. rewrite Eip in Hi. by trans (lget l p).
Qed.

Fixpoint fixup_list (n : nat) l : list ptr :=
  match n with O => l | S n => fixup_list n (sift l n) end.

Lemma length_sift l s : length (sift l s) = length l.
Proof. apply length_lswap. Qed.

Lemma fixup_list_ok n l b :
  (b < length l)%nat → ok_above l b → (n ≤ b)%nat → (b = 0 ∨ par b < n)%nat →
  heap_ok (fixup_list n l).
Proof.
  revert l b. induction n as [|n IH]; intros l b Hb Hok Hn Hpb; simpl.
  - assert (b = 0)%nat as -> by lia. intros i Hi. apply Hok; lia.
  - destruct (decide (par b = n)) as [<-|Hne].
    + apply (IH _ (par b)); rewrite ?length_sift; [lia| |lia|].
      * apply sift_above_at; [lia|done].
      * destruct (par b) as [|k] eqn:E; [by left|right]. rewrite <-E. apply par_lt. lia.
    + apply (IH _ b); rewrite ?length_sift; [done| |lia|lia].
      apply sift_above_other; [lia|done|done].
Qed.

Lemma sift_Permutation l s : (s < length l)%nat → sift l s ≡ₚ l.
Proof. intros Hs. apply lswap_Permutation; [|done]. by apply pick_spec. Qed.

Lemma fixup_list_Permutation n l : (n ≤ length l)%nat → fixup_list n l ≡ₚ l.
Proof.
  revert l. induction n as [|n IH]; intros l Hn; simpl; [done|].
  rewrite IH by (rewrite length_sift; lia). apply sift_Permutation. lia.
Qed.

(** The root of a heap is a least element. *)
Lemma heap_root_least l x : heap_ok l → x ∈ l → le (lget l 0) x.
Proof.
  intros Hok (i & Hi)%list_elem_of_lookup.
  assert (∀ k, (k < length l)%nat → le (lget l 0) (lget l k)) as H.
  { intros k. induction k as [k IH] using lt_wf_ind. intros Hk.
    destruct k as [|k]; [done|]. pose proof (par_lt (S k) ltac:(lia)).
    trans (lget l (par (S k))); [apply IH; lia|]. apply Hok. lia. }
  replace x with (lget l i) by (unfold lget; by rewrite Hi).
  apply H. by apply lookup_lt_Some in Hi.
Qed.

End order.

(** * The code on lists *)

Record heap_rep (hp : heap_t) (cmp : comp_t) (l : list ptr) : Prop := {
  hr_array : array_rep (h_array hp) l;
  hr_cmp : h_cmp hp = cmp;
  hr_bound : Z.of_nat (length l) < 2 ^ 30
}.

Section code.
Context (cmp : comp_t).
Implicit Types (hp : heap_t) (l : list ptr).

Lemma heap_size_rep hp l : heap_rep hp cmp l → heap_size hp = Z.of_nat (length l).
Proof. intros [Ha _ _]. apply (ar_size _ _ Ha). Qed.

Lemma heap_get_rep hp l (i : nat) :
  heap_rep hp cmp l → (i < length l)%nat → heap_get hp (Z.of_nat i) = Ok (lget l i).
Proof.
  intros [Ha _ Hb] Hi. unfold heap_get. rewrite u64_small by lia. by apply array_get_rep.
Qed.

Lemma heap_put_rep hp l (i : nat) x :
  heap_rep hp cmp l → (i < length l)%nat →
  ∃ hp', heap_put hp (Z.of_nat i) x = Ok hp' ∧ heap_rep hp' cmp (<[i := x]> l).
Proof.
  intros [Ha Hc Hb] Hi. unfold heap_put. rewrite u64_small by lia.
  destruct (array_put_rep _ _ i x Ha Hi) as (a' & -> & Ha'). simpl.
  eexists. split; [done|]. split; [done..|]. by rewrite length_insert.
Qed.

Lemma swap_rep hp l (i j : nat) :
  heap_rep hp cmp l → (i < length l)%nat → (j < length l)%nat →
  ∃ hp', swap hp (Z.of_nat i) (Z.of_nat j) = Ok hp' ∧ heap_rep hp' cmp (lswap l i j).
Proof.
  intros Hr Hi Hj. unfold swap. rewrite (heap_get_rep _ _ i Hr Hi), (heap_get_rep _ _ j Hr Hj).
  simpl. destruct (heap_put_rep _ _ i (lget l j) Hr Hi) as (hp1 & -> & Hr1). simpl.
  destruct (heap_put_rep _ _ j (lget l i) Hr1) as (hp2 & -> & Hr2); [by rewrite length_insert|].
  by exists hp2.
Qed.

Lemma better_rep hp l (c m : nat) :
  heap_rep hp cmp l → (0 < c)%nat → (m < length l)%nat →
  better hp (if decide (Z.of_nat c < Z.of_nat (length l)) then Z.of_nat c else -1) (Z.of_nat m)
    = Ok (Z.of_nat (pick1 cmp l c m)).
Proof.
  intros Hr Hc Hm. unfold better, pick1. destruct (decide (c < length l)%nat) as [Hlt|Hge].
  - rewrite (decide_True (P := Z.of_nat c < _)), (decide_True (P := Z.of_nat c > 0)) by lia.
    rewrite (heap_get_rep _ _ c Hr Hlt), (heap_get_rep _ _ m Hr Hm).
    simpl. rewrite (hr_cmp _ _ _ Hr). by case_decide.
  - rewrite (decide_False (P := Z.of_nat c < _)) by lia. by rewrite decide_False by lia.
Qed.

Lemma pick1_lt l c m : (m < length l)%nat → (pick1 cmp l c m < length l)%nat.
Proof. intros Hm. unfold pick1. by repeat case_decide. Qed.

Lemma heapify_rep hp l (s : nat) :
  heap_rep hp cmp l → (s < length l)%nat →
  ∃ hp', heapify hp (Z.of_nat s) = Ok (Z.of_nat (pick cmp l s), hp') ∧
    heap_rep hp' cmp (sift cmp l s).
Proof.
  intros Hr Hs. pose proof (hr_bound _ _ _ Hr) as Hb. unfold heapify.
  rewrite (heap_size_rep _ _ Hr), s32_small by lia. rewrite decide_False by lia.
  unfold left_child, right_child, c_int. rewrite Z.shiftl_mul_pow2 by lia. change (2 ^ 1) with 2.
  rewrite !decide_True by (unfold INT_MAX; lia). cbn [res_bind].
  replace (Z.of_nat s * 2 + 1) with (Z.of_nat (2 * s + 1)) by lia.
  replace (Z.of_nat s * 2 + 2) with (Z.of_nat (2 * s + 2)) by lia.
  rewrite (better_rep hp l (2 * s + 1) s) by (done || lia). cbn [res_bind].
  assert (Hp1 : (pick1 cmp l (2 * s + 1) s < length l)%nat) by by apply pick1_lt.
  rewrite (better_rep hp l (2 * s + 2) _) by (done || lia). cbn [res_bind].
  fold (pick cmp l s). assert (Hp : (pick cmp l s < length l)%nat) by by apply pick1_lt.
  unfold sift. case_decide as E.
  - simpl. eexists. split; [done|]. by rewrite (inj Z.of_nat _ _ E), lswap_same.
  - destruct (swap_rep hp l (pick cmp l s) s Hr Hp Hs) as (hp' & -> & Hr'). simpl. by eexists.
Qed.

Lemma fixup_loop_rep n hp l :
  heap_rep hp cmp l → (n ≤ length l)%nat →
  ∃ hp', fixup_loop n hp = Ok hp' ∧ heap_rep hp' cmp (fixup_list cmp n l).
Proof.
  revert hp l. induction n as [|n IH]; intros hp l Hr Hn; simpl; [by eexists|].
  destruct (heapify_rep hp l n Hr) as (hp1 & -> & Hr1); [lia|]. simpl.
  apply IH; [done|]. rewrite length_sift. lia.
Qed.

Lemma parent_last_rep hp l :
  heap_rep hp cmp l →
  parent_last hp = if decide (l = []) then -1 else Z.of_nat (par (length l - 1)).
Proof.
  intros Hr. pose proof (hr_bound _ _ _ Hr). unfold parent_last. rewrite (heap_size_rep _ _ Hr).
  destruct l as [|x l]; [done|]. rewrite (decide_False (P := x :: l = [])) by done. simpl length.
  rewrite (u64_small (Z.of_nat (S (length l)) - 1)) by (simpl in *; lia). unfold par.
  case_decide as E.
  - assert (length l = 0%nat) as -> by lia. done.
  - rewrite u64_small by (simpl in *; lia). rewrite Z.shiftr_div_pow2 by lia.
    rewrite Nat2Z.inj_div. rewrite s32_small; [f_equal; lia|].
    pose proof (Z.div_pos (Z.of_nat (S (length l)) - 1 - 1) (2 ^ 1)).
    pose proof (Z.div_le_upper_bound (Z.of_nat (S (length l)) - 1 - 1) (2 ^ 1) (Z.of_nat (length l))).
    simpl in *. lia.
Qed.

Context (le : relation ptr) `{!HeapOrder cmp le}.

Lemma fixdown_loop_rep fuel hp l (stop : Z) (r : nat) :
  heap_rep hp cmp l → ok_below le l r → (r < length l)%nat →
  (∀ i, (0 < i < length l)%nat → Z.of_nat (par i) ≤ stop) →
  stop < Z.of_nat fuel + Z.of_nat r →
  ∃ hp' l', fixdown_loop fuel stop (Z.of_nat r) hp = Ok hp' ∧ heap_rep hp' cmp l' ∧
    heap_ok le l' ∧ l' ≡ₚ l.
Proof.
  revert hp l r. induction fuel as [|fuel IH]; intros hp l r Hr Hok Hlt Hstop Hfuel; simpl.
  all: destruct (decide (Z.of_nat r ≤ stop)) as [Hle|Hgt]; [try lia|].
  2: destruct (heapify_rep hp l r Hr Hlt) as (hp1 & -> & Hr1); cbn [res_bind fst snd];
     destruct (sift_below cmp le l r Hlt Hok) as [(Hp & Hs & Hh)|[Hp Hok']];
     [rewrite Hp, decide_True, Hs in * by done; by exists hp1, l|];
     rewrite decide_False by lia;
     pose proof (pick_spec cmp le l r Hlt) as (_ & Hpl & _);
     pose proof (sift_Permutation cmp le l r Hlt) as Hperm;
     destruct (IH hp1 (sift cmp l r) (pick cmp l r) Hr1 Hok') as (hp' & l' & ? & ? & ? & Hp');
     rewrite ?length_sift; [done..|lia|]; exists hp', l'; split_and!; [done..|by rewrite Hp'].
  all: exists hp, l; split_and!; [done..| |done]; intros i Hi; apply Hok; [done|];
       intros E; specialize (Hstop i Hi); lia.
Qed.

Lemma fixdown_rep hp l :
  heap_rep hp cmp l → ok_below le l 0 →
  ∃ hp' l', heap_fixdown hp = Ok hp' ∧ heap_rep hp' cmp l' ∧ heap_ok le l' ∧ l' ≡ₚ l.
Proof.
  intros Hr Hok. unfold heap_fixdown. rewrite (parent_last_rep _ _ Hr).
  destruct l as [|x l].
  - simpl. exists hp, []. split_and!; [done..| |done]. intros i Hi. simpl in Hi. lia.
  - rewrite (decide_False (P := x :: l = [])) by done.
    apply (fixdown_loop_rep _ hp (x :: l) _ 0); [done|done|simpl; lia| |lia].
    intros i Hi. apply Nat2Z.inj_le. unfold par. apply Nat.Div0.div_le_mono. lia.
Qed.

Lemma heap_push_rep hp l e :
  heap_rep hp cmp l → heap_ok le l → Z.of_nat (length l) + 1 < 2 ^ 30 →
  ∃ hp' l', heap_push hp e = Ok (0, hp') ∧ heap_rep hp' cmp l' ∧ heap_ok le l' ∧ l' ≡ₚ e :: l.
Proof.
  intros Hr Hok Hb. unfold heap_push, heap_size, array_size.
  rewrite (ar_size _ _ (hr_array _ _ _ Hr)).
  destruct (array_insert_rep _ _ (length l) e (hr_array _ _ _ Hr)) as (a & -> & Ha); [lia..|].
  unfold inserted in Ha. rewrite firstn_all, lookup_ge_None_2 in Ha by lia. simpl.
  assert (Hr1 : heap_rep (Heap a (h_cmp hp)) cmp (l ++ [e])).
  { split; [done|apply Hr|]. rewrite length_app. simpl. lia. }
  unfold heap_fixup. rewrite (parent_last_rep _ _ Hr1). rewrite decide_False by (by destruct l).
  replace (Z.to_nat (Z.of_nat (par (length (l ++ [e]) - 1)) + 1)) with (S (par (length l)))
    by (rewrite length_app, Z.add_1_r, <-Nat2Z.inj_succ, Nat2Z.id; cbn [length];
        by rewrite Nat.add_sub).
  assert (Hn : (S (par (length l)) ≤ length (l ++ [e]))%nat).
  { rewrite length_app. cbn [length]. destruct l as [|y l]; [by apply Nat.leb_le|].
    pose proof (par_lt (length (y :: l))). cbn [length] in *. lia. }
  destruct (fixup_loop_rep _ _ _ Hr1 Hn) as (hp' & -> & Hr'). simpl.
  eexists _, _. split_and!; [done|done| |].
  - destruct l as [|x l].
    { intros i Hi. rewrite (Permutation_length (fixup_list_Permutation cmp le _ _ Hn)) in Hi.
      simpl in Hi. lia. }
    apply (fixup_list_ok cmp le _ _ (length (x :: l))).
    + rewrite length_app. simpl. lia.
    + assert (Hget : ∀ i, (i < length (x :: l))%nat → lget ((x :: l) ++ [e]) i = lget (x :: l) i).
      { intros i Hi. unfold lget. by rewrite lookup_app_l. }
      split; rewrite length_app; cbn [length]; intros.
      * pose proof (par_lt i). rewrite !Hget by (simpl; lia). apply Hok. simpl in *; lia.
      * exfalso. pose proof (par_lt i). simpl in *. lia.
    + pose proof (par_lt (length (x :: l))). simpl in *; lia.
    + right. lia.
  - rewrite (fixup_list_Permutation cmp le _ _ Hn). solve_Permutation.
Qed.

Lemma heap_pop_rep hp x l :
  heap_rep hp cmp (x :: l) → heap_ok le (x :: l) →
  ∃ hp' l', heap_pop hp = Ok (0, Some x, hp') ∧ heap_rep hp' cmp l' ∧ heap_ok le l' ∧ l' ≡ₚ l.
Proof.
  intros Hr Hok. pose proof (hr_bound _ _ _ Hr) as Hb. unfold heap_pop.
  rewrite (heap_size_rep _ _ Hr). rewrite decide_False by (simpl; lia).
  rewrite (heap_get_rep hp _ 0 Hr : _ → heap_get hp 0 = _) by (simpl; lia).
  cbn [res_bind]. change (lget (x :: l) 0) with x.
  destruct (exists_last (l := x :: l)) as (l0 & y & Hl0); [done|].
  replace (u64 (Z.of_nat (length (x :: l)) - 1)) with (Z.of_nat (length l0))
    by (rewrite Hl0, length_app in *; rewrite u64_small; simpl in *; lia).
  rewrite Hl0 in *. pose proof (hr_array _ _ _ Hr) as Ha.
  destruct (array_del_last_ord LeftFirst _ _ _ Ha) as (a' & Hd & Ha').
  unfold array_del. rewrite Hd. cbn [res_bind fst snd deref].
  rewrite length_app in Hb. simpl in Hb.
  destruct l0 as [|x0 l0].
  - (* the only element: the put is out of range *)
    simpl in Hl0. injection Hl0 as <- ->. unfold heap_put. rewrite u64_small by lia. simpl h_array.
    rewrite (array_put_out a' [] 0 x Ha' : _ → array_put (Some a') 0 x = _) by (simpl; lia).
    cbn [res_bind fst snd deref h_cmp].
    destruct (fixdown_rep (Heap a' (h_cmp hp)) []) as (hp' & l' & -> & Hr' & ? & Hp').
    + split; [done|apply Hr|simpl; lia].
    + split; simpl; lia.
    + simpl. by exists hp', l'.
  - injection Hl0 as <- ->.
    destruct (heap_put_rep (Heap a' (h_cmp hp)) (x :: l0) 0 y) as (hp1 & Hput & Hr1).
    { split; [done|apply Hr|simpl in *; lia]. }
    { simpl; lia. }
    change (Z.of_nat 0) with 0 in Hput. rewrite Hput. cbn [res_bind].
    destruct (fixdown_rep hp1 (y :: l0) Hr1) as (hp' & l' & -> & Hr' & ? & Hp').
    + split; [|lia]. intros i Hi Hpi. simpl in Hi.
      assert (Hget : ∀ k, (0 < k < length (x :: l0))%nat → lget (y :: l0) k = lget ((x :: l0) ++ [y]) k).
      { intros k Hk. unfold lget. rewrite lookup_app_l by lia. destruct k; [lia|done]. }
      pose proof (par_lt i). rewrite !Hget by (simpl; lia). apply Hok.
      rewrite length_app. simpl. lia.
    + simpl. exists hp', l'. split_and!; [done..|]. rewrite Hp'. solve_Permutation.
Qed.

End code.

(** [heap_push] for every element, and [while(!heap_empty) heap_pop]. *)
Fixpoint push_all (hp : heap_t) (es : list ptr) : res heap_t :=
  match es with
  | [] => Ok hp
  | e :: es => let* r := heap_push hp e in push_all r.2 es
  end.

Fixpoint pop_all (n : nat) (hp : heap_t) : res (list ptr * heap_t) :=
  match n with
  | O => Ok ([], hp)
  | S n =>
      let* r := heap_pop hp in
      let* x := deref r.1.2 in
      let* q := pop_all n r.2 in
      Ok (x :: q.1, q.2)
  end.

Section properties.
Context (cmp : comp_t) (le : relation ptr) `{!HeapOrder cmp le}.

(** [heap_push] inserts the element and restores the heap order, for every
    comparison that agrees with a preorder: the contents are the old ones plus
    the new one, and no parent comes after its child. *)
Theorem heap_push_correct hp l e :
  heap_rep hp cmp l → heap_ok le l → Z.of_nat (length l) + 1 < 2 ^ 30 →
  ∃ hp' l', heap_push hp e = Ok (0, hp') ∧ heap_rep hp' cmp l' ∧ heap_ok le l' ∧ l' ≡ₚ e :: l.
Proof. by apply heap_push_rep. Qed.

(** C26. [heap_pop] fails with -1 exactly on the empty heap, which it leaves
    alone; otherwise it stores a least element and keeps a heap of the others.
    This includes the pop of the last element, where [parent] is computed from
    a wrapped [size_t]. *)
Theorem heap_pop_correct hp l :
  heap_rep hp cmp l → heap_ok le l →
  match l with
  | [] => heap_pop hp = Ok (-1, None, hp)
  | _ => ∃ x hp' l', heap_pop hp = Ok (0, Some x, hp') ∧ x ∈ l ∧ (∀ y, y ∈ l → le x y) ∧
           heap_rep hp' cmp l' ∧ heap_ok le l' ∧ l ≡ₚ x :: l'
  end.
Proof.
  intros Hr Hok. destruct l as [|x l].
  - unfold heap_pop. rewrite (heap_size_rep cmp _ _ Hr). done.
  - destruct (heap_pop_rep cmp le hp x l Hr Hok) as (hp' & l' & ? & ? & ? & Hp).
    exists x, hp', l'. split_and!; [done|set_solver| |done..|by rewrite Hp].
    intros y Hy. by apply (heap_root_least cmp le (x :: l) y).
Qed.

Lemma heap_push_all_rep hp l es :
  heap_rep hp cmp l → heap_ok le l → Z.of_nat (length l + length es) < 2 ^ 30 →
  ∃ hp' l', push_all hp es = Ok hp' ∧ heap_rep hp' cmp l' ∧ heap_ok le l' ∧ l' ≡ₚ es ++ l.
Proof.
  revert hp l. induction es as [|e es IH]; intros hp l Hr Hok Hb; simpl in *; [by exists hp, l|].
  destruct (heap_push_rep cmp le hp l e Hr Hok) as (hp1 & l1 & -> & Hr1 & Hok1 & Hp1); [lia|]. simpl.
  destruct (IH hp1 l1 Hr1 Hok1) as (hp2 & l2 & ? & ? & ? & Hp2).
  { rewrite (Permutation_length Hp1). simpl. lia. }
  exists hp2, l2. split_and!; [done..|]. rewrite Hp2, Hp1. solve_Permutation.
Qed.

Lemma heap_pop_all_rep n hp l :
  heap_rep hp cmp l → heap_ok le l → length l = n →
  ∃ out hp', pop_all n hp = Ok (out, hp') ∧ out ≡ₚ l ∧ StronglySorted le out ∧
    heap_rep hp' cmp [].
Proof.
  revert hp l. induction n as [|n IH]; intros hp l Hr Hok Hn; simpl.
  - destruct l; [|done]. exists [], hp. split_and!; [done..|constructor|done].
  - destruct l as [|x l]; [done|]. injection Hn as Hn.
    destruct (heap_pop_rep cmp le hp x l Hr Hok) as (hp1 & l1 & -> & Hr1 & Hok1 & Hp1). simpl.
    destruct (IH hp1 l1 Hr1 Hok1) as (out & hp2 & -> & Ho & Hs & Hr2);
      [by rewrite (Permutation_length Hp1)|].
    simpl. exists (x :: out), hp2. split_and!; [done|by rewrite Ho, Hp1| |done].
    constructor; [done|]. apply Forall_forall. intros y Hy.
    apply (heap_root_least cmp le (x :: l) y Hok). rewrite Ho, Hp1 in Hy. set_solver.
Qed.

(** Pushing any elements on a new heap and popping until it is empty yields
    the same elements, sorted: the behaviour the heap test of the repository
    prints. *)
Theorem heap_sorts es :
  Z.of_nat (length es) < 2 ^ 30 →
  ∃ hp out hp', push_all (heap_init (Some cmp)) es = Ok hp ∧
    pop_all (length es) hp = Ok (out, hp') ∧ out ≡ₚ es ∧ StronglySorted le out ∧
    heap_empty hp' = true.
Proof.
  intros Hb. destruct (heap_push_all_rep (heap_init (Some cmp)) [] es) as (hp & l & Hp & Hr & Hok & Hl).
  - split; [by split|done|done].
  - intros i Hi. simpl in Hi. lia.
  - done.
  - rewrite app_nil_r in Hl.
    destruct (heap_pop_all_rep (length es) hp l Hr Hok) as (out & hp' & ? & Ho & ? & Hr').
    { by rewrite (Permutation_length Hl). }
    exists hp, out, hp'. split_and!; [done..|by rewrite Ho|done|].
    unfold heap_empty. rewrite (heap_size_rep cmp _ _ Hr'). done.
Qed.

End properties.

(** C27. A heap with the default comparison is a sorting routine: pushing the
    elements on a new heap and popping until it is empty gives exactly what merge
    sort gives. *)
Theorem heap_is_merge_sort es :
  Z.of_nat (length es) < 2 ^ 30 →
  (let* hp := push_all (heap_init None) es in
   let* r := pop_all (length es) hp in Ok r.1) = Ok (merge_sort Z.le es).
Proof.
  intros Hb. destruct (heap_sorts _default_cmp Z.le es Hb) as (hp & out & hp' & Hpush & Hpop & Hp & Hs & _).
  change (heap_init None) with (heap_init (Some _default_cmp)). rewrite Hpush. cbn [res_bind].
  rewrite Hpop. cbn [res_bind fst]. f_equal. apply (StronglySorted_unique Z.le); [done| |].
  - apply (StronglySorted_merge_sort Z.le).
  - by rewrite (merge_sort_Permutation Z.le).
Qed.

(** * Examples *)

Definition ex_heap : heap_t := Heap (ex_array [1; 5; 3]) _default_cmp.

Lemma ex_heap_rep : heap_rep ex_heap _default_cmp [1; 5; 3].
Proof. by split; [apply ex_array_rep|..]. Qed.

Lemma ex_heap_ok : heap_ok Z.le [1; 5; 3].
Proof. intros i Hi. simpl in Hi. assert (i = 1 ∨ i = 2)%nat as [->| ->] by lia; vm_compute; done. Qed.

Lemma heap_push_correct_witness :
  ∃ hp' l', heap_push ex_heap 2 = Ok (0, hp') ∧ heap_rep hp' _default_cmp l' ∧
    heap_ok Z.le l' ∧ l' ≡ₚ 2 :: [1; 5; 3].
Proof. by apply heap_push_correct; [apply _|apply ex_heap_rep|apply ex_heap_ok|]. Defined.

Lemma heap_pop_correct_witness :
  ∃ x hp' l', heap_pop ex_heap = Ok (0, Some x, hp') ∧ x ∈ [1; 5; 3] ∧
    (∀ y, y ∈ [1; 5; 3] → x ≤ y) ∧
    heap_rep hp' _default_cmp l' ∧ heap_ok Z.le l' ∧ [1; 5; 3] ≡ₚ x :: l'.
Proof. apply (heap_pop_correct _default_cmp Z.le ex_heap [1; 5; 3] ex_heap_rep ex_heap_ok). Defined.

Lemma heap_sorts_witness :
  ∃ hp out hp', push_all (heap_init (Some _default_cmp)) [4; 1; 3] = Ok hp ∧
    pop_all 3 hp = Ok (out, hp') ∧ out ≡ₚ [4; 1; 3] ∧ StronglySorted Z.le out ∧
    heap_empty hp' = true.
Proof. by apply (heap_sorts _default_cmp Z.le [4; 1; 3]). Defined.

Lemma heap_is_merge_sort_witness :
  (let* hp := push_all (heap_init None) [4; 1; 3] in
   let* r := pop_all 3 hp in Ok r.1) = Ok [1; 3; 4].
Proof. by apply (heap_is_merge_sort [4; 1; 3]). Defined.
