(* ===== verification/Cid.v ===== *)
(** cid.c: the per-thread allocator of coroutine ids.  Ids are handed out
    upwards from 0 until [max_id] of them exist; from then on freed ids, kept
    in a heap, are reused, the smallest first.

    [_cid_allocator] is a thread-local pointer, an [option] here.  [tid] is the
    value of the [gettid] system call, an argument of the model. *)

From Stdlib Require Import ZArith Lia.
From stdpp Require Import base numbers sets gmap list.
From S2P Require Import Prelude IntrusiveList Array Heap.
Open Scope Z_scope.

Definition THREAD_MAX_TASK_SIZE : Z := 100000.

Record id_dispatch_t := IdDispatch {
  recycle : heap_t;
  id_base : Z;
  max_id : Z;
  high_tid : Z
}.

(** [(cid_t)l] is narrowed to [int] on both sides. *)
Definition _id_cmp : comp_t := λ l r, if decide (s32 l < s32 r) then 1 else 0.

(** [if(_cached_tid == 0) _cached_tid = syscall(SYS_gettid); return _cached_tid]. *)
Definition tid (cached gettid : Z) : Z := if decide (cached = 0) then s32 gettid else cached.

Definition id_dispatch_init (t : Z) (idp : option id_dispatch_t) (max : Z)
    : Z * option id_dispatch_t :=
  match idp with
  | None => (-1, None)
  | Some _ => (0, Some (IdDispatch (heap_init (Some _id_cmp)) 0 max (s32 (u64 (t * max)))))
  end.

(** The block malloc returns; every field is written by [id_dispatch_init]. *)
Definition malloc_dispatch : option id_dispatch_t := Some (IdDispatch (heap_init None) 0 0 0).

Definition cid_allocator_init (t max : Z) (al : option id_dispatch_t)
    : Z * option id_dispatch_t :=
  match al with
  | Some _ => (-1, al)
  | None => (0, (id_dispatch_init t malloc_dispatch max).2)
  end.

(** The return value and what is left in the field [recycle]. *)
Definition id_dispatch_destory (idp : option id_dispatch_t) : Z * option (array_t * option comp_t) :=
  match idp with
  | None => (-1, None)
  | Some a => (0, Some (heap_destory (recycle a)))
  end.

(** The allocator is destroyed, freed and forgotten. *)
Definition cid_allocator_destory (al : option id_dispatch_t) : option id_dispatch_t :=
  match al with
  | None => None
  | Some _ => let _ := id_dispatch_destory al in None
  end.

(** [return -1] as a [cid_t]. *)
Definition CID_FAIL : Z := u64 (-1).

Definition alloc_cid (t : Z) (al : option id_dispatch_t) : res (Z * option id_dispatch_t) :=
  let al := match al with
            | None => (cid_allocator_init t THREAD_MAX_TASK_SIZE None).2
            | Some _ => al
            end in
  let* a := deref al in
  if decide (max_id a ≤ u64 (id_base a)) then
    let* r := heap_pop (recycle a) in
    let a := IdDispatch r.2 (id_base a) (max_id a) (high_tid a) in
    if decide (r.1.1 < 0) then Ok (CID_FAIL, Some a) else
    let* elm := deref r.1.2 in
    Ok (u64 (s32 elm), Some a)
  else
    let* b := c_int (id_base a + 1) in
    Ok (u64 (id_base a), Some (IdDispatch (recycle a) b (max_id a) (high_tid a))).

Definition free_cid (al : option id_dispatch_t) (cid : Z) : res (option id_dispatch_t) :=
  match al with
  | None => Ok None
  | Some a =>
      if decide (max_id a = 0) then Undef else
      let* r := heap_push (recycle a) (cid mod max_id a) in
      Ok (Some (IdDispatch r.2 (id_base a) (max_id a) (high_tid a)))
  end.

(** * Invariant *)

Definition id_le (x y : Z) : Prop := s32 x ≤ s32 y.

#[global] Instance id_cmp_order : HeapOrder _id_cmp id_le.
Proof.
  split; [split; [intros ?|intros ???]; unfold id_le; lia|..]; intros x y;
    unfold _id_cmp, id_le; case_decide; lia.
Qed.

(** The ids below [base] are split between the free ones, in the heap, and
    [live], those the clients hold. *)
Definition cid_inv (max : Z) (al : option id_dispatch_t) (live : gset Z) : Prop :=
  ∃ a l, al = Some a ∧ max_id a = max ∧ 0 ≤ id_base a ≤ max ∧
    heap_rep (recycle a) _id_cmp l ∧ heap_ok id_le l ∧
    l ++ elements live ≡ₚ seqZ 0 (id_base a).

(** What a client can do: allocate, and free an id it holds. *)
Inductive cid_reach (t max : Z) : option id_dispatch_t → gset Z → Prop :=
| cid_reach_init :
    cid_reach t max (cid_allocator_init t max None).2 ∅
| cid_reach_alloc al live id al' :
    cid_reach t max al live → alloc_cid t al = Ok (id, al') → id ≠ CID_FAIL →
    cid_reach t max al' ({[id]} ∪ live)
| cid_reach_alloc_fail al live al' :
    cid_reach t max al live → alloc_cid t al = Ok (CID_FAIL, al') →
    cid_reach t max al' live
| cid_reach_free al live id al' :
    cid_reach t max al live → id ∈ live → free_cid al id = Ok al' →
    cid_reach t max al' (live ∖ {[id]}).

Lemma cid_inv_init t max :
  0 ≤ max → cid_inv max (cid_allocator_init t max None).2 ∅.
Proof.
  intros Hm. eexists _, []. split_and!; [done|done|simpl; lia|simpl; lia| | |done].
  - by split; [split| |].
  - intros i Hi. simpl in Hi. lia.
Qed.

Lemma cid_inv_range (live : gset Z) a l x :
  l ++ elements live ≡ₚ seqZ 0 (id_base a) → x ∈ l ∨ x ∈ live → 0 ≤ x < id_base a.
Proof.
  intros Hp Hx. assert (x ∈ seqZ 0 (id_base a)) as Hin.
  { rewrite <-Hp. rewrite elem_of_app, elem_of_elements. tauto. }
  apply elem_of_seqZ in Hin. lia.
Qed.

Lemma cid_inv_size (live : gset Z) (l : list Z) b :
  0 ≤ b → l ++ elements live ≡ₚ seqZ 0 b → Z.of_nat (length l + size live) = b.
Proof.
  intros Hb Hp%Permutation_length. rewrite length_app, length_seqZ in Hp.
  change (length (elements live)) with (size live) in Hp. lia.
Qed.

(** One call of [alloc_cid] in a good state. *)
Lemma alloc_cid_inv t max al live :
  0 < max < 2 ^ 30 → cid_inv max al live →
  ∃ id al', alloc_cid t al = Ok (id, al') ∧
    (id = CID_FAIL ∧ Z.of_nat (size live) = max ∧ cid_inv max al' live ∨
     (id ∉ live) ∧ 0 ≤ id < max ∧ cid_inv max al' ({[id]} ∪ live)).
Proof.
  intros Hmax (a & l & -> & Hm & Hb & Hr & Hok & Hp). unfold alloc_cid. cbn [deref res_bind].
  pose proof (cid_inv_size live l (id_base a) ltac:(lia) Hp) as Hsz.
  rewrite Hm, u64_small by lia. case_decide as Hfull.
  - destruct l as [|x l].
    + unfold heap_pop. rewrite (heap_size_rep _ _ _ Hr), decide_True by done. simpl.
      eexists _, _. split; [done|]. left. split_and!; [done|simpl in Hsz; lia|].
      eexists _, []. split_and!; [done|done|simpl; lia|simpl; lia|done|done|done].
    + destruct (heap_pop_rep _id_cmp id_le _ x l Hr Hok) as (hp' & l' & -> & Hr' & Hok' & Hp').
      cbn [res_bind fst snd deref]. rewrite decide_False by lia.
      pose proof (cid_inv_range live a (x :: l) x Hp ltac:(set_solver)).
      rewrite s32_small, u64_small by lia.
      assert (Hx : x ∉ live).
      { intros Hin. assert (NoDup ((x :: l) ++ elements live)) as Hnd
          by (rewrite Hp; apply NoDup_seqZ).
        apply NoDup_app in Hnd as (_ & Hd & _). apply (Hd x); set_solver. }
      eexists _, _. split; [done|]. right. split_and!; [done|lia|lia|].
      eexists _, l'. split_and!; [done|done|simpl; lia|simpl; lia|done|done|].
      simpl. rewrite elements_union_singleton by done. rewrite Hp', <-Hp. solve_Permutation.
  - unfold c_int. rewrite decide_True by (unfold INT_MAX; lia). cbn [res_bind].
    assert (Hx : id_base a ∉ live).
    { intros Hin. pose proof (cid_inv_range live a l (id_base a) Hp ltac:(tauto)).
      lia. }
    eexists _, _. split; [done|]. right. split_and!; [done|lia|lia|].
    eexists _, l. split_and!; [done|done|simpl; lia|simpl; lia|done|done|].
    cbn [id_base]. rewrite elements_union_singleton by done.
    replace (id_base a + 1) with (Z.of_nat (S (Z.to_nat (id_base a)))) by lia. rewrite seqZ_S.
    rewrite Z2Nat.id, Z.add_0_l, <-Hp by lia. solve_Permutation.
Qed.

Lemma free_cid_inv max al live id :
  0 < max < 2 ^ 30 → cid_inv max al live → id ∈ live →
  ∃ al', free_cid al id = Ok al' ∧ cid_inv max al' (live ∖ {[id]}).
Proof.
  intros Hmax (a & l & -> & Hm & Hb & Hr & Hok & Hp) Hin. unfold free_cid.
  rewrite Hm, decide_False by lia.
  pose proof (cid_inv_size live l (id_base a) ltac:(lia) Hp) as Hsz.
  pose proof (cid_inv_range live a l id Hp ltac:(tauto)).
  assert (Hl : live = {[id]} ∪ live ∖ {[id]}) by (apply union_difference_singleton_L; done).
  assert (Hs : (0 < size live)%nat).
  { rewrite Hl, size_union by set_solver. rewrite size_singleton. lia. }
  destruct (heap_push_rep _id_cmp id_le _ l (id mod max) Hr Hok) as (hp' & l' & -> & Hr' & Hok' & Hp');
    [lia|].
  simpl. eexists. split; [done|]. rewrite Z.mod_small in Hp' by lia.
  eexists _, l'. split_and!; [done|done|simpl; lia|simpl; lia|done|done|].
  cbn [id_base]. rewrite Hp', <-Hp. rewrite Hl at 2.
  rewrite elements_union_singleton by set_solver. solve_Permutation.
Qed.

Lemma cid_reach_inv t max al live :
  0 < max < 2 ^ 30 → cid_reach t max al live → cid_inv max al live.
Proof.
  intros Hmax Hreach.
  induction Hreach as [|al live id al' _ IH Ha Hid|al live al' _ IH Ha|al live id al' _ IH Hin Hf].
  - apply cid_inv_init. lia.
  - destruct (alloc_cid_inv t max al live Hmax IH) as (id2 & al2 & Ha2 & Hcase).
    rewrite Ha in Ha2. injection Ha2 as <- <-. naive_solver.
  - destruct (alloc_cid_inv t max al live Hmax IH) as (id2 & al2 & Ha2 & Hcase).
    rewrite Ha in Ha2. injection Ha2 as <- <-. destruct Hcase as [(_ & _ & ?)|(_ & Hr & _)]; [done|].
    assert (CID_FAIL = 2 ^ 64 - 1) by done. lia.
  - destruct (free_cid_inv max al live id Hmax IH Hin) as (al2 & Hf2 & Hinv).
    rewrite Hf in Hf2. by injection Hf2 as <-.
Qed.

(** C28. In every state a client reaches by allocating ids and freeing the ones
    it holds, [alloc_cid] returns an id that nobody holds and that is below
    [max_id]; it fails, with -1, exactly when all [max_id] ids are held. *)
Theorem alloc_cid_fresh t max al live :
  0 < max < 2 ^ 30 → cid_reach t max al live →
  ∃ id al', alloc_cid t al = Ok (id, al') ∧
    (Z.of_nat (size live) < max → (id ∉ live) ∧ 0 ≤ id < max) ∧
    (Z.of_nat (size live) = max → id = CID_FAIL) ∧ Z.of_nat (size live) ≤ max.
Proof.
  intros Hmax Hreach. pose proof (cid_reach_inv _ _ _ _ Hmax Hreach) as Hinv.
  assert (Hle : Z.of_nat (size live) ≤ max).
  { destruct Hinv as (a & l & -> & Hm & Hb & Hr & Hok & Hp).
    pose proof (cid_inv_size live l (id_base a) ltac:(lia) Hp). lia. }
  destruct (alloc_cid_inv t max al live Hmax Hinv) as (id & al' & Ha & [(-> & Hs & _)|(Hn & Hr & Hi)]).
  - exists CID_FAIL, al'. split_and!; [done|lia|done|done].
  - exists id, al'. split_and!; [done|done| |done]. intros Hs.
    destruct Hi as (a & l & -> & Hm & Hb & _ & _ & Hp).
    pose proof (cid_inv_size _ l (id_base a) ltac:(lia) Hp) as Hsz.
    rewrite size_union, size_singleton in Hsz by set_solver. lia.
Qed.

(** C36. Freeing a held id always succeeds, and once all ids have been handed
    out the next allocation returns the freed one: ids are never lost. *)
Theorem free_alloc_roundtrip t max al live id :
  0 < max < 2 ^ 30 → cid_reach t max al live → id ∈ live → Z.of_nat (size live) = max →
  ∃ al' al'', free_cid al id = Ok al' ∧ alloc_cid t al' = Ok (id, al'').
Proof.
  intros Hmax Hreach Hin Hs. pose proof (cid_reach_inv _ _ _ _ Hmax Hreach) as Hinv.
  assert (Hall : ∀ x, x ∈ live ↔ 0 ≤ x < max).
  { destruct Hinv as (a & l & -> & Hm & Hb & Hr & Hok & Hp).
    pose proof (cid_inv_size live l (id_base a) ltac:(lia) Hp) as Hsz.
    assert (l = []) as -> by (apply length_zero_iff_nil; lia). simpl in *.
    intros x. rewrite <-elem_of_elements, Hp, elem_of_seqZ. lia. }
  destruct (free_cid_inv max al live id Hmax Hinv Hin) as (al' & Hf & Hinv').
  destruct (alloc_cid_inv t max al' _ Hmax Hinv') as (id' & al'' & Ha & [(_ & Hs' & _)|(Hn & Hr & _)]).
  - exfalso. rewrite (union_difference_singleton_L id live), size_union, size_singleton in Hs
      by set_solver. lia.
  - exists al', al''. split; [done|]. rewrite Ha. do 2 f_equal. apply Hall in Hr.
    destruct (decide (id' = id)) as [?|Hne]; [done|]. destruct Hn.
    by rewrite elem_of_difference, elem_of_singleton.
Qed.

(** The failure value is not safe to give back.  A task created when all
    ids are taken keeps -1 as its id ([task_init] ignores the failure), and
    destroying it frees -1; from then on the allocator hands out an id that is
    still held. *)
Theorem free_cid_fail_duplicates t max al live :
  0 < max < 2 ^ 30 → cid_reach t max al live → Z.of_nat (size live) = max →
  ∃ al1 al2 al3 id, alloc_cid t al = Ok (CID_FAIL, al1) ∧ free_cid al1 CID_FAIL = Ok al2 ∧
    alloc_cid t al2 = Ok (id, al3) ∧ id ∈ live.
Proof.
  intros Hmax Hreach Hs. pose proof (cid_reach_inv _ _ _ _ Hmax Hreach) as Hinv.
  destruct (alloc_cid_inv t max al live Hmax Hinv) as (id & al1 & Ha & [(-> & _ & Hi)|(Hn & Hr & Hi)]).
  2: { exfalso. destruct Hi as (a & l & -> & Hm & Hb & _ & _ & Hp).
    pose proof (cid_inv_size _ l (id_base a) ltac:(lia) Hp) as Hsz.
    rewrite size_union, size_singleton in Hsz by set_solver. lia. }
  destruct Hi as (a & l & -> & Hm & Hb & Hr & Hok & Hp).
  pose proof (cid_inv_size live l (id_base a) ltac:(lia) Hp) as Hsz.
  assert (l = []) as -> by (apply length_zero_iff_nil; lia). simpl in Hp.
  set (x := CID_FAIL mod max). assert (Hx : 0 ≤ x < max) by (apply Z.mod_pos_bound; lia).
  destruct (heap_push_rep _id_cmp id_le _ [] x Hr Hok) as (hp & l' & Hpush & Hr' & Hok' & Hp'); [done|].
  apply Permutation_singleton_r in Hp' as ->.
  destruct (heap_pop_rep _id_cmp id_le hp x [] Hr' Hok') as (hp2 & l2 & Hpop & _).
  eexists _, _, _, _. split; [done|]. unfold free_cid. rewrite Hm, decide_False by lia.
  fold x. rewrite Hpush. split; [done|]. unfold alloc_cid. cbn [deref res_bind snd fst recycle].
  cbn [id_base max_id]. rewrite ?Hm, u64_small by lia. rewrite decide_True by lia.
  rewrite Hpop. cbn [res_bind fst snd deref]. rewrite decide_False by lia. split; [done|].
  rewrite s32_small, u64_small by lia. rewrite <-elem_of_elements, Hp, elem_of_seqZ. lia.
Qed.

(** * Examples *)

(** Two ids, both held. *)
Definition ex_cid : option id_dispatch_t :=
  Some (IdDispatch (heap_init (Some _id_cmp)) 2 2 (s32 (u64 (7 * 2)))).

Lemma ex_cid_reach : cid_reach 7 2 ex_cid {[1; 0]}.
Proof.
  change {[1; 0]} with ({[1]} ∪ {[0]} : gset Z).
  eapply (cid_reach_alloc 7 2 (Some (IdDispatch (heap_init (Some _id_cmp)) 1 2 _)) {[0]} 1);
    [|reflexivity|done].
  rewrite <-(union_empty_r_L {[0]}).
  eapply (cid_reach_alloc 7 2 _ ∅ 0); [apply cid_reach_init|reflexivity|done].
Qed.

Lemma alloc_cid_fresh_witness :
  ∃ id al', alloc_cid 7 ex_cid = Ok (id, al') ∧
    (Z.of_nat (size ({[1; 0]} : gset Z)) < 2 → (id ∉ ({[1; 0]} : gset Z)) ∧ 0 ≤ id < 2) ∧
    (Z.of_nat (size ({[1; 0]} : gset Z)) = 2 → id = CID_FAIL) ∧
    Z.of_nat (size ({[1; 0]} : gset Z)) ≤ 2.
Proof. apply (alloc_cid_fresh 7 2); [lia|apply ex_cid_reach]. Defined.

Lemma free_alloc_roundtrip_witness :
  ∃ al' al'', free_cid ex_cid 1 = Ok al' ∧ alloc_cid 7 al' = Ok (1, al'').
Proof. by apply (free_alloc_roundtrip 7 2 ex_cid {[1; 0]}); [lia|apply ex_cid_reach|set_solver|]. Defined.

Lemma free_cid_fail_duplicates_witness :
  ∃ al1 al2 al3 id, alloc_cid 7 ex_cid = Ok (CID_FAIL, al1) ∧ free_cid al1 CID_FAIL = Ok al2 ∧
    alloc_cid 7 al2 = Ok (id, al3) ∧ id ∈ ({[1; 0]} : gset Z).
Proof. by apply (free_cid_fail_duplicates 7 2 ex_cid {[1; 0]}); [lia|apply ex_cid_reach|]. Defined.
