(* ===== verification/BitMap.v ===== *)
(** bit_map.c: a set of small numbers, one bit each in an array of [char].

    A cell is a signed [char] in [-128, 127], as on the platforms libcask
    targets; [|=] and [&=] work on the promoted [int] and convert back.  A
    [NULL] map is [None]; the destroyed map has size 0. *)

From Stdlib Require Import ZArith Lia.
From stdpp Require Import base numbers sets gmap list.
From S2P Require Import Prelude.
Open Scope Z_scope.

Definition BIT_MAP_BASE : Z := 8.

(** [map->map]: the cells of the calloc'ed block, [None] for the NULL pointer. *)
Record bit_map_t := BitMap { bm_map : option (list Z); bm_size : Z }.

(** [while((base <<= 1) < max_num) count++]; the unused local [mn] is left out. *)
Fixpoint bit_map_size_loop (fuel : nat) (max_num base count : Z) : res Z :=
  match fuel with
  | O => OutOfFuel
  | S fuel =>
      let base := u64 (Z.shiftl base 1) in
      if decide (base < max_num) then bit_map_size_loop fuel max_num base (u64 (count + 1))
      else Ok count
  end.

Definition get_bit_map_size (max_num : Z) : res Z :=
  bit_map_size_loop 64 max_num BIT_MAP_BASE 0.

Definition get_bit_map_index (num : Z) : Z := num / BIT_MAP_BASE.
Definition get_bit_map_loc (num : Z) : Z := s8 (Z.land num (BIT_MAP_BASE - 1)).
Definition set_bit (c n : Z) : Z := s8 (Z.lor c (Z.shiftl 1 n)).
Definition unset_bit (c n : Z) : Z := s8 (Z.land c (Z.lnot (Z.shiftl 1 n))).
Definition get_bit (c n : Z) : Z := Z.land c (Z.shiftl 1 n).

(** [map->map = calloc(map->size, 1)]. *)
Definition bit_map_init (map : option bit_map_t) (max_num : Z) : res (option bit_map_t) :=
  match map with
  | None => Ok None
  | Some _ =>
      let* size := get_bit_map_size max_num in
      Ok (Some (BitMap (Some (replicate (Z.to_nat size) 0)) size))
  end.

(** [map == NULL || num >= BIT_MAP_BASE * map->size]. *)
Definition out_of_map (map : bit_map_t) (num : Z) : bool :=
  bool_decide (u64 (BIT_MAP_BASE * bm_size map) ≤ num).

(** [c = map->map[idx]; map->map[idx] = f c]. *)
Definition update_cell (map : bit_map_t) (idx : Z) (f : Z → Z) : res bit_map_t :=
  let* cells := deref (bm_map map) in
  let* c := deref (cells !! Z.to_nat idx) in
  Ok (BitMap (Some (<[Z.to_nat idx := f c]> cells)) (bm_size map)).

Definition bit_map_set (map : option bit_map_t) (num : Z) : res (Z * option bit_map_t) :=
  match map with
  | None => Ok (-1, None)
  | Some b =>
      if out_of_map b num then Ok (-1, Some b) else
      let idx := get_bit_map_index num in
      let loc := get_bit_map_loc num in
      let* b := update_cell b idx (λ c, set_bit c loc) in
      Ok (0, Some b)
  end.

Definition bit_map_unset (map : option bit_map_t) (num : Z) : res (Z * option bit_map_t) :=
  match map with
  | None => Ok (-1, None)
  | Some b =>
      if out_of_map b num then Ok (-1, Some b) else
      let idx := get_bit_map_index num in
      let loc := get_bit_map_loc num in
      let* b := update_cell b idx (λ c, unset_bit c loc) in
      Ok (0, Some b)
  end.

Definition bit_map_get (map : option bit_map_t) (num : Z) : res Z :=
  match map with
  | None => Ok (-1)
  | Some b =>
      if out_of_map b num then Ok (-1) else
      let idx := get_bit_map_index num in
      let loc := get_bit_map_loc num in
      let* cells := deref (bm_map b) in
      let* c := deref (cells !! Z.to_nat idx) in
      Ok (get_bit c loc)
  end.

Definition bit_map_get_max_num (map : option bit_map_t) : Z :=
  match map with
  | None => 0
  | Some b => u32 (u64 (u64 (bm_size b * BIT_MAP_BASE) - 1))
  end.

(** [bzero(map->map, map->size)]. *)
Definition bit_map_clear (map : option bit_map_t) : option bit_map_t :=
  match map with
  | None => None
  | Some b => Some (BitMap ((λ cells, replicate (length cells) 0) <$> bm_map b) (bm_size b))
  end.

Definition bit_map_destory (map : option bit_map_t) : option bit_map_t :=
  match map with
  | None => None
  | Some _ => Some (BitMap None 0)
  end.

(** * Bits of a cell *)

Lemma s8_testbit z k : 0 ≤ k < 8 → Z.testbit (s8 z) k = Z.testbit z k.
Proof.
  intros Hk. rewrite <-(Z.mod_pow2_bits_low (s8 z) 8), <-(Z.mod_pow2_bits_low z 8) by lia.
  f_equal. unfold s8.
  rewrite Zminus_mod, Z.mod_mod, <-Zminus_mod by lia. f_equal. lia.
Qed.

Lemma bit_testbit n k : 0 ≤ n → Z.testbit (Z.shiftl 1 n) k = (n =? k).
Proof. intros Hn. by rewrite Z.shiftl_1_l, Z.pow2_bits_eqb. Qed.

Lemma set_bit_testbit c n k :
  0 ≤ n → 0 ≤ k < 8 → Z.testbit (set_bit c n) k = (Z.testbit c k || (n =? k)).
Proof. intros. unfold set_bit. by rewrite s8_testbit, Z.lor_spec, bit_testbit. Qed.

Lemma unset_bit_testbit c n k :
  0 ≤ n → 0 ≤ k < 8 → Z.testbit (unset_bit c n) k = (Z.testbit c k && negb (n =? k)).
Proof.
  intros. unfold unset_bit. by rewrite s8_testbit, Z.land_spec, Z.lnot_spec, bit_testbit by lia.
Qed.

Lemma get_bit_value c n : 0 ≤ n → get_bit c n = if Z.testbit c n then 2 ^ n else 0.
Proof.
  intros Hn. unfold get_bit. apply Z.bits_inj_iff'. intros k Hk.
  rewrite Z.land_spec, bit_testbit by lia. destruct (Z.eqb_spec n k) as [<-|Hne].
  - destruct (Z.testbit c n); [by rewrite Z.pow2_bits_true|by rewrite Z.bits_0].
  - rewrite andb_false_r. destruct (Z.testbit c n); [by rewrite Z.pow2_bits_false|by rewrite Z.bits_0].
Qed.

Lemma get_bit_map_loc_mod num : 0 ≤ num → get_bit_map_loc num = num mod 8.
Proof.
  intros. unfold get_bit_map_loc, BIT_MAP_BASE. change (8 - 1) with (Z.ones 3).
  rewrite Z.land_ones by lia. change (2 ^ 3) with 8.
  pose proof (Z.mod_pos_bound num 8). unfold s8. rewrite Z.mod_small; lia.
Qed.

(** * Refinement: a bit map is a finite set *)

Definition has_bit (cells : list Z) (n : Z) : bool :=
  Z.testbit (cells !!! Z.to_nat (n / 8)) (n mod 8).

Record bit_map_rep (b : bit_map_t) (X : gset Z) : Prop := {
  bm_rep_size : 0 ≤ bm_size b < 2 ^ 32;
  bm_rep_cells : ∃ cells, bm_map b = Some cells ∧ Z.of_nat (length cells) = bm_size b ∧
    ∀ n, 0 ≤ n < 8 * bm_size b → (has_bit cells n = true ↔ n ∈ X)
}.

Inductive bm_op := BSet (n : Z) | BUnset (n : Z) | BGet (n : Z) | BClear.

Definition bm_op_num (op : bm_op) : Z :=
  match op with BSet n | BUnset n | BGet n => n | BClear => 0 end.

(** The code: the value returned (0 for the [void] clear) and the new map. *)
Definition bm_run (map : option bit_map_t) (op : bm_op) : res (Z * option bit_map_t) :=
  match op with
  | BSet n => bit_map_set map n
  | BUnset n => bit_map_unset map n
  | BGet n => let* r := bit_map_get map n in Ok (r, map)
  | BClear => Ok (0, bit_map_clear map)
  end.

(** The specification: a set of numbers below [8 * size]. *)
Definition set_run (size : Z) (X : gset Z) (op : bm_op) : Z * gset Z :=
  match op with
  | BSet n => if decide (n < 8 * size) then (0, {[n]} ∪ X) else (-1, X)
  | BUnset n => if decide (n < 8 * size) then (0, X ∖ {[n]}) else (-1, X)
  | BGet n => (if decide (n < 8 * size) then (if decide (n ∈ X) then 2 ^ (n mod 8) else 0) else -1, X)
  | BClear => (0, ∅)
  end.

Fixpoint bm_exec (map : option bit_map_t) (ops : list bm_op) : res (list Z * option bit_map_t) :=
  match ops with
  | [] => Ok ([], map)
  | op :: ops =>
      let* r := bm_run map op in
      let* q := bm_exec r.2 ops in
      Ok (r.1 :: q.1, q.2)
  end.

Fixpoint set_exec (size : Z) (X : gset Z) (ops : list bm_op) : list Z * gset Z :=
  match ops with
  | [] => ([], X)
  | op :: ops =>
      let r := set_run size X op in
      let q := set_exec size r.2 ops in
      (r.1 :: q.1, q.2)
  end.

Lemma out_of_map_spec b X n :
  bit_map_rep b X → out_of_map b n = bool_decide (8 * bm_size b ≤ n).
Proof. intros [Hs _]. unfold out_of_map, BIT_MAP_BASE. rewrite u64_small by lia. done. Qed.

(** Cells and bits: a number is its cell and its place in the cell. *)
Lemma num_eq n k : 0 ≤ n → 0 ≤ k → n = k ↔ Z.to_nat (n / 8) = Z.to_nat (k / 8) ∧ n mod 8 = k mod 8.
Proof.
  intros. pose proof (Z.div_mod n 8). pose proof (Z.div_mod k 8).
  pose proof (Z.div_pos n 8). pose proof (Z.div_pos k 8). split; [by intros ->|]. lia.
Qed.

Lemma has_bit_update cells f (g : bool → bool → bool) n k :
  0 ≤ n < 8 * Z.of_nat (length cells) → 0 ≤ k →
  (∀ c j, 0 ≤ j < 8 → Z.testbit (f c) j = g (Z.testbit c j) (n mod 8 =? j)) →
  (∀ v, g v false = v) →
  has_bit (<[Z.to_nat (n / 8) := f (cells !!! Z.to_nat (n / 8))]> cells) k =
  g (has_bit cells k) (n =? k).
Proof.
  intros Hn Hk Hf Hg. unfold has_bit. pose proof (Z.mod_pos_bound k 8).
  pose proof (num_eq n k) as Hnk.
  assert (Hi : (Z.to_nat (n / 8) < length cells)%nat).
  { pose proof (Z.div_lt_upper_bound n 8 (Z.of_nat (length cells))).
    pose proof (Z.div_pos n 8). lia. }
  destruct (decide (Z.to_nat (n / 8) = Z.to_nat (k / 8))) as [E|E].
  - rewrite <-E, list_lookup_total_insert_eq by done. rewrite Hf by lia. f_equal.
    destruct (Z.eqb_spec (n mod 8) (k mod 8)), (Z.eqb_spec n k); try done; exfalso; naive_solver lia.
  - rewrite list_lookup_total_insert_ne by done.
    destruct (Z.eqb_spec n k) as [->|_]; [done|]. by rewrite Hg.
Qed.

Lemma update_cell_rep b X Y n f (g : bool → bool → bool) :
  bit_map_rep b X → 0 ≤ n < 8 * bm_size b →
  (∀ c j, 0 ≤ j < 8 → Z.testbit (f c) j = g (Z.testbit c j) (n mod 8 =? j)) →
  (∀ v, g v false = v) →
  (∀ k v, (v = true ↔ k ∈ X) → g v (n =? k) = true ↔ k ∈ Y) →
  ∃ b', update_cell b (get_bit_map_index n) f = Ok b' ∧ bit_map_rep b' Y ∧
    bm_size b' = bm_size b.
Proof.
  intros [Hs (cells & Hc & Hlen & Hbits)] Hn Hf Hg HY. unfold update_cell. rewrite Hc. simpl.
  unfold get_bit_map_index, BIT_MAP_BASE.
  destruct (lookup_lt_is_Some_2 cells (Z.to_nat (n / 8))) as [c Hcell].
  { pose proof (Z.div_lt_upper_bound n 8 (bm_size b)). pose proof (Z.div_pos n 8). lia. }
  rewrite Hcell. simpl. eexists. split; [done|]. split; [|done]. split; [done|].
  eexists. split; [done|]. split; [by rewrite length_insert|]. simpl. intros k Hk.
  apply list_lookup_total_correct in Hcell. subst c.
  rewrite (has_bit_update cells f g) by (done || lia). by apply HY, Hbits.
Qed.

Lemma bm_run_refines b X op :
  bit_map_rep b X → 0 ≤ bm_op_num op →
  ∃ b', bm_run (Some b) op = Ok ((set_run (bm_size b) X op).1, Some b') ∧
    bit_map_rep b' (set_run (bm_size b) X op).2 ∧ bm_size b' = bm_size b.
Proof.
  intros Hr Hn. pose proof (out_of_map_spec b X (bm_op_num op) Hr) as Hout.
  destruct op as [n|n|n|]; simpl in *.
  - unfold bit_map_set. rewrite Hout, get_bit_map_loc_mod by done.
    destruct (decide (n < 8 * bm_size b)); case_bool_decide; try lia; [|by exists b].
    destruct (update_cell_rep b X ({[n]} ∪ X) n (λ c, set_bit c (n mod 8)) orb)
      as (b' & -> & ? & ?); [done|lia| | | |by exists b'].
    + intros. apply set_bit_testbit; [|done]. by apply Z.mod_pos_bound.
    + apply orb_false_r.
    + intros k v Hv. rewrite orb_true_iff, Hv, Z.eqb_eq. set_solver.
  - unfold bit_map_unset. rewrite Hout, get_bit_map_loc_mod by done.
    destruct (decide (n < 8 * bm_size b)); case_bool_decide; try lia; [|by exists b].
    destruct (update_cell_rep b X (X ∖ {[n]}) n (λ c, unset_bit c (n mod 8)) (λ v e, v && negb e))
      as (b' & -> & ? & ?); [done|lia| | | |by exists b'].
    + intros. apply unset_bit_testbit; [|done]. by apply Z.mod_pos_bound.
    + apply andb_true_r.
    + intros k v Hv. rewrite andb_true_iff, Hv, negb_true_iff, Z.eqb_neq. set_solver.
  - unfold bit_map_get. rewrite Hout, get_bit_map_loc_mod by done.
    destruct (decide (n < 8 * bm_size b)); case_bool_decide; try lia; [|by exists b].
    exists b. split_and!; [|done|done].
    pose proof Hr as [Hs (cells & Hc & Hlen & Hbits)]. rewrite Hc. simpl.
    unfold get_bit_map_index, BIT_MAP_BASE.
    destruct (lookup_lt_is_Some_2 cells (Z.to_nat (n / 8))) as [c Hcell].
    { pose proof (Z.div_lt_upper_bound n 8 (bm_size b)). pose proof (Z.div_pos n 8). lia. }
    rewrite Hcell. simpl. rewrite get_bit_value by (by apply Z.mod_pos_bound).
    specialize (Hbits n). unfold has_bit in Hbits. rewrite (list_lookup_total_correct _ _ _ Hcell) in Hbits.
    case_decide; destruct (Z.testbit c (n mod 8)); naive_solver lia.
  - exists (BitMap ((λ cells, replicate (length cells) 0) <$> bm_map b) (bm_size b)).
    pose proof Hr as [Hs (cells & Hc & Hlen & Hbits)].
    split_and!; [done| |done]. split; [done|]. rewrite Hc. simpl.
    eexists. split; [done|]. split; [by rewrite length_replicate|]. intros n Hk.
    unfold has_bit. rewrite lookup_total_replicate_2, Z.testbit_0_l; [set_solver|].
    pose proof (Z.div_lt_upper_bound n 8 (bm_size b)). pose proof (Z.div_pos n 8). lia.
Qed.

(** C35. bit_map.c implements a finite set of the numbers below [8 * size]: any
    program of sets, unsets, gets and clears returns what the same program
    returns on a set, [-1] exactly for the numbers out of range, and no access
    leaves the array. *)
Theorem bit_map_refines b X ops :
  bit_map_rep b X → Forall (λ op, 0 ≤ bm_op_num op) ops →
  ∃ b', bm_exec (Some b) ops = Ok ((set_exec (bm_size b) X ops).1, Some b') ∧
    bit_map_rep b' (set_exec (bm_size b) X ops).2.
Proof.
  intros Hr Hops. revert b X Hr. induction Hops as [|op ops Hn _ IH]; intros b X Hr; simpl.
  - by exists b.
  - destruct (bm_run_refines b X op Hr Hn) as (b1 & -> & Hr1 & Hs). simpl.
    destruct (IH b1 _ Hr1) as (b2 & -> & Hr2). rewrite Hs in *. by exists b2.
Qed.

(** * The size of a new map *)

(** The loop counts doublings of the base, not cells. *)
Lemma bit_map_size_loop_spec fuel max_num base count :
  0 < base < max_num → max_num < 2 ^ 32 → 0 ≤ count → count + Z.of_nat fuel < 2 ^ 64 →
  max_num ≤ base * 2 ^ Z.of_nat fuel →
  ∃ c, bit_map_size_loop fuel max_num base count = Ok (count + c) ∧
    0 ≤ c ∧ base * 2 ^ c < max_num.
Proof.
  revert base count. induction fuel as [|fuel IH]; intros base count Hb Hm Hc Hcf Hf.
  { simpl in Hf. lia. }
  cbn [bit_map_size_loop]. rewrite Z.shiftl_mul_pow2 by lia. rewrite u64_small by lia.
  change (2 ^ 1) with 2. case_decide.
  - rewrite u64_small by lia.
    destruct (IH (base * 2) (count + 1)) as (c & -> & Hc' & Hlt); [lia..| |].
    + rewrite Nat2Z.inj_succ, Z.pow_succ_r in Hf by lia. lia.
    + exists (1 + c). rewrite Z.pow_add_r by lia. split_and!; [f_equal; lia|lia|lia].
  - exists 0. rewrite Z.add_0_r, Z.mul_1_r. split_and!; [done|lia|lia].
Qed.

Lemma get_bit_map_size_small max_num :
  0 < max_num < 2 ^ 32 →
  ∃ size, get_bit_map_size max_num = Ok size ∧ 0 ≤ size ∧ 8 * size < max_num.
Proof.
  intros Hm. unfold get_bit_map_size, BIT_MAP_BASE. destruct (decide (max_num ≤ 8)).
  - exists 0. split_and!; [|lia|lia]. cbn [bit_map_size_loop].
    rewrite decide_False; [done|]. change (u64 (Z.shiftl 8 1)) with 16. lia.
  - destruct (bit_map_size_loop_spec 64 max_num 8 0) as (c & -> & Hc & Hlt); [lia..|].
    exists c. split_and!; [done|done|].
    pose proof (Z.pow_gt_lin_r 2 c ltac:(lia) ltac:(lia)). lia.
Qed.

Lemma bit_map_init_rep b max_num :
  0 < max_num < 2 ^ 32 →
  ∃ b', bit_map_init (Some b) max_num = Ok (Some b') ∧ bit_map_rep b' ∅ ∧
    8 * bm_size b' < max_num.
Proof.
  intros Hm. destruct (get_bit_map_size_small max_num Hm) as (size & Hs & H0 & Hlt).
  unfold bit_map_init. rewrite Hs. simpl. eexists. split; [done|]. split; [|done].
  split; simpl; [lia|]. eexists. split; [done|]. split; [rewrite length_replicate; lia|].
  intros n Hn. unfold has_bit. rewrite lookup_total_replicate_2, Z.testbit_0_l; [set_solver|].
  pose proof (Z.div_lt_upper_bound n 8 size). pose proof (Z.div_pos n 8). lia.
Qed.

(** C39. A map made by [bit_map_init(map, max_num)] never holds the number
    [max_num - 1]: the size computed is always too small, and setting the
    number fails with [-1]. *)
Theorem bit_map_init_too_small b max_num :
  0 < max_num < 2 ^ 32 →
  ∃ b', bit_map_init (Some b) max_num = Ok (Some b') ∧ bit_map_rep b' ∅ ∧
    bit_map_set (Some b') (max_num - 1) = Ok (-1, Some b').
Proof.
  intros Hm. destruct (bit_map_init_rep b max_num Hm) as (b' & Hi & Hr & Hlt).
  exists b'. split_and!; [done|done|]. unfold bit_map_set.
  rewrite (out_of_map_spec _ _ _ Hr), bool_decide_eq_true_2 by lia. done.
Qed.

(** * Examples *)

Definition ex_bit_map : bit_map_t := BitMap (Some [0; 0]) 2.

Lemma ex_bit_map_rep : bit_map_rep ex_bit_map ∅.
Proof.
  split; [simpl; lia|]. exists [0; 0]. split_and!; [done|done|]. intros n Hn.
  assert (has_bit [0; 0] n = false) as ->; [|set_solver]. unfold has_bit.
  assert (Z.to_nat (n / 8) = 0%nat ∨ Z.to_nat (n / 8) = 1%nat) as [->| ->].
  { simpl in Hn. pose proof (Z.div_lt_upper_bound n 8 2). pose proof (Z.div_pos n 8). lia. }
  all: apply Z.testbit_0_l.
Qed.

Lemma bit_map_refines_witness :
  ∃ b', bm_exec (Some ex_bit_map) [BSet 7; BSet 9; BGet 7; BUnset 7; BGet 7; BSet 16] =
      Ok ([0; 0; 128; 0; 0; -1], Some b') ∧ bit_map_rep b' ({[9]} ∪ ∅).
Proof.
  destruct (bit_map_refines ex_bit_map ∅ [BSet 7; BSet 9; BGet 7; BUnset 7; BGet 7; BSet 16])
    as (b' & He & Hr).
  - apply ex_bit_map_rep.
  - repeat constructor; simpl; lia.
  - exists b'. split; [exact He|].
    replace ({[9]} ∪ ∅) with (set_exec 2 ∅ [BSet 7; BSet 9; BGet 7; BUnset 7; BGet 7; BSet 16]).2;
      [exact Hr|]. vm_compute. reflexivity.
Defined.

Lemma bit_map_init_too_small_witness :
  ∃ b', bit_map_init (Some (BitMap None 0)) 1000 = Ok (Some b') ∧ bit_map_rep b' ∅ ∧
    bit_map_set (Some b') (1000 - 1) = Ok (-1, Some b').
Proof. apply (bit_map_init_too_small (BitMap None 0) 1000). lia. Defined.
