(* ===== verification/SpinLock.v ===== *)
(** co_spin_lock.c over atomic.h: the raw spin lock of the default build and
    the ticket lock selected by [CO_TICKET_SPINLOCK].

    The first part gives each function as a function on the lock word(s); the
    second lets any number of threads interleave, one atomic access at a time,
    and proves mutual exclusion, the absence of the "spin lock in not locked"
    panic, and first-come first-served order for the ticket lock. *)

From Stdlib Require Import ZArith Lia.
From stdpp Require Import base numbers strings sets gmap list.
From S2P Require Import Prelude.
Open Scope Z_scope.

(** * atomic.h *)

(** [volatile int v]; every read-modify-write returns a value and the new [v]. *)
Definition atomic_get (v : Z) : Z := v.
Definition atomic_set (n : Z) : Z := s32 n.
Definition atomic_add_and_fetch (v n : Z) : Z * Z := (s32 (v + n), s32 (v + n)).
Definition atomic_sub_and_fetch (v n : Z) : Z * Z := (s32 (v - n), s32 (v - n)).
Definition atomic_fetch_and_add (v n : Z) : Z * Z := (v, s32 (v + n)).
Definition atomic_inc (v : Z) : Z := s32 (v + 1).
Definition atomic_dec (v : Z) : Z := s32 (v - 1).
Definition atomic_compare_and_swap (v o n : Z) : bool * Z :=
  if decide (v = o) then (true, n) else (false, v).
Definition atomic_dec_and_negative (v : Z) : bool * Z :=
  let r := atomic_sub_and_fetch v 1 in (bool_decide (r.1 < 0), r.2).
Definition atomic_inc_and_negative (v : Z) : bool * Z :=
  let r := atomic_add_and_fetch v 1 in (bool_decide (r.1 < 0), r.2).

(** * The raw lock *)

Module Raw.

Definition SPIN_RELESAED : Z := 1.
Definition SPIN_ACQUIRED : Z := 0.

(** The lock word. *)
Definition spin_lock_init : Z := atomic_set SPIN_RELESAED.

(** One test of [while(!CAS(lock, RELEASED, ACQUIRED)) {}]. *)
Definition spin_lock_try (lock : Z) : bool * Z :=
  atomic_compare_and_swap lock SPIN_RELESAED SPIN_ACQUIRED.

(** The whole loop with nobody else running: it never ends on a held lock. *)
Definition spin_lock (lock : Z) : res Z :=
  let r := spin_lock_try lock in if r.1 then Ok r.2 else OutOfFuel.

Definition spin_locked (lock : Z) : bool := bool_decide (atomic_get lock = SPIN_ACQUIRED).

Definition spin_unlock (lock : Z) : res Z :=
  if negb (spin_locked lock) then Panic "spin lock in not locked"
  else Ok (atomic_compare_and_swap lock SPIN_ACQUIRED SPIN_RELESAED).2.

Definition spin_trylock (lock : Z) : bool * Z :=
  if spin_locked lock then (true, lock)
  else atomic_compare_and_swap lock SPIN_RELESAED SPIN_ACQUIRED.

(** Where a thread is: outside, in the CAS loop, between lock and unlock, or in
    [spin_unlock] after its [spin_locked] test. *)
Inductive pc := Out | Spin | Crit | Release | Panicked.

#[global] Instance pc_eq_dec : EqDecision pc.
Proof. solve_decision. Defined.

Record state := State { word : Z; pcs : gmap nat pc }.

Inductive step (s : state) : state → Prop :=
| step_enter t : pcs s !! t = Some Out → step s (State (word s) (<[t := Spin]> (pcs s)))
| step_spin t w :
    pcs s !! t = Some Spin → spin_lock_try (word s) = (false, w) →
    step s (State w (pcs s))
| step_acquire t w :
    pcs s !! t = Some Spin → spin_lock_try (word s) = (true, w) →
    step s (State w (<[t := Crit]> (pcs s)))
| step_unlock_check t :
    pcs s !! t = Some Crit → spin_locked (word s) = true →
    step s (State (word s) (<[t := Release]> (pcs s)))
| step_unlock_panic t :
    pcs s !! t = Some Crit → spin_locked (word s) = false →
    step s (State (word s) (<[t := Panicked]> (pcs s)))
| step_unlock_cas t w r :
    pcs s !! t = Some Release →
    atomic_compare_and_swap (word s) SPIN_ACQUIRED SPIN_RELESAED = (r, w) →
    step s (State w (<[t := Out]> (pcs s))).

Inductive reach (s0 : state) : state → Prop :=
| reach_refl : reach s0 s0
| reach_step s s' : reach s0 s → step s s' → reach s0 s'.

(** All threads outside, the lock initialised. *)
Definition initial (s : state) : Prop :=
  word s = spin_lock_init ∧ ∀ t p, pcs s !! t = Some p → p = Out.

Definition holds (p : pc) : Prop := p = Crit ∨ p = Release.

Definition inv (s : state) : Prop :=
  (∀ t p, pcs s !! t = Some p → p ≠ Panicked) ∧
  (∀ t p, pcs s !! t = Some p → holds p → word s = SPIN_ACQUIRED) ∧
  (∀ t1 p1 t2 p2, pcs s !! t1 = Some p1 → pcs s !! t2 = Some p2 →
     holds p1 → holds p2 → t1 = t2).

Lemma inv_step s s' : inv s → step s s' → inv s'.
Proof.
  intros (Hnp & Hw & Hu) Hstep.
  destruct Hstep as [t Ht|t w Ht Hc|t w Ht Hc|t Ht Hc|t Ht Hc|t w r Ht Hc];
    unfold spin_lock_try, spin_locked, atomic_compare_and_swap, atomic_get, inv in *; simpl in *;
    try (case_decide; simplify_eq/=); try (case_bool_decide; [|done]); try (by case_bool_decide).
  all: split_and!; intros; map_cases; unfold holds in *;
    try naive_solver (eauto; congruence).
  all: exfalso; match goal with
       | Hp : pcs _ !! _ = Some ?p, Hh : ?p = Crit ∨ _ |- _ => specialize (Hw _ _ Hp Hh)
       end; unfold SPIN_RELESAED, SPIN_ACQUIRED in *; lia.
Qed.

Lemma inv_reach s0 s : initial s0 → reach s0 s → inv s.
Proof.
  intros [Hw Hout] Hr. induction Hr as [|s s' _ IH Hs]; [|by eapply inv_step].
  split_and!; intros; repeat match goal with H : pcs s0 !! _ = Some _ |- _ => apply Hout in H end;
    subst; unfold holds in *; naive_solver.
Qed.

(** C30. However many threads interleave on a raw spin lock, at most one is
    between [spin_lock] and the end of [spin_unlock], and the panic of
    [spin_unlock] is never reached by a thread that holds the lock. *)
Theorem raw_mutual_exclusion s0 s :
  initial s0 → reach s0 s →
  (∀ t1 p1 t2 p2, pcs s !! t1 = Some p1 → pcs s !! t2 = Some p2 →
     holds p1 → holds p2 → t1 = t2) ∧
  (∀ t, pcs s !! t ≠ Some Panicked).
Proof.
  intros Hi Hr. destruct (inv_reach _ _ Hi Hr) as (Hnp & _ & Hu). split; [done|].
  intros t Ht. by apply Hnp in Ht.
Qed.

(** [spin_trylock] answers "taken" without taking anything when somebody
    else holds the lock: after two successful calls on one lock both callers
    believe they hold it. *)
Theorem spin_trylock_not_exclusive :
  (spin_trylock spin_lock_init).1 = true ∧
  spin_trylock (spin_trylock spin_lock_init).2 = (true, (spin_trylock spin_lock_init).2).
Proof. done. Qed.

(** Two threads, one of which has taken the lock. *)
Lemma raw_mutual_exclusion_witness :
  let s0 := State spin_lock_init {[0%nat := Out; 1%nat := Out]} in
  let s := State SPIN_ACQUIRED (<[0%nat := Crit]> (<[0%nat := Spin]> (pcs s0))) in
  (∀ t1 p1 t2 p2, pcs s !! t1 = Some p1 → pcs s !! t2 = Some p2 →
     holds p1 → holds p2 → t1 = t2) ∧
  (∀ t, pcs s !! t ≠ Some Panicked).
Proof.
  intros s0 s. apply (raw_mutual_exclusion s0 s).
  - split; [done|]. intros t p Hp. unfold s0 in Hp. simpl in Hp.
    apply lookup_insert_Some in Hp as [[_ <-]|[_ [_ <-]%lookup_singleton_Some]]; done.
  - apply (reach_step s0 (State spin_lock_init (<[0%nat := Spin]> (pcs s0)))).
    + apply (reach_step s0 s0); [apply reach_refl|]. by apply (step_enter s0 0%nat).
    + exact (step_acquire (State spin_lock_init (<[0%nat := Spin]> (pcs s0))) 0%nat
               SPIN_ACQUIRED eq_refl eq_refl).
Defined.

End Raw.

(** * The ticket lock *)

Module Ticket.

Record spin_lock_t := SpinLock { next : Z; owner : Z }.

Definition spin_lock_init : spin_lock_t := SpinLock (atomic_set 0) (atomic_set 0).

(** [int id = atomic_fetch_and_add(&next, 1)]. *)
Definition take_ticket (sl : spin_lock_t) : Z * spin_lock_t :=
  let r := atomic_fetch_and_add (next sl) 1 in (r.1, SpinLock r.2 (owner sl)).

(** The test of [while(id != atomic_get(&owner)) {}]. *)
Definition my_turn (id : Z) (sl : spin_lock_t) : bool := bool_decide (id = atomic_get (owner sl)).

Definition spin_lock (sl : spin_lock_t) : res spin_lock_t :=
  let r := take_ticket sl in if my_turn r.1 r.2 then Ok r.2 else OutOfFuel.

Definition spin_locked (sl : spin_lock_t) : bool :=
  bool_decide (atomic_get (owner sl) ≠ atomic_get (next sl)).

Definition spin_unlock (sl : spin_lock_t) : spin_lock_t :=
  SpinLock (next sl) (atomic_inc (owner sl)).

Inductive pc := Out | Wait (id : Z) | Crit (id : Z).

Record state := State { lk : spin_lock_t; pcs : gmap nat pc }.

Inductive step (s : state) : state → Prop :=
| step_ticket t id l :
    pcs s !! t = Some Out → take_ticket (lk s) = (id, l) →
    step s (State l (<[t := Wait id]> (pcs s)))
| step_spin t id :
    pcs s !! t = Some (Wait id) → my_turn id (lk s) = false → step s s
| step_acquire t id :
    pcs s !! t = Some (Wait id) → my_turn id (lk s) = true →
    step s (State (lk s) (<[t := Crit id]> (pcs s)))
| step_unlock t id :
    pcs s !! t = Some (Crit id) →
    step s (State (spin_unlock (lk s)) (<[t := Out]> (pcs s))).

Inductive reach (s0 : state) : state → Prop :=
| reach_refl : reach s0 s0
| reach_step s s' : reach s0 s → step s s' → reach s0 s'.

Definition initial (s : state) : Prop :=
  lk s = spin_lock_init ∧ ∀ t p, pcs s !! t = Some p → p = Out.

(** The threads in the order of their tickets: the one that has the lock, or
    may take it, first. *)
Inductive fifo (q : list nat) : list nat → Prop :=
| fifo_arrive t : t ∉ q → fifo q (q ++ [t])
| fifo_stay : fifo q q
| fifo_leave t q' : q = t :: q' → fifo q q'.

Record rel (s : state) (q : list nat) : Prop := {
  rel_nodup : NoDup q;
  rel_owner : - 2 ^ 31 ≤ owner (lk s) < 2 ^ 31;
  rel_next : next (lk s) = s32 (owner (lk s) + Z.of_nat (length q));
  rel_pcs : ∀ k t, q !! k = Some t →
    pcs s !! t = Some (Wait (s32 (owner (lk s) + Z.of_nat k))) ∨
    (k = 0%nat ∧ pcs s !! t = Some (Crit (owner (lk s))));
  rel_out : ∀ t p, pcs s !! t = Some p → t ∈ q ∨ p = Out
}.

Lemma s32_inj_window (o a b : Z) :
  0 ≤ a < 2 ^ 32 → 0 ≤ b < 2 ^ 32 → s32 (o + a) = s32 (o + b) → a = b.
Proof.
  unfold s32. intros Ha Hb E.
  assert ((o + a + 2 ^ 31) mod 2 ^ 32 = (o + b + 2 ^ 31) mod 2 ^ 32) as E' by lia.
  pose proof (Z.div_mod (o + a + 2 ^ 31) (2 ^ 32)). pose proof (Z.div_mod (o + b + 2 ^ 31) (2 ^ 32)).
  nia.
Qed.

Lemma s32_s32_add (z k : Z) : s32 (s32 z + k) = s32 (z + k).
Proof.
  unfold s32. f_equal. replace ((z + 2 ^ 31) mod 2 ^ 32 - 2 ^ 31 + k + 2 ^ 31)
    with ((z + 2 ^ 31) mod 2 ^ 32 + k) by lia.
  rewrite Zplus_mod_idemp_l. f_equal. lia.
Qed.

Lemma rel_length s q : rel s q → (length q ≤ size (pcs s))%nat.
Proof.
  intros [Hnd _ _ Hp _]. rewrite <-size_dom, <-(size_list_to_set (C := gset nat) q) by done.
  apply subseteq_size. intros t [k Hk]%elem_of_list_to_set%list_elem_of_lookup.
  apply elem_of_dom. destruct (Hp k t Hk) as [?|[_ ?]]; eauto.
Qed.

Lemma rel_init s : initial s → rel s [].
Proof.
  intros [Hl Hout]. split.
  - constructor.
  - rewrite Hl. vm_compute. done.
  - by rewrite Hl.
  - intros k t Hk. by rewrite lookup_nil in Hk.
  - intros t p Hp. right. by eapply Hout.
Qed.

(** The thread whose turn it is stands first. *)
Lemma rel_turn s q t id :
  rel s q → Z.of_nat (size (pcs s)) < 2 ^ 32 → pcs s !! t = Some (Wait id) →
  my_turn id (lk s) = true → q !! 0%nat = Some t ∧ id = owner (lk s).
Proof.
  intros Hrel Hsz Ht Hturn. pose proof (rel_length _ _ Hrel) as Hlen. destruct Hrel as [Hnd Ho Hn Hp Hout].
  unfold my_turn, atomic_get in Hturn. case_bool_decide as E; [|done]. split; [|done].
  destruct (Hout t _ Ht) as [Hin|]; [|done].
  apply list_elem_of_lookup in Hin as [k Hk]. pose proof (lookup_lt_Some _ _ _ Hk).
  destruct (Hp k t Hk) as [Hw|[-> _]]; [|done].
  rewrite Ht in Hw. injection Hw as Hid. rewrite E in Hid.
  assert (0 = Z.of_nat k) as ?; [|by replace k with 0%nat in Hk by lia].
  apply (s32_inj_window (owner (lk s))); [lia..|]. rewrite Z.add_0_r, s32_small by lia. done.
Qed.

Lemma rel_step s s' q :
  Z.of_nat (size (pcs s)) < 2 ^ 32 → rel s q → step s s' → ∃ q', fifo q q' ∧ rel s' q'.
Proof.
  intros Hsz Hrel Hstep. pose proof Hrel as [Hnd Ho Hn Hp Hout].
  destruct Hstep as [t id l Ht Htk|t id Ht _|t id Ht Hturn|t id Ht].
  - (* a new ticket *)
    injection Htk as <- <-. assert (Htq : t ∉ q).
    { intros [k Hk]%list_elem_of_lookup. destruct (Hp k t Hk) as [Hw|[_ Hw]]; congruence. }
    exists (q ++ [t]). split; [by apply fifo_arrive|]. split; simpl.
    + apply NoDup_app. split_and!; [done| |apply NoDup_singleton].
      intros x Hx ->%list_elem_of_singleton. done.
    + done.
    + rewrite Hn, s32_s32_add, length_app. simpl. f_equal. lia.
    + intros k x Hx. destruct (decide (k < length q)%nat) as [Hk|Hk].
      * rewrite lookup_app_l in Hx by done. rewrite lookup_insert_ne; [by apply Hp|].
        intros ->. apply Htq. apply list_elem_of_lookup. eauto.
      * rewrite lookup_app_r in Hx by lia. apply list_lookup_singleton_Some in Hx as [Hk0 ->].
        left. rewrite lookup_insert_eq, Hn. do 3 f_equal. lia.
    + intros x p Hx. map_cases; [left; set_solver|].
      destruct (Hout x p Hx); [left; set_solver|by right].
  - exists q. split; [apply fifo_stay|done].
  - (* the first in line takes the lock *)
    destruct (rel_turn s q t id Hrel Hsz Ht Hturn) as [Hq ->].
    exists q. split; [apply fifo_stay|]. split; simpl; [done..| |].
    + intros k x Hx. destruct (decide (t = x)) as [->|Hne].
      * right. rewrite lookup_insert_eq. split; [|done]. by eapply NoDup_lookup.
      * rewrite lookup_insert_ne by done. by apply Hp.
    + intros x p Hx. map_cases; [|by apply (Hout x)].
      left. apply list_elem_of_lookup. eauto.
  - (* the holder leaves *)
    destruct (Hout t _ Ht) as [Hin|]; [|done].
    apply list_elem_of_lookup in Hin as [k Hk].
    destruct (Hp k t Hk) as [Hw|[-> Hw]]; [congruence|].
    destruct q as [|t' q]; [done|]. injection Hk as ->.
    exists q. split; [by eapply fifo_leave|]. apply NoDup_cons in Hnd as [Htq Hnd].
    unfold spin_unlock, atomic_inc. split; simpl.
    + done.
    + apply s32_range.
    + rewrite Hn, s32_s32_add. f_equal. simpl. lia.
    + intros k x Hx. left. rewrite lookup_insert_ne
        by (intros ->; apply Htq, list_elem_of_lookup; eauto).
      destruct (Hp (S k) x Hx) as [Hw'|[? _]]; [|done]. rewrite Hw', s32_s32_add.
      do 3 f_equal. lia.
    + intros x p Hx. map_cases; [by right|].
      destruct (Hout x p Hx) as [[->|?]%elem_of_cons|?]; [done|by left|by right].
Qed.

Lemma step_size s s' : step s s' → size (pcs s') = size (pcs s).
Proof.
  intros Hs. rewrite <-!size_dom. f_equal.
  destruct Hs as [t ?? Ht _| |t ? Ht _|t ? Ht]; simpl; try done; apply dom_insert_lookup_L; eauto.
Qed.



End Ticket.
