(* ===== verification/TimeWheel.v ===== *)
(** time_wheel.c: the timer wheel, an array of intrusive lists indexed by the
    tick at which their members expire.

    [tw_wheel] names the malloc'ed array of list heads, slot [i] being the list
    head [tw_wheel + i].  The descriptor of the kernel timer is an argument of
    [new_time_wheel]; [timerfd_settime] only talks to the kernel. *)

From Stdlib Require Import ZArith Lia.
From stdpp Require Import base numbers sets gmap list.
From S2P Require Import Prelude IntrusiveList Links.
Open Scope Z_scope.

Definition MIN_TIME_WHEEL_SIZE : Z := 60.
Definition MIN_TIME_WHEEL_INTERVAL : Z := 1.

Record time_wheel_t := TimeWheel {
  tw_wheel : Z;
  tw_fd : Z;
  tw_size : Z;
  tw_interval : Z;
  tw_loc : Z
}.

Definition slot (tw : time_wheel_t) (i : Z) : laddr := LAddr LWheelSlot (tw_wheel tw + i).

(** [for(i = 0; i < tw->size; i++) list_init(&(tw->wheel[i]))]. *)
Fixpoint init_slots (n : nat) (tw : time_wheel_t) (i : Z) (m : lmem) : lmem :=
  match n with
  | O => m
  | S n => init_slots n tw (i + 1) (list_init m (slot tw i))
  end.

Definition new_time_wheel (wheel fd : Z) (m : lmem) (size interval : Z) : time_wheel_t * lmem :=
  let tw := TimeWheel wheel fd
    (if decide (size > MIN_TIME_WHEEL_SIZE) then size else MIN_TIME_WHEEL_SIZE)
    (if decide (interval < MIN_TIME_WHEEL_INTERVAL) then MIN_TIME_WHEEL_INTERVAL else interval)
    0 in
  (tw, init_slots (Z.to_nat (tw_size tw)) tw 0 m).

(** [close(tw->fd); free(tw->wheel); free(tw)]: the slots are gone. *)
Fixpoint free_slots (n : nat) (tw : time_wheel_t) (i : Z) (m : lmem) : lmem :=
  match n with
  | O => m
  | S n => free_slots n tw (i + 1) (delete (slot tw i) m)
  end.

Definition delete_time_wheel (tw : option time_wheel_t) (m : lmem) : lmem :=
  match tw with
  | Some tw => free_slots (Z.to_nat (tw_size tw)) tw 0 m
  | None => m
  end.

(** [tw->loc = (++(tw->loc)) % tw->size], with the store of the assignment
    last. *)
Definition wheel_rotate (tw : time_wheel_t) : res time_wheel_t :=
  if decide (tw_size tw = 0) then Undef else
  Ok (TimeWheel (tw_wheel tw) (tw_fd tw) (tw_size tw) (tw_interval tw)
        (u64 (tw_loc tw + 1) mod tw_size tw)).

Definition wheel_delete_element (m : lmem) (elm : laddr) : res lmem := list_delete m elm.

(** [int tv = (tw->loc + timeout + 1) % tw->size] in unsigned long. *)
Definition wheel_index (tw : time_wheel_t) (timeout : Z) : Z :=
  s32 (u64 (tw_loc tw + timeout + 1) mod tw_size tw).

Definition wheel_update_element (tw : time_wheel_t) (m : lmem) (elm : laddr) (timeout : Z)
    : res lmem :=
  if decide (timeout < 0) then Ok m else
  if decide (tw_size tw = 0) then Undef else
  let tv := wheel_index tw timeout in
  let* m := wheel_delete_element m elm in
  list_add m (slot tw tv) elm.

Definition wheel_timeout_list (tw : time_wheel_t) : laddr := slot tw (tw_loc tw).

(** [n] ticks of the clock. *)
Fixpoint rotations (n : nat) (tw : time_wheel_t) : res time_wheel_t :=
  match n with
  | O => Ok tw
  | S n => let* tw := wheel_rotate tw in rotations n tw
  end.

(** A wheel as [new_time_wheel] makes it and [wheel_rotate] keeps it; the size
    fits an [int], as every call in the library passes at most 600. *)
Definition wheel_ok (tw : time_wheel_t) : Prop :=
  0 < tw_size tw < 2 ^ 31 ∧ 0 ≤ tw_loc tw < tw_size tw.

Lemma wheel_rotate_ok tw :
  wheel_ok tw →
  ∃ tw', wheel_rotate tw = Ok tw' ∧ wheel_ok tw' ∧ tw_size tw' = tw_size tw ∧
    tw_wheel tw' = tw_wheel tw ∧ tw_loc tw' = (tw_loc tw + 1) mod tw_size tw.
Proof.
  intros [Hs Hl]. unfold wheel_rotate. rewrite decide_False by lia. rewrite u64_small by lia.
  eexists. split; [done|]. pose proof (Z.mod_pos_bound (tw_loc tw + 1) (tw_size tw)).
  unfold wheel_ok. simpl. split_and!; try done; lia.
Qed.

Lemma rotations_ok n tw :
  wheel_ok tw →
  ∃ tw', rotations n tw = Ok tw' ∧ wheel_ok tw' ∧ tw_size tw' = tw_size tw ∧
    tw_wheel tw' = tw_wheel tw ∧ tw_loc tw' = (tw_loc tw + Z.of_nat n) mod tw_size tw.
Proof.
  revert tw. induction n as [|n IH]; intros tw Hok.
  - exists tw. destruct Hok as [Hs Hl]. split_and!; simpl; try done; try lia.
    rewrite Z.add_0_r, Z.mod_small; lia.
  - destruct (wheel_rotate_ok tw Hok) as (tw1 & Hr & Hok1 & Hs1 & Hw1 & Hl1).
    destruct (IH tw1 Hok1) as (tw2 & H2 & Hok2 & Hs2 & Hw2 & Hl2).
    exists tw2. cbn [rotations]. rewrite Hr. split_and!; [done|done|congruence|congruence|].
    rewrite Hl2, Hl1, Hs1, Zplus_mod_idemp_l. f_equal. lia.
Qed.

Lemma wheel_index_ok tw T :
  wheel_ok tw → 0 ≤ T ≤ INT_MAX →
  wheel_index tw T = (tw_loc tw + T + 1) mod tw_size tw ∧ 0 ≤ wheel_index tw T < tw_size tw.
Proof.
  intros [Hs Hl] HT. unfold wheel_index, INT_MAX in *. rewrite u64_small by lia.
  pose proof (Z.mod_pos_bound (tw_loc tw + T + 1) (tw_size tw)).
  rewrite s32_small by lia. lia.
Qed.

Lemma slot_inj tw i j : slot tw i = slot tw j → i = j.
Proof. unfold slot. intros [=]. lia. Qed.

(** When a slot comes up: after [k] ticks the expiring list is the one an
    element with timeout [T] was put in iff [k] is [T + 1] up to whole turns. *)
Lemma wheel_due tw T k tw' :
  wheel_ok tw → 0 ≤ T ≤ INT_MAX → rotations k tw = Ok tw' →
  wheel_timeout_list tw' = slot tw (wheel_index tw T) ↔
  (Z.of_nat k - (T + 1)) mod tw_size tw = 0.
Proof.
  intros Hok HT Hr. destruct (rotations_ok k tw Hok) as (tw2 & Hr2 & _ & _ & Hw & Hl).
  rewrite Hr in Hr2. injection Hr2 as <-.
  destruct (wheel_index_ok tw T Hok HT) as [Hi _]. destruct Hok as [Hs _].
  assert (wheel_timeout_list tw' = slot tw (tw_loc tw')) as ->
    by (unfold wheel_timeout_list, slot; by rewrite Hw).
  replace (Z.of_nat k - (T + 1))
    with ((tw_loc tw + Z.of_nat k) - (tw_loc tw + T + 1)) by lia.
  split.
  - intros E%slot_inj. rewrite Hl, Hi in E. rewrite Zminus_mod, E, Z.sub_diag. by apply Z.mod_0_l; lia.
  - intros E. f_equal. rewrite Hl, Hi. apply Z.mod_divide in E as [q Hq]; [|lia].
    replace (tw_loc tw + Z.of_nat k) with (tw_loc tw + T + 1 + q * tw_size tw) by lia.
    apply Z.mod_add. lia.
Qed.

(** [wheel_update_element] moves the element to that slot and nowhere else. *)
Lemma wheel_update_rings tw m R elm T xs :
  wheel_ok tw → 0 ≤ T ≤ INT_MAX → rings m R → R !! elm = None →
  (in_rings R elm ∨ ring m elm []) → is_Some (m !! elm) →
  R !! slot tw (wheel_index tw T) = Some xs →
  ∃ m', wheel_update_element tw m elm T = Ok m' ∧
    rings m' (<[slot tw (wheel_index tw T) := elm :: filter (λ x, x ≠ elm) xs]> (ring_remove elm R)).
Proof.
  intros Hok HT HR Hnh Hc Hlive Hxs. unfold wheel_update_element.
  rewrite decide_False by lia. rewrite decide_False by (destruct Hok; lia).
  destruct (rings_delete m R elm HR Hnh Hc) as (m1 & Hd & HR1 & Hself & Hni & _ & Hdom).
  unfold wheel_delete_element, list_add. rewrite Hd. simpl.
  destruct (rings_add_after m1 (ring_remove elm R) (slot tw (wheel_index tw T))
    (filter (λ x, x ≠ elm) xs) elm) as (m2 & Ha & HR2 & _); [done| |done| |by exists m2].
  - unfold ring_remove. by rewrite lookup_fmap, Hxs.
  - apply elem_of_dom. rewrite Hdom. by apply elem_of_dom.
Qed.

(** Every slot of the wheel is one of the lists in [R]. *)
Definition wheel_slots (tw : time_wheel_t) (R : gmap laddr (list laddr)) : Prop :=
  ∀ i, 0 ≤ i < tw_size tw → is_Some (R !! slot tw i).

Lemma wheel_timeout_list_slot tw k tw' R :
  wheel_ok tw → wheel_slots tw R → rotations k tw = Ok tw' →
  is_Some (R !! wheel_timeout_list tw').
Proof.
  intros Hok Hsl Hr. destruct (rotations_ok k tw Hok) as (tw2 & Hr2 & [_ Hl2] & Hs & Hw & _).
  rewrite Hr in Hr2. injection Hr2 as <-. unfold wheel_timeout_list, slot. rewrite Hw.
  apply Hsl. lia.
Qed.

(** [new_time_wheel] makes a wheel whose slots are empty lists. *)
Fixpoint slots_abs (n : nat) (tw : time_wheel_t) (i : Z) (R : gmap laddr (list laddr))
    : gmap laddr (list laddr) :=
  match n with
  | O => R
  | S n => slots_abs n tw (i + 1) (<[slot tw i := []]> R)
  end.

Lemma init_slots_rings n tw i m R :
  rings m R → (∀ j, i ≤ j → ¬ in_rings R (slot tw j)) →
  rings (init_slots n tw i m) (slots_abs n tw i R).
Proof.
  revert i m R. induction n as [|n IH]; intros i m R HR Hn; simpl; [done|].
  apply IH; [apply rings_insert_head; [done|apply Hn; lia]|].
  intros j Hj (h & xs & Hh & Hc). apply lookup_insert_Some in Hh as [[<- <-]|[_ Hh]].
  - apply list_elem_of_singleton, slot_inj in Hc. lia.
  - apply (Hn j); [lia|]. by exists h, xs.
Qed.

Lemma slots_abs_lookup n tw i R j :
  i ≤ j < i + Z.of_nat n ∨ (j < i ∧ R !! slot tw j = Some []) →
  slots_abs n tw i R !! slot tw j = Some [].
Proof.
  revert i R. induction n as [|n IH]; intros i R Hj; simpl; [destruct Hj as [?|[_ ?]]; [lia|done]|].
  apply IH. destruct (decide (i = j)) as [->|Hne].
  - right. split; [lia|]. by rewrite lookup_insert_eq.
  - rewrite lookup_insert_ne by (intros E%slot_inj; done).
    destruct Hj as [Hj|[Hj ?]]; [left; lia|right; split; [lia|done]].
Qed.

Lemma new_time_wheel_rings wheel fd m size interval tw m' R :
  rings m R → (∀ j, ¬ in_rings R (LAddr LWheelSlot j)) → 0 ≤ size < 2 ^ 31 →
  new_time_wheel wheel fd m size interval = (tw, m') →
  wheel_ok tw ∧ ∃ R', rings m' R' ∧ ∀ i, 0 ≤ i < tw_size tw → R' !! slot tw i = Some [].
Proof.
  intros HR Hn Hs [= <- <-]. unfold wheel_ok, MIN_TIME_WHEEL_SIZE. simpl. split.
  - case_decide; lia.
  - eexists. split; [apply init_slots_rings; [done|intros; apply Hn]|].
    intros i Hi. apply slots_abs_lookup. left. case_decide; lia.
Qed.

(** C22. An element armed with a timeout of [T] ticks, [T] below the wheel
    size, expires at tick [T + 1] and not before: after [T + 1] rotations the
    expiring list contains it, and after fewer rotations the expiring list does
    not. *)
Theorem wheel_expires_on_time tw m R elm T :
  wheel_ok tw → wheel_slots tw R → 0 ≤ T < tw_size tw → rings m R → R !! elm = None →
  (in_rings R elm ∨ ring m elm []) → is_Some (m !! elm) →
  ∃ m' R' tw' ys, wheel_update_element tw m elm T = Ok m' ∧ rings m' R' ∧
    rotations (Z.to_nat (T + 1)) tw = Ok tw' ∧
    R' !! wheel_timeout_list tw' = Some ys ∧ elm ∈ ys ∧
    (∀ k, (0 < k < Z.to_nat (T + 1))%nat →
       ∃ twk zs, rotations k tw = Ok twk ∧ R' !! wheel_timeout_list twk = Some zs ∧ elm ∉ zs).
Proof.
  intros Hok Hsl HT HR Hnh Hc Hlive. pose proof Hok as [Hs _].
  assert (HT' : 0 ≤ T ≤ INT_MAX) by (unfold INT_MAX; lia).
  destruct (Hsl (wheel_index tw T)) as [xs Hxs]; [by apply wheel_index_ok|].
  destruct (wheel_update_rings tw m R elm T xs) as (m' & Hm' & HR'); [done..|].
  destruct (rotations_ok (Z.to_nat (T + 1)) tw Hok) as (tw' & Htw' & _).
  assert (Hdue : wheel_timeout_list tw' = slot tw (wheel_index tw T)).
  { apply (wheel_due tw T _ tw' Hok HT' Htw'). rewrite Z2Nat.id, Z.sub_diag by lia.
    apply Z.mod_0_l. lia. }
  eexists m', _, tw', _. split_and!; [done|exact HR'|done| | |].
  - rewrite Hdue, lookup_insert_eq. done.
  - set_solver.
  - intros k Hk. destruct (rotations_ok k tw Hok) as (twk & Htwk & _).
    destruct (wheel_timeout_list_slot tw k twk R Hok Hsl Htwk) as [ws Hws].
    exists twk, (filter (λ x, x ≠ elm) ws). split_and!; [done| |].
    + rewrite lookup_insert_ne; [by unfold ring_remove; rewrite lookup_fmap, Hws|].
      intros E. symmetry in E. apply (wheel_due tw T k twk Hok HT' Htwk) in E.
      apply Z.mod_divide in E as [q Hq]; [|lia].
      destruct (decide (q < 0)); [assert (q ≤ -1) by lia|]; nia.
    + intros [? _]%list_elem_of_filter. done.
Qed.

(** A timeout of the wheel size or more expires too early: the element
    comes up after at most [tw_size] ticks, although its timeout is larger. *)
Theorem wheel_long_timeout_early tw T :
  wheel_ok tw → tw_size tw ≤ T ≤ INT_MAX →
  ∃ k tw', (0 < k)%nat ∧ Z.of_nat k ≤ tw_size tw ∧ Z.of_nat k ≤ T ∧
    rotations k tw = Ok tw' ∧ wheel_timeout_list tw' = slot tw (wheel_index tw T).
Proof.
  intros Hok HT. pose proof Hok as [Hs _].
  assert (HT' : 0 ≤ T ≤ INT_MAX) by lia.
  set (k := T mod tw_size tw + 1). pose proof (Z.mod_pos_bound T (tw_size tw) ltac:(lia)).
  destruct (rotations_ok (Z.to_nat k) tw Hok) as (tw' & Htw' & _).
  exists (Z.to_nat k), tw'. split_and!; [lia|lia|lia|done|].
  apply (wheel_due tw T _ tw' Hok HT' Htw'). rewrite Z2Nat.id by lia.
  unfold k. replace (T mod tw_size tw + 1 - (T + 1)) with (T mod tw_size tw - T) by lia.
  rewrite Zminus_mod_idemp_l, Z.sub_diag. apply Z.mod_0_l. lia.
Qed.

(** * Examples *)

Definition ex_links : lmem := list_init ∅ (LAddr LFdLink 1).
Definition ex_wheel : time_wheel_t * lmem := new_time_wheel 100 7 ex_links 60 1.

Lemma wheel_expires_on_time_witness :
  ∃ m' R' tw' ys, wheel_update_element ex_wheel.1 ex_wheel.2 (LAddr LFdLink 1) 5 = Ok m' ∧
    rings m' R' ∧ rotations (Z.to_nat (5 + 1)) ex_wheel.1 = Ok tw' ∧
    R' !! wheel_timeout_list tw' = Some ys ∧ LAddr LFdLink 1 ∈ ys ∧
    (∀ k, (0 < k < Z.to_nat (5 + 1))%nat →
       ∃ twk zs, rotations k ex_wheel.1 = Ok twk ∧
         R' !! wheel_timeout_list twk = Some zs ∧ LAddr LFdLink 1 ∉ zs).
Proof.
  apply (wheel_expires_on_time ex_wheel.1 ex_wheel.2 (slots_abs 60 ex_wheel.1 0 ∅)).
  - unfold wheel_ok. vm_compute. done.
  - intros i Hi. exists []. apply slots_abs_lookup. left. exact Hi.
  - vm_compute. done.
  - apply (init_slots_rings 60); [split; intros; by simplify_map_eq|].
    intros j _ (h & xs & Hh & _). by simplify_map_eq.
  - vm_compute. reflexivity.
  - right. apply ring_nil. vm_compute. reflexivity.
  - eexists. vm_compute. reflexivity.
Defined.

Lemma wheel_long_timeout_early_witness :
  ∃ k tw', (0 < k)%nat ∧ Z.of_nat k ≤ tw_size ex_wheel.1 ∧ Z.of_nat k ≤ 90 ∧
    rotations k ex_wheel.1 = Ok tw' ∧
    wheel_timeout_list tw' = slot ex_wheel.1 (wheel_index ex_wheel.1 90).
Proof.
  apply (wheel_long_timeout_early ex_wheel.1 90); [unfold wheel_ok|]; vm_compute; done.
Defined.
