(* ===== verification/HashMap.v ===== *)
(** hash_map.c and co_specs.c: the chained hash table behind the
    coroutine-specific data of a task.

    The state is the heap the table owns: the [list_t] links, the map nodes, the
    bucket heads with their counts and the malloc'ed value blocks; plus the
    fields of [hash_map_t].  Freeing removes an object, so a use after free or
    a NULL dereference is [Undef].  A C string is the list of its non-NUL
    characters as signed [char]s.  The source buffer of a value is passed by its
    contents: it is the caller's and not a block of the table.  [key * 31 + c]
    wraps at 32 bits, as compiled code does. *)

From Stdlib Require Import ZArith Lia.
From stdpp Require Import base numbers strings sets gmap list.
From S2P Require Import Prelude IntrusiveList Links Array.
Open Scope Z_scope.

Abbreviation cstring := (list Z).
Abbreviation bytes := (list Z).

Definition HASH_MAP_DEFALUT_CAPCITY : Z := 16.

(** [sizeof(keyname)]. *)
Definition KEYNAME_SIZE : Z := 1024.

Record map_node_t := MapNode {
  mn_key : Z;
  mn_keyname : cstring;
  mn_value : ptr
}.

Record hash_map_t := HashMap {
  hm_links : lmem;
  hm_nodes : gmap Z map_node_t;
  hm_heads : gmap Z Z;              (* map_head_t.count *)
  hm_blocks : gmap Z bytes;
  hm_capcity : Z;
  hm_hash : cstring → Z;
  hm_table : array_t;
  hm_count : Z
}.

Definition head_link (h : Z) : laddr := LAddr LMapHead h.
Definition node_link (n : Z) : laddr := LAddr LMapNode n.

(** Field updates. *)
Definition set_links (m : hash_map_t) (l : lmem) : hash_map_t :=
  HashMap l (hm_nodes m) (hm_heads m) (hm_blocks m) (hm_capcity m) (hm_hash m) (hm_table m) (hm_count m).
Definition set_nodes (m : hash_map_t) (ns : gmap Z map_node_t) : hash_map_t :=
  HashMap (hm_links m) ns (hm_heads m) (hm_blocks m) (hm_capcity m) (hm_hash m) (hm_table m) (hm_count m).
Definition set_heads (m : hash_map_t) (hs : gmap Z Z) : hash_map_t :=
  HashMap (hm_links m) (hm_nodes m) hs (hm_blocks m) (hm_capcity m) (hm_hash m) (hm_table m) (hm_count m).
Definition set_blocks (m : hash_map_t) (bs : gmap Z bytes) : hash_map_t :=
  HashMap (hm_links m) (hm_nodes m) (hm_heads m) bs (hm_capcity m) (hm_hash m) (hm_table m) (hm_count m).
Definition set_capcity (m : hash_map_t) (c : Z) : hash_map_t :=
  HashMap (hm_links m) (hm_nodes m) (hm_heads m) (hm_blocks m) c (hm_hash m) (hm_table m) (hm_count m).
Definition set_table (m : hash_map_t) (t : array_t) : hash_map_t :=
  HashMap (hm_links m) (hm_nodes m) (hm_heads m) (hm_blocks m) (hm_capcity m) (hm_hash m) t (hm_count m).
Definition set_count (m : hash_map_t) (c : Z) : hash_map_t :=
  HashMap (hm_links m) (hm_nodes m) (hm_heads m) (hm_blocks m) (hm_capcity m) (hm_hash m) (hm_table m) c.

(** [malloc]: an address that is not NULL and not in use. *)
Definition malloc {V : Type} (h : gmap Z V) : Z := fresh ({[NULL]} ∪ dom h).

Definition alloc_map_head (m : hash_map_t) : Z * hash_map_t :=
  let mh := malloc (hm_heads m) in
  (mh, set_heads (set_links m (list_init (hm_links m) (head_link mh))) (<[mh := 0]> (hm_heads m))).

Definition free_map_head (m : hash_map_t) (mh : ptr) : res hash_map_t :=
  if decide (mh = NULL) then Ok m else
  let* l := list_delete (hm_links m) (head_link mh) in
  Ok (set_heads (set_links m (delete (head_link mh) l)) (delete mh (hm_heads m))).

Definition alloc_map_node (m : hash_map_t) : Z * hash_map_t :=
  let mn := malloc (hm_nodes m) in
  (mn, set_nodes (set_links m (list_init (hm_links m) (node_link mn)))
         (<[mn := MapNode (-1) [] NULL]> (hm_nodes m))).

Definition free_map_node (m : hash_map_t) (node : ptr) : res hash_map_t :=
  if decide (node = NULL) then Ok m else
  let* l := list_delete (hm_links m) (node_link node) in
  Ok (set_nodes (set_links m (delete (node_link node) l)) (delete node (hm_nodes m))).

(** [for(i = 0; i < len; i++) key = key * 31 + keyname[i]]. *)
Definition string_hash (keyname : cstring) : Z :=
  fold_left (λ key c, s32 (s32 (key * 31) + c)) keyname 0.

(** [strncmp(a, b, n) == 0]; the character after the last is NUL. *)
Fixpoint strncmp_eq (a b : cstring) (n : nat) : bool :=
  match n with
  | O => true
  | S n =>
      let ca := default 0 (head a) in
      let cb := default 0 (head b) in
      if decide (ca = cb) then (if decide (ca = 0) then true else strncmp_eq (tail a) (tail b) n)
      else false
  end.

(** [array_insert(&map->table, i, alloc_map_head())]. *)
Definition add_bucket (i : Z) (m : hash_map_t) : res hash_map_t :=
  let '(mh, m) := alloc_map_head m in
  let* r := array_insert (Some (hm_table m)) i mh in
  let* t := deref r.2 in
  Ok (set_table m t).

(** [MY_ASSERT(map, "map is NULL")]. *)
Definition assert_map (map : option hash_map_t) : res hash_map_t :=
  match map with Some m => Ok m | None => Panic "map is NULL" end.

(** The block is the caller's: no link, node or block of it is in use yet. *)
Definition hash_map_init (map : option hash_map_t) : res hash_map_t :=
  let* m := assert_map map in
  let m := HashMap (hm_links m) (hm_nodes m) (hm_heads m) (hm_blocks m)
             HASH_MAP_DEFALUT_CAPCITY string_hash (Arr None 0 0) 0 in
  for_up (Z.to_nat (hm_capcity m)) 0 add_bucket m.

(** [int idx = key & (map->capcity - 1)]: the [int] is widened to [size_t]. *)
Definition bucket_index (m : hash_map_t) (key : Z) : Z :=
  s32 (Z.land (u64 key) (u64 (hm_capcity m - 1))).

(** [h = array_get(&map->table, idx)]; the code dereferences [h] at once. *)
Definition get_head (m : hash_map_t) (idx : Z) : res Z :=
  (* a negative int index is a huge size_t *)
  array_get (Some (hm_table m)) (u64 idx).

(** The walk over one bucket: the first node with this key and name. *)
Fixpoint find_node (fuel : nat) (m : hash_map_t) (head : laddr) (key : Z) (keyname : cstring)
    (ls : laddr) : res (option Z) :=
  if decide (ls = head) then Ok None else
  match fuel with
  | O => OutOfFuel
  | S fuel =>
      let* node := list_to_struct LMapNode ls in
      let* nd := deref (hm_nodes m !! node) in
      let* ls := list_next (hm_links m) ls in
      if decide (key = mn_key nd) then
        if strncmp_eq keyname (mn_keyname nd) (length keyname) then Ok (Some node)
        else find_node fuel m head key keyname ls
      else find_node fuel m head key keyname ls
  end.

(** The common start of get, put and del: bucket and node. *)
Definition find (m : hash_map_t) (key : Z) (keyname : cstring) : res (Z * option Z) :=
  let* h := get_head m (bucket_index m key) in
  let* ls := list_next (hm_links m) (head_link h) in
  let* r := find_node (size (hm_nodes m)) m (head_link h) key keyname ls in
  Ok (h, r).

(** The return value and, on success, what is stored in [*value]. *)
Definition hash_map_get (map : option hash_map_t) (keyname : cstring) : res (Z * option ptr) :=
  let* m := assert_map map in
  let key := hm_hash m keyname in
  let* r := find m key keyname in
  match r.2 with
  | Some node => let* nd := deref (hm_nodes m !! node) in Ok (0, Some (mn_value nd))
  | None => Ok (-1, None)
  end.

(** [node->value = malloc(len); memcpy(node->value, value, len)]. *)
Definition store_value (m : hash_map_t) (node : Z) (value : bytes) : res hash_map_t :=
  let* nd := deref (hm_nodes m !! node) in
  let v := malloc (hm_blocks m) in
  Ok (set_nodes (set_blocks m (<[v := value]> (hm_blocks m)))
        (<[node := MapNode (mn_key nd) (mn_keyname nd) v]> (hm_nodes m))).

(** [free(node->value)]. *)
Definition free_value (m : hash_map_t) (node : Z) : res hash_map_t :=
  let* nd := deref (hm_nodes m !! node) in
  if decide (mn_value nd = NULL) then Ok m else
  let* _ := deref (hm_blocks m !! mn_value nd) in
  Ok (set_blocks m (delete (mn_value nd) (hm_blocks m))).

(** [h->count += k]. *)
Definition head_count_add (m : hash_map_t) (h k : Z) : res hash_map_t :=
  let* c := deref (hm_heads m !! h) in
  Ok (set_heads m (<[h := u64 (c + k)]> (hm_heads m))).

(** The body of the inner loop of [hash_map_resize] on bucket [i]. *)
Fixpoint rehash_bucket (fuel : nat) (m : hash_map_t) (head i : Z) (ls : laddr) : res hash_map_t :=
  if decide (ls = head_link head) then Ok m else
  match fuel with
  | O => OutOfFuel
  | S fuel =>
      let* node := list_to_struct LMapNode ls in
      let* ls := list_next (hm_links m) ls in
      let* nd := deref (hm_nodes m !! node) in
      let idx := bucket_index m (mn_key nd) in
      if decide (idx = i) then rehash_bucket fuel m head i ls else
      let* l := list_delete (hm_links m) (node_link node) in
      let* m := head_count_add (set_links m l) head (-1) in
      let* h := get_head m idx in
      let* l := list_add_before (hm_links m) (head_link h) (node_link node) in
      let* m := head_count_add (set_links m l) h 1 in
      rehash_bucket fuel m head i ls
  end.

Definition rehash (i : Z) (m : hash_map_t) : res hash_map_t :=
  let* head := get_head m i in
  let* ls := list_next (hm_links m) (head_link head) in
  rehash_bucket (size (hm_nodes m)) m head i ls.

Definition hash_map_resize (m : hash_map_t) : res hash_map_t :=
  let old_cap := s32 (hm_capcity m) in
  let m := set_capcity m (u64 (s32 (Z.shiftl old_cap 1))) in
  let* m := for_up (Z.to_nat (hm_capcity m - old_cap)) old_cap add_bucket m in
  for_up (Z.to_nat old_cap) 0 rehash m.

(** [map->count >= map->capcity * 0.75], exact for the counts a float holds. *)
Definition up_to_load_factor (m : hash_map_t) : bool :=
  bool_decide (3 * hm_capcity m ≤ 4 * hm_count m).

Definition hash_map_put (map : option hash_map_t) (keyname : cstring) (value : bytes)
    : res (Z * hash_map_t) :=
  let* m := assert_map map in
  let key := hm_hash m keyname in
  let* r := find m key keyname in
  match r.2 with
  | Some node =>
      let* m := free_value m node in
      let* m := store_value m node value in
      Ok (0, m)
  | None =>
      let* r :=
        (if up_to_load_factor m then
           let* m := hash_map_resize m in
           let* h := get_head m (bucket_index m key) in
           Ok (h, m)
         else Ok (r.1, m)) in
      let '(h, m) := r in
      let '(node, m) := alloc_map_node m in
      (* the name and its NUL must fit the field *)
      if decide (KEYNAME_SIZE ≤ Z.of_nat (length keyname)) then Undef else
      let m := set_nodes m (<[node := MapNode key keyname NULL]> (hm_nodes m)) in
      let* m := store_value m node value in
      let* l := list_add_before (hm_links m) (head_link h) (node_link node) in
      let* m := head_count_add (set_links m l) h 1 in
      Ok (0, set_count m (u64 (hm_count m + 1)))
  end.

Definition hash_map_del (map : option hash_map_t) (keyname : cstring) : res (Z * hash_map_t) :=
  let* m := assert_map map in
  let key := hm_hash m keyname in
  let* r := find m key keyname in
  match r.2 with
  | Some node =>
      let* m := free_value m node in
      let* m := free_map_node m node in
      let* m := head_count_add m r.1 (-1) in
      Ok (0, set_count m (u64 (hm_count m - 1)))
  | None => Ok (-1, m)
  end.

Definition hash_map_size (map : option hash_map_t) : res Z :=
  let* m := assert_map map in Ok (hm_count m).

Definition hash_map_empty (map : option hash_map_t) : res bool :=
  let* n := hash_map_size map in Ok (bool_decide (n = 0)).

(** [while(!list_empty(ls))] of [hash_map_clearall]. *)
Fixpoint clear_bucket (fuel : nat) (m : hash_map_t) (head : Z) (ls : laddr) : res hash_map_t :=
  let* e := list_empty (hm_links m) ls in
  if (e : bool) then Ok m else
  match fuel with
  | O => OutOfFuel
  | S fuel =>
      let* node := list_to_struct LMapNode ls in
      let* ls := list_next (hm_links m) ls in
      let* m := free_value m node in
      let* m := free_map_node m node in
      let* m := head_count_add m head (-1) in
      clear_bucket fuel (set_count m (u64 (hm_count m - 1))) head ls
  end.

(** [for(i = map->capcity - 1; i >= 0; i--)]. *)
Fixpoint clear_buckets (n : nat) (m : hash_map_t) (all : bool) (i : Z) : res hash_map_t :=
  match n with
  | O => Ok m
  | S n =>
      let* head := get_head m i in
      let* ls := list_next (hm_links m) (head_link head) in
      let* m := clear_bucket (size (hm_nodes m)) m head ls in
      let* m :=
        (if all then
           let* r := array_del (Some (hm_table m)) i in
           let* t := deref r.2 in
           free_map_head (set_table m t) r.1
         else Ok m) in
      clear_buckets n m all (i - 1)
  end.

Definition hash_map_clearall (map : option hash_map_t) (all : bool) : res hash_map_t :=
  let* m := assert_map map in
  let last := s32 (u64 (hm_capcity m - 1)) in
  let* m := clear_buckets (Z.to_nat (last + 1)) m all last in
  Ok (if all then set_table (set_capcity m 0) (array_destory (hm_table m)) else m).

Definition hash_map_clear (map : option hash_map_t) : res hash_map_t := hash_map_clearall map false.
Definition hash_map_destory (map : option hash_map_t) : res hash_map_t := hash_map_clearall map true.

(** * co_specs.c *)

(** A [co_specs_t] holds just the map. *)
Definition empty_heap : hash_map_t := HashMap ∅ ∅ ∅ ∅ 0 string_hash (Arr None 0 0) 0.

Definition alloc_co_specs : res hash_map_t := hash_map_init (Some empty_heap).

Definition co_specs_set (specs : option hash_map_t) (key : cstring) (value : bytes)
    : res (Z * hash_map_t) := hash_map_put specs key value.

Definition co_specs_get (specs : option hash_map_t) (key : cstring) : res (Z * option ptr) :=
  hash_map_get specs key.

Definition co_specs_del (specs : option hash_map_t) (key : cstring) : res (Z * hash_map_t) :=
  hash_map_del specs key.

(** [hash_map_destory(&specs->map); free(specs)]. *)
Definition free_co_specs (specs : option hash_map_t) : res (option hash_map_t) :=
  match specs with
  | None => Ok None
  | Some m => let* m := hash_map_destory (Some m) in Ok None
  end.
