(* ===== verification/HashMapRefines.v ===== *)
(** What hash_map.c promises: a finite map from names to values.

    [hrep m F] says that the heap of the table [m] represents the finite map
    [F].  It has two halves.  [shape] is about the buckets: the vector holds the
    bucket heads [H], the list of head [h] holds the nodes [B !! h], the counts
    are right, and the node of key [k] is in a bucket that [place] allows; while
    [hash_map_resize] moves nodes, [place] is the only thing that changes.
    [data] is about the nodes: each has a name, its hash and a value block of
    its own.

    The code takes a node for the one it looks for when the hash is equal and
    the name searched for is a prefix of the stored one ([strncmp] with the
    length of the former), so the theorems are about names of which none is a
    proper prefix of another with the same hash ([Names]). *)

From Stdlib Require Import ZArith Lia.
From stdpp Require Import base numbers strings sets gmap list fin_maps.
From S2P Require Import Prelude IntrusiveList Links Array HashMap.
Open Scope Z_scope.

(** Replay a run that is known to return, step by step, at the head of a longer
    one. *)
Ltac run_ok :=
  inv_ok;
  repeat match goal with
  | E : ?c = Ok _ |- context [?c] => rewrite E; cbn [res_bind]
  | E : ?o = Some _ |- context [deref ?o] => rewrite E; cbn [deref res_bind]
  end; done.

(** The names a program uses: C strings that fit the field of a node. *)
Class Names (K : cstring → Prop) : Prop := {
  name_nonzero k : K k → 0 ∉ k;
  name_fits k : K k → Z.of_nat (length k) < KEYNAME_SIZE;
  name_distinct k1 k2 : K k1 → K k2 → string_hash k1 = string_hash k2 →
    k1 `prefix_of` k2 → k1 = k2
}.

(** * Strings *)

Lemma strncmp_eq_prefix (a b : cstring) :
  0 ∉ a → strncmp_eq a b (length a) = bool_decide (a `prefix_of` b).
Proof.
  revert b. induction a as [|x a IH]; intros b Ha; cbn [length strncmp_eq].
  - by rewrite bool_decide_eq_true_2 by apply prefix_nil.
  - apply not_elem_of_cons in Ha as [Hx Ha]. destruct b as [|y b]; cbn [head tail default].
    + rewrite decide_False by done. by rewrite bool_decide_eq_false_2 by apply prefix_nil_not.
    + case_decide as E; cbn in E; [subst y; rewrite decide_False by done; rewrite IH by done|].
      * apply bool_decide_ext. split; [apply prefix_cons|apply prefix_cons_inv_2].
      * rewrite bool_decide_eq_false_2; [done|]. intros Hp. by apply E, (prefix_cons_inv_1 _ _ _ _ Hp).
Qed.

(** * Buckets *)

(** The lists of the store, by the head of the bucket. *)
Definition RB (B : gmap Z (list Z)) : gmap laddr (list laddr) :=
  kmap (M2 := gmap laddr) head_link ((λ ns : list Z, node_link <$> ns) <$> B).

#[global] Instance head_link_inj : Inj (=) (=) head_link.
Proof. apply LAddr_inj. Qed.
#[global] Instance node_link_inj : Inj (=) (=) node_link.
Proof. apply LAddr_inj. Qed.

Lemma RB_lookup B h : RB B !! head_link h = (λ ns : list Z, node_link <$> ns) <$> B !! h.
Proof. unfold RB. by rewrite lookup_kmap, lookup_fmap by apply _. Qed.

Lemma RB_node B n : RB B !! node_link n = None.
Proof.
  unfold RB. apply eq_None_not_Some. intros [x (h & Hh & _)%lookup_kmap_Some]; [|apply _].
  discriminate Hh.
Qed.

Lemma RB_empty : RB ∅ = ∅.
Proof. unfold RB. by rewrite fmap_empty, kmap_empty. Qed.

Lemma RB_insert B h ns : RB (<[h := ns]> B) = <[head_link h := node_link <$> ns]> (RB B).
Proof. unfold RB. by rewrite fmap_insert, kmap_insert by apply _. Qed.

Lemma RB_delete B h : RB (delete h B) = delete (head_link h) (RB B).
Proof. unfold RB. by rewrite fmap_delete, kmap_delete by apply _. Qed.

Lemma RB_Some B a xs :
  RB B !! a = Some xs ↔ ∃ h ns, a = head_link h ∧ xs = node_link <$> ns ∧ B !! h = Some ns.
Proof.
  split.
  - unfold RB. intros (h & -> & Hh)%lookup_kmap_Some; [|apply _].
    rewrite lookup_fmap in Hh. destruct (B !! h) as [ns|] eqn:E; simplify_eq/=. by exists h, ns.
  - intros (h & ns & -> & -> & Hh). by rewrite RB_lookup, Hh.
Qed.

Lemma in_RB_head B h : in_rings (RB B) (head_link h) ↔ is_Some (B !! h).
Proof.
  split.
  - intros (a & xs & (h' & ns & -> & -> & Hh)%RB_Some & Hin).
    apply elem_of_cons in Hin as [[= ->]|Hin]; [eauto|].
    by apply (LAddr_notin LMapHead LMapNode) in Hin.
  - intros [ns Hh]. exists (head_link h), (node_link <$> ns). rewrite RB_lookup, Hh.
    split; [done|set_solver].
Qed.

Lemma in_RB_node B n : in_rings (RB B) (node_link n) ↔ ∃ h ns, B !! h = Some ns ∧ n ∈ ns.
Proof.
  split.
  - intros (a & xs & (h & ns & -> & -> & Hh)%RB_Some & Hin).
    apply elem_of_cons in Hin as [[=]|(n' & [= ->] & Hin)%list_elem_of_fmap]. eauto.
  - intros (h & ns & Hh & Hn). exists (head_link h), (node_link <$> ns). rewrite RB_lookup, Hh.
    split; [done|]. apply elem_of_cons. right. by apply list_elem_of_fmap_2.
Qed.

Lemma filter_node_link n ns :
  filter (λ x, x ≠ node_link n) (node_link <$> (ns : list Z)) = node_link <$> filter (λ x, x ≠ n) ns.
Proof.
  induction ns as [|x ns IH]; [done|]. rewrite fmap_cons, !filter_cons.
  destruct (decide (x = n)) as [->|Hne].
  - by rewrite !decide_False by (by intros ?).
  - rewrite !decide_True by (intros ?; simplify_eq). by rewrite fmap_cons, IH.
Qed.

Lemma RB_remove B n : ring_remove (node_link n) (RB B) = RB (filter (λ x, x ≠ n) <$> B).
Proof.
  apply map_eq. intros a. unfold ring_remove. rewrite lookup_fmap.
  destruct (RB (filter (λ x, x ≠ n) <$> B) !! a) as [xs|] eqn:E.
  - apply RB_Some in E as (h & ns' & -> & -> & Hh). rewrite lookup_fmap in Hh.
    destruct (B !! h) as [ns|] eqn:Hb; simplify_eq/=. rewrite RB_lookup, Hb. simpl.
    by rewrite filter_node_link.
  - destruct (RB B !! a) as [xs|] eqn:E2; [|done]. exfalso.
    apply RB_Some in E2 as (h & ns & -> & -> & Hh). rewrite RB_lookup, lookup_fmap, Hh in E. done.
Qed.

Definition buckets_fit (m : hash_map_t) (H : list Z) (B : gmap Z (list Z))
    (place : Z → nat → Prop) : Prop :=
  ∀ i h ns n, H !! i = Some h → B !! h = Some ns → n ∈ ns →
    ∃ nd, hm_nodes m !! n = Some nd ∧ place (mn_key nd) i.

Record shape (m : hash_map_t) (H : list Z) (B : gmap Z (list Z)) (place : Z → nat → Prop)
    : Prop := {
  sh_table : array_rep (hm_table m) H;
  sh_nodup : NoDup H;
  sh_null : NULL ∉ H;
  sh_links : lrep (hm_links m) (RB B);
  sh_used : ∀ a, is_Some (hm_links m !! a) → in_rings (RB B) a;
  sh_dom : ∀ h, is_Some (B !! h) ↔ h ∈ H;
  sh_heads : hm_heads m = (λ ns : list Z, Z.of_nat (length ns)) <$> B;
  sh_place : buckets_fit m H B place;
  sh_all : ∀ n, is_Some (hm_nodes m !! n) → ∃ h ns, B !! h = Some ns ∧ n ∈ ns
}.

(** The bucket of an index. *)
Lemma shape_bucket m H B place i h :
  shape m H B place → H !! i = Some h → ∃ ns, B !! h = Some ns ∧
    ring (hm_links m) (head_link h) (node_link <$> ns) ∧ NoDup ns ∧
    (length ns ≤ size (hm_nodes m))%nat.
Proof.
  intros Hs Hh. destruct (sh_dom _ _ _ _ Hs h) as [_ [ns Hns]]; [by eapply list_elem_of_lookup_2|].
  exists ns. split; [done|].
  assert (Hr : ring (hm_links m) (head_link h) (node_link <$> ns)).
  { apply (sh_links _ _ _ _ Hs). by rewrite RB_lookup, Hns. }
  assert (Hnd : NoDup ns).
  { destruct Hr as [[_ Hnd]%NoDup_cons _]. by apply NoDup_fmap_1 in Hnd. }
  split_and!; [done..|]. apply NoDup_dom_length; [done|]. intros n Hn.
  destruct (sh_place _ _ _ _ Hs i h ns n) as (nd & -> & _); [done..|eauto].
Qed.

Lemma get_head_shape m H B place (i : nat) h :
  shape m H B place → H !! i = Some h → Z.of_nat i < 2 ^ 31 → get_head m (Z.of_nat i) = Ok h.
Proof.
  intros Hs Hh Hi. unfold get_head. rewrite u64_small by lia.
  rewrite (array_get_rep _ _ i (sh_table _ _ _ _ Hs)). by rewrite Hh.
Qed.

(** The bucket of a key in a table of [2 ^ p] buckets. *)
Definition slot (p key : Z) : nat := Z.to_nat (key mod 2 ^ p).

Lemma slot_lt p key : 0 ≤ p → Z.of_nat (slot p key) < 2 ^ p.
Proof. intros Hp. unfold slot. pose proof (Z.mod_pos_bound key (2 ^ p)). lia. Qed.

Lemma bucket_index_slot m p key :
  hm_capcity m = 2 ^ p → 0 ≤ p ≤ 30 → bucket_index m key = Z.of_nat (slot p key).
Proof.
  intros Hc Hp. pose proof (Z.pow_le_mono_r 2 p 30). pose proof (slot_lt p key).
  unfold bucket_index. rewrite Hc, (u64_small (2 ^ p - 1)) by lia.
  replace (2 ^ p - 1) with (Z.ones p) by (rewrite Z.ones_equiv; lia).
  rewrite Z.land_ones by lia. unfold u64.
  replace (2 ^ 64) with (2 ^ p * 2 ^ (64 - p)) by (rewrite <-Z.pow_add_r by lia; f_equal; lia).
  rewrite Z.rem_mul_r by lia. rewrite Z.mul_comm, Z_mod_plus_full, Z.mod_mod by lia.
  unfold slot in *. rewrite Z2Nat.id in * by (apply Z.mod_pos_bound; lia).
  apply s32_small. pose proof (Z.mod_pos_bound key (2 ^ p)). lia.
Qed.

(** * Linking and unlinking nodes *)

Lemma malloc_fresh {V : Type} (h : gmap Z V) : malloc h ≠ NULL ∧ h !! malloc h = None.
Proof.
  unfold malloc. pose proof (is_fresh (C := gset Z) ({[NULL]} ∪ dom h)) as Hf.
  split; [set_solver|]. apply not_elem_of_dom. set_solver.
Qed.

Lemma shape_disjoint m H B place h1 ns1 h2 ns2 n :
  shape m H B place → B !! h1 = Some ns1 → B !! h2 = Some ns2 → n ∈ ns1 → n ∈ ns2 → h1 = h2.
Proof.
  intros Hs H1 H2 Hn1 Hn2. destruct (sh_links _ _ _ _ Hs) as [[_ Hd] _].
  apply (inj head_link), (Hd _ (node_link <$> ns1) _ (node_link <$> ns2) (node_link n)).
  1-2: by rewrite RB_lookup, ?H1, ?H2.
  all: apply elem_of_cons; right; by apply list_elem_of_fmap_2.
Qed.

(** A node of a bucket is live and in that bucket only. *)
Lemma shape_index m H B place h ns :
  shape m H B place → B !! h = Some ns → ∃ i, H !! i = Some h.
Proof. intros Hs Hh. apply list_elem_of_lookup, (sh_dom _ _ _ _ Hs). eauto. Qed.

Lemma shape_live m H B place h ns n :
  shape m H B place → B !! h = Some ns → n ∈ ns → is_Some (hm_nodes m !! n).
Proof.
  intros Hs Hh Hn. destruct (shape_index _ _ _ _ _ _ Hs Hh) as [i Hi].
  destruct (sh_place _ _ _ _ Hs i h ns n) as (nd & -> & _); [done..|eauto].
Qed.

Lemma shape_filter m H B place h ns n :
  shape m H B place → B !! h = Some ns → n ∈ ns →
  (filter (λ x, x ≠ n) : list Z → list Z) <$> B = <[h := filter (λ x, x ≠ n) ns]> B.
Proof.
  intros Hs Hh Hn. apply map_eq. intros h'. rewrite lookup_fmap, lookup_insert.
  case_decide as E; [subst; by rewrite Hh|]. destruct (B !! h') as [ns'|] eqn:Hh'; [|done].
  simpl. f_equal. apply filter_ne_id. intros Hn'. apply E.
  by apply (shape_disjoint m H B place h ns h' ns' n).
Qed.

(** Only the keys of the nodes matter. *)
Lemma shape_ext m m' H B place :
  shape m H B place → hm_links m' = hm_links m → hm_heads m' = hm_heads m →
  hm_table m' = hm_table m → mn_key <$> hm_nodes m' = mn_key <$> hm_nodes m → shape m' H B place.
Proof.
  intros [Ht Hnd Hnu Hl Hu Hd Hh Hp Ha] El Eh Et En.
  assert (Hk : ∀ n, mn_key <$> hm_nodes m' !! n = mn_key <$> hm_nodes m !! n).
  { intros n. by rewrite <-!lookup_fmap, En. }
  split; rewrite ?El, ?Eh, ?Et; try done.
  - intros i h ns n Hi Hb Hn. destruct (Hp i h ns n Hi Hb Hn) as (nd & Hnd' & Hpl).
    specialize (Hk n). rewrite Hnd' in Hk. destruct (hm_nodes m' !! n) as [nd'|]; simplify_eq/=.
    exists nd'. by rewrite Hk.
  - intros n [nd Hn]. apply Ha. specialize (Hk n). rewrite Hn in Hk.
    destruct (hm_nodes m !! n); [eauto|done].
Qed.

Lemma length_filter_ne (ns : list Z) n :
  NoDup ns → n ∈ ns → S (length (filter (λ x, x ≠ n) ns)) = length ns.
Proof.
  intros Hnd (l1 & l2 & ->)%list_elem_of_split. rewrite filter_ne_split by done.
  rewrite !length_app. simpl. lia.
Qed.

(** A new node at the end of a bucket. *)
Lemma shape_link m H B place i h ns n nd :
  shape m H B place → H !! i = Some h → B !! h = Some ns → hm_nodes m !! n = None →
  place (mn_key nd) i →
  ∃ l, list_add_before (list_init (hm_links m) (node_link n)) (head_link h) (node_link n) = Ok l ∧
    ∀ m', hm_links m' = l → hm_nodes m' = <[n := nd]> (hm_nodes m) →
      hm_heads m' = <[h := Z.of_nat (length ns) + 1]> (hm_heads m) →
      hm_table m' = hm_table m → shape m' H (<[h := ns ++ [n]]> B) place.
Proof.
  intros Hs Hi Hh Hn Hpl.
  assert (Hni : ¬ in_rings (RB B) (node_link n)).
  { intros (h' & ns' & Hh' & Hin)%in_RB_node.
    destruct (shape_live _ _ _ _ _ _ _ Hs Hh' Hin) as [? ?]. congruence. }
  destruct (lrep_add_before (list_init (hm_links m) (node_link n)) (RB B) (head_link h) (node_link n)
    (node_link <$> ns)) as (l & Hl & Hrep & Hdom).
  - by apply lrep_init; [apply (sh_links _ _ _ _ Hs)|].
  - by rewrite RB_lookup, Hh.
  - done.
  - unfold list_init. by rewrite lookup_insert_eq.
  - exists l. split; [done|]. intros m' El En Eh Et.
    destruct Hs as [Ht Hnd Hnu _ Hu Hd Hhe Hp Ha].
    assert (HRB : RB (<[h := ns ++ [n]]> B) = <[head_link h := (node_link <$> ns) ++ [node_link n]]> (RB B))
      by by rewrite RB_insert, fmap_app.
    split; rewrite ?El, ?Et; [done..| | | | | |].
    + by rewrite HRB.
    + intros a Ha'. rewrite HRB. apply elem_of_dom in Ha'. rewrite Hdom in Ha'. unfold list_init in Ha'.
      rewrite dom_insert_L in Ha'. apply elem_of_union in Ha' as [->%elem_of_singleton|Ha'].
      * exists (head_link h), ((node_link <$> ns) ++ [node_link n]). rewrite lookup_insert_eq. set_solver.
      * apply (in_rings_insert _ _ (node_link <$> ns)); [by rewrite RB_lookup, Hh|set_solver|].
        apply Hu. by apply elem_of_dom.
    + intros h'. rewrite <-Hd, lookup_insert_is_Some'. naive_solver.
    + rewrite Eh, Hhe, fmap_insert, length_app. simpl. f_equal. lia.
    + intros i' h' ns' n' Hi' Hb Hn'. rewrite En. rewrite lookup_insert in Hb. case_decide as E.
      * simplify_eq. assert (i' = i) as -> by by eapply NoDup_lookup.
        apply elem_of_app in Hn' as [Hn'| ->%list_elem_of_singleton].
        -- destruct (Hp i h' ns n') as (nd' & Hnd' & ?); [done..|].
           exists nd'. rewrite lookup_insert_ne by congruence. done.
        -- exists nd. by rewrite lookup_insert_eq.
      * destruct (Hp i' h' ns' n') as (nd' & Hnd' & ?); [done..|].
        exists nd'. rewrite lookup_insert_ne by congruence. done.
    + intros n'. rewrite En, lookup_insert_is_Some'. intros [<-|Hn'].
      * exists h, (ns ++ [n]). rewrite lookup_insert_eq. set_solver.
      * destruct (Ha n' Hn') as (h' & ns' & Hh' & Hin). destruct (decide (h = h')) as [<-|Hne].
        -- exists h, (ns ++ [n]). rewrite lookup_insert_eq. simplify_eq. set_solver.
        -- exists h', ns'. by rewrite lookup_insert_ne.
Qed.

(** A node that leaves its bucket and is freed. *)
Lemma shape_unlink m H B place h ns n :
  shape m H B place → B !! h = Some ns → n ∈ ns →
  ∃ l, list_delete (hm_links m) (node_link n) = Ok l ∧
    list_init (delete (node_link n) l) (node_link n) = l ∧
    ∀ m', hm_links m' = delete (node_link n) l → hm_nodes m' = delete n (hm_nodes m) →
      hm_heads m' = <[h := Z.of_nat (length ns) - 1]> (hm_heads m) →
      hm_table m' = hm_table m → shape m' H (<[h := filter (λ x, x ≠ n) ns]> B) place.
Proof.
  intros Hs Hh Hn. pose proof (shape_filter _ _ _ _ _ _ _ Hs Hh Hn) as HB.
  destruct (shape_index _ _ _ _ _ _ Hs Hh) as [i Hi].
  destruct (shape_bucket _ _ _ _ _ _ Hs Hi) as (ns' & ? & Hr & Hnd & _); simplify_eq.
  assert (Hlive : is_Some (hm_links m !! node_link n)).
  { apply (ring_dom _ _ _ _ Hr), elem_of_cons. right. by apply list_elem_of_fmap_2. }
  destruct (lrep_delete (hm_links m) (RB B) (node_link n) (sh_links _ _ _ _ Hs) (RB_node _ _) Hlive)
    as (l & Hl & Hrep & Hdom & Hout).
  rewrite RB_remove, HB in Hrep, Hout. exists l. split_and!; [done| |].
  { destruct Hrep as [_ Hlone]. unfold list_init. rewrite insert_delete_eq. apply insert_id, ring_nil.
    apply Hlone; [rewrite Hdom; by apply elem_of_dom|done]. }
  intros m' El En Eh Et. destruct Hs as [Ht HndH Hnu _ Hu Hd Hhe Hp Ha].
  split; rewrite ?El, ?Et; [done..| | | | | |].
  - by apply lrep_free.
  - intros a Ha'. apply lookup_delete_is_Some in Ha' as [Hne Ha'].
    apply elem_of_dom in Ha'. rewrite Hdom in Ha'. apply elem_of_dom, Hu in Ha'.
    destruct Ha' as (b & xs & (h' & ns' & -> & -> & Hh')%RB_Some & Hin).
    exists (head_link h'), (node_link <$> filter (λ x, x ≠ n) ns').
    rewrite <-HB, RB_lookup, lookup_fmap, Hh'. split; [done|].
    apply elem_of_cons in Hin as [->|(n' & -> & Hin)%list_elem_of_fmap]; [set_solver|].
    apply elem_of_cons. right. apply list_elem_of_fmap_2, list_elem_of_filter. split; [congruence|done].
  - intros h'. rewrite <-Hd, lookup_insert_is_Some'. naive_solver.
  - rewrite Eh, Hhe, fmap_insert. f_equal. pose proof (length_filter_ne ns n Hnd Hn). lia.
  - intros i' h' ns' n' Hi' Hb Hn'. rewrite <-HB, lookup_fmap in Hb.
    destruct (B !! h') as [ns2|] eqn:Hb'; simplify_eq/=. apply list_elem_of_filter in Hn' as [Hne Hn'].
    rewrite En, lookup_delete_ne by done. by apply (Hp i' h' ns2).
  - intros n'. rewrite En, lookup_delete_is_Some. intros [Hne (h' & ns' & Hh' & Hin)%Ha].
    rewrite <-HB. exists h', (filter (λ x, x ≠ n) ns'). rewrite lookup_fmap, Hh'.
    split; [done|]. by apply list_elem_of_filter.
Qed.

(** A node that goes to the end of another bucket. *)
Lemma shape_move m H B place h ns n nd i2 h2 ns2 :
  shape m H B place → B !! h = Some ns → n ∈ ns → hm_nodes m !! n = Some nd →
  H !! i2 = Some h2 → B !! h2 = Some ns2 → h2 ≠ h → place (mn_key nd) i2 →
  ∃ l1 l2, list_delete (hm_links m) (node_link n) = Ok l1 ∧
    list_add_before l1 (head_link h2) (node_link n) = Ok l2 ∧
    ∀ m', hm_links m' = l2 → hm_nodes m' = hm_nodes m →
      hm_heads m' = <[h2 := Z.of_nat (length ns2) + 1]> (<[h := Z.of_nat (length ns) - 1]> (hm_heads m)) →
      hm_table m' = hm_table m →
      shape m' H (<[h2 := ns2 ++ [n]]> (<[h := filter (λ x, x ≠ n) ns]> B)) place.
Proof.
  intros Hs Hh Hn Hnd Hi2 Hh2 Hne Hpl.
  destruct (shape_unlink _ _ _ _ _ _ _ Hs Hh Hn) as (l1 & Hl1 & Hinit & Hs1).
  set (m1 := HashMap (delete (node_link n) l1) (delete n (hm_nodes m))
    (<[h := Z.of_nat (length ns) - 1]> (hm_heads m)) (hm_blocks m) (hm_capcity m) (hm_hash m)
    (hm_table m) (hm_count m)).
  destruct (shape_link m1 H (<[h := filter (λ x, x ≠ n) ns]> B) place i2 h2 ns2 n nd)
    as (l2 & Hl2 & Hs2).
  - by apply Hs1.
  - done.
  - by rewrite lookup_insert_ne.
  - apply lookup_delete_eq.
  - done.
  - exists l1, l2. simpl in Hl2. rewrite Hinit in Hl2. split_and!; [done..|].
    intros m' El En Eh Et. apply Hs2; [done| |done..]. simpl. by rewrite insert_delete_id.
Qed.

(** * New buckets and the move of nodes to them *)

Lemma lrep_new_head (m : lmem) R h :
  lrep m R → ¬ in_rings R h → lrep (list_init m h) (<[h := []]> R).
Proof.
  intros [HR Hlone] Hh. split; [by apply rings_insert_head|].
  intros e He Hn. apply (ring_frame (list_init m h)); [done|].
  destruct (decide (e = h)) as [->|Hne]; [apply ring_init|].
  apply (ring_frame m).
  - intros c ->%list_elem_of_singleton. unfold list_init. by rewrite lookup_insert_ne.
  - apply Hlone; [unfold list_init in He; set_solver|]. intros (h' & xs & Hh' & Hin).
    apply Hn. exists h', xs. rewrite lookup_insert_ne; [done|]. intros ->. apply Hh. by exists h', xs; set_solver.
Qed.

Lemma lrep_drop_head (m : lmem) R h :
  lrep m R → R !! h = Some [] → lrep (delete h m) (delete h R).
Proof.
  intros [[HR Hd] Hlone] Hh.
  assert (Hne : ∀ h' xs c, delete h R !! h' = Some xs → c ∈ h' :: xs → c ≠ h).
  { intros h' xs c [Hhh Hh']%lookup_delete_Some Hc ->. apply Hhh.
    apply (Hd h [] h' xs h); [done..|set_solver|done]. }
  split; [split|].
  - intros h' xs Hh'. apply (ring_frame m).
    + intros c Hc. rewrite lookup_delete_ne; [done|]. symmetry. eauto.
    + apply HR. by apply lookup_delete_Some in Hh' as [_ ?].
  - intros h1 xs1 h2 xs2 c [_ H1]%lookup_delete_Some [_ H2]%lookup_delete_Some. by apply Hd.
  - intros e He Hn. rewrite dom_delete_L in He. apply (ring_frame m).
    + intros c ->%list_elem_of_singleton. rewrite lookup_delete_ne; [done|]. set_solver.
    + apply Hlone; [set_solver|]. intros (h' & xs & Hh' & Hin). apply Hn. exists h', xs.
      rewrite lookup_delete_ne; [done|]. intros ->. simplify_eq. set_solver.
Qed.

(** What [hash_map_resize] does not change. *)
Definition kept (m m' : hash_map_t) : Prop :=
  hm_nodes m' = hm_nodes m ∧ hm_blocks m' = hm_blocks m ∧ hm_count m' = hm_count m ∧
  hm_hash m' = hm_hash m ∧ hm_capcity m' = hm_capcity m.

Lemma kept_trans m1 m2 m3 : kept m1 m2 → kept m2 m3 → kept m1 m3.
Proof. unfold kept. intuition congruence. Qed.

Lemma add_bucket_shape m H B place :
  shape m H B place → Z.of_nat (length H) < 2 ^ 31 →
  ∃ m' h, add_bucket (Z.of_nat (length H)) m = Ok m' ∧
    shape m' (H ++ [h]) (<[h := []]> B) place ∧ kept m m'.
Proof.
  intros Hs Hlen. unfold add_bucket, alloc_map_head.
  set (h := malloc (hm_heads m)). destruct (malloc_fresh (hm_heads m)) as [Hnull Hfresh].
  fold h in Hnull, Hfresh. cbn [hm_table set_heads set_links].
  destruct (array_insert_rep _ _ (length H) h (sh_table _ _ _ _ Hs) Hlen) as (t & -> & Ht); [lia|].
  cbn [res_bind snd deref]. unfold inserted in Ht. rewrite firstn_all, lookup_ge_None_2 in Ht by lia.
  eexists _, h. split; [done|]. split; [|done].
  destruct Hs as [_ HndH Hnu Hl Hu Hd Hhe Hp Ha].
  assert (Hb : B !! h = None).
  { rewrite Hhe, lookup_fmap in Hfresh. by destruct (B !! h). }
  assert (HhH : h ∉ H) by (rewrite <-Hd, Hb; by intros []).
  split; simpl; [done| | | | | | | |].
  - apply NoDup_app. split_and!; [done| |apply NoDup_singleton]. set_solver.
  - set_solver.
  - rewrite RB_insert. apply lrep_new_head; [done|]. rewrite in_RB_head, Hb. by intros [].
  - intros a. unfold list_init. rewrite lookup_insert_is_Some'. intros [<-|Ha'].
    + apply in_RB_head. by rewrite lookup_insert_eq.
    + destruct (Hu a Ha') as (h' & xs & Hh' & Hin). exists h', xs. rewrite RB_insert, lookup_insert_ne; [done|].
      intros <-. by rewrite RB_lookup, Hb in Hh'.
  - intros h'. rewrite lookup_insert_is_Some', Hd, elem_of_app, list_elem_of_singleton. naive_solver.
  - by rewrite Hhe, fmap_insert.
  - intros i h' ns n Hi Hb' Hn. rewrite lookup_insert in Hb'. case_decide; simplify_eq; [set_solver|].
    apply (Hp i h' ns n); [|done..]. apply lookup_app_Some in Hi as [?|[_ Hi]]; [done|].
    apply list_lookup_singleton_Some in Hi as [_ ->]. done.
  - intros n (h' & ns & Hh' & Hin)%Ha. exists h', ns. rewrite lookup_insert_ne; [done|]. congruence.
Qed.

Lemma add_buckets_shape k m H B place :
  shape m H B place → Z.of_nat (length H + k) ≤ 2 ^ 31 →
  ∃ m' H' B', for_up k (Z.of_nat (length H)) add_bucket m = Ok m' ∧ shape m' H' B' place ∧
    length H' = (length H + k)%nat ∧ kept m m'.
Proof.
  revert m H B. induction k as [|k IH]; intros m H B Hs Hlen; simpl.
  - exists m, H, B. rewrite Nat.add_0_r. done.
  - destruct (add_bucket_shape m H B place Hs) as (m1 & h & -> & Hs1 & Hk1); [lia|]. simpl.
    destruct (IH m1 (H ++ [h]) (<[h := []]> B) Hs1) as (m2 & H2 & B2 & Hrun & Hs2 & Hl2 & Hk2);
      rewrite length_app in *; simpl in *; [lia|].
    exists m2, H2, B2. replace (Z.of_nat (length H) + 1) with (Z.of_nat (length H + 1)) by lia.
    split_and!; [done..|lia|by eapply kept_trans].
Qed.

Lemma shape_place m H B (place place' : Z → nat → Prop) :
  shape m H B place → buckets_fit m H B place' → shape m H B place'.
Proof. by intros []; split. Qed.

(** Where a node may be when the first [i] buckets have been rehashed. *)
Definition rehashed (p : Z) (i : nat) (key : Z) (j : nat) : Prop :=
  j = slot (p + 1) key ∨ (i ≤ j)%nat ∧ j = slot p key.

Lemma head_count_add_Ok m h c k :
  hm_heads m !! h = Some c → 0 ≤ c + k < 2 ^ 64 →
  head_count_add m h k = Ok (set_heads m (<[h := c + k]> (hm_heads m))).
Proof. intros Hh Hc. unfold head_count_add. rewrite Hh. cbn. by rewrite u64_small. Qed.

Lemma shape_count m H B place h ns :
  shape m H B place → B !! h = Some ns → hm_heads m !! h = Some (Z.of_nat (length ns)).
Proof. intros Hs Hh. by rewrite (sh_heads _ _ _ _ Hs), lookup_fmap, Hh. Qed.

Section rehash.
Context (p : Z) (H : list Z) (Hp : 0 ≤ p ≤ 29) (Hlen : Z.of_nat (length H) = 2 ^ (p + 1)).

(** One node of bucket [i] that belongs elsewhere now. *)
Lemma rehash_move m B i h pre n ns nd :
  shape m H B (rehashed p i) → H !! i = Some h → B !! h = Some (pre ++ n :: ns) →
  hm_nodes m !! n = Some nd → slot (p + 1) (mn_key nd) ≠ i → hm_capcity m = 2 ^ (p + 1) →
  Z.of_nat (size (hm_nodes m)) < 2 ^ 63 →
  ∃ m' B', (let* l := list_delete (hm_links m) (node_link n) in
     let* m1 := head_count_add (set_links m l) h (-1) in
     let* h2 := get_head m1 (bucket_index m (mn_key nd)) in
     let* l := list_add_before (hm_links m1) (head_link h2) (node_link n) in
     head_count_add (set_links m1 l) h2 1) = Ok m' ∧
   shape m' H B' (rehashed p i) ∧ B' !! h = Some (pre ++ ns) ∧ kept m m'.
Proof.
  intros Hs Hi Hh Hn Hne Hcap Hsize. pose proof (slot_lt (p + 1) (mn_key nd)).
  pose proof (Z.pow_le_mono_r 2 (p + 1) 30).
  destruct (lookup_lt_is_Some_2 H (slot (p + 1) (mn_key nd))) as [h2 Hi2]; [lia|].
  destruct (shape_bucket _ _ _ _ _ _ Hs Hi) as (? & ? & _ & Hnd & Hl1); simplify_eq.
  destruct (shape_bucket _ _ _ _ _ _ Hs Hi2) as (ns2 & Hh2 & _ & _ & Hl2).
  assert (Hhh : h2 ≠ h).
  { intros ->. apply Hne. by eapply (NoDup_lookup H); [apply (sh_nodup _ _ _ _ Hs)|..]. }
  destruct (shape_move m H B (rehashed p i) h (pre ++ n :: ns) n nd (slot (p + 1) (mn_key nd)) h2 ns2)
    as (l1 & l2 & Hd & Hadd & Hs'); [done|done|set_solver|done..|by left|].
  rewrite Hd. cbn [res_bind].
  rewrite (head_count_add_Ok _ h (Z.of_nat (length (pre ++ n :: ns)))); cycle 1.
  { by apply (shape_count _ _ _ _ _ _ Hs). }
  { rewrite length_app in *. simpl in *. lia. }
  cbn [res_bind]. rewrite (bucket_index_slot _ (p + 1)) by (done || lia).
  unfold get_head. cbn [hm_table set_heads set_links]. rewrite u64_small by lia.
  rewrite (array_get_rep _ _ _ (sh_table _ _ _ _ Hs)), Hi2. cbn.
  rewrite Hadd. cbn [res_bind].
  rewrite (head_count_add_Ok _ h2 (Z.of_nat (length ns2))); cycle 1.
  { cbn. rewrite lookup_insert_ne by done. by apply (shape_count _ _ _ _ _ _ Hs). }
  { lia. }
  eexists _, _. split; [done|]. split; [by apply Hs'|]. split; [|done].
  rewrite lookup_insert_ne, lookup_insert_eq by done. by rewrite filter_ne_split.
Qed.

Lemma rehash_bucket_shape fuel m B i h pre ns :
  shape m H B (rehashed p i) → H !! i = Some h → B !! h = Some (pre ++ ns) →
  (∀ n nd, n ∈ pre → hm_nodes m !! n = Some nd → slot (p + 1) (mn_key nd) = i) →
  hm_capcity m = 2 ^ (p + 1) → Z.of_nat (size (hm_nodes m)) < 2 ^ 63 → (length ns ≤ fuel)%nat →
  ∃ m' B', rehash_bucket fuel m h (Z.of_nat i) (first_or (head_link h) (node_link <$> ns)) = Ok m' ∧
    shape m' H B' (rehashed p (S i)) ∧ kept m m'.
Proof.
  revert fuel m B pre. induction ns as [|n ns IH]; intros fuel m B pre Hs Hi Hh Hpre Hcap Hsize Hf.
  - exists m, B. split_and!; [by destruct fuel; simpl; rewrite decide_True| |done].
    apply (shape_place _ _ _ _ _ Hs). intros j h' ns' n' Hj Hb Hn'.
    destruct (sh_place _ _ _ _ Hs j h' ns' n' Hj Hb Hn') as (nd & Hnd & Hpl). exists nd. split; [done|].
    destruct (decide (j = i)) as [->|Hji]; [|destruct Hpl as [->|[? ->]]; [by left|right; lia]].
    left. rewrite app_nil_r in Hh. simplify_eq. symmetry. by apply (Hpre n').
  - destruct fuel as [|fuel]; [simpl in Hf; lia|].
    change (first_or (head_link h) (node_link <$> n :: ns)) with (node_link n). cbn [rehash_bucket].
    rewrite decide_False by done. rewrite list_to_struct_member. cbn [res_bind].
    destruct (shape_bucket _ _ _ _ _ _ Hs Hi) as (? & ? & Hr & Hnd & _); simplify_eq.
    rewrite fmap_app, fmap_cons in Hr. rewrite (ring_next_elem _ _ _ _ _ Hr). cbn [res_bind].
    destruct (sh_place _ _ _ _ Hs i h _ n Hi Hh) as (nd & Hn & Hpl); [set_solver|].
    rewrite Hn. cbn [deref res_bind]. rewrite (bucket_index_slot m (p + 1)) by (done || lia).
    case_decide as E.
    + apply (IH fuel m B (pre ++ [n])); [done|done|by rewrite <-app_assoc| |done|done|simpl in Hf; lia].
      intros n' nd' [Hn'| ->%list_elem_of_singleton]%elem_of_app Hnd'; [eauto|]. simplify_eq. lia.
    + destruct (rehash_move m B i h pre n ns nd) as (m1 & B1 & Hrun & Hs1 & Hh1 & Hk1); [done..|lia|done|done|].
      destruct (IH fuel m1 B1 pre) as (m2 & B2 & Hrun2 & Hs2 & Hk2).
      * done.
      * done.
      * done.
      * destruct Hk1 as (-> & _). eauto.
      * by destruct Hk1 as (_ & _ & _ & _ & ->).
      * by destruct Hk1 as (-> & _).
      * simpl in Hf. lia.
      * exists m2, B2. split_and!; [|done|by eapply kept_trans].
        rewrite (bucket_index_slot m (p + 1)) in Hrun by (done || lia). run_ok.
Qed.
Lemma rehash_shape m B i :
  shape m H B (rehashed p i) → (i < length H)%nat → hm_capcity m = 2 ^ (p + 1) →
  Z.of_nat (size (hm_nodes m)) < 2 ^ 63 →
  ∃ m' B', rehash (Z.of_nat i) m = Ok m' ∧ shape m' H B' (rehashed p (S i)) ∧ kept m m'.
Proof.
  intros Hs Hi Hcap Hsize. destruct (lookup_lt_is_Some_2 H i Hi) as [h Hh].
  pose proof (Z.pow_le_mono_r 2 (p + 1) 30).
  destruct (shape_bucket _ _ _ _ _ _ Hs Hh) as (ns & Hns & Hr & _ & Hl).
  unfold rehash. rewrite (get_head_shape _ _ _ _ _ _ Hs Hh) by lia. cbn [res_bind].
  rewrite (ring_next_head _ _ _ Hr). cbn [res_bind].
  by apply (rehash_bucket_shape _ m B i h []); [done..|set_solver|done|done|done].
Qed.

Lemma rehash_all_shape k m B i :
  shape m H B (rehashed p i) → (i + k ≤ length H)%nat → hm_capcity m = 2 ^ (p + 1) →
  Z.of_nat (size (hm_nodes m)) < 2 ^ 63 →
  ∃ m' B', for_up k (Z.of_nat i) rehash m = Ok m' ∧ shape m' H B' (rehashed p (i + k)) ∧ kept m m'.
Proof.
  revert m B i. induction k as [|k IH]; intros m B i Hs Hi Hcap Hsize; simpl.
  - exists m, B. by rewrite Nat.add_0_r.
  - destruct (rehash_shape m B i) as (m1 & B1 & -> & Hs1 & Hk1); [done|lia|done|done|]. simpl.
    replace (Z.of_nat i + 1) with (Z.of_nat (S i)) by lia. pose proof Hk1 as (En & _ & _ & _ & Ec).
    destruct (IH m1 B1 (S i)) as (m2 & B2 & -> & Hs2 & Hk2); [done|lia|congruence|by rewrite En|].
    exists m2, B2. rewrite Nat.add_succ_comm in Hs2. split_and!; [done..|by eapply kept_trans].
Qed.
End rehash.

(** [hash_map_resize] doubles the table and puts every node into its bucket. *)
Lemma hash_map_resize_shape p m H B :
  shape m H B (λ k i, i = slot p k) → hm_capcity m = 2 ^ p → Z.of_nat (length H) = 2 ^ p →
  0 ≤ p ≤ 29 → Z.of_nat (size (hm_nodes m)) < 2 ^ 63 →
  ∃ m' H' B', hash_map_resize m = Ok m' ∧ shape m' H' B' (λ k i, i = slot (p + 1) k) ∧
    Z.of_nat (length H') = 2 ^ (p + 1) ∧ hm_capcity m' = 2 ^ (p + 1) ∧
    kept (set_capcity m (2 ^ (p + 1))) m'.
Proof.
  intros Hs Hcap Hlen Hp Hsize. pose proof (Z.pow_le_mono_r 2 p 29).
  assert (Hdbl : 2 ^ (p + 1) = 2 * 2 ^ p) by (rewrite Z.pow_add_r by lia; lia).
  unfold hash_map_resize. rewrite Hcap, Z.shiftl_mul_pow2, (s32_small (2 ^ p)) by lia.
  change (2 ^ 1) with 2. rewrite (s32_small (2 ^ p * 2)), u64_small by lia.
  replace (2 ^ p * 2) with (2 ^ (p + 1)) by lia. cbn [hm_capcity set_capcity].
  set (m0 := set_capcity m (2 ^ (p + 1))).
  assert (Hs0 : shape m0 H B (rehashed p 0)).
  { apply (shape_place _ _ _ (λ k i, i = slot p k)); [by apply (shape_ext m)|].
    intros i h ns n Hi Hh Hn. destruct (sh_place _ _ _ _ Hs i h ns n Hi Hh Hn) as (nd & ? & ->).
    exists nd. split; [done|]. right. split; [lia|done]. }
  destruct (add_buckets_shape (Z.to_nat (2 ^ (p + 1) - 2 ^ p)) m0 H B (rehashed p 0) Hs0)
    as (m1 & H1 & B1 & Hrun1 & Hs1 & Hl1 & Hk1); [lia|].
  rewrite Hlen in Hrun1. rewrite Hrun1. cbn [res_bind]. pose proof Hk1 as (En & _ & _ & _ & Ec).
  destruct (rehash_all_shape p H1 Hp ltac:(lia) (Z.to_nat (2 ^ p)) m1 B1 0)
    as (m2 & B2 & Hrun2 & Hs2 & Hk2); [done|lia|done|by rewrite En|].
  change (Z.of_nat 0) with 0 in Hrun2.
  exists m2, H1, B2. split_and!; [done| |lia|by destruct Hk2 as (_ & _ & _ & _ & ->)|by eapply kept_trans].
  apply (shape_place _ _ _ _ _ Hs2). intros i h ns n Hi Hh Hn.
  destruct (sh_place _ _ _ _ Hs2 i h ns n Hi Hh Hn) as (nd & Hnd & [->|[Hge ->]]); exists nd; [done|].
  exfalso. pose proof (slot_lt p (mn_key nd)). lia.
Qed.

(** * Nodes *)

Section names.
Context (K : cstring → Prop) `{!Names K}.

Record data (m : hash_map_t) (F : gmap cstring bytes) : Prop := {
  da_node n nd : hm_nodes m !! n = Some nd →
    K (mn_keyname nd) ∧ mn_key nd = string_hash (mn_keyname nd) ∧ mn_value nd ≠ NULL ∧
    ∃ b, hm_blocks m !! mn_value nd = Some b ∧ F !! mn_keyname nd = Some b;
  da_name k : is_Some (F !! k) → ∃ n nd, hm_nodes m !! n = Some nd ∧ mn_keyname nd = k;
  da_unique n1 n2 nd1 nd2 : hm_nodes m !! n1 = Some nd1 → hm_nodes m !! n2 = Some nd2 →
    mn_keyname nd1 = mn_keyname nd2 ∨ mn_value nd1 = mn_value nd2 → n1 = n2;
  da_block v : is_Some (hm_blocks m !! v) → ∃ n nd, hm_nodes m !! n = Some nd ∧ mn_value nd = v;
  da_null : hm_nodes m !! NULL = None;
  da_size : size (hm_nodes m) = size F;
  da_count : hm_count m = Z.of_nat (size F)
}.

Record hrep_at (p : Z) (H : list Z) (B : gmap Z (list Z)) (m : hash_map_t)
    (F : gmap cstring bytes) : Prop := {
  hr_shape : shape m H B (λ k i, i = slot p k);
  hr_data : data m F;
  hr_cap : hm_capcity m = 2 ^ p;
  hr_len : Z.of_nat (length H) = 2 ^ p;
  hr_range : 4 ≤ p ≤ 25;
  hr_hash : hm_hash m = string_hash
}.

Definition hrep (m : hash_map_t) (F : gmap cstring bytes) : Prop := ∃ p H B, hrep_at p H B m F.

(** A node that the walk for [k] stops at. *)
Definition matches (k : cstring) (nd : map_node_t) : Prop :=
  string_hash k = mn_key nd ∧ k `prefix_of` mn_keyname nd.

#[local] Instance matches_dec k nd : Decision (matches k nd).
Proof. unfold matches. apply _. Defined.

(** Of the names in use only the name itself matches. *)
Lemma matches_name m F n nd k :
  data m F → K k → hm_nodes m !! n = Some nd → matches k nd ↔ mn_keyname nd = k.
Proof.
  intros Hd Hk Hn. destruct (da_node _ _ Hd n nd Hn) as (Hkn & Hh & _). unfold matches. rewrite Hh.
  split; [|by intros <-]. intros [He Hp]. symmetry. by apply name_distinct.
Qed.

(** The walk stops at the first node that matches, if there is one. *)
Lemma find_node_spec fuel m h pre ns k :
  0 ∉ k → ring (hm_links m) (head_link h) (node_link <$> (pre ++ ns)) →
  (∀ n, n ∈ ns → is_Some (hm_nodes m !! n)) → (length ns ≤ fuel)%nat →
  ∃ r, find_node fuel m (head_link h) (string_hash k) k (first_or (head_link h) (node_link <$> ns))
         = Ok r ∧
    match r with
    | Some n => n ∈ ns ∧ ∃ nd, hm_nodes m !! n = Some nd ∧ matches k nd
    | None => ∀ n nd, n ∈ ns → hm_nodes m !! n = Some nd → ¬ matches k nd
    end.
Proof.
  intros Hk. revert fuel pre. induction ns as [|n ns IH]; intros fuel pre Hr Hlive Hf.
  - exists None. split; [|set_solver]. by destruct fuel; simpl; rewrite decide_True.
  - destruct fuel as [|fuel]; [simpl in Hf; lia|].
    change (first_or (head_link h) (node_link <$> n :: ns)) with (node_link n). cbn [find_node].
    rewrite decide_False by done. destruct (Hlive n) as [nd Hn]; [set_solver|].
    rewrite list_to_struct_member. cbn [res_bind]. rewrite Hn. cbn [deref res_bind].
    rewrite fmap_app, fmap_cons in Hr. rewrite (ring_next_elem _ _ _ _ _ Hr). cbn [res_bind].
    rewrite strncmp_eq_prefix by done.
    destruct (decide (matches k nd)) as [[He Hp]|Hno].
    + rewrite decide_True, bool_decide_eq_true_2 by done.
      exists (Some n). split; [done|]. split; [set_solver|]. by exists nd.
    + destruct (IH fuel (pre ++ [n])) as (r & Hrun & Hres); [|set_solver|simpl in Hf; lia|].
      { by rewrite <-app_assoc, fmap_app, fmap_app. }
      exists r. split.
      * case_decide as E; [|done]. by rewrite bool_decide_eq_false_2 by (intros ?; by apply Hno).
      * destruct r as [n'|]; [set_solver|].
        intros n' nd' [->|Hin]%elem_of_cons Hn'; [congruence|eauto].
Qed.

Lemma find_matches p H B m F k :
  hrep_at p H B m F → 0 ∉ k →
  ∃ h ns r, find m (string_hash k) k = Ok (h, r) ∧ H !! slot p (string_hash k) = Some h ∧
    B !! h = Some ns ∧
    match r with
    | Some n => n ∈ ns ∧ ∃ nd, hm_nodes m !! n = Some nd ∧ matches k nd
    | None => ∀ n nd, hm_nodes m !! n = Some nd → ¬ matches k nd
    end.
Proof.
  intros [Hs Hd Hc Hl Hp Hh] Hk. pose proof (Z.pow_le_mono_r 2 p 30).
  pose proof (slot_lt p (string_hash k)).
  destruct (lookup_lt_is_Some_2 H (slot p (string_hash k))) as [h Hi]; [lia|].
  destruct (shape_bucket _ _ _ _ _ _ Hs Hi) as (ns & Hns & Hr & Hnd & Hlen).
  unfold find. rewrite (bucket_index_slot m p) by (done || lia).
  rewrite (get_head_shape _ _ _ _ _ _ Hs Hi) by lia. cbn [res_bind].
  rewrite (ring_next_head _ _ _ Hr). cbn [res_bind].
  destruct (find_node_spec (size (hm_nodes m)) m h [] ns k Hk) as (r & -> & Hres); [done| |done|].
  { intros n Hn. by eapply shape_live. }
  exists h, ns, r. split_and!; [done..|]. destruct r as [n|]; [done|].
  intros n nd Hn Hm. destruct (sh_all _ _ _ _ Hs n) as (h' & ns' & Hh' & Hin); [eauto|].
  destruct (shape_index _ _ _ _ _ _ Hs Hh') as [i' Hi'].
  destruct (sh_place _ _ _ _ Hs i' h' ns' n Hi' Hh' Hin) as (nd' & Hn' & Hpl).
  simplify_eq. destruct Hm as [He Hp']. rewrite <-He in Hi'. simplify_eq. by apply (Hres n nd).
Qed.

Lemma find_spec p H B m F k :
  hrep_at p H B m F → K k →
  ∃ h ns r, find m (string_hash k) k = Ok (h, r) ∧ H !! slot p (string_hash k) = Some h ∧
    B !! h = Some ns ∧
    match r with
    | Some n => n ∈ ns ∧ ∃ nd, hm_nodes m !! n = Some nd ∧ mn_keyname nd = k
    | None => F !! k = None
    end.
Proof.
  intros Hr Hk. pose proof (hr_data _ _ _ _ _ Hr) as Hd.
  destruct (find_matches _ _ _ _ _ _ Hr (name_nonzero k Hk)) as (h & ns & r & Hf & Hi & Hns & Hres).
  exists h, ns, r. split_and!; [done..|]. destruct r as [n|].
  - destruct Hres as (Hin & nd & Hn & Hm). split; [done|]. exists nd. split; [done|].
    by apply (matches_name m F n).
  - apply eq_None_not_Some. intros (n & nd & Hn & Hkn)%(da_name _ _ Hd).
    apply (Hres n nd Hn). by apply (matches_name m F n).
Qed.

(** [hash_map_get] *)
Lemma hash_map_get_spec m F k :
  hrep m F → K k →
  match F !! k with
  | Some b => ∃ v, hash_map_get (Some m) k = Ok (0, Some v) ∧ hm_blocks m !! v = Some b
  | None => hash_map_get (Some m) k = Ok (-1, None)
  end.
Proof.
  intros (p & H & B & Hr) Hk. destruct (find_spec _ _ _ _ _ _ Hr Hk) as (h & ns & r & Hf & _ & _ & Hres).
  unfold hash_map_get. cbn [assert_map res_bind]. rewrite (hr_hash _ _ _ _ _ Hr), Hf. cbn [res_bind snd].
  destruct r as [n|]; [|by rewrite Hres]. destruct Hres as (_ & nd & Hn & <-).
  destruct (da_node _ _ (hr_data _ _ _ _ _ Hr) n nd Hn) as (_ & _ & _ & b & Hb & ->).
  rewrite Hn. cbn. eauto.
Qed.


(** The nodes after the assignment of a value, an insertion and a removal. *)
Lemma data_store m m' F n nd v b :
  data m F → hm_nodes m !! n = Some nd → v ≠ NULL →
  delete (mn_value nd) (hm_blocks m) !! v = None →
  hm_nodes m' = <[n := MapNode (mn_key nd) (mn_keyname nd) v]> (hm_nodes m) →
  hm_blocks m' = <[v := b]> (delete (mn_value nd) (hm_blocks m)) → hm_count m' = hm_count m →
  data m' (<[mn_keyname nd := b]> F).
Proof.
  intros [Hnode Hname Huniq Hblk Hnull Hsz Hcnt] Hn Hv0 Hv En Eb Ec.
  destruct (Hnode n nd Hn) as (HK & Hkey & _ & b0 & Hb0 & HF).
  assert (Hold : ∀ n' nd', n' ≠ n → hm_nodes m !! n' = Some nd' →
    mn_keyname nd' ≠ mn_keyname nd ∧ mn_value nd' ≠ mn_value nd ∧ mn_value nd' ≠ v).
  { intros n' nd' Hne Hn'. assert (mn_value nd' ≠ mn_value nd) by eauto.
    split_and!; [eauto..|]. intros E. destruct (Hnode n' nd' Hn') as (_ & _ & _ & b' & Hb' & _).
    rewrite lookup_delete_ne in Hv by congruence. congruence. }
  split; rewrite ?En, ?Eb, ?Ec.
  - intros n' nd' Hn'. rewrite lookup_insert in Hn'. case_decide; simplify_eq/=.
    + rewrite !lookup_insert_eq. split_and!; [done..|by eexists].
    + destruct (Hold n' nd') as (? & ? & ?); [done..|].
      rewrite !lookup_insert_ne, lookup_delete_ne by done. eauto.
  - intros k. rewrite lookup_insert_is_Some'. intros [<-|(n' & nd' & Hn' & <-)%Hname].
    + exists n. rewrite lookup_insert_eq. eauto.
    + destruct (decide (n' = n)) as [->|Hne]; simplify_eq.
      * exists n. rewrite lookup_insert_eq. eauto.
      * exists n', nd'. by rewrite lookup_insert_ne.
  - intros n1 n2 nd1 nd2. rewrite !lookup_insert. repeat case_decide; intros; simplify_eq/=; try done.
    + destruct (Hold n2 nd2) as (? & ? & ?); [done..|]. naive_solver.
    + destruct (Hold n1 nd1) as (? & ? & ?); [done..|]. naive_solver.
    + by eapply Huniq.
  - intros v'. rewrite lookup_insert_is_Some', lookup_delete_is_Some.
    intros [<-|(Hne & (n' & nd' & Hn' & <-)%Hblk)].
    + exists n. rewrite lookup_insert_eq. eauto.
    + exists n', nd'. rewrite lookup_insert_ne; [done|]. intros ->. congruence.
  - rewrite lookup_insert_ne; [done|]. intros ->. congruence.
  - by rewrite !map_size_insert_Some by eauto.
  - by rewrite map_size_insert_Some by eauto.
Qed.

Lemma data_new m m' F n k v b :
  data m F → K k → F !! k = None → n ≠ NULL → hm_nodes m !! n = None → v ≠ NULL → hm_blocks m !! v = None →
  hm_nodes m' = <[n := MapNode (string_hash k) k v]> (hm_nodes m) →
  hm_blocks m' = <[v := b]> (hm_blocks m) → hm_count m' = hm_count m + 1 → data m' (<[k := b]> F).
Proof.
  intros [Hnode Hname Huniq Hblk Hnull Hsz Hcnt] HK HF Hn0 Hn Hv0 Hv En Eb Ec.
  assert (Hold : ∀ n' nd', hm_nodes m !! n' = Some nd' → mn_keyname nd' ≠ k ∧ mn_value nd' ≠ v).
  { intros n' nd' Hn'. destruct (Hnode n' nd' Hn') as (_ & _ & _ & b' & ? & ?).
    split; congruence. }
  split; rewrite ?En, ?Eb, ?Ec.
  - intros n' nd' Hn'. rewrite lookup_insert in Hn'. case_decide; simplify_eq/=.
    + rewrite !lookup_insert_eq. split_and!; [done..|by eexists].
    + destruct (Hold n' nd') as (? & ?); [done..|]. rewrite !lookup_insert_ne by done. eauto.
  - intros k'. rewrite lookup_insert_is_Some'. intros [<-|(n' & nd' & Hn' & <-)%Hname].
    + exists n. rewrite lookup_insert_eq. eauto.
    + exists n', nd'. rewrite lookup_insert_ne by congruence. done.
  - intros n1 n2 nd1 nd2. rewrite !lookup_insert. repeat case_decide; intros; simplify_eq/=; try done.
    + destruct (Hold n2 nd2) as (? & ?); [done..|]. naive_solver.
    + destruct (Hold n1 nd1) as (? & ?); [done..|]. naive_solver.
    + by eapply Huniq.
  - intros v'. rewrite lookup_insert_is_Some'. intros [<-|(n' & nd' & Hn' & <-)%Hblk].
    + exists n. rewrite lookup_insert_eq. eauto.
    + exists n', nd'. rewrite lookup_insert_ne by congruence. done.
  - by rewrite lookup_insert_ne.
  - rewrite !map_size_insert_None by done. lia.
  - rewrite map_size_insert_None by done. lia.
Qed.

Lemma data_del m m' F n nd :
  data m F → hm_nodes m !! n = Some nd → hm_nodes m' = delete n (hm_nodes m) →
  hm_blocks m' = delete (mn_value nd) (hm_blocks m) → hm_count m' = hm_count m - 1 →
  data m' (delete (mn_keyname nd) F).
Proof.
  intros [Hnode Hname Huniq Hblk Hnull Hsz Hcnt] Hn En Eb Ec.
  destruct (Hnode n nd Hn) as (HK & Hkey & _ & b0 & Hb0 & HF).
  assert (Hpos : size F ≠ 0%nat) by (intros ->%map_size_empty_inv; done).
  split; rewrite ?En, ?Eb, ?Ec.
  - intros n' nd' [Hne Hn']%lookup_delete_Some.
    rewrite !lookup_delete_ne by (intros E; apply Hne; eauto). eauto.
  - intros k. rewrite lookup_delete_is_Some. intros (Hne & (n' & nd' & Hn' & <-)%Hname).
    exists n', nd'. rewrite lookup_delete_ne; [done|]. intros ->. congruence.
  - intros n1 n2 nd1 nd2 [_ H1]%lookup_delete_Some [_ H2]%lookup_delete_Some. by eapply Huniq.
  - intros v'. rewrite lookup_delete_is_Some. intros (Hne & (n' & nd' & Hn' & <-)%Hblk).
    exists n', nd'. rewrite lookup_delete_ne; [done|]. intros ->. congruence.
  - rewrite lookup_delete_ne; [done|]. intros ->. congruence.
  - by rewrite !map_size_delete_Some, Hsz by eauto.
  - rewrite map_size_delete_Some by eauto. lia.
Qed.

Lemma data_kept m m' F : data m F → kept m m' → data m' F.
Proof. intros [] (En & Eb & Ec & _). split; by rewrite ?En, ?Eb, ?Ec. Qed.


(** * The operations *)

(** Assignment of a value to a node that is there. *)
Lemma put_existing p H B m F n nd b :
  hrep_at p H B m F → hm_nodes m !! n = Some nd →
  ∃ m', (let* m := free_value m n in let* m := store_value m n b in Ok (0, m)) = Ok (0, m') ∧
    hrep_at p H B m' (<[mn_keyname nd := b]> F).
Proof.
  intros [Hs Hd Hc Hl Hp Hh] Hn. destruct (da_node _ _ Hd n nd Hn) as (_ & _ & Hnull & b0 & Hb0 & _).
  unfold free_value. rewrite Hn. cbn [deref res_bind]. rewrite decide_False by done.
  rewrite Hb0. cbn [deref res_bind]. unfold store_value. cbn [hm_nodes hm_blocks set_blocks].
  rewrite Hn. cbn [deref res_bind].
  destruct (malloc_fresh (delete (mn_value nd) (hm_blocks m))) as [Hv0 Hv].
  eexists. split; [done|]. split; [| |done..].
  - apply (shape_ext m); [done..|]. simpl. rewrite fmap_insert. simpl.
    apply insert_id. by rewrite lookup_fmap, Hn.
  - by eapply (data_store m).
Qed.

(** The load factor keeps the table in range. *)
Lemma grow_if_needed p H B m F k h :
  hrep_at p H B m F → Z.of_nat (size F) < 2 ^ 24 → H !! slot p (string_hash k) = Some h →
  ∃ p' H' B' m' h',
    (if up_to_load_factor m then
       let* m := hash_map_resize m in
       let* h := get_head m (bucket_index m (string_hash k)) in Ok (h, m)
     else Ok (h, m)) = Ok (h', m') ∧
    hrep_at p' H' B' m' F ∧ H' !! slot p' (string_hash k) = Some h'.
Proof.
  intros Hr HF Hi. unfold up_to_load_factor. case_bool_decide as Hload; [|by exists p, H, B, m, h].
  destruct Hr as [Hs Hd Hc Hl Hp Hh]. rewrite Hc, (da_count _ _ Hd) in Hload.
  assert (p ≤ 24).
  { apply Z.nlt_ge. intros ?. pose proof (Z.pow_le_mono_r 2 25 p). lia. }
  pose proof (Z.pow_le_mono_r 2 (p + 1) 25). pose proof (slot_lt (p + 1) (string_hash k)).
  destruct (hash_map_resize_shape p m H B Hs Hc Hl) as (m' & H' & B' & -> & Hs' & Hl' & Hc' & Hk');
    [lia|rewrite (da_size _ _ Hd); lia|].
  cbn [res_bind]. destruct (lookup_lt_is_Some_2 H' (slot (p + 1) (string_hash k))) as [h' Hi']; [lia|].
  rewrite (bucket_index_slot _ (p + 1)) by (done || lia).
  rewrite (get_head_shape _ _ _ _ _ _ Hs' Hi') by lia. cbn [res_bind].
  exists (p + 1), H', B', m', h'. split_and!; [done| |done]. split; [done| |done|done|lia|].
  - by apply (data_kept (set_capcity m (2 ^ (p + 1)))); [destruct Hd; split|].
  - by destruct Hk' as (_ & _ & _ & -> & _).
Qed.

(** A new node. *)
Lemma put_new p H B m F k b h :
  hrep_at p H B m F → K k → F !! k = None → Z.of_nat (size F) < 2 ^ 24 →
  H !! slot p (string_hash k) = Some h →
  ∃ m' B', (let '(node, m) := alloc_map_node m in
      if decide (KEYNAME_SIZE ≤ Z.of_nat (length k)) then Undef else
      let m := set_nodes m (<[node := MapNode (string_hash k) k NULL]> (hm_nodes m)) in
      let* m := store_value m node b in
      let* l := list_add_before (hm_links m) (head_link h) (node_link node) in
      let* m := head_count_add (set_links m l) h 1 in
      Ok (0, set_count m (u64 (hm_count m + 1)))) = Ok (0, m') ∧
    hrep_at p H B' m' (<[k := b]> F).
Proof.
  intros [Hs Hd Hc Hl Hp Hh] HK HF Hsz Hi. unfold alloc_map_node.
  destruct (malloc_fresh (hm_nodes m)) as [Hn0 Hn]. destruct (malloc_fresh (hm_blocks m)) as [Hv0 Hv].
  set (n := malloc (hm_nodes m)) in *. set (v := malloc (hm_blocks m)) in *.
  rewrite decide_False by (pose proof (name_fits k HK); lia).
  destruct (shape_bucket _ _ _ _ _ _ Hs Hi) as (ns & Hns & _ & _ & Hlen).
  destruct (shape_link m H B _ _ h ns n (MapNode (string_hash k) k v) Hs Hi Hns Hn) as (l & Hadd & Hs'); [done|].
  unfold store_value. cbn [hm_nodes set_nodes set_links hm_blocks]. rewrite lookup_insert_eq. cbn [deref res_bind].
  fold v. cbn [hm_links set_nodes set_blocks set_links]. rewrite Hadd. cbn [res_bind].
  rewrite (head_count_add_Ok _ h (Z.of_nat (length ns))); cycle 1.
  { by apply (shape_count _ _ _ _ _ _ Hs). }
  { rewrite (da_size _ _ Hd) in Hlen. lia. }
  cbn [res_bind]. eexists _, _. split; [done|]. split; [| |done..].
  - apply Hs'; simpl; [done| |done..]. by rewrite !insert_insert_eq.
  - apply (data_new m _ F n k v b); simpl; [done..| |done|].
    + by rewrite !insert_insert_eq.
    + rewrite u64_small; [done|]. rewrite (da_count _ _ Hd). lia.
Qed.

Lemma hash_map_put_spec m F k b :
  hrep m F → K k → Z.of_nat (size F) < 2 ^ 24 →
  ∃ m', hash_map_put (Some m) k b = Ok (0, m') ∧ hrep m' (<[k := b]> F).
Proof.
  intros (p & H & B & Hr) HK Hsz.
  destruct (find_spec _ _ _ _ _ _ Hr HK) as (h & ns & r & Hf & Hi & Hns & Hres).
  unfold hash_map_put. cbn [assert_map res_bind]. rewrite (hr_hash _ _ _ _ _ Hr), Hf. cbn [res_bind fst snd].
  destruct r as [n|].
  - destruct Hres as (_ & nd & Hn & <-).
    destruct (put_existing _ _ _ _ _ _ _ b Hr Hn) as (m' & -> & Hr'). exists m'. split; [done|]. by eexists _, _, _.
  - destruct (grow_if_needed _ _ _ _ _ k h Hr Hsz Hi) as (p1 & H1 & B1 & m1 & h1 & -> & Hr1 & Hi1).
    cbn [res_bind]. destruct (put_new _ _ _ _ _ k b h1 Hr1 HK Hres Hsz Hi1) as (m' & B' & Hput & Hr').
    exists m'. split; [exact Hput|]. by eexists _, _, _.
Qed.

(** Freeing a node and its value. *)
Lemma free_node_rep H B place m F h ns n :
  shape m H B place → data m F → B !! h = Some ns → n ∈ ns → Z.of_nat (size F) < 2 ^ 63 →
  ∃ nd m', (let* m := free_value m n in
      let* m := free_map_node m n in
      let* m := head_count_add m h (-1) in
      Ok (set_count m (u64 (hm_count m - 1)))) = Ok m' ∧
    hm_nodes m !! n = Some nd ∧
    shape m' H (<[h := filter (λ x, x ≠ n) ns]> B) place ∧ data m' (delete (mn_keyname nd) F) ∧
    hm_capcity m' = hm_capcity m ∧ hm_hash m' = hm_hash m.
Proof.
  intros Hs Hd Hh Hin Hsz. destruct (shape_live _ _ _ _ _ _ _ Hs Hh Hin) as [nd Hn].
  destruct (da_node _ _ Hd n nd Hn) as (_ & _ & Hnull & b0 & Hb0 & HF).
  destruct (shape_index _ _ _ _ _ _ Hs Hh) as [i Hi].
  destruct (shape_bucket _ _ _ _ _ _ Hs Hi) as (? & ? & _ & _ & Hlen); simplify_eq.
  destruct (shape_unlink _ _ _ _ _ _ _ Hs Hh Hin) as (l & Hdel & _ & Hs').
  assert (Hn0 : n ≠ NULL) by (intros ->; pose proof (da_null _ _ Hd); congruence).
  assert (Hpos : size F ≠ 0%nat) by (intros ->%map_size_empty_inv; done).
  assert (Hlp : (0 < length ns)%nat) by (destruct ns; [by apply not_elem_of_nil in Hin|simpl; lia]).
  exists nd. unfold free_value. rewrite Hn. cbn [deref res_bind]. rewrite decide_False by done.
  rewrite Hb0. cbn [deref res_bind]. unfold free_map_node. rewrite decide_False by done.
  cbn [hm_links set_blocks]. rewrite Hdel. cbn [res_bind].
  rewrite (head_count_add_Ok _ h (Z.of_nat (length ns))); cycle 1.
  { by apply (shape_count _ _ _ _ _ _ Hs). }
  { rewrite (da_size _ _ Hd) in Hlen. lia. }
  cbn [res_bind]. eexists. split_and!; [done..| | |done|done].
  - by apply Hs'.
  - apply (data_del m _ F n nd); [done..|]. simpl. rewrite (da_count _ _ Hd). by rewrite u64_small by lia.
Qed.

Lemma hash_map_del_spec m F k :
  hrep m F → K k → Z.of_nat (size F) < 2 ^ 63 →
  ∃ m', hash_map_del (Some m) k = Ok (if decide (is_Some (F !! k)) then 0 else -1, m') ∧
    hrep m' (delete k F).
Proof.
  intros (p & H & B & Hr) HK Hsz.
  destruct (find_spec _ _ _ _ _ _ Hr HK) as (h & ns & r & Hf & Hi & Hns & Hres).
  unfold hash_map_del. cbn [assert_map res_bind]. rewrite (hr_hash _ _ _ _ _ Hr), Hf. cbn [res_bind fst snd].
  destruct Hr as [Hs Hd Hc Hl Hp Hh]. destruct r as [n|].
  - destruct Hres as (Hin & nd & Hn & <-).
    destruct (free_node_rep _ _ _ _ _ _ _ _ Hs Hd Hns Hin Hsz) as (nd' & m' & Hrun & Hn' & Hs' & Hd' & Ec & Eh).
    simplify_eq. destruct (da_node _ _ Hd n nd Hn) as (_ & _ & _ & b & _ & HF).
    exists m'. rewrite decide_True by eauto. split.
    + run_ok.
    + eexists _, _, _. split; [done..| | | |]; congruence.
  - exists m. rewrite decide_False by (rewrite Hres; by intros []). split; [done|].
    rewrite delete_id by done. by exists p, H, B.
Qed.

(** [hash_map_init] on a heap the table has not used yet. *)
Lemma hash_map_init_spec : ∃ m, alloc_co_specs = Ok m ∧ hrep m ∅.
Proof.
  unfold alloc_co_specs, hash_map_init. cbn [assert_map res_bind hm_capcity].
  assert (Hs0 : shape (HashMap ∅ ∅ ∅ ∅ HASH_MAP_DEFALUT_CAPCITY string_hash (Arr None 0 0) 0) [] ∅
    (λ k i, i = slot 4 k)).
  { split; simpl; [by split|constructor|apply not_elem_of_nil| | | | | |].
    - rewrite RB_empty. split; [split|set_solver]; [by intros ?? ?%lookup_empty_Some|].
      by intros ????? ?%lookup_empty_Some.
    - by intros a [? ?%lookup_empty_Some].
    - intros h. rewrite lookup_empty, elem_of_nil. split; [by intros []|done].
    - by rewrite fmap_empty.
    - intros i h ns n Hi. done.
    - by intros n [? ?%lookup_empty_Some]. }
  destruct (add_buckets_shape 16 _ _ _ _ Hs0) as (m & H & B & Hrun & Hs & Hl & (En & Eb & Ec & Eh & Ecap)); [done|].
  exists m. split.
  { change (Z.to_nat HASH_MAP_DEFALUT_CAPCITY) with 16%nat.
    change (Z.of_nat (length (@nil Z))) with 0 in Hrun. by rewrite <-Hrun. }
  exists 4, H, B. clear Hrun Hs0. simpl in *. split; [done| |done|by rewrite Hl|done|done].
  split; rewrite ?En, ?Eb, ?Ec; [..|done|done|done].
  - by intros ?? ?%lookup_empty_Some.
  - by intros k [? ?%lookup_empty_Some].
  - by intros ???? ?%lookup_empty_Some.
  - by intros k [? ?%lookup_empty_Some].
Qed.

(** [while(!list_empty(ls))] of [hash_map_clearall]: it ends at the head, whose
    list is empty by then. *)
Lemma clear_bucket_rep fuel m H B place F h ns :
  shape m H B place → data m F → B !! h = Some ns → Z.of_nat (size F) < 2 ^ 63 →
  (length ns ≤ fuel)%nat →
  ∃ m' F', clear_bucket fuel m h (first_or (head_link h) (node_link <$> ns)) = Ok m' ∧
    shape m' H (<[h := []]> B) place ∧ data m' F' ∧ (size F' ≤ size F)%nat ∧
    hm_capcity m' = hm_capcity m ∧ hm_hash m' = hm_hash m.
Proof.
  revert fuel m B F. induction ns as [|n ns IH]; intros fuel m B F Hs Hd Hh Hsz Hf.
  all: destruct (shape_index _ _ _ _ _ _ Hs Hh) as [i Hi];
    destruct (shape_bucket _ _ _ _ _ _ Hs Hi) as (? & ? & Hr & Hnd & _); simplify_eq.
  - exists m, F. rewrite insert_id by done. split_and!; [|done..].
    pose proof (ring_list_empty _ _ _ Hr) as He. by destruct fuel; cbn; rewrite He.
  - destruct fuel as [|fuel]; [simpl in Hf; lia|].
    change (first_or (head_link h) (node_link <$> n :: ns)) with (node_link n).
    assert (He : list_empty (hm_links m) (node_link n) = Ok false)
      by (apply (ring_list_empty_elem _ _ _ _ Hr); set_solver).
    cbn [clear_bucket]. rewrite He. cbn [res_bind]. rewrite list_to_struct_member. cbn [res_bind].
    rewrite (ring_next_elem _ _ [] _ _ Hr). cbn [res_bind].
    destruct (free_node_rep _ _ _ _ _ _ _ n Hs Hd Hh) as (nd & m1 & Hrun & Hn & Hs1 & Hd1 & Ec & Eh); [set_solver|done|].
    rewrite filter_cons_False, filter_ne_id in Hs1 by (try apply NoDup_cons in Hnd; naive_solver).
    destruct (da_node _ _ Hd n nd Hn) as (_ & _ & _ & b & _ & HF).
    assert (Hle : (size (delete (mn_keyname nd) F) ≤ size F)%nat)
      by (rewrite map_size_delete_Some by eauto; lia).
    destruct (IH fuel m1 _ _ Hs1 Hd1) as (m2 & F2 & Hrun2 & Hs2 & Hd2 & Hle2 & Ec2 & Eh2);
      [by rewrite lookup_insert_eq|lia|simpl in Hf; lia|].
    rewrite insert_insert_eq in Hs2. exists m2, F2. split_and!; [|done|done|lia|congruence..].
    run_ok.
Qed.

(** One turn of the outer loop on the last bucket of the table. *)
Lemma clear_last m H h B place F :
  shape m (H ++ [h]) B place → data m F → Z.of_nat (length H) < 2 ^ 31 → Z.of_nat (size F) < 2 ^ 63 →
  ∃ m' B' F', (let* head := get_head m (Z.of_nat (length H)) in
     let* ls := list_next (hm_links m) (head_link head) in
     let* m := clear_bucket (size (hm_nodes m)) m head ls in
     let* r := array_del (Some (hm_table m)) (Z.of_nat (length H)) in
     let* t := deref r.2 in
     free_map_head (set_table m t) r.1) = Ok m' ∧
    shape m' H B' place ∧ data m' F' ∧ (size F' ≤ size F)%nat ∧ hm_hash m' = hm_hash m.
Proof.
  intros Hs Hd Hlen Hsz.
  assert (Hi : (H ++ [h]) !! length H = Some h) by by rewrite lookup_app_r, Nat.sub_diag by lia.
  rewrite (get_head_shape _ _ _ _ _ _ Hs Hi) by done. cbn [res_bind].
  destruct (shape_bucket _ _ _ _ _ _ Hs Hi) as (ns & Hns & Hr & _ & Hl).
  rewrite (ring_next_head _ _ _ Hr). cbn [res_bind].
  destruct (clear_bucket_rep _ _ _ _ _ _ _ _ Hs Hd Hns Hsz Hl) as (m1 & F1 & -> & Hs1 & Hd1 & Hle & _ & Eh).
  cbn [res_bind]. destruct (array_del_rep _ _ _ _ (sh_table _ _ _ _ Hs1) Hi) as (t & -> & Ht).
  cbn [res_bind fst snd deref]. rewrite delete_middle, app_nil_r in Ht.
  destruct (shape_bucket _ _ _ _ _ _ Hs1 Hi) as (? & Hn1 & Hr1 & _ & _).
  rewrite lookup_insert_eq in Hn1. injection Hn1 as <-.
  assert (HhH : h ∉ H) by (pose proof (sh_nodup _ _ _ _ Hs) as (_ & Hn2 & _)%NoDup_app; set_solver).
  unfold free_map_head. rewrite decide_False by (pose proof (sh_null _ _ _ _ Hs); set_solver).
  cbn [hm_links set_table]. rewrite (ring_delete_self _ _ Hr1). cbn [res_bind].
  eexists _, (delete h B), F1. split_and!; [done| | |done|done]; [|by destruct Hd1].
  destruct Hs1 as [_ HndH Hnu Hl1 Hu Hdm Hhe Hp Ha]. split; simpl.
  - done.
  - by apply NoDup_app in HndH as (? & _ & _).
  - set_solver.
  - rewrite RB_delete, <-(delete_insert_eq (RB B) (head_link h) []). rewrite RB_insert in Hl1.
    apply lrep_drop_head; [done|]. by rewrite lookup_insert_eq.
  - intros a [Hne Hin%Hu]%lookup_delete_is_Some. destruct Hin as (h' & xs & Hh' & Hin).
    rewrite RB_insert, lookup_insert in Hh'. case_decide; simplify_eq; [set_solver|].
    exists h', xs. by rewrite RB_delete, lookup_delete_ne.
  - intros h'. specialize (Hdm h'). rewrite lookup_insert_is_Some' in Hdm. rewrite lookup_delete_is_Some.
    set_solver.
  - rewrite Hhe, fmap_insert, fmap_delete. apply delete_insert_eq.
  - intros i h' ns' n Hi' [Hne Hb]%lookup_delete_Some Hin. apply (Hp i h' ns' n); [|by rewrite lookup_insert_ne|done].
    by apply lookup_app_l_Some.
  - intros n (h' & ns' & Hh' & Hin)%Ha. rewrite lookup_insert in Hh'. case_decide; simplify_eq; [set_solver|].
    exists h', ns'. by rewrite lookup_delete_ne.
Qed.

Lemma clear_all_rep n m H B place F :
  shape m H B place → data m F → length H = n → Z.of_nat n ≤ 2 ^ 31 → Z.of_nat (size F) < 2 ^ 63 →
  ∃ m' B' F', clear_buckets n m true (Z.of_nat n - 1) = Ok m' ∧ shape m' [] B' place ∧ data m' F' ∧
    hm_hash m' = hm_hash m.
Proof.
  revert m H B F. induction n as [|n IH]; intros m H B F Hs Hd Hn Hlen Hsz.
  - apply nil_length_inv in Hn as ->. by exists m, B, F.
  - destruct H as [|h H _] using rev_ind; [done|]. rewrite length_app in Hn. simpl in Hn.
    destruct (clear_last m H h B place F Hs Hd) as (m1 & B1 & F1 & Hrun & Hs1 & Hd1 & Hle & Eh); [lia|lia|].
    destruct (IH m1 H B1 F1 Hs1 Hd1) as (m2 & B2 & F2 & Hrun2 & Hs2 & Hd2 & Eh2); [lia..|].
    exists m2, B2, F2. split_and!; [|done..|congruence]. cbn [clear_buckets].
    replace (Z.of_nat (S n) - 1) with (Z.of_nat (length H)) by lia.
    replace (Z.of_nat (length H) - 1) with (Z.of_nat n - 1) by lia.
    run_ok.
Qed.

(** The same loop when the buckets stay. *)
Lemma clear_keep_rep n m H B place F :
  shape m H B place → data m F → (n ≤ length H)%nat → Z.of_nat (length H) ≤ 2 ^ 31 →
  Z.of_nat (size F) < 2 ^ 63 →
  (∀ j h, (n ≤ j)%nat → H !! j = Some h → B !! h = Some []) →
  ∃ m' B' F', clear_buckets n m false (Z.of_nat n - 1) = Ok m' ∧ shape m' H B' place ∧ data m' F' ∧
    (∀ h ns, B' !! h = Some ns → ns = []) ∧ hm_capcity m' = hm_capcity m ∧ hm_hash m' = hm_hash m.
Proof.
  revert m B F. induction n as [|n IH]; intros m B F Hs Hd Hn Hlen Hsz Hdone.
  - exists m, B, F. split_and!; try done. intros h ns Hh.
    destruct (shape_index _ _ _ _ _ _ Hs Hh) as [j Hj]. specialize (Hdone j h). naive_solver lia.
  - destruct (lookup_lt_is_Some_2 H n) as [h Hi]; [lia|].
    destruct (shape_bucket _ _ _ _ _ _ Hs Hi) as (ns & Hns & Hr & _ & Hl).
    destruct (clear_bucket_rep _ _ _ _ _ _ _ _ Hs Hd Hns Hsz Hl)
      as (m1 & F1 & Hrun1 & Hs1 & Hd1 & Hle & Ec & Eh).
    destruct (IH m1 (<[h := []]> B) F1 Hs1 Hd1) as (m2 & B2 & F2 & Hrun2 & Hs2 & Hd2 & He2 & Ec2 & Eh2);
      [lia|lia|lia| |].
    { intros j h' Hj Hh'. rewrite lookup_insert. case_decide as E; [done|].
      apply (Hdone j); [|done]. assert (j ≠ n) by congruence. lia. }
    exists m2, B2, F2. split_and!; [|done..|congruence|congruence]. cbn [clear_buckets].
    replace (Z.of_nat (S n) - 1) with (Z.of_nat n) by lia.
    rewrite (get_head_shape _ _ _ _ _ _ Hs Hi) by lia. cbn [res_bind].
    rewrite (ring_next_head _ _ _ Hr). cbn [res_bind]. by rewrite Hrun1.
Qed.

(** A table without nodes is the empty map. *)
Lemma data_no_nodes m F :
  data m F → hm_nodes m = ∅ → F = ∅ ∧ hm_blocks m = ∅ ∧ hm_count m = 0.
Proof.
  intros Hd En. assert (F = ∅) as ->.
  { apply map_size_empty_inv. rewrite <-(da_size _ _ Hd), En. apply map_size_empty. }
  split_and!; [done| |by rewrite (da_count _ _ Hd)].
  apply map_empty. intros v. apply eq_None_not_Some. intros (n & nd & Hn & _)%(da_block _ _ Hd).
  by rewrite En in Hn.
Qed.

Lemma shape_no_nodes m H B place :
  shape m H B place → (∀ h ns, B !! h = Some ns → ns = []) → hm_nodes m = ∅.
Proof.
  intros Hs He. apply map_empty. intros n. apply eq_None_not_Some.
  intros (h & ns & ->%He & Hin)%(sh_all _ _ _ _ Hs). by apply not_elem_of_nil in Hin.
Qed.

Lemma clear_start p H B m F : hrep_at p H B m F →
  s32 (u64 (hm_capcity m - 1)) = Z.of_nat (length H) - 1 ∧ Z.of_nat (length H) ≤ 2 ^ 25.
Proof.
  intros Hr. destruct Hr as [_ _ Hc Hl Hp _]. pose proof (Z.pow_le_mono_r 2 p 25).
  pose proof (Z.pow_pos_nonneg 2 p). rewrite Hc, Hl, u64_small, s32_small; lia.
Qed.

Lemma hash_map_clear_spec m F :
  hrep m F → Z.of_nat (size F) < 2 ^ 63 →
  ∃ m', hash_map_clear (Some m) = Ok m' ∧ hrep m' ∅ ∧ hm_blocks m' = ∅ ∧ hm_nodes m' = ∅.
Proof.
  intros (p & H & B & Hr) Hsz. destruct (clear_start _ _ _ _ _ Hr) as [Hlast Hlen].
  destruct Hr as [Hs Hd Hc Hl Hp Hh]. unfold hash_map_clear, hash_map_clearall.
  cbn [assert_map res_bind]. rewrite Hlast. rewrite Z.sub_add, Nat2Z.id.
  destruct (clear_keep_rep (length H) m H B _ F Hs Hd) as (m' & B' & F' & -> & Hs' & Hd' & He & Ec & Eh);
    [lia|lia|done| |].
  { intros j h Hj ?%lookup_lt_Some. lia. }
  cbn [res_bind]. pose proof (shape_no_nodes _ _ _ _ Hs' He) as En.
  destruct (data_no_nodes _ _ Hd' En) as (-> & Eb & _).
  exists m'. split_and!; [done| |done..]. exists p, H, B'. split; [done..| | | |]; congruence.
Qed.

(** [hash_map_destory] gives back every object of the table. *)
Lemma hash_map_destory_spec m F :
  hrep m F → Z.of_nat (size F) < 2 ^ 63 →
  hash_map_destory (Some m) = Ok (HashMap ∅ ∅ ∅ ∅ 0 string_hash (Arr None 0 0) 0).
Proof.
  intros (p & H & B & Hr) Hsz. destruct (clear_start _ _ _ _ _ Hr) as [Hlast Hlen].
  destruct Hr as [Hs Hd Hc Hl Hp Hh]. unfold hash_map_destory, hash_map_clearall.
  cbn [assert_map res_bind]. rewrite Hlast. rewrite Z.sub_add, Nat2Z.id.
  destruct (clear_all_rep (length H) m H B _ F Hs Hd) as (m' & B' & F' & Hrun & Hs' & Hd' & Eh); [done|lia|done|].
  rewrite Hrun. cbn [res_bind].
  assert (HB : B' = ∅).
  { apply map_empty. intros h. apply eq_None_not_Some. rewrite (sh_dom _ _ _ _ Hs').
    apply not_elem_of_nil. }
  subst B'.
  assert (En : hm_nodes m' = ∅) by by eapply shape_no_nodes.
  destruct (data_no_nodes _ _ Hd' En) as (_ & Eb & Ec).
  assert (El : hm_links m' = ∅).
  { apply map_empty. intros a. apply eq_None_not_Some. intros (h & xs & Hx & _)%(sh_used _ _ _ _ Hs').
    by rewrite RB_empty in Hx. }
  pose proof (sh_heads _ _ _ _ Hs') as Ehd. rewrite fmap_empty in Ehd.
  destruct m'. simpl in *. subst. by rewrite Hh.
Qed.

(** * Programs *)

Inductive specs_op :=
| SpecSet (k : cstring) (b : bytes) | SpecGet (k : cstring) | SpecDel (k : cstring)
| SpecSize | SpecClear.

(** The code: the return value, and for a get the contents of the block it found. *)
Definition specs_run (m : hash_map_t) (op : specs_op) : res (Z * option bytes * hash_map_t) :=
  match op with
  | SpecSet k b => let* r := co_specs_set (Some m) k b in Ok (r.1, None, r.2)
  | SpecGet k =>
      let* r := co_specs_get (Some m) k in
      match r.2 with
      | Some v => let* b := deref (hm_blocks m !! v) in Ok (r.1, Some b, m)
      | None => Ok (r.1, None, m)
      end
  | SpecDel k => let* r := co_specs_del (Some m) k in Ok (r.1, None, r.2)
  | SpecSize => let* n := hash_map_size (Some m) in Ok (n, None, m)
  | SpecClear => let* m := hash_map_clear (Some m) in Ok (0, None, m)
  end.

(** The same on a finite map. *)
Definition map_run (F : gmap cstring bytes) (op : specs_op) : Z * option bytes * gmap cstring bytes :=
  match op with
  | SpecSet k b => (0, None, <[k := b]> F)
  | SpecGet k => match F !! k with Some b => (0, Some b, F) | None => (-1, None, F) end
  | SpecDel k => (if decide (is_Some (F !! k)) then 0 else -1, None, delete k F)
  | SpecSize => (Z.of_nat (size F), None, F)
  | SpecClear => (0, None, ∅)
  end.

Fixpoint specs_exec (m : hash_map_t) (ops : list specs_op) : res (list (Z * option bytes) * hash_map_t) :=
  match ops with
  | [] => Ok ([], m)
  | op :: ops =>
      let* r := specs_run m op in
      let* q := specs_exec r.2 ops in
      Ok (r.1 :: q.1, q.2)
  end.

Fixpoint map_exec (F : gmap cstring bytes) (ops : list specs_op)
    : list (Z * option bytes) * gmap cstring bytes :=
  match ops with
  | [] => ([], F)
  | op :: ops => let r := map_run F op in let q := map_exec r.2 ops in (r.1 :: q.1, q.2)
  end.

Definition op_named (op : specs_op) : Prop :=
  match op with SpecSet k _ | SpecGet k | SpecDel k => K k | SpecSize | SpecClear => True end.

Lemma map_run_size F op : (size (map_run F op).2 ≤ S (size F))%nat.
Proof.
  destruct op as [k b|k|k| |]; simpl; try lia.
  - rewrite map_size_insert. destruct (F !! k); simpl; lia.
  - destruct (F !! k); simpl; lia.
  - rewrite map_size_delete. destruct (F !! k); simpl; lia.
  - rewrite map_size_empty. lia.
Qed.

Lemma specs_run_refines m F op :
  hrep m F → op_named op → Z.of_nat (size F) < 2 ^ 24 →
  ∃ m', specs_run m op = Ok ((map_run F op).1, m') ∧ hrep m' (map_run F op).2.
Proof.
  intros Hr HK Hsz. destruct op as [k b|k|k| |]; simpl in *.
  - destruct (hash_map_put_spec m F k b Hr HK Hsz) as (m' & Hrun & Hr'). unfold co_specs_set.
    rewrite Hrun. by exists m'.
  - pose proof (hash_map_get_spec m F k Hr HK) as Hg. unfold co_specs_get. destruct (F !! k) as [b|].
    + destruct Hg as (v & -> & Hv). simpl. rewrite Hv. by exists m.
    + rewrite Hg. by exists m.
  - destruct (hash_map_del_spec m F k Hr HK) as (m' & Hrun & Hr'); [lia|]. unfold co_specs_del.
    rewrite Hrun. by exists m'.
  - exists m. destruct Hr as (p & H & B & Hr). rewrite (da_count _ _ (hr_data _ _ _ _ _ Hr)).
    split; [done|]. by exists p, H, B.
  - destruct (hash_map_clear_spec m F Hr) as (m' & -> & Hr' & _); [lia|]. by exists m'.
Qed.

Lemma specs_exec_refines m F ops :
  hrep m F → Forall op_named ops → Z.of_nat (size F + length ops) ≤ 2 ^ 24 →
  ∃ m', specs_exec m ops = Ok ((map_exec F ops).1, m') ∧ hrep m' (map_exec F ops).2 ∧
    Z.of_nat (size (map_exec F ops).2) ≤ 2 ^ 24.
Proof.
  revert m F. induction ops as [|op ops IH]; intros m F Hr Hop Hsz; simpl in *.
  - exists m. split_and!; [done..|lia].
  - apply Forall_cons in Hop as [Hop Hops]. pose proof (map_run_size F op).
    destruct (specs_run_refines m F op Hr Hop) as (m1 & -> & Hr1); [lia|]. cbn [res_bind snd].
    destruct (IH m1 _ Hr1 Hops) as (m2 & -> & Hr2); [lia|]. by exists m2.
Qed.

(** * Properties *)



(** Names are confused otherwise: when a stored name has the same hash and
    the name looked for as a proper prefix, [hash_map_get] succeeds for the name
    that was never stored and hands out the value of another one. *)
Theorem hash_map_prefix_alias m F k k' :
  hrep m F → 0 ∉ k → F !! k = None → is_Some (F !! k') →
  string_hash k = string_hash k' → k `prefix_of` k' →
  ∃ v k2 b, hash_map_get (Some m) k = Ok (0, Some v) ∧ hm_blocks m !! v = Some b ∧
    F !! k2 = Some b ∧ k2 ≠ k.
Proof.
  intros (p & H & B & Hr) H0 Hk Hk' He Hp. pose proof (hr_data _ _ _ _ _ Hr) as Hd.
  destruct (find_matches _ _ _ _ _ _ Hr H0) as (h & ns & r & Hf & _ & _ & Hres).
  unfold hash_map_get. cbn [assert_map res_bind]. rewrite (hr_hash _ _ _ _ _ Hr), Hf. cbn [res_bind snd].
  destruct r as [n|].
  - destruct Hres as (_ & nd & Hn & _). destruct (da_node _ _ Hd n nd Hn) as (_ & _ & _ & b & Hb & HF).
    rewrite Hn. cbn. eexists _, (mn_keyname nd), b. split_and!; [done..|]. congruence.
  - exfalso. destruct (da_name _ _ Hd k' Hk') as (n & nd & Hn & <-). apply (Hres n nd Hn).
    destruct (da_node _ _ Hd n nd Hn) as (_ & Hkey & _). split; [congruence|done].
Qed.

End names.

(** A name that does not fit the 1024 bytes of a node is written past its end:
    the length is not checked. *)
Lemma put_long_name_overflows m K F k b :
  Names K → hrep K m F → 0 ∉ k → KEYNAME_SIZE ≤ Z.of_nat (length k) →
  (∀ k', is_Some (F !! k') → ¬ k `prefix_of` k') → up_to_load_factor m = false →
  hash_map_put (Some m) k b = Undef.
Proof.
  intros HK (p & H & B & Hr) H0 Hlen Hno Hload. pose proof (hr_data _ _ _ _ _ _ Hr) as Hd.
  destruct (find_matches _ _ _ _ _ _ _ Hr H0) as (h & ns & r & Hf & _ & _ & Hres).
  unfold hash_map_put. cbn [assert_map res_bind]. rewrite (hr_hash _ _ _ _ _ _ Hr), Hf. cbn [res_bind fst snd].
  destruct r as [n|].
  - exfalso. destruct Hres as (_ & nd & Hn & _ & Hp). destruct (da_node _ _ _ Hd n nd Hn) as (_ & _ & _ & b' & _ & HF).
    apply (Hno (mn_keyname nd)); [eauto|done].
  - rewrite Hload. cbn [res_bind]. unfold alloc_map_node. by rewrite decide_True.
Qed.

(** * Examples *)

(** "id" and "user". *)
Definition ex_id : cstring := [105; 100].
Definition ex_user : cstring := [117; 115; 101; 114].
Definition ex_names (k : cstring) : Prop := k = ex_id ∨ k = ex_user.

#[local] Instance ex_names_ok : Names ex_names.
Proof.
  split.
  - intros k [->| ->]; unfold ex_id, ex_user; rewrite !not_elem_of_cons; split_and!; (done || apply not_elem_of_nil).
  - by intros k [->| ->].
  - intros k1 k2 [->| ->] [->| ->] E; [done|discriminate E|discriminate E|done].
Qed.

Definition ex_specs_ops : list specs_op :=
  [SpecSet ex_id [1; 2]; SpecSet ex_user [3]; SpecSet ex_id [4]; SpecGet ex_id; SpecDel ex_user;
   SpecGet ex_user; SpecSize].



(** "idjftqnu" has the hash of "id". *)
Definition ex_idj : cstring := [105; 100; 106; 102; 116; 113; 110; 117].
Definition ex_idj_name (k : cstring) : Prop := k = ex_idj.

#[local] Instance ex_idj_ok : Names ex_idj_name.
Proof.
  split.
  - intros k ->. unfold ex_idj. rewrite !not_elem_of_cons. split_and!; (done || apply not_elem_of_nil).
  - by intros k ->.
  - by intros k1 k2 -> ->.
Qed.

Lemma ex_idj_table : ∃ m, hrep ex_idj_name m {[ex_idj := [7]]}.
Proof.
  destruct (hash_map_init_spec ex_idj_name) as (m & _ & Hr).
  destruct (hash_map_put_spec ex_idj_name m ∅ ex_idj [7] Hr) as (m' & _ & Hr'); [done..|by exists m'].
Qed.

Lemma hash_map_prefix_alias_witness :
  ∃ m v k2 b, hash_map_get (Some m) ex_id = Ok (0, Some v) ∧ hm_blocks m !! v = Some b ∧
    ({[ex_idj := [7]]} : gmap cstring bytes) !! k2 = Some b ∧ k2 ≠ ex_id.
Proof.
  destruct ex_idj_table as [m Hr]. exists m.
  apply (hash_map_prefix_alias ex_idj_name m {[ex_idj := [7]]} ex_id ex_idj Hr).
  - unfold ex_id. rewrite !not_elem_of_cons. split_and!; (done || apply not_elem_of_nil).
  - by vm_compute.
  - by eexists.
  - by vm_compute.
  - by exists [106; 102; 116; 113; 110; 117].
Defined.

(** The code itself: only "idjftqnu" is stored, and "id" is found. *)
Example ex_alias_run :
  (let* m := alloc_co_specs in
   let* r := specs_exec m [SpecSet ex_idj [7]; SpecGet ex_id; SpecDel ex_id; SpecSize] in
   Ok r.1) = Ok [(0, None); (0, Some [7]); (0, None); (0, None)].
Proof. vm_compute. reflexivity. Qed.

(** Thirteen names in a table of sixteen buckets make it grow. *)
Example ex_grow_run :
  (let* m := alloc_co_specs in
   let* r := specs_exec m ((λ i : nat, SpecSet [97 + Z.of_nat i] [Z.of_nat i]) <$> seq 0 13) in
   let* q := specs_exec r.2 [SpecGet [97]; SpecGet [109]; SpecGet [110]; SpecSize] in
   Ok (q.1, hm_capcity q.2)) =
  Ok ([(0, Some [0]); (0, Some [12]); (-1, None); (13, None)], 32).
Proof. vm_compute. reflexivity. Qed.
