(* ===== verification/World.v ===== *)
(** The state the coroutine runtime shares: tasks, schedulers, epoll instances,
    the descriptor table, the thread-local variables of every thread, and the
    kernel behind the system calls.

    Functions of the runtime are computations [M A] on that state.  Thread-local
    variables are those of the thread that runs the function, [w_self]. *)

From Stdlib Require Import ZArith Lia.
From stdpp Require Import base numbers strings sets gmap list.
From S2P Require Import Prelude IntrusiveList Links Deque Heap Cid SpinLock TimeWheel HashMap.
Open Scope Z_scope.

(** * The kernel *)

(** The system calls the runtime makes, on an abstract kernel state.  Each
    returns its value and the [errno] it sets when it fails.  [sys_epoll_wait]
    returns the ready descriptors with their events, [inl errno] for [-1]. *)
Class Kernel := {
  kstate : Type;
  sys_epoll_create : kstate → (Z * Z) * kstate;
  sys_epoll_ctl : Z → Z → Z → Z → kstate → (Z * Z) * kstate;   (* epfd op fd events *)
  sys_epoll_wait : Z → Z → Z → kstate → (Z + list (Z * Z)) * kstate; (* epfd max timeout *)
  sys_close : Z → kstate → (Z * Z) * kstate;
  sys_write : Z → list Z → kstate → (Z * Z) * kstate;
  sys_timerfd_create : kstate → (Z * Z) * kstate;
  sys_timerfd_settime : Z → Z → Z → Z → kstate → (Z * Z) * kstate; (* fd sec nsec interval *)
  sys_gettid : Z → kstate → Z                                     (* thread *)
}.

(** errno.h and sys/epoll.h. *)
Definition EBADF : Z := 9.
Definition EEXIST : Z := 17.
Definition ENOENT : Z := 2.
Definition ETIME : Z := 62.
Definition ENETDOWN : Z := 100.
Definition EPOLL_CTL_ADD : Z := 1.
Definition EPOLL_CTL_DEL : Z := 2.
Definition EPOLL_CTL_MOD : Z := 3.
Definition EPOLLIN : Z := 1.
Definition EPOLLOUT : Z := 4.
Definition EPOLLERR : Z := 8.
Definition EPOLLHUP : Z := 16.
Definition EPOLLRDHUP : Z := 8192.
Definition O_NONBLOCK : Z := 2048.

(** * Objects *)

Inductive task_status_t := READY | RUNNABLE | IO_BLOCK | SYS_BLOCK | SLEEP | KILLED | DEAD.

#[global] Instance task_status_eq_dec : EqDecision task_status_t.
Proof. solve_decision. Defined.

(** The functions a task can run: none for the task of the scheduler itself,
    the two service tasks of the library, or a function of the user. *)
Inductive cofunc_t := NoFunc | TimeoutTask | ActiveTask | UserFunc (f : Z).

#[global] Instance cofunc_eq_dec : EqDecision cofunc_t.
Proof. solve_decision. Defined.

(** [task_t]; [run_link] is in the link store, [t_sched] is the thread whose
    variable [g_sched] the field points to, [t_specs] the map of the task.  The
    saved machine context is what the step relations of the clients stand for. *)
Record task_t := Task {
  t_func : cofunc_t;
  t_iparam : ptr;
  t_oparam : ptr;
  t_stack_size : Z;
  t_specs : option hash_map_t;
  t_cid : Z;
  t_hook : Z;
  t_errnu : Z;
  t_status : task_status_t;
  t_sched : option Z
}.

(** [epoll_t]; the buffer [events] is filled and read within [event_wait]. *)
Record epoll_t := Epoll {
  ep_maxevents : Z;
  ep_timeout : Z;
  ep_fd : Z;
  ep_loop : Z;
  ep_timer : option time_wheel_t
}.

(** [sched_t] with its [run_queue_t]; the list head [rq.run_list] of scheduler
    [s] is [LAddr LRunList s].  [policy] is always [sched_RR_policy]. *)
Record sched_t := Sched {
  rq_lock : Z;
  rq_task_num : Z;
  s_sched_task : Z;
  s_epoll : ptr;
  s_in_sched : Z;
  s_force_sched : Z;
  s_tid : Z;
  s_active0 : Z;
  s_active1 : Z
}.

Record inner_fd := InnerFd {
  i_fd : Z;
  i_flags : Z;
  i_user_flags : Z;
  i_task : ptr;
  i_timeout : Z;
  i_error : Z
}.

(** The thread-local variables; [g_current] and [g_sched] are NULL-able. *)
Record thread_t := Thread {
  g_current : ptr;
  g_sched : ptr;
  g_cids : option id_dispatch_t;
  g_task_alive : Z;
  g_errno : Z;
  g_cached_tid : Z
}.

(** [co_mutex_t] and [co_sem_t] without their wait lists, whose heads are
    [LAddr LMutexWait m] and [LAddr LSemWait s]. *)
Record co_mutex_t := Mutex { m_lock : ptr; m_wait_lock : Z }.
Record co_sem_t := Sem { sem_count : Z; sem_wait_lock : Z }.

(** [chan_t] without its mutex and conditions, which lie in it at fixed offsets. *)
Record chan_t := Chan { ch_msgs : deque; ch_nelems : Z; ch_elem_size : Z }.

(** [co_await_t]; [aw_func] names a function of the program, 0 for none. *)
Record co_await_t := Await { aw_func : Z; aw_param : ptr; aw_ret : Z; aw_task : ptr }.

(** The variables of log.c, one set per thread. *)
Record log_vars := LogVars {
  _time_strf : list Z;
  _old_time : Z;
  _log_buf : list Z
}.

(** The objects the program itself declares: channels, the counts of barriers,
    pending [co_await]s, and the blocks of memory its messages point to; and the
    variables of log.c by thread. *)
Record objects := Objects {
  o_chans : gmap Z chan_t;
  o_bars : gmap Z Z;
  o_awaits : gmap Z co_await_t;
  o_mem : gmap Z (list Z);
  o_logs : gmap Z log_vars
}.
Definition no_objects : objects := Objects ∅ ∅ ∅ ∅ ∅.

Section world.
Context {K : Kernel}.

Record world := World {
  w_self : Z;
  w_links : lmem;
  w_tasks : gmap Z task_t;
  w_scheds : gmap Z sched_t;
  w_epolls : gmap Z epoll_t;
  w_ifds : gmap Z inner_fd;
  w_fdtab : gmap Z ptr;      (* g_inner_fd_list, absent for NULL *)
  w_threads : gmap Z thread_t;
  w_mutexes : gmap Z co_mutex_t;
  w_sems : gmap Z co_sem_t;
  w_objs : objects;
  w_wheels : Z;              (* the next free block of wheel slots *)
  w_kernel : kstate
}.

(** * Computations *)

Definition M (A : Type) : Type := world → res (A * world).

#[global] Instance M_ret : MRet M := λ A a w, Ok (a, w).
#[global] Instance M_bind : MBind M := λ A B k c w, let* r := c w in k r.1 r.2.

Definition lift {A} (c : res A) : M A := λ w, let* a := c in Ok (a, w).
Definition get : M world := λ w, Ok (w, w).

End world.

Arguments M {K} A.
#[global] Typeclasses Opaque M.

Section access.
Context {K : Kernel}.

(** Functional update of one component. *)
Definition with_self (w : world) (x : Z) : world :=
  World x (w_links w) (w_tasks w) (w_scheds w) (w_epolls w) (w_ifds w)
    (w_fdtab w) (w_threads w) (w_mutexes w) (w_sems w) (w_objs w) (w_wheels w) (w_kernel w).
Definition with_links (w : world) (x : lmem) : world :=
  World (w_self w) x (w_tasks w) (w_scheds w) (w_epolls w) (w_ifds w)
    (w_fdtab w) (w_threads w) (w_mutexes w) (w_sems w) (w_objs w) (w_wheels w) (w_kernel w).
Definition with_tasks (w : world) (x : gmap Z task_t) : world :=
  World (w_self w) (w_links w) x (w_scheds w) (w_epolls w) (w_ifds w)
    (w_fdtab w) (w_threads w) (w_mutexes w) (w_sems w) (w_objs w) (w_wheels w) (w_kernel w).
Definition with_scheds (w : world) (x : gmap Z sched_t) : world :=
  World (w_self w) (w_links w) (w_tasks w) x (w_epolls w) (w_ifds w)
    (w_fdtab w) (w_threads w) (w_mutexes w) (w_sems w) (w_objs w) (w_wheels w) (w_kernel w).
Definition with_epolls (w : world) (x : gmap Z epoll_t) : world :=
  World (w_self w) (w_links w) (w_tasks w) (w_scheds w) x (w_ifds w)
    (w_fdtab w) (w_threads w) (w_mutexes w) (w_sems w) (w_objs w) (w_wheels w) (w_kernel w).
Definition with_ifds (w : world) (x : gmap Z inner_fd) : world :=
  World (w_self w) (w_links w) (w_tasks w) (w_scheds w) (w_epolls w) x
    (w_fdtab w) (w_threads w) (w_mutexes w) (w_sems w) (w_objs w) (w_wheels w) (w_kernel w).
Definition with_fdtab (w : world) (x : gmap Z ptr) : world :=
  World (w_self w) (w_links w) (w_tasks w) (w_scheds w) (w_epolls w) (w_ifds w)
    x (w_threads w) (w_mutexes w) (w_sems w) (w_objs w) (w_wheels w) (w_kernel w).
Definition with_threads (w : world) (x : gmap Z thread_t) : world :=
  World (w_self w) (w_links w) (w_tasks w) (w_scheds w) (w_epolls w) (w_ifds w)
    (w_fdtab w) x (w_mutexes w) (w_sems w) (w_objs w) (w_wheels w) (w_kernel w).
Definition with_mutexes (w : world) (x : gmap Z co_mutex_t) : world :=
  World (w_self w) (w_links w) (w_tasks w) (w_scheds w) (w_epolls w) (w_ifds w)
    (w_fdtab w) (w_threads w) x (w_sems w) (w_objs w) (w_wheels w) (w_kernel w).
Definition with_sems (w : world) (x : gmap Z co_sem_t) : world :=
  World (w_self w) (w_links w) (w_tasks w) (w_scheds w) (w_epolls w) (w_ifds w)
    (w_fdtab w) (w_threads w) (w_mutexes w) x (w_objs w) (w_wheels w) (w_kernel w).
Definition with_objs (w : world) (x : objects) : world :=
  World (w_self w) (w_links w) (w_tasks w) (w_scheds w) (w_epolls w) (w_ifds w)
    (w_fdtab w) (w_threads w) (w_mutexes w) (w_sems w) x (w_wheels w) (w_kernel w).
Definition with_wheels (w : world) (x : Z) : world :=
  World (w_self w) (w_links w) (w_tasks w) (w_scheds w) (w_epolls w) (w_ifds w)
    (w_fdtab w) (w_threads w) (w_mutexes w) (w_sems w) (w_objs w) x (w_kernel w).
Definition with_kernel (w : world) (x : kstate) : world :=
  World (w_self w) (w_links w) (w_tasks w) (w_scheds w) (w_epolls w) (w_ifds w)
    (w_fdtab w) (w_threads w) (w_mutexes w) (w_sems w) (w_objs w) (w_wheels w) x.

Definition upd_links (f : lmem → res lmem) : M unit := λ w,
  let* l := f (w_links w) in Ok ((), with_links w l).

Definition rd_links {A} (f : lmem → res A) : M A := λ w, let* a := f (w_links w) in Ok (a, w).

Definition put_tasks (x : gmap Z task_t) : M unit := λ w, Ok ((), with_tasks w x).
Definition put_scheds (x : gmap Z sched_t) : M unit := λ w, Ok ((), with_scheds w x).
Definition put_epolls (x : gmap Z epoll_t) : M unit := λ w, Ok ((), with_epolls w x).
Definition put_ifds (x : gmap Z inner_fd) : M unit := λ w, Ok ((), with_ifds w x).
Definition put_fdtab (x : gmap Z ptr) : M unit := λ w, Ok ((), with_fdtab w x).
Definition put_threads (x : gmap Z thread_t) : M unit := λ w, Ok ((), with_threads w x).
Definition put_mutexes (x : gmap Z co_mutex_t) : M unit := λ w, Ok ((), with_mutexes w x).
Definition put_sems (x : gmap Z co_sem_t) : M unit := λ w, Ok ((), with_sems w x).
Definition put_objs (x : objects) : M unit := λ w, Ok ((), with_objs w x).
Definition put_wheels (x : Z) : M unit := λ w, Ok ((), with_wheels w x).
Definition put_kernel (x : kstate) : M unit := λ w, Ok ((), with_kernel w x).

(** Field access through a pointer: NULL and freed objects are [Undef]. *)
Definition rd_task (t : ptr) : M task_t := w ← get; lift (deref (w_tasks w !! t)).
Definition upd_task (t : ptr) (f : task_t → task_t) : M unit :=
  w ← get; v ← rd_task t; put_tasks (<[t := f v]> (w_tasks w)).
Definition rd_sched (s : ptr) : M sched_t := w ← get; lift (deref (w_scheds w !! s)).
Definition upd_sched (s : ptr) (f : sched_t → sched_t) : M unit :=
  w ← get; v ← rd_sched s; put_scheds (<[s := f v]> (w_scheds w)).
Definition rd_epoll (e : ptr) : M epoll_t := w ← get; lift (deref (w_epolls w !! e)).
Definition upd_epoll (e : ptr) (f : epoll_t → epoll_t) : M unit :=
  w ← get; v ← rd_epoll e; put_epolls (<[e := f v]> (w_epolls w)).
Definition rd_ifd (i : ptr) : M inner_fd := w ← get; lift (deref (w_ifds w !! i)).
Definition upd_ifd (i : ptr) (f : inner_fd → inner_fd) : M unit :=
  w ← get; v ← rd_ifd i; put_ifds (<[i := f v]> (w_ifds w)).

Definition rd_mutex (m : ptr) : M co_mutex_t := w ← get; lift (deref (w_mutexes w !! m)).
Definition upd_mutex (m : ptr) (f : co_mutex_t → co_mutex_t) : M unit :=
  w ← get; v ← rd_mutex m; put_mutexes (<[m := f v]> (w_mutexes w)).
Definition rd_sem (s : ptr) : M co_sem_t := w ← get; lift (deref (w_sems w !! s)).
Definition upd_sem (s : ptr) (f : co_sem_t → co_sem_t) : M unit :=
  w ← get; v ← rd_sem s; put_sems (<[s := f v]> (w_sems w)).

(** The running thread. *)
Definition rd_self : M thread_t := w ← get; lift (deref (w_threads w !! w_self w)).
Definition upd_self (f : thread_t → thread_t) : M unit :=
  w ← get; v ← rd_self; put_threads (<[w_self w := f v]> (w_threads w)).

Definition set_errno (e : Z) : M unit :=
  upd_self (λ t, Thread (g_current t) (g_sched t) (g_cids t) (g_task_alive t) e (g_cached_tid t)).

(** A system call; [errno] changes only on failure. *)
Definition syscall (call : kstate → (Z * Z) * kstate) : M Z :=
  w ← get;
  let '((r, e), k) := call (w_kernel w) in
  put_kernel k;;
  if decide (r < 0)
  then set_errno e;; mret r
  else mret r.

Definition set_current (c : ptr) : M unit :=
  upd_self (λ t, Thread c (g_sched t) (g_cids t) (g_task_alive t) (g_errno t) (g_cached_tid t)).
Definition set_g_sched (s : ptr) : M unit :=
  upd_self (λ t, Thread (g_current t) s (g_cids t) (g_task_alive t) (g_errno t) (g_cached_tid t)).
Definition set_cids (a : option id_dispatch_t) : M unit :=
  upd_self (λ t, Thread (g_current t) (g_sched t) a (g_task_alive t) (g_errno t) (g_cached_tid t)).
Definition set_alive (n : Z) : M unit :=
  upd_self (λ t, Thread (g_current t) (g_sched t) (g_cids t) n (g_errno t) (g_cached_tid t)).

Definition set_status (t : ptr) (s : task_status_t) : M unit :=
  upd_task t (λ v, Task (t_func v) (t_iparam v) (t_oparam v) (t_stack_size v) (t_specs v) (t_cid v)
                     (t_hook v) (t_errnu v) s (t_sched v)).
Definition set_hook (t : ptr) (h : Z) : M unit :=
  upd_task t (λ v, Task (t_func v) (t_iparam v) (t_oparam v) (t_stack_size v) (t_specs v) (t_cid v)
                     h (t_errnu v) (t_status v) (t_sched v)).
Definition set_t_sched (t : ptr) (th : option Z) : M unit :=
  upd_task t (λ v, Task (t_func v) (t_iparam v) (t_oparam v) (t_stack_size v) (t_specs v) (t_cid v)
                     (t_hook v) (t_errnu v) (t_status v) th).

Definition panic {A} (msg : string) : M A := λ _, Panic msg.

(** [for(i = i0; ...; i++) body], [n] iterations. *)
Fixpoint m_for (n : nat) (i : Z) (body : Z → M unit) : M unit :=
  match n with
  | O => mret ()
  | S n => body i;; m_for n (i + 1) body
  end.

(** * Weakest preconditions *)

(** [c] runs without undefined behaviour, panic or loss of fuel, to a result
    and state in [Q]. *)
Definition wp {A} (c : M A) (Q : A → world → Prop) (w : world) : Prop :=
  ∃ a w', c w = Ok (a, w') ∧ Q a w'.

Lemma wp_ret {A} (a : A) Q w : Q a w → wp (mret a) Q w.
Proof. intros. by exists a, w. Qed.

Lemma wp_bind {A B} (c : M A) (k : A → M B) Q w :
  wp c (λ a w', wp (k a) Q w') w → wp (c ≫= k) Q w.
Proof.
  intros (a & w1 & Hc & b & w2 & Hk & HQ). exists b, w2. split; [|done].
  unfold mbind, M_bind. by rewrite Hc.
Qed.

Lemma wp_mono {A} (c : M A) (P Q : A → world → Prop) w :
  wp c P w → (∀ a w', P a w' → Q a w') → wp c Q w.
Proof. intros (a & w' & ? & ?) HPQ. exists a, w'. auto. Qed.

Lemma wp_get Q w : Q w w → wp get Q w.
Proof. intros. by exists w, w. Qed.

Lemma wp_lift {A} (c : res A) (a : A) Q w : c = Ok a → Q a w → wp (lift c) Q w.
Proof. intros -> ?. by exists a, w. Qed.

(** Rules for the accesses. *)
Lemma wp_upd_links (f : lmem → res lmem) l Q w :
  f (w_links w) = Ok l → Q () (with_links w l) → wp (upd_links f) Q w.
Proof. intros Hf HQ. eexists _, _. unfold upd_links. by rewrite Hf. Qed.

Lemma wp_rd_links {A} (f : lmem → res A) a Q w :
  f (w_links w) = Ok a → Q a w → wp (rd_links f) Q w.
Proof. intros Hf HQ. eexists _, _. unfold rd_links. by rewrite Hf. Qed.

Lemma wp_put_tasks x Q w : Q () (with_tasks w x) → wp (put_tasks x) Q w.
Proof. intros. by eexists _, _. Qed.
Lemma wp_put_scheds x Q w : Q () (with_scheds w x) → wp (put_scheds x) Q w.
Proof. intros. by eexists _, _. Qed.
Lemma wp_put_epolls x Q w : Q () (with_epolls w x) → wp (put_epolls x) Q w.
Proof. intros. by eexists _, _. Qed.
Lemma wp_put_ifds x Q w : Q () (with_ifds w x) → wp (put_ifds x) Q w.
Proof. intros. by eexists _, _. Qed.
Lemma wp_put_fdtab x Q w : Q () (with_fdtab w x) → wp (put_fdtab x) Q w.
Proof. intros. by eexists _, _. Qed.
Lemma wp_put_threads x Q w : Q () (with_threads w x) → wp (put_threads x) Q w.
Proof. intros. by eexists _, _. Qed.
Lemma wp_put_mutexes x Q w : Q () (with_mutexes w x) → wp (put_mutexes x) Q w.
Proof. intros. by eexists _, _. Qed.
Lemma wp_put_sems x Q w : Q () (with_sems w x) → wp (put_sems x) Q w.
Proof. intros. by eexists _, _. Qed.
Lemma wp_put_objs x Q w : Q () (with_objs w x) → wp (put_objs x) Q w.
Proof. intros. by eexists _, _. Qed.
Lemma wp_put_wheels x Q w : Q () (with_wheels w x) → wp (put_wheels x) Q w.
Proof. intros. by eexists _, _. Qed.
Lemma wp_put_kernel x Q w : Q () (with_kernel w x) → wp (put_kernel x) Q w.
Proof. intros. by eexists _, _. Qed.
Lemma wp_rd_task t v Q w : w_tasks w !! t = Some v → Q v w → wp (rd_task t) Q w.
Proof. intros Ht HQ. eexists _, _. unfold rd_task, lift, mbind, M_bind. simpl. by rewrite Ht. Qed.
Lemma wp_upd_task t f v Q w :
  w_tasks w !! t = Some v → Q () (with_tasks w (<[t := f v]> (w_tasks w))) → wp (upd_task t f) Q w.
Proof.
  intros Ht HQ. unfold upd_task. apply wp_bind, wp_get, wp_bind, (wp_rd_task _ v); [done|].
  by apply wp_put_tasks.
Qed.
Lemma wp_rd_sched t v Q w : w_scheds w !! t = Some v → Q v w → wp (rd_sched t) Q w.
Proof. intros Ht HQ. eexists _, _. unfold rd_sched, lift, mbind, M_bind. simpl. by rewrite Ht. Qed.
Lemma wp_upd_sched t f v Q w :
  w_scheds w !! t = Some v → Q () (with_scheds w (<[t := f v]> (w_scheds w))) → wp (upd_sched t f) Q w.
Proof.
  intros Ht HQ. unfold upd_sched. apply wp_bind, wp_get, wp_bind, (wp_rd_sched _ v); [done|].
  by apply wp_put_scheds.
Qed.
Lemma wp_rd_epoll t v Q w : w_epolls w !! t = Some v → Q v w → wp (rd_epoll t) Q w.
Proof. intros Ht HQ. eexists _, _. unfold rd_epoll, lift, mbind, M_bind. simpl. by rewrite Ht. Qed.
Lemma wp_upd_epoll t f v Q w :
  w_epolls w !! t = Some v → Q () (with_epolls w (<[t := f v]> (w_epolls w))) → wp (upd_epoll t f) Q w.
Proof.
  intros Ht HQ. unfold upd_epoll. apply wp_bind, wp_get, wp_bind, (wp_rd_epoll _ v); [done|].
  by apply wp_put_epolls.
Qed.
Lemma wp_rd_ifd t v Q w : w_ifds w !! t = Some v → Q v w → wp (rd_ifd t) Q w.
Proof. intros Ht HQ. eexists _, _. unfold rd_ifd, lift, mbind, M_bind. simpl. by rewrite Ht. Qed.
Lemma wp_upd_ifd t f v Q w :
  w_ifds w !! t = Some v → Q () (with_ifds w (<[t := f v]> (w_ifds w))) → wp (upd_ifd t f) Q w.
Proof.
  intros Ht HQ. unfold upd_ifd. apply wp_bind, wp_get, wp_bind, (wp_rd_ifd _ v); [done|].
  by apply wp_put_ifds.
Qed.
Lemma wp_rd_mutex t v Q w : w_mutexes w !! t = Some v → Q v w → wp (rd_mutex t) Q w.
Proof. intros Ht HQ. eexists _, _. unfold rd_mutex, lift, mbind, M_bind. simpl. by rewrite Ht. Qed.
Lemma wp_upd_mutex t f v Q w :
  w_mutexes w !! t = Some v → Q () (with_mutexes w (<[t := f v]> (w_mutexes w))) → wp (upd_mutex t f) Q w.
Proof.
  intros Ht HQ. unfold upd_mutex. apply wp_bind, wp_get, wp_bind, (wp_rd_mutex _ v); [done|].
  by apply wp_put_mutexes.
Qed.
Lemma wp_rd_sem t v Q w : w_sems w !! t = Some v → Q v w → wp (rd_sem t) Q w.
Proof. intros Ht HQ. eexists _, _. unfold rd_sem, lift, mbind, M_bind. simpl. by rewrite Ht. Qed.
Lemma wp_upd_sem t f v Q w :
  w_sems w !! t = Some v → Q () (with_sems w (<[t := f v]> (w_sems w))) → wp (upd_sem t f) Q w.
Proof.
  intros Ht HQ. unfold upd_sem. apply wp_bind, wp_get, wp_bind, (wp_rd_sem _ v); [done|].
  by apply wp_put_sems.
Qed.
Lemma wp_rd_self v Q w : w_threads w !! w_self w = Some v → Q v w → wp rd_self Q w.
Proof. intros Ht HQ. eexists _, _. unfold rd_self, lift, mbind, M_bind. simpl. by rewrite Ht. Qed.
Lemma wp_upd_self f v Q w :
  w_threads w !! w_self w = Some v →
  Q () (with_threads w (<[w_self w := f v]> (w_threads w))) → wp (upd_self f) Q w.
Proof.
  intros Ht HQ. unfold upd_self. apply wp_bind, wp_get, wp_bind, (wp_rd_self v); [done|].
  by apply wp_put_threads.
Qed.

(** A system call may change [errno] and the kernel. *)
Lemma wp_syscall call v Q w :
  w_threads w !! w_self w = Some v →
  (∀ r e k, call (w_kernel w) = ((r, e), k) →
     Q r (with_threads (with_kernel w k)
            (if decide (r < 0)
             then <[w_self w := Thread (g_current v) (g_sched v) (g_cids v) (g_task_alive v) e
                                  (g_cached_tid v)]> (w_threads w)
             else w_threads w))) →
  wp (syscall call) Q w.
Proof.
  intros Ht HQ. unfold syscall. apply wp_bind, wp_get.
  destruct (call (w_kernel w)) as [[r e] k] eqn:E. specialize (HQ r e k eq_refl).
  apply wp_bind, wp_put_kernel. case_decide.
  - apply wp_bind. unfold set_errno. by eapply wp_upd_self, wp_ret.
  - apply wp_ret. by destruct w.
Qed.

End access.

(** A lookup in the current state, through earlier updates. *)
Ltac solve_lookup :=
  simpl; first [eassumption | reflexivity
    | rewrite lookup_insert_eq; reflexivity
    | rewrite lookup_insert_ne by done; solve_lookup].

(** One step of a weakest-precondition proof. *)
Ltac wp_step :=
  lazymatch goal with
  | |- wp (_ ≫= _) _ _ => apply wp_bind
  | |- wp (mret _) _ _ => apply wp_ret
  | |- wp get _ _ => apply wp_get
  | |- wp (lift _) _ _ => eapply wp_lift; [done|]
  | |- wp (put_tasks _) _ _ => apply wp_put_tasks
  | |- wp (put_scheds _) _ _ => apply wp_put_scheds
  | |- wp (put_epolls _) _ _ => apply wp_put_epolls
  | |- wp (put_ifds _) _ _ => apply wp_put_ifds
  | |- wp (put_fdtab _) _ _ => apply wp_put_fdtab
  | |- wp (put_threads _) _ _ => apply wp_put_threads
  | |- wp (put_mutexes _) _ _ => apply wp_put_mutexes
  | |- wp (put_sems _) _ _ => apply wp_put_sems
  | |- wp (put_objs _) _ _ => apply wp_put_objs
  | |- wp (put_wheels _) _ _ => apply wp_put_wheels
  | |- wp (put_kernel _) _ _ => apply wp_put_kernel
  | |- wp (rd_task _) _ _ => eapply wp_rd_task; [solve_lookup|]
  | |- wp (upd_task _ _) _ _ => eapply wp_upd_task; [solve_lookup|]
  | |- wp (rd_sched _) _ _ => eapply wp_rd_sched; [solve_lookup|]
  | |- wp (upd_sched _ _) _ _ => eapply wp_upd_sched; [solve_lookup|]
  | |- wp (rd_epoll _) _ _ => eapply wp_rd_epoll; [solve_lookup|]
  | |- wp (upd_epoll _ _) _ _ => eapply wp_upd_epoll; [solve_lookup|]
  | |- wp (rd_ifd _) _ _ => eapply wp_rd_ifd; [solve_lookup|]
  | |- wp (upd_ifd _ _) _ _ => eapply wp_upd_ifd; [solve_lookup|]
  | |- wp (rd_mutex _) _ _ => eapply wp_rd_mutex; [solve_lookup|]
  | |- wp (upd_mutex _ _) _ _ => eapply wp_upd_mutex; [solve_lookup|]
  | |- wp (rd_sem _) _ _ => eapply wp_rd_sem; [solve_lookup|]
  | |- wp (upd_sem _ _) _ _ => eapply wp_upd_sem; [solve_lookup|]
  | |- wp rd_self _ _ => eapply wp_rd_self; [solve_lookup|]
  | |- wp (upd_self _) _ _ => eapply wp_upd_self; [solve_lookup|]
  end.
Ltac wp_steps := repeat wp_step.

(** * Examples *)

(** A kernel that grants every request, numbers descriptors upwards and never
    has an event. *)
Definition ex_kernel : Kernel := {|
  kstate := Z;
  sys_epoll_create := λ k, ((k, 0), k + 1);
  sys_epoll_ctl := λ _ _ _ _ k, ((0, 0), k);
  sys_epoll_wait := λ _ _ _ k, (inr [], k);
  sys_close := λ _ k, ((0, 0), k);
  sys_write := λ _ b k, ((Z.of_nat (length b), 0), k);
  sys_timerfd_create := λ k, ((k, 0), k + 1);
  sys_timerfd_settime := λ _ _ _ _ k, ((0, 0), k);
  sys_gettid := λ th _, 1000 + th
|}.

(** The process before its first call into the library, on thread 1. *)
Definition ex_world : world (K := ex_kernel) :=
  World (K := ex_kernel) 1 ∅ ∅ ∅ ∅ ∅ ∅ {[1 := Thread NULL NULL None 0 0 0]} ∅ ∅ no_objects 0 (3 : kstate (Kernel := ex_kernel)).
