(* ===== verification/Coroutine.v ===== *)
(** Functions that switch to the scheduler and go on later.

    A task runs until it returns or yields; a yield gives the rest of the task,
    which runs in whatever state the other tasks have left when the task is
    scheduled again.  [C A] is such a function with result [A]: it is written
    like the C function, with [act] for a part that does not yield and [yield]
    for [co_yield()].  Loops that may yield in every turn take fuel. *)

From Stdlib Require Import ZArith Lia.
From stdpp Require Import base numbers strings sets gmap list.
From S2P Require Import Prelude World.
Open Scope Z_scope.

Section coroutine.
Context {K : Kernel}.

Inductive co (A : Type) : Type :=
| CRet (a : A)
| CYield (k : world → res (co A * world)).
Arguments CRet {A} a.
Arguments CYield {A} k.

Definition C (A : Type) : Type := world → res (co A * world).

Definition cret {A} (a : A) : C A := λ w, Ok (CRet a, w).

(** The rest of [c] after its current run, followed by [f]. *)
Fixpoint co_then {A B} (f : A → C B) (r : co A) (w : world) {struct r} : res (co B * world) :=
  match r with
  | CRet a => f a w
  | CYield k =>
      Ok (CYield (λ w, match k w with
                       | Ok (r, w) => co_then f r w
                       | Panic msg => Panic msg
                       | Undef => Undef
                       | OutOfFuel => OutOfFuel
                       end), w)
  end.

Definition cbind {A B} (f : A → C B) (c : C A) : C B := λ w, let* r := c w in co_then f r.1 r.2.

(** A part that does not yield. *)
Definition act {A} (c : M A) : C A := λ w, let* r := c w in Ok (CRet r.1, r.2).

(** [co_yield()]: the switch to the scheduler. *)
Definition yield : C unit := λ w, Ok (CYield (λ w, Ok (CRet (), w)), w).

(** * Running a function among other tasks *)

(** The task runs; at each yield the next of [others] says what the rest of the
    process does until the task is scheduled again.  [None] when [others] ends
    before the function does. *)
Fixpoint crun {A} (others : list (world → world)) (c : C A) (w : world) : res (option A * world) :=
  let* r := c w in
  match r.1, others with
  | CRet a, _ => Ok (Some a, r.2)
  | CYield _, [] => Ok (None, r.2)
  | CYield k, o :: others => crun others k (o r.2)
  end.

(** * Reasoning *)

(** [Y] must hold whenever the task switches away, and [E] relates that state to
    the one it comes back to.  A run that is cut off satisfies every
    postcondition when [lax]. *)
Section cwp.
Context (lax : Prop) (Y : world → Prop) (E : world → world → Prop).

Fixpoint cwp_co {A} (Q : A → world → Prop) (r : co A) (w : world) {struct r} : Prop :=
  match r with
  | CRet a => Q a w
  | CYield k => Y w ∧ ∀ w', E w w' →
      match k w' with
      | Ok (r, w) => cwp_co Q r w
      | OutOfFuel => lax
      | _ => False
      end
  end.

Definition cwp {A} (c : C A) (Q : A → world → Prop) (w : world) : Prop :=
  match c w with
  | Ok (r, w) => cwp_co Q r w
  | OutOfFuel => lax
  | _ => False
  end.

Lemma cwp_ret {A} (a : A) Q w : Q a w → cwp (cret a) Q w.
Proof. done. Qed.

Lemma cwp_act {A} (c : M A) Q w : wp c Q w → cwp (act c) Q w.
Proof. intros (a & w' & Hc & HQ). unfold cwp, act. by rewrite Hc. Qed.

Lemma cwp_act_cut {A} (c : M A) Q w : c w = OutOfFuel → lax → cwp (act c) Q w.
Proof. intros Hc Hlax. unfold cwp, act. by rewrite Hc. Qed.

Lemma cwp_yield Q w : Y w → (∀ w', E w w' → Q () w') → cwp yield Q w.
Proof. intros HY HQ. split; [done|]. exact HQ. Qed.

Lemma cwp_then {A B} (f : A → C B) Q (r : co A) w :
  cwp_co (λ a, cwp (f a) Q) r w → cwp (λ w, co_then f r w) Q w.
Proof.
  revert r w. fix IH 1. intros [a|k] w H; [exact H|].
  unfold cwp. cbn in *. destruct H as [HY H]. split; [done|]. intros w' HE. specialize (H w' HE).
  destruct (k w') as [[r w1]| | |]; try done. apply (IH r w1). exact H.
Qed.

Lemma cwp_bind {A B} (f : A → C B) (c : C A) Q w :
  cwp c (λ a, cwp (f a) Q) w → cwp (cbind f c) Q w.
Proof.
  unfold cwp at 1, cwp at 2, cbind. destruct (c w) as [[r w1]| | |]; try done. apply cwp_then.
Qed.

Lemma cwp_co_mono {A} (P Q : A → world → Prop) (r : co A) w :
  (∀ a w, P a w → Q a w) → cwp_co P r w → cwp_co Q r w.
Proof.
  intros HPQ. revert r w. fix IH 1. intros [a|k] w H; [exact (HPQ _ _ H)|].
  cbn in *. destruct H as [HY H]. split; [done|]. intros w' HE. specialize (H w' HE).
  destruct (k w') as [[r w1]| | |]; try done. apply (IH r w1). exact H.
Qed.

Lemma cwp_mono {A} (P Q : A → world → Prop) (c : C A) w :
  cwp c P w → (∀ a w, P a w → Q a w) → cwp c Q w.
Proof.
  unfold cwp. intros H HPQ. destruct (c w) as [[r w1]| | |]; try done. by eapply cwp_co_mono.
Qed.

End cwp.

(** Less may be asked for at a switch. *)
Lemma cwp_weaken {A} lax (Y Y' : world → Prop) E (c : C A) Q w :
  (∀ w, Y w → Y' w) → cwp lax Y E c Q w → cwp lax Y' E c Q w.
Proof.
  intros HY. unfold cwp. destruct (c w) as [[r w1]| | |]; try done. clear c w. revert r w1. fix IH 1.
  intros [a|k] w H; [exact H|]. cbn in *. destruct H as [Hy H]. split; [by apply HY|]. intros w' HE.
  specialize (H w' HE). destruct (k w') as [[r w1]| | |]; try done. apply (IH r w1). exact H.
Qed.

(** Less may be expected of the others than they do. *)
Lemma cwp_restrict {A} lax Y (E E' : world → world → Prop) (c : C A) Q w :
  (∀ w w', E' w w' → E w w') → cwp lax Y E c Q w → cwp lax Y E' c Q w.
Proof.
  intros HE. unfold cwp. destruct (c w) as [[r w1]| | |]; try done. clear c w. revert r w1. fix IH 1.
  intros [a|k] w H; [exact H|]. cbn in *. destruct H as [Hy H]. split; [done|]. intros w' HE'.
  specialize (H w' (HE _ _ HE')). destruct (k w') as [[r w1]| | |]; try done. apply (IH r w1). exact H.
Qed.

Section runs.
Context (lax : Prop) (Y : world → Prop) (E : world → world → Prop).

(** The others keep to [E] during a run. *)
Fixpoint obeys {A} (others : list (world → world)) (c : C A) (w : world) : Prop :=
  match c w, others with
  | Ok (CYield k, w1), o :: others => E w1 (o w1) ∧ obeys others k (o w1)
  | _, _ => True
  end.

(** What [cwp] says about runs: no undefined behaviour and no panic among tasks
    that keep to [E], and the postcondition at the return. *)
Lemma cwp_crun {A} others (c : C A) Q w :
  cwp lax Y E c Q w → obeys others c w →
  match crun others c w with
  | Ok (Some a, w') => Q a w'
  | Ok (None, w') => Y w'
  | OutOfFuel => lax
  | _ => False
  end.
Proof.
  revert c w. induction others as [|o others IH]; intros c w Hc Ho; cbn in *; unfold cwp in Hc;
    destruct (c w) as [[[a|k] w1]| | |]; try done; cbn in *.
  - apply Hc.
  - destruct Ho as [HE Ho]. apply IH; [|done]. by apply Hc.
Qed.

End runs.

(** When the function returns or yields in its first run. *)
Lemma crun_ret {A} (c : C A) others a w w' :
  c w = Ok (CRet a, w') → crun others c w = Ok (Some a, w').
Proof. intros H. by destruct others; cbn; rewrite H. Qed.

(** A function that must not switch away returns in its first run. *)
Lemma cwp_direct {A} E (c : C A) Q w :
  cwp False (λ _, False) E c Q w → ∃ a w', c w = Ok (CRet a, w') ∧ Q a w'.
Proof.
  unfold cwp. destruct (c w) as [[[a|k] w']| | |]; try done; [by exists a, w'|by intros [[] _]].
Qed.

End coroutine.

Arguments CRet {K A} a.
Arguments CYield {K A} k.
Arguments C {K} A.

Notation "'let!' x := c 'in' k" := (cbind (λ x, k) c)
  (at level 10, x pattern, c at level 200, k at level 200,
   format "'[v' 'let!'  x  :=  c  'in' '/' k ']'") : cask_scope.
Notation "'do!' c 'in' k" := (cbind (λ _, k) c)
  (at level 10, c at level 200, k at level 200,
   format "'[v' 'do!'  c  'in' '/' k ']'") : cask_scope.

(** One step of a [cwp] proof. *)
Ltac cwp_step :=
  lazymatch goal with
  | |- cwp _ _ _ (cbind _ _) _ _ => apply cwp_bind
  | |- cwp _ _ _ (cret _) _ _ => apply cwp_ret
  | |- cwp _ _ _ (act _) _ _ => apply cwp_act
  end.
