(* ===== verification/InnerFd.v ===== *)
(** inner_fd.c: the table from descriptors to their runtime data, and the
    [close] of sys_hook.c that keeps it in step. *)

From Stdlib Require Import ZArith Lia.
From stdpp Require Import base numbers strings sets gmap list.
From S2P Require Import Prelude IntrusiveList Links World.
Open Scope Z_scope.

Definition INVALID_FD : Z := -1.
Definition MAX_FD_NUM : Z := 102400.
Definition FD_TIMEOUT : Z := 60.

(** inner_fd.h. *)
Definition IENONE : Z := 0.
Definition IETIMEOUT : Z := 1.
Definition IEREAD : Z := 2.
Definition IEWRITE : Z := 4.
Definition IERDHUP : Z := 8.
Definition IEERR : Z := 16.
Definition IEHUP : Z := 32.

Definition ifd_link (i : ptr) : laddr := LAddr LFdLink i.

Definition is_fd_valid (fd : Z) : bool := bool_decide (INVALID_FD < fd ∧ fd < MAX_FD_NUM).

Section inner_fd.
Context {K : Kernel}.

(** [malloc]: neither NULL nor in use. *)
Definition malloc_ifd : M ptr := w ← get; mret (fresh ({[NULL]} ∪ dom (w_ifds w))).

(** [g_inner_fd_list[fd]]: outside the array there is nothing. *)
Definition rd_fdtab (fd : Z) : M ptr :=
  w ← get;
  if decide (0 ≤ fd < MAX_FD_NUM) then mret (default NULL (w_fdtab w !! fd)) else lift Undef.
Definition wr_fdtab (fd : Z) (i : ptr) : M unit :=
  w ← get;
  if decide (0 ≤ fd < MAX_FD_NUM)
  then put_fdtab (if decide (i = NULL) then delete fd (w_fdtab w) else <[fd := i]> (w_fdtab w))
  else lift Undef.

Definition new_inner_fd (fd : Z) : M ptr :=
  ifd ← malloc_ifd;
  w ← get;
  put_ifds (<[ifd := InnerFd fd 0 0 NULL FD_TIMEOUT IENONE]> (w_ifds w));;
  upd_links (λ l, Ok (list_init l (ifd_link ifd)));;
  wr_fdtab fd ifd;;
  mret ifd.

(** [free(ifd)]: the object and its link are gone. *)
Definition free_ifd (ifd : ptr) : M unit :=
  _ ← rd_ifd ifd;
  w ← get;
  put_ifds (delete ifd (w_ifds w));;
  upd_links (λ l, Ok (delete (ifd_link ifd) l)).

Definition delete_inner_fd (fd : Z) : M unit :=
  if negb (is_fd_valid fd) then mret () else
  ifd ← rd_fdtab fd;
  if decide (ifd = NULL) then mret () else
  upd_links (λ l, list_delete l (ifd_link ifd));;
  free_ifd ifd;;
  wr_fdtab fd NULL.

Definition get_inner_fd (fd : Z) : M ptr :=
  if negb (is_fd_valid fd) then set_errno EBADF;; mret NULL else
  rd_fdtab fd.

Definition set_i_task (i : ptr) (t : ptr) : M unit :=
  upd_ifd i (λ v, InnerFd (i_fd v) (i_flags v) (i_user_flags v) t (i_timeout v) (i_error v)).
Definition set_i_timeout (i : ptr) (n : Z) : M unit :=
  upd_ifd i (λ v, InnerFd (i_fd v) (i_flags v) (i_user_flags v) (i_task v) n (i_error v)).
Definition set_i_error (i : ptr) (e : Z) : M unit :=
  upd_ifd i (λ v, InnerFd (i_fd v) (i_flags v) (i_user_flags v) (i_task v) (i_timeout v) e).
Definition or_i_flags (i : ptr) (f : Z) : M unit :=
  upd_ifd i (λ v, InnerFd (i_fd v) (Z.lor (i_flags v) f) (i_user_flags v) (i_task v) (i_timeout v) (i_error v)).

(** [if(!ifd) ifd->timeout = msecs]. *)
Definition set_inner_fd_timeout (fd msecs : Z) : M unit :=
  if is_fd_valid fd then
    ifd ← get_inner_fd fd;
    if decide (ifd = NULL) then set_i_timeout ifd msecs else mret ()
  else mret ().

(** co_define.h: [co_self() && co_self()->hook == 1]. *)
Definition co_self : M ptr := th ← rd_self; mret (g_current th).
Definition co_hooked : M bool :=
  t ← co_self;
  if decide (t = NULL) then mret false else
  v ← rd_task t; mret (bool_decide (t_hook v = 1)).

(** sys_hook.c: what [close] is for the whole process. *)
Definition close (fd : Z) : M Z :=
  h ← co_hooked;
  if negb (h : bool) then syscall (sys_close fd) else
  ifd ← get_inner_fd fd;
  (if decide (ifd = NULL) then mret () else delete_inner_fd fd);;
  syscall (sys_close fd).

Definition close_all_inner_fd : M unit :=
  m_for (Z.to_nat MAX_FD_NUM) 0 (λ i,
    ifd ← rd_fdtab i;
    if decide (ifd = NULL) then mret () else
    v ← rd_ifd ifd;
    _ ← close (i_fd v);
    mret ()).

(** * Invariant of the table *)

(** Every entry is a valid descriptor and names a live object of that
    descriptor whose link is live, and the links are well formed, none of them
    being a list head. *)
Record fdtab_ok (w : world) : Prop := {
  ft_valid : ∀ fd i, w_fdtab w !! fd = Some i →
    0 ≤ fd < MAX_FD_NUM ∧ i ≠ NULL ∧ is_Some (w_links w !! ifd_link i) ∧
    ∃ v, w_ifds w !! i = Some v ∧ i_fd v = fd;
  ft_self : is_Some (w_threads w !! w_self w);
  ft_links : ∃ R, lrep (w_links w) R ∧ ∀ i, R !! ifd_link i = None ∧
    (w_ifds w !! i = None → ¬ in_rings R (ifd_link i))
}.

(** Two entries never share an object. *)
Lemma fdtab_inj w fd1 fd2 i :
  fdtab_ok w → w_fdtab w !! fd1 = Some i → w_fdtab w !! fd2 = Some i → fd1 = fd2.
Proof.
  intros Hok H1 H2. destruct (ft_valid w Hok _ _ H1) as (_ & _ & _ & v1 & Hv1 & <-).
  destruct (ft_valid w Hok _ _ H2) as (_ & _ & _ & v2 & Hv2 & <-). congruence.
Qed.

(** Abstract view: which descriptors are registered and their data. *)
Definition fd_data (w : world) (fd : Z) : option inner_fd :=
  i ← w_fdtab w !! fd; w_ifds w !! i.

Lemma is_fd_valid_spec fd : is_fd_valid fd = bool_decide (0 ≤ fd < MAX_FD_NUM).
Proof. unfold is_fd_valid, INVALID_FD. apply bool_decide_ext. lia. Qed.

Lemma wp_rd_fdtab fd Q w :
  0 ≤ fd < MAX_FD_NUM → Q (default NULL (w_fdtab w !! fd)) w → wp (rd_fdtab fd) Q w.
Proof. intros Hfd HQ. unfold rd_fdtab. wp_steps. rewrite decide_True by done. by wp_steps. Qed.

Lemma wp_get_inner_fd fd Q w :
  0 ≤ fd < MAX_FD_NUM → Q (default NULL (w_fdtab w !! fd)) w → wp (get_inner_fd fd) Q w.
Proof.
  intros Hfd HQ. unfold get_inner_fd. rewrite is_fd_valid_spec, bool_decide_eq_true_2 by done.
  by apply wp_rd_fdtab.
Qed.

Lemma wp_get_inner_fd_bad fd Q v w :
  ¬ (0 ≤ fd < MAX_FD_NUM) → w_threads w !! w_self w = Some v →
  Q NULL (with_threads w (<[w_self w := Thread (g_current v) (g_sched v) (g_cids v)
            (g_task_alive v) EBADF (g_cached_tid v)]> (w_threads w))) →
  wp (get_inner_fd fd) Q w.
Proof.
  intros Hfd Hv HQ. unfold get_inner_fd. rewrite is_fd_valid_spec, bool_decide_eq_false_2 by done.
  simpl. apply wp_bind. unfold set_errno. eapply wp_upd_self; [done|]. by apply wp_ret.
Qed.

Lemma wp_wr_fdtab fd i Q w :
  0 ≤ fd < MAX_FD_NUM →
  Q () (with_fdtab w (if decide (i = NULL) then delete fd (w_fdtab w) else <[fd := i]> (w_fdtab w))) →
  wp (wr_fdtab fd i) Q w.
Proof. intros Hfd HQ. unfold wr_fdtab. wp_steps. rewrite decide_True by done. by wp_steps. Qed.

Definition fresh_ifd (w : world) : ptr := fresh ({[NULL]} ∪ dom (w_ifds w)).

Lemma fresh_ifd_spec w : fresh_ifd w ≠ NULL ∧ w_ifds w !! fresh_ifd w = None.
Proof.
  pose proof (is_fresh ({[NULL]} ∪ dom (w_ifds w))) as Hf. fold (fresh_ifd w) in Hf.
  split; [set_solver|]. apply not_elem_of_dom. set_solver.
Qed.

(** [new_inner_fd] registers the descriptor with default data. *)
Lemma new_inner_fd_wp fd Q w :
  0 ≤ fd < MAX_FD_NUM →
  Q (fresh_ifd w) (with_fdtab (with_links
      (with_ifds w (<[fresh_ifd w := InnerFd fd 0 0 NULL FD_TIMEOUT IENONE]> (w_ifds w)))
      (list_init (w_links w) (ifd_link (fresh_ifd w))))
      (<[fd := fresh_ifd w]> (w_fdtab w))) →
  wp (new_inner_fd fd) Q w.
Proof.
  intros Hfd HQ. unfold new_inner_fd, malloc_ifd. destruct (fresh_ifd_spec w) as [Hne _].
  wp_steps. fold (fresh_ifd w). eapply wp_upd_links; [done|]. wp_step. apply wp_wr_fdtab; [done|].
  wp_steps. by rewrite decide_False by done.
Qed.

Lemma new_inner_fd_ok fd w :
  fdtab_ok w → 0 ≤ fd < MAX_FD_NUM →
  wp (new_inner_fd fd) (λ i w', fdtab_ok w' ∧ w_fdtab w' !! fd = Some i ∧ i ≠ NULL ∧
    fd_data w' fd = Some (InnerFd fd 0 0 NULL FD_TIMEOUT IENONE) ∧
    ∀ fd', fd' ≠ fd → fd_data w' fd' = fd_data w fd') w.
Proof.
  intros Hok Hfd. apply new_inner_fd_wp; [done|].
  destruct (fresh_ifd_spec w) as [Hne Hfr]. destruct (ft_links w Hok) as (R & HR & HRi).
  destruct (HRi (fresh_ifd w)) as [_ Hni]. specialize (Hni Hfr).
  set (i := fresh_ifd w) in *. clearbody i. split_and!; [split; simpl| |done| |].
  - intros fd' i' Hi. apply lookup_insert_Some in Hi as [[<- <-]|[Hne' Hi]].
    + split_and!; [lia|lia|done|by unfold list_init; rewrite lookup_insert_eq; eauto|].
      eexists. by rewrite lookup_insert_eq.
    + destruct (ft_valid w Hok _ _ Hi) as (? & ? & ? & v & Hv & ?).
      assert (i' ≠ i) by congruence. unfold list_init.
      rewrite !lookup_insert_ne by (try intros [=]; done). split_and!; [lia|lia|done|done|by eauto].
  - apply Hok.
  - exists R. split; [by apply lrep_init|]. intros i'. split; [apply HRi|].
    intros Hi. apply HRi. by apply lookup_insert_None in Hi as [? _].
  - simpl. by rewrite lookup_insert_eq.
  - unfold fd_data. simpl. rewrite lookup_insert_eq. simpl. by rewrite lookup_insert_eq.
  - intros fd' Hne'. unfold fd_data. simpl. rewrite lookup_insert_ne by done.
    destruct (w_fdtab w !! fd') as [i'|] eqn:Hi; [|done]. simpl.
    destruct (ft_valid w Hok _ _ Hi) as (? & ? & ? & v & Hv & ?).
    rewrite lookup_insert_ne; [done|]. congruence.
Qed.

Lemma delete_inner_fd_ok fd w :
  fdtab_ok w →
  wp (delete_inner_fd fd) (λ _ w', fdtab_ok w' ∧ fd_data w' fd = None ∧
    ∀ fd', fd' ≠ fd → fd_data w' fd' = fd_data w fd') w.
Proof.
  intros Hok. unfold delete_inner_fd. rewrite is_fd_valid_spec. case_bool_decide as Hfd; simpl.
  2: { wp_steps. split_and!; [done| |done]. unfold fd_data.
       destruct (w_fdtab w !! fd) as [i|] eqn:Hi; [|done].
       by destruct (ft_valid w Hok _ _ Hi) as (? & _). }
  wp_step. apply wp_rd_fdtab; [done|]. destruct (w_fdtab w !! fd) as [i|] eqn:Hi; simpl.
  2: { wp_steps. unfold fd_data. by rewrite Hi. }
  destruct (ft_valid w Hok _ _ Hi) as (_ & Hne & Hlive & v & Hv & Hvfd).
  rewrite decide_False by done.
  destruct (ft_links w Hok) as (R & HR & HRi). destruct (HRi i) as [Hh _].
  destruct (lrep_delete _ _ _ HR Hh Hlive) as (l' & Hl' & HR' & Hdom & Hni).
  wp_step. eapply wp_upd_links; [done|]. unfold free_ifd. wp_steps.
  eapply wp_upd_links; [done|]. apply wp_wr_fdtab; [done|]. rewrite decide_True by done.
  split_and!; [split; simpl| |].
  - intros fd' i' Hi'. apply lookup_delete_Some in Hi' as [Hne' Hi'].
    destruct (ft_valid w Hok _ _ Hi') as (? & ? & Hl & v' & Hv' & ?).
    assert (Hii : i ≠ i') by (intros ->; apply Hne'; by eapply fdtab_inj).
    rewrite !lookup_delete_ne by (try intros [=]; done). split_and!; [lia|lia|done| |by eauto].
    apply elem_of_dom. rewrite Hdom. by apply elem_of_dom.
  - apply Hok.
  - exists (ring_remove (ifd_link i) R). split; [by apply lrep_free|]. intros i'.
    destruct (HRi i') as [H1 H2]. split.
    + unfold ring_remove. by rewrite lookup_fmap, H1.
    + intros [->|Hi']%lookup_delete_None; [done|]. intros Hin. by apply H2, (in_rings_remove (ifd_link i)).
  - unfold fd_data. simpl. by rewrite lookup_delete_eq.
  - intros fd' Hne'. unfold fd_data. simpl. rewrite lookup_delete_ne by done.
    destruct (w_fdtab w !! fd') as [i'|] eqn:Hi'; [|done]. simpl.
    rewrite lookup_delete_ne; [done|]. intros ->. apply Hne'. by eapply fdtab_inj.
Qed.

(** * Refinement: the table is a map from descriptors to their data *)

Inductive fd_op := FNew (fd : Z) | FDel (fd : Z) | FGet (fd : Z).

(** The code: what a client sees through [get_inner_fd]. *)
Definition fd_run (op : fd_op) : M (option inner_fd) :=
  match op with
  | FNew fd => _ ← new_inner_fd fd; mret None
  | FDel fd => delete_inner_fd fd;; mret None
  | FGet fd =>
      ifd ← get_inner_fd fd;
      if decide (ifd = NULL) then mret None else v ← rd_ifd ifd; mret (Some v)
  end.

Fixpoint fd_exec (ops : list fd_op) : M (list (option inner_fd)) :=
  match ops with
  | [] => mret []
  | op :: ops => r ← fd_run op; rs ← fd_exec ops; mret (r :: rs)
  end.

Definition fd_abs (F : gmap Z inner_fd) (op : fd_op) : option inner_fd * gmap Z inner_fd :=
  match op with
  | FNew fd => (None, <[fd := InnerFd fd 0 0 NULL FD_TIMEOUT IENONE]> F)
  | FDel fd => (None, delete fd F)
  | FGet fd => (F !! fd, F)
  end.

Fixpoint fd_abs_exec (F : gmap Z inner_fd) (ops : list fd_op)
    : list (option inner_fd) * gmap Z inner_fd :=
  match ops with
  | [] => ([], F)
  | op :: ops =>
      let r := fd_abs F op in
      let q := fd_abs_exec r.2 ops in
      (r.1 :: q.1, q.2)
  end.

(** [new_inner_fd] writes the table without a bounds check. *)
Definition fd_op_ok (op : fd_op) : Prop :=
  match op with FNew fd => 0 ≤ fd < MAX_FD_NUM | _ => True end.

Definition fd_rep (w : world) (F : gmap Z inner_fd) : Prop :=
  fdtab_ok w ∧ ∀ fd, fd_data w fd = F !! fd.

Lemma fdtab_ok_errno w v e :
  fdtab_ok w → w_threads w !! w_self w = Some v →
  fdtab_ok (with_threads w (<[w_self w := Thread (g_current v) (g_sched v) (g_cids v)
            (g_task_alive v) e (g_cached_tid v)]> (w_threads w))).
Proof.
  intros Hok Hv. split; simpl; [apply Hok| |apply Hok]. rewrite lookup_insert_eq. eauto.
Qed.

Lemma fd_run_refines op w F :
  fd_rep w F → fd_op_ok op →
  wp (fd_run op) (λ r w', r = (fd_abs F op).1 ∧ fd_rep w' (fd_abs F op).2) w.
Proof.
  intros [Hok HF] Hop. destruct op as [fd|fd|fd]; simpl in *.
  - wp_step. eapply wp_mono; [by apply new_inner_fd_ok|]. intros i w' (Hok' & _ & _ & Hd & Hd').
    wp_steps. split; [done|]. split; [done|]. intros fd'. rewrite lookup_insert.
    case_decide; subst; [done|]. by rewrite Hd', HF.
  - wp_step. eapply wp_mono; [by apply delete_inner_fd_ok|]. intros [] w' (Hok' & Hd & Hd').
    wp_steps. split; [done|]. split; [done|]. intros fd'. rewrite lookup_delete.
    case_decide; subst; [done|]. by rewrite Hd', HF.
  - wp_step. destruct (decide (0 ≤ fd < MAX_FD_NUM)) as [Hfd|Hfd].
    + apply wp_get_inner_fd; [done|]. specialize (HF fd) as HFfd. unfold fd_data in HFfd.
      destruct (w_fdtab w !! fd) as [i|] eqn:Hi; simpl in *.
      * destruct (ft_valid w Hok _ _ Hi) as (_ & Hne & _ & v & Hv & _).
        rewrite decide_False by done. wp_steps. split; [congruence|done].
      * wp_steps. split; [congruence|done].
    + destruct (ft_self w Hok) as [v Hv]. eapply wp_get_inner_fd_bad; [done..|].
      rewrite decide_True by done. wp_steps. split.
      * rewrite <-HF. unfold fd_data. destruct (w_fdtab w !! fd) as [i|] eqn:Hi; [|done].
        by destruct (ft_valid w Hok _ _ Hi) as (? & _).
      * split; [by apply fdtab_ok_errno|done].
Qed.

(** C29. The descriptor table is a map: any program of registrations of valid
    descriptors, removals and lookups returns what it returns on a finite map,
    with default data for a new entry, no stale entry after a removal, and no
    access to a freed object. *)
Theorem fd_table_refines ops w F :
  fd_rep w F → Forall fd_op_ok ops →
  ∃ w', fd_exec ops w = Ok ((fd_abs_exec F ops).1, w') ∧ fd_rep w' (fd_abs_exec F ops).2.
Proof.
  intros Hr Hops. revert w F Hr. induction Hops as [|op ops Hop _ IH]; intros w F Hr; simpl.
  - by exists w.
  - destruct (fd_run_refines op w F Hr Hop) as (r & w1 & Hrun & -> & Hr1).
    destruct (IH w1 _ Hr1) as (w2 & He & Hr2). exists w2. split; [|done].
    unfold mbind, M_bind. rewrite Hrun. simpl. by rewrite He.
Qed.

(** [set_inner_fd_timeout] never sets a timeout: the test on the entry is
    inverted, so a registered descriptor is left as it is and one that is not
    registered dereferences NULL. *)
Theorem set_inner_fd_timeout_inert w fd msecs :
  fdtab_ok w → 0 ≤ fd < MAX_FD_NUM → w_ifds w !! NULL = None →
  match w_fdtab w !! fd with
  | Some _ => set_inner_fd_timeout fd msecs w = Ok ((), w)
  | None => set_inner_fd_timeout fd msecs w = Undef
  end.
Proof.
  intros Hok Hfd Hnull. unfold set_inner_fd_timeout, get_inner_fd.
  rewrite is_fd_valid_spec, bool_decide_eq_true_2 by done. simpl.
  unfold rd_fdtab, mbind, M_bind. simpl. rewrite decide_True by done. simpl.
  destruct (w_fdtab w !! fd) as [i|] eqn:Hi; simpl.
  - destruct (ft_valid w Hok _ _ Hi) as (_ & Hne & _). by rewrite decide_False.
  - unfold set_i_timeout, upd_ifd, rd_ifd, mbind, M_bind, lift.
    simpl. by rewrite Hnull.
Qed.

End inner_fd.

(** * Examples *)

Lemma ex_world_fd_rep : fd_rep (K := ex_kernel) ex_world ∅.
Proof.
  split; [split; simpl|done].
  - intros fd i Hi. by simplify_map_eq.
  - eauto.
  - exists ∅. split; [|intros i; split; [done|by intros _ (? & ? & ? & ?)]].
    split; [split; intros; by simplify_map_eq|]. intros e He. set_solver.
Qed.

Lemma fd_table_refines_witness :
  ∃ w', fd_exec (K := ex_kernel) [FNew 5; FGet 5; FDel 5; FGet 5; FGet (-1)] ex_world =
      Ok ([None; Some (InnerFd 5 0 0 NULL 60 0); None; None; None], w') ∧
    fd_rep (K := ex_kernel) w' (delete 5 (<[5 := InnerFd 5 0 0 NULL 60 0]> ∅)).
Proof.
  destruct (fd_table_refines (K := ex_kernel) [FNew 5; FGet 5; FDel 5; FGet 5; FGet (-1)] ex_world ∅)
    as (w' & He & Hr).
  - apply ex_world_fd_rep.
  - repeat constructor; done.
  - exists w'. split; [rewrite He; vm_compute; reflexivity|exact Hr].
Defined.

Lemma set_inner_fd_timeout_inert_witness :
  set_inner_fd_timeout (K := ex_kernel) 5 100 ex_world = Undef.
Proof.
  apply (set_inner_fd_timeout_inert (K := ex_kernel) ex_world 5 100); [apply ex_world_fd_rep|done|done].
Defined.
