(* ===== verification/Task.v ===== *)
(** task.c: creation and destruction of tasks.

    The machine context of a task ([getcontext], [makecontext], [swapcontext])
    is left to the step relations that run tasks; everything the functions do to
    [task_t], to the id allocator of the thread and to [g_task_alive] is here. *)

From Stdlib Require Import ZArith Lia.
From stdpp Require Import base numbers strings sets gmap list.
From S2P Require Import Prelude IntrusiveList Links Cid HashMap World InnerFd.
Open Scope Z_scope.

Definition RUN_STACK_SIZE : Z := Z.shiftl 1 20.

Definition run_link (t : ptr) : laddr := LAddr LRunLink t.

Section task.
Context {K : Kernel}.

(** [tid()] of cid.c, with its thread-local cache. *)
Definition m_tid : M Z :=
  w ← get;
  th ← rd_self;
  let v := tid (g_cached_tid th) (sys_gettid (w_self w) (w_kernel w)) in
  upd_self (λ t, Thread (g_current t) (g_sched t) (g_cids t) (g_task_alive t) (g_errno t) v);;
  mret v.

(** [alloc_cid()] and [free_cid()] of cid.c on the allocator of the thread; the
    first call of [alloc_cid] creates it and asks for the thread id. *)
Definition m_alloc_cid : M Z :=
  th ← rd_self;
  t ← (if decide (is_Some (g_cids th)) then mret 0 else m_tid);
  r ← lift (alloc_cid t (g_cids th));
  set_cids r.2;;
  mret r.1.

Definition m_free_cid (cid : Z) : M unit :=
  th ← rd_self;
  a ← lift (free_cid (g_cids th) cid);
  set_cids a.

(** [malloc(sizeof(task_t))]; the fields hold garbage until [task_init]. *)
Definition malloc_task : M ptr := w ← get; mret (fresh ({[NULL]} ∪ dom (w_tasks w))).

Definition task_init (t : ptr) (f : cofunc_t) (ip op : ptr) : M Z :=
  if decide (t = NULL) then mret (-1) else
  let stack := if decide (f = NoFunc) then 0 else RUN_STACK_SIZE in
  cid ← m_alloc_cid;
  w ← get;
  put_tasks (<[t := Task f ip op stack None cid 0 0 READY None]> (w_tasks w));;
  upd_links (λ l, Ok (list_init l (run_link t)));;
  mret 0.

Definition task_count : M Z := th ← rd_self; mret (g_task_alive th).

Definition task_create (f : cofunc_t) (ip op : ptr) : M ptr :=
  t ← malloc_task;
  _ ← task_init t f ip op;
  th ← rd_self;
  set_alive (u32 (g_task_alive th + 1));;
  mret t.

(** [free(t)]. *)
Definition free_task (t : ptr) : M unit :=
  _ ← rd_task t;
  w ← get;
  put_tasks (delete t (w_tasks w));;
  upd_links (λ l, Ok (delete (run_link t) l)).

Definition task_destory (t : ptr) : M unit :=
  if decide (t = NULL) then mret () else
  upd_links (λ l, list_delete l (run_link t));;
  v ← rd_task t;
  m_free_cid (t_cid v);;
  (match t_specs v with
   | Some m => _ ← lift (free_co_specs (Some m)); mret ()
   | None => mret ()
   end);;
  free_task t;;
  th ← rd_self;
  set_alive (u32 (g_task_alive th - 1)).

(** [task_exit] up to its switch to the scheduler. *)
Definition task_exit : M unit :=
  t ← co_self;
  if decide (t = NULL) then mret () else set_status t KILLED.

(** co_define.h and sys_hook.c. *)
Definition co_enable_hook : M unit := t ← co_self; set_hook t 1.
Definition co_disable_hook : M unit := t ← co_self; set_hook t 0.
Definition getcid : M Z :=
  t ← co_self; if decide (t = NULL) then mret 0 else v ← rd_task t; mret (t_cid v).
Definition co_errno : M Z :=
  t ← co_self; if decide (t = NULL) then mret 0 else v ← rd_task t; mret (t_errnu v).

(** co_define.h: the coroutine-specific data of the running task. *)
Definition set_specs (t : ptr) (m : hash_map_t) : M unit :=
  upd_task t (λ v, Task (t_func v) (t_iparam v) (t_oparam v) (t_stack_size v) (Some m) (t_cid v)
                     (t_hook v) (t_errnu v) (t_status v) (t_sched v)).

(** [if(!(co_self()->specs)) co_self()->specs = alloc_co_specs()]. *)
Definition need_specs : M (ptr * hash_map_t) :=
  t ← co_self;
  v ← rd_task t;
  match t_specs v with
  | Some m => mret (t, m)
  | None => m ← lift alloc_co_specs; set_specs t m;; mret (t, m)
  end.

Definition co_spec_set (key : cstring) (value : bytes) : M unit :=
  tm ← need_specs;
  r ← lift (co_specs_set (Some tm.2) key value);
  set_specs tm.1 r.2.

Definition co_spec_get (key : cstring) : M ptr :=
  tm ← need_specs;
  r ← lift (co_specs_get (Some tm.2) key);
  mret (default NULL r.2).

Definition co_key_del (key : cstring) : M Z :=
  t ← co_self;
  v ← rd_task t;
  r ← lift (co_specs_del (t_specs v) key);
  set_specs t r.2;;
  mret r.1.

End task.
