(* ===== verification/Sched.v ===== *)
(** task_sched.c, sched_RR.c and the constructors of event.c: the per-thread
    scheduler, made on first use, and its run queue.

    [current_sched] makes the scheduler and, while doing so, enqueues the two
    service tasks, which calls [current_sched] again; by then [g_sched] is set.
    The inner calls use [current_sched_set], which only reads the variable. *)

From Stdlib Require Import ZArith Lia.
From stdpp Require Import base numbers strings sets gmap list.
From S2P Require Import Prelude IntrusiveList Links Heap Cid SpinLock TimeWheel HashMap World InnerFd Task.
Open Scope Z_scope.

Definition run_list (s : ptr) : laddr := LAddr LRunList s.
Definition mutex_wait (m : ptr) : laddr := LAddr LMutexWait m.

(** [g_dns_mutex] of a thread: a static object, apart from those of the heap. *)
Definition dns_mutex (th : Z) : ptr := - th - 1.

Section sched.
Context {K : Kernel}.

(** * sched_RR.c *)

Definition set_rq (lock num : Z) (s : sched_t) : sched_t :=
  Sched lock num (s_sched_task s) (s_epoll s) (s_in_sched s) (s_force_sched s) (s_tid s)
    (s_active0 s) (s_active1 s).

Definition RR_init (s : ptr) : M unit :=
  upd_links (λ l, Ok (list_init l (run_list s)));;
  upd_sched s (set_rq Raw.spin_lock_init 0).

(** [spin_lock(&rq->lock)] and [spin_unlock(&rq->lock)]. *)
Definition rq_spin_lock (s : ptr) : M unit :=
  v ← rd_sched s;
  lk ← lift (Raw.spin_lock (rq_lock v));
  upd_sched s (set_rq lk (rq_task_num v)).
Definition rq_spin_unlock (s : ptr) : M unit :=
  v ← rd_sched s;
  lk ← lift (Raw.spin_unlock (rq_lock v));
  upd_sched s (set_rq lk (rq_task_num v)).

Definition task_num_add (s : ptr) (k : Z) : M unit :=
  upd_sched s (λ v, set_rq (rq_lock v) (u64 (rq_task_num v + k)) v).

Definition RR_enqueue (s t : ptr) : M unit :=
  upd_links (λ l, list_delete l (run_link t));;
  rq_spin_lock s;;
  upd_links (λ l, list_add_after l (run_list s) (run_link t));;
  task_num_add s 1;;
  rq_spin_unlock s.

Definition RR_dequeue (s t : ptr) : M unit :=
  upd_links (λ l, list_delete l (run_link t));;
  task_num_add s (-1).

(** * Enqueueing *)

(** [write(sched->active[1], "1", 1)]: one byte into the wake-up pipe of the
    thread.  The hooked [write] retries only when the pipe is full. *)
Definition sched_active_event (s : ptr) : M Z :=
  v ← rd_sched s;
  if decide (0 ≤ s_active1 v) then syscall (sys_write (s_active1 v) [49]) else mret (-1).

(** [*(t->sched)]: the variable [g_sched] of a live thread. *)
Definition rd_sched_var (th : Z) : M ptr :=
  w ← get; v ← lift (deref (w_threads w !! th)); mret (g_sched v).

(** [if(!(t->sched) || !( *(t->sched))) t->sched = &g_sched; sched = *(t->sched)]. *)
Definition task_home (t : ptr) : M ptr :=
  w ← get;
  v ← rd_task t;
  home ← (match t_sched v with
          | None => mret NULL
          | Some th => rd_sched_var th
          end);
  if decide (home = NULL) then set_t_sched t (Some (w_self w));; rd_sched_var (w_self w)
  else mret home.

Definition sched_rq_enqueue_with (current_sched : M ptr) (t : ptr) : M unit :=
  set_status t RUNNABLE;;
  _ ← current_sched;
  s ← task_home t;
  RR_enqueue s t;;
  th ← rd_self;
  g ← rd_sched (g_sched th);
  v ← rd_sched s;
  if decide (s_tid g = s_tid v) then mret () else _ ← sched_active_event s; mret ().

(** [current_sched] once the scheduler exists. *)
Definition current_sched_set : M ptr :=
  th ← rd_self;
  if decide (g_sched th = NULL) then lift OutOfFuel else mret (g_sched th).

(** * Constructors *)

(** event.c. *)
Definition new_epoll (maxevents timeout : Z) : M ptr :=
  epfd ← syscall sys_epoll_create;
  if decide (epfd < 0) then mret NULL else
  w ← get;
  let ep := fresh ({[NULL]} ∪ dom (w_epolls w)) in
  put_epolls (<[ep := Epoll (if decide (maxevents = 0) then 1 else maxevents)
                        (if decide (timeout < 0) then 0 else timeout) epfd 1 None]> (w_epolls w));;
  mret ep.

Definition sched_create : M ptr :=
  w ← get;
  let s := fresh ({[NULL]} ∪ dom (w_scheds w)) in
  st ← task_create NoFunc NULL NULL;
  ep ← new_epoll 1024 0;
  w ← get;
  put_scheds (<[s := Sched 0 0 st ep 0 0 0 (-1) (-1)]> (w_scheds w));;
  RR_init s;;
  t ← m_tid;
  upd_sched s (λ v, Sched (rq_lock v) (rq_task_num v) (s_sched_task v) (s_epoll v) 0 0 t (-1) (-1));;
  mret s.

(** [new_time_wheel]: the kernel timer ticks once a second. *)
Definition m_new_time_wheel (size interval : Z) : M time_wheel_t :=
  fd ← syscall sys_timerfd_create;
  _ ← syscall (sys_timerfd_settime fd 1 0 1);
  w ← get;
  let '(tw, l) := new_time_wheel (w_wheels w) fd (w_links w) size interval in
  upd_links (λ _, Ok l);;
  put_wheels (w_wheels w + tw_size tw);;
  mret tw.

Definition init_epoll_timer_with (enqueue : ptr → M unit) (ep : ptr) (msec_size interval : Z) : M unit :=
  tw ← m_new_time_wheel msec_size interval;
  upd_epoll ep (λ e, Epoll (ep_maxevents e) (ep_timeout e) (ep_fd e) (ep_loop e) (Some tw));;
  ifd ← new_inner_fd (tw_fd tw);
  or_i_flags ifd O_NONBLOCK;;
  set_i_timeout ifd (-1);;
  t ← task_create TimeoutTask ep NULL;
  set_i_task ifd t;;
  enqueue t.

Definition init_active_task_with (enqueue : ptr → M unit) : M Z :=
  t ← task_create ActiveTask NULL NULL;
  enqueue t;;
  mret 0.

(** co_mutex.c. *)
Definition co_mutex_init (m : ptr) : M Z :=
  w ← get;
  put_mutexes (<[m := Mutex NULL Raw.spin_lock_init]> (w_mutexes w));;
  upd_links (λ l, Ok (list_init l (mutex_wait m)));;
  mret 0.

Definition current_sched : M ptr :=
  th ← rd_self;
  (if decide (g_sched th = NULL) then
     s ← sched_create;
     set_g_sched s;;
     v ← rd_sched s;
     e ← rd_epoll (s_epoll v);
     (match ep_timer e with
      | Some _ => mret ()
      | None =>
          init_epoll_timer_with (sched_rq_enqueue_with current_sched_set) (s_epoll v) (60 * 10) 1;;
          _ ← init_active_task_with (sched_rq_enqueue_with current_sched_set);
          mret ()
      end);;
     w ← get;
     _ ← co_mutex_init (dns_mutex (w_self w));
     mret ()
   else mret ());;
  th ← rd_self;
  mret (g_sched th).

Definition sched_rq_enqueue (t : ptr) : M unit := sched_rq_enqueue_with current_sched t.
Definition co_resume (t : ptr) : M unit := sched_rq_enqueue t.
Definition init_epoll_timer (ep : ptr) (msec_size interval : Z) : M unit :=
  init_epoll_timer_with sched_rq_enqueue ep msec_size interval.

Definition sched_rq_dequeue (t : ptr) : M unit :=
  s ← current_sched; RR_dequeue s t.

(** co_define.h: [co_create(f, ip, op)]. *)
Definition co_create (f : cofunc_t) (ip op : ptr) : M unit :=
  _ ← current_sched;
  t ← task_create f ip op;
  sched_rq_enqueue t.

(** * Invariant of a running scheduler *)

(** The tasks and the lists: [R] are all the lists, a task link is in one only
    while the task lives, and every task is at home on this thread. *)
Record tasks_ok (w : world) (R : gmap laddr (list laddr)) : Prop := {
  tk_links : lrep (w_links w) R;
  tk_heads : ∀ t, R !! run_link t = None;
  tk_tasks : ∀ t v, w_tasks w !! t = Some v →
    t ≠ NULL ∧ is_Some (w_links w !! run_link t) ∧
    (t_sched v = None ∨ t_sched v = Some (w_self w));
  tk_dead : ∀ t, w_tasks w !! t = None → ¬ in_rings R (run_link t)
}.

(** Scheduler [s] is that of the running thread, its run list holds the tasks
    [ts], the most recently enqueued one first. *)
Record rt (w : world) (s : ptr) (R : gmap laddr (list laddr)) (ts : list Z) : Prop := {
  rt_nonnull : s ≠ NULL;
  rt_self : ∃ th, w_threads w !! w_self w = Some th ∧ g_sched th = s;
  rt_sched : ∃ v, w_scheds w !! s = Some v ∧ rq_lock v = Raw.SPIN_RELESAED ∧
    s_epoll v ≠ NULL ∧ is_Some (w_epolls w !! s_epoll v);
  rt_tasks_ok : tasks_ok w R;
  rt_queue : R !! run_list s = Some (run_link <$> ts);
  rt_live : ∀ t, t ∈ ts → is_Some (w_tasks w !! t)
}.

Lemma rt_links w s R ts : rt w s R ts → lrep (w_links w) R.
Proof. intros H. apply H. Qed.
Lemma rt_tasks w s R ts t v :
  rt w s R ts → w_tasks w !! t = Some v →
  t ≠ NULL ∧ is_Some (w_links w !! run_link t) ∧ (t_sched v = None ∨ t_sched v = Some (w_self w)).
Proof. intros H. apply H. Qed.

Lemma rt_nodup w s R ts : rt w s R ts → NoDup ts.
Proof.
  intros Hrt. destruct (rt_links _ _ _ _ Hrt) as [[HR _] _].
  destruct (HR _ _ (rt_queue _ _ _ _ Hrt)) as [[_ Hnd]%NoDup_cons _].
  by apply NoDup_fmap_1 in Hnd.
Qed.

(** The invariant only speaks of some components. *)
Lemma rt_frame w w' s R ts :
  rt w s R ts → w_self w' = w_self w → w_threads w' = w_threads w → w_scheds w' = w_scheds w →
  w_links w' = w_links w → w_tasks w' = w_tasks w → dom (w_epolls w') = dom (w_epolls w) →
  rt w' s R ts.
Proof.
  intros [Hnn Hself (sv & Hsv & Hlk & Hne & Hep) [] Hq Hlv] E1 E2 E3 E4 E5 E6.
  split; rewrite ?E1, ?E2, ?E3, ?E5; try done; [|split; by rewrite ?E1, ?E4, ?E5]. exists sv. split_and!; [done|done|done|].
  apply elem_of_dom. rewrite E6. by apply elem_of_dom.
Qed.

Lemma rt_threads w s R ts th :
  rt w s R ts → g_sched th = s →
  rt (with_threads w (<[w_self w := th]> (w_threads w))) s R ts.
Proof.
  intros [Hnn Hself Hsch Htk Hq Hlv] Hth. split; simpl; try done.
  - exists th. by rewrite lookup_insert_eq.
  - by destruct Htk.
Qed.

Lemma rt_scheds w s R ts v v' :
  rt w s R ts → w_scheds w !! s = Some v → rq_lock v' = rq_lock v → s_epoll v' = s_epoll v →
  rt (with_scheds w (<[s := v']> (w_scheds w))) s R ts.
Proof.
  intros [Hnn Hself (sv & Hsv & Hlk & Hne & Hep) Htk Hq Hlv] Hv E1 E2. simplify_eq.
  split; simpl; try done; [|by destruct Htk]. exists v'. by rewrite lookup_insert_eq, E1, E2.
Qed.

Lemma rt_task_upd w s R ts t v v' :
  rt w s R ts → w_tasks w !! t = Some v → t_sched v' = t_sched v →
  rt (with_tasks w (<[t := v']> (w_tasks w))) s R ts.
Proof.
  intros [Hnn Hself Hsch [HR Hh Htk Hdd] Hq Hlv] Hv E. split; simpl; try done; [split; simpl|].
  - done.
  - done.
  - intros t' w' [[<- <-]|[_ Ht']]%lookup_insert_Some; [|by apply Htk].
    rewrite E. by apply Htk.
  - intros t' [Ht' _]%lookup_insert_None. by apply Hdd.
  - intros t' Ht'. rewrite lookup_insert. case_decide; [by eauto|by apply Hlv].
Qed.

(** [current_sched] on a thread that has its scheduler changes nothing. *)
Lemma current_sched_ready w th Q :
  w_threads w !! w_self w = Some th → g_sched th ≠ NULL → Q (g_sched th) w →
  wp current_sched Q w.
Proof.
  intros Hth Hs HQ. unfold current_sched. wp_steps. rewrite decide_False by done. wp_steps. done.
Qed.

Lemma current_sched_set_ready w th Q :
  w_threads w !! w_self w = Some th → g_sched th ≠ NULL → Q (g_sched th) w →
  wp current_sched_set Q w.
Proof. intros Hth Hs HQ. unfold current_sched_set. wp_steps. rewrite decide_False by done. by wp_steps. Qed.

(** What enqueueing does to the lists: the task leaves whatever list it was in
    and becomes the newest in the run list. *)
Definition enqueue_rings (s t : ptr) (ts : list Z) (R : gmap laddr (list laddr))
    : gmap laddr (list laddr) :=
  <[run_list s := run_link <$> (t :: filter (λ x, x ≠ t) ts)]> (ring_remove (run_link t) R).

Lemma filter_run_link t (ts : list Z) :
  filter (λ x, x ≠ run_link t) (run_link <$> ts) = run_link <$> filter (λ x, x ≠ t) ts.
Proof.
  induction ts as [|x ts IH]; [done|]. rewrite fmap_cons, !filter_cons.
  destruct (decide (x ≠ t)) as [H|H].
  - rewrite decide_True by (intros [=]; done). by rewrite IH.
  - rewrite decide_False; [done|]. intros H'. apply H. by intros ->.
Qed.

Lemma ring_remove_lookup (e : laddr) (R : gmap laddr (list laddr)) h : ring_remove e R !! h = filter (λ x, x ≠ e) <$> R !! h.
Proof. unfold ring_remove. by rewrite lookup_fmap. Qed.

(** The sequence of [RR_enqueue] on the links. *)
Lemma RR_enqueue_links l R s t ts :
  lrep l R → R !! run_list s = Some (run_link <$> ts) → R !! run_link t = None →
  is_Some (l !! run_link t) →
  ∃ l1 l2, list_delete l (run_link t) = Ok l1 ∧
    list_add_after l1 (run_list s) (run_link t) = Ok l2 ∧
    lrep l2 (enqueue_rings s t ts R) ∧ dom l2 = dom l.
Proof.
  intros HR Hq Hh Hl. destruct (lrep_delete _ _ _ HR Hh Hl) as (l1 & Hd & HR1 & Hdom1 & Hni).
  destruct (lrep_add_after l1 (ring_remove (run_link t) R) (run_list s) (run_link t)
    (run_link <$> filter (λ x, x ≠ t) ts)) as (l2 & Ha & HR2 & Hdom2); [done| |done| |].
  - rewrite ring_remove_lookup, Hq. simpl. by rewrite filter_run_link.
  - apply elem_of_dom. rewrite Hdom1. by apply elem_of_dom.
  - exists l1, l2. split_and!; [done|done|done|congruence].
Qed.

Lemma enqueue_rings_heads s t ts R :
  (∀ t, R !! run_link t = None) → ∀ t', enqueue_rings s t ts R !! run_link t' = None.
Proof.
  intros HR t'. unfold enqueue_rings. rewrite lookup_insert_ne by done.
  by rewrite ring_remove_lookup, HR.
Qed.

Definition enqueued_task (th : Z) (v : task_t) : task_t :=
  Task (t_func v) (t_iparam v) (t_oparam v) (t_stack_size v) (t_specs v) (t_cid v)
    (t_hook v) (t_errnu v) RUNNABLE (Some th).

(** The state after a task at home on this thread was enqueued. *)
Definition enqueued (w : world) (s t : ptr) (v : task_t) (sv : sched_t) (l : lmem) : world :=
  with_links (with_scheds (with_tasks w (<[t := enqueued_task (w_self w) v]> (w_tasks w)))
    (<[s := set_rq Raw.SPIN_RELESAED (u64 (rq_task_num sv + 1)) sv]> (w_scheds w))) l.

Lemma RR_enqueue_wp w s t sv R ts Q :
  w_scheds w !! s = Some sv → rq_lock sv = Raw.SPIN_RELESAED →
  lrep (w_links w) R → R !! run_list s = Some (run_link <$> ts) →
  R !! run_link t = None → is_Some (w_links w !! run_link t) →
  (∀ l, lrep l (enqueue_rings s t ts R) → dom l = dom (w_links w) →
    Q () (with_links (with_scheds w
      (<[s := set_rq Raw.SPIN_RELESAED (u64 (rq_task_num sv + 1)) sv]> (w_scheds w))) l)) →
  wp (RR_enqueue s t) Q w.
Proof.
  intros Hs Hlk HR Hq Hh Hl HQ.
  destruct (RR_enqueue_links _ _ _ _ _ HR Hq Hh Hl) as (l1 & l2 & Hd & Ha & HR2 & Hdom).
  unfold RR_enqueue. wp_step. eapply wp_upd_links; [done|].
  unfold rq_spin_lock. wp_steps. simpl. rewrite Hlk. wp_steps. simpl.
  eapply wp_upd_links; [done|]. unfold task_num_add. wp_steps. simpl.
  unfold rq_spin_unlock. wp_steps. simpl. rewrite !insert_insert_eq.
  apply (HQ l2 HR2 Hdom).
Qed.

Lemma rt_enqueued w s R ts t v sv l :
  rt w s R ts → w_tasks w !! t = Some v → w_scheds w !! s = Some sv →
  lrep l (enqueue_rings s t ts R) → dom l = dom (w_links w) →
  rt (enqueued w s t v sv l) s (enqueue_rings s t ts R) (t :: filter (λ x, x ≠ t) ts).
Proof.
  intros Hrt Hv Hsv Hl Hdom. destruct Hrt as [Hnn Hself Hsch [Hlk Hh Htk Hdd] Hq Hlv].
  split; simpl; [done|done| |split; simpl| |].
  - eexists. rewrite lookup_insert_eq. destruct Hsch as (sv' & ? & _ & Hep). by simplify_eq.
  - done.
  - by apply enqueue_rings_heads.
  - intros t' v' Ht'.
    assert (H0 : ∀ t v, w_tasks w !! t = Some v → is_Some (l !! run_link t)).
    { intros t0 v0 H0. apply elem_of_dom. rewrite Hdom. apply elem_of_dom. by eapply Htk. }
    apply lookup_insert_Some in Ht' as [[<- <-]|[Hne Ht']].
    + destruct (Htk _ _ Hv) as (? & _ & _). split_and!; [done|by eapply H0|by right].
    + destruct (Htk _ _ Ht') as (? & _ & ?). split_and!; [done|by eapply H0|done].
  - intros t' [Ht' Hne]%lookup_insert_None (h & xs & Hx & Hin). apply (Hdd t' Ht').
    unfold enqueue_rings in Hx. apply lookup_insert_Some in Hx as [[<- <-]|[_ Hx]].
    + exists (run_list s), (run_link <$> ts). split; [done|].
      apply elem_of_cons in Hin as [?|Hin]; [done|]. right.
      apply list_elem_of_fmap in Hin as (u & [= ->] & [->|Hu]%elem_of_cons); [done|].
      apply list_elem_of_fmap_2. by apply list_elem_of_filter in Hu as [_ ?].
    + apply (in_rings_remove (run_link t)). by exists h, xs.
  - unfold enqueue_rings. by rewrite lookup_insert_eq.
  - intros t' [->|[_ Ht']%list_elem_of_filter]%elem_of_cons; [rewrite lookup_insert_eq; eauto|].
    rewrite lookup_insert. case_decide; [by eauto|by apply Hlv].
Qed.

(** Enqueueing, whichever way [current_sched] is reached. *)
Lemma sched_rq_enqueue_with_wp cs w s R ts t v Q :
  (∀ w th Q, w_threads w !! w_self w = Some th → g_sched th ≠ NULL → Q (g_sched th) w → wp cs Q w) →
  rt w s R ts → w_tasks w !! t = Some v →
  (∀ sv l, w_scheds w !! s = Some sv →
     rt (enqueued w s t v sv l) s (enqueue_rings s t ts R) (t :: filter (λ x, x ≠ t) ts) →
     dom l = dom (w_links w) → Q () (enqueued w s t v sv l)) →
  wp (sched_rq_enqueue_with cs t) Q w.
Proof.
  intros Hcs Hrt Hv HQ. pose proof Hrt as [Hnn (th & Hth & Hths) (sv & Hsv & Hlk & Hep) [HR Hh Htk _] Hq _].
  destruct (Htk _ _ Hv) as (Hne & Hl & Hhome).
  unfold sched_rq_enqueue_with, set_status. wp_steps. eapply Hcs; [done|congruence|].
  unfold task_home, set_t_sched, rd_sched_var. wp_steps. simpl.
  assert (Hfin : ∀ w2, w2 = with_tasks w (<[t := enqueued_task (w_self w) v]> (w_tasks w)) →
    wp (RR_enqueue s t) (λ _, wp (th ← rd_self; g ← rd_sched (g_sched th); v ← rd_sched s;
        if decide (s_tid g = s_tid v) then mret () else _ ← sched_active_event s; mret ()) Q) w2).
  { intros w2 ->.
    eapply (RR_enqueue_wp _ _ _ sv R ts); [done|done|done|done|apply Hh|done|].
    intros l Hl2 Hdom. wp_steps. simpl. rewrite Hths. wp_steps. simpl. rewrite decide_True by done.
    wp_steps. apply (HQ sv l Hsv); [|done]. by apply rt_enqueued. }
  destruct Hhome as [Hhome|Hhome]; rewrite Hhome; wp_steps; simpl.
  - wp_steps. eapply wp_lift; [simpl; by rewrite Hth|].
    wp_steps. rewrite Hths. apply Hfin. simpl. by rewrite insert_insert_eq.
  - eapply wp_lift; [simpl; by rewrite Hth|]. wp_steps. rewrite decide_False by congruence.
    wp_steps. rewrite Hths. by apply Hfin.
Qed.

Lemma sched_rq_enqueue_wp w s R ts t v Q :
  rt w s R ts → w_tasks w !! t = Some v →
  (∀ sv l, w_scheds w !! s = Some sv →
     rt (enqueued w s t v sv l) s (enqueue_rings s t ts R) (t :: filter (λ x, x ≠ t) ts) →
     dom l = dom (w_links w) → Q () (enqueued w s t v sv l)) →
  wp (sched_rq_enqueue t) Q w.
Proof. apply sched_rq_enqueue_with_wp, current_sched_ready. Qed.

(** Dequeueing. *)
Definition dequeued (w : world) (s : ptr) (sv : sched_t) (l : lmem) : world :=
  with_links (with_scheds w
    (<[s := set_rq (rq_lock sv) (u64 (rq_task_num sv - 1)) sv]> (w_scheds w))) l.

Lemma sched_rq_dequeue_wp w s R ts t v Q :
  rt w s R ts → w_tasks w !! t = Some v →
  (∀ sv l, w_scheds w !! s = Some sv →
     rt (dequeued w s sv l) s (ring_remove (run_link t) R) (filter (λ x, x ≠ t) ts) →
     dom l = dom (w_links w) → ¬ in_rings (ring_remove (run_link t) R) (run_link t) →
     Q () (dequeued w s sv l)) →
  wp (sched_rq_dequeue t) Q w.
Proof.
  intros Hrt Hv HQ. pose proof Hrt as [Hnn (th & Hth & Hths) (sv & Hsv & Hlk & Hep) [HR Hh Htk Hdd] Hq Hlv].
  destruct (Htk _ _ Hv) as (Hne & Hl & Hhome).
  destruct (lrep_delete _ _ _ HR (Hh t) Hl) as (l1 & Hd & HR1 & Hdom1 & Hni).
  unfold sched_rq_dequeue, RR_dequeue, task_num_add. wp_step.
  eapply current_sched_ready; [done|congruence|]. rewrite Hths. wp_step.
  eapply wp_upd_links; [done|]. wp_steps. simpl. apply (HQ sv l1 Hsv); [|done|done].
  split; simpl; [done|by eauto| |split; simpl| |].
  - eexists. by rewrite lookup_insert_eq.
  - done.
  - intros t'. by rewrite ring_remove_lookup, Hh.
  - intros t' v' Ht'. destruct (Htk _ _ Ht') as (? & ? & ?). split_and!; [done| |done].
    apply elem_of_dom. rewrite Hdom1. by apply elem_of_dom.
  - intros t' Ht' ?%in_rings_remove. by apply (Hdd t').
  - rewrite ring_remove_lookup, Hq. simpl. by rewrite filter_run_link.
  - intros t' [_ Ht']%list_elem_of_filter. by apply Hlv.
Qed.

(** * The end of a task *)

(** Its id and its data can be released. *)
Definition destroyable (w : world) (t : ptr) : Prop :=
  ∃ v th a, w_tasks w !! t = Some v ∧ w_threads w !! w_self w = Some th ∧
    free_cid (g_cids th) (t_cid v) = Ok a ∧
    match t_specs v with None => True | Some m => ∃ o, free_co_specs (Some m) = Ok o end.

Definition destroyed (w : world) (t : ptr) (th : thread_t) (a : option id_dispatch_t) (l : lmem) : world :=
  with_threads (with_links (with_tasks w (delete t (w_tasks w))) (delete (run_link t) l))
    (<[w_self w := Thread (g_current th) (g_sched th) a (u32 (g_task_alive th - 1)) (g_errno th)
                     (g_cached_tid th)]> (w_threads w)).

Lemma task_destory_wp w s R ts t v th a Q :
  rt w s R ts → w_tasks w !! t = Some v → w_threads w !! w_self w = Some th →
  free_cid (g_cids th) (t_cid v) = Ok a →
  match t_specs v with None => True | Some m => ∃ o, free_co_specs (Some m) = Ok o end →
  (∀ l, dom l = dom (w_links w) →
     rt (destroyed w t th a l) s (ring_remove (run_link t) R) (filter (λ x, x ≠ t) ts) →
     Q () (destroyed w t th a l)) →
  wp (task_destory t) Q w.
Proof.
  intros Hrt Hv Hth Ha Hsp HQ. pose proof Hrt as [Hnn (th' & Hth' & Hths) Hsch [HR Hh Htk Hdd] Hq Hlv].
  simplify_eq. destruct (Htk _ _ Hv) as (Hne & Hl & Hhome).
  destruct (lrep_delete _ _ _ HR (Hh t) Hl) as (l1 & Hd & HR1 & Hdom1 & Hni).
  unfold task_destory. rewrite decide_False by done. wp_step. eapply wp_upd_links; [done|].
  wp_steps. unfold m_free_cid. wp_steps. unfold set_cids. wp_steps.
  apply (wp_mono _ (λ _ w', w' = with_threads (with_links w l1)
    (<[w_self w := Thread (g_current th) (g_sched th) a (g_task_alive th) (g_errno th)
       (g_cached_tid th)]> (w_threads w)))).
  { destruct (t_specs v) as [m|]; [destruct Hsp as [o Ho]|]; by wp_steps. }
  intros [] ? ->. unfold free_task, set_alive. wp_steps. eapply wp_upd_links; [done|]. wp_steps.
  simpl. rewrite insert_insert_eq. apply (HQ l1 Hdom1). split; simpl; [done| |done|split; simpl| |].
  - eexists. by rewrite lookup_insert_eq.
  - by apply lrep_free.
  - intros t'. by rewrite ring_remove_lookup, Hh.
  - intros t' v' [Hne' Ht']%lookup_delete_Some. destruct (Htk _ _ Ht') as (? & ? & ?).
    split_and!; [done| |done]. rewrite lookup_delete_ne by (intros [=]; done).
    apply elem_of_dom. rewrite Hdom1. by apply elem_of_dom.
  - intros t' [->|Ht']%lookup_delete_None; [done|]. intros ?%in_rings_remove. by apply (Hdd t').
  - rewrite ring_remove_lookup, Hq. simpl. by rewrite filter_run_link.
  - intros t' [Hne' Ht']%list_elem_of_filter. rewrite lookup_delete_ne by done. by apply Hlv.
Qed.

(** * Creating tasks *)

Lemma tasks_ok_frame w w' R :
  tasks_ok w R → w_self w' = w_self w → w_links w' = w_links w → w_tasks w' = w_tasks w →
  tasks_ok w' R.
Proof. intros [] E1 E2 E3. split; by rewrite ?E1, ?E2, ?E3. Qed.

(** A new list head of a kind that is not a task link. *)
Lemma tasks_ok_head w R h :
  tasks_ok w R → ¬ in_rings R h → lk h ≠ LRunLink →
  tasks_ok (with_links w (list_init (w_links w) h)) (<[h := []]> R).
Proof.
  intros [HR Hh Htk Hdd] Hn Hk. assert (∀ t, h ≠ run_link t) by (intros t ->; done).
  split; simpl.
  - split; [apply rings_insert_head; [apply HR|done]|]. intros e He Hni.
    assert (e ≠ h) by (intros ->; apply Hni; exists h, []; by rewrite lookup_insert_eq; set_solver).
    unfold list_init in *. rewrite dom_insert_L in He. apply (ring_frame (w_links w)).
    + intros c ->%list_elem_of_singleton. by rewrite lookup_insert_ne.
    + apply HR; [set_solver|]. intros (h' & xs & Hx & Hc). apply Hni. exists h', xs.
      rewrite lookup_insert_ne; [done|]. intros ->. apply Hn. exists h', xs. set_solver.
  - intros t. by rewrite lookup_insert_ne.
  - intros t v Hv. destruct (Htk _ _ Hv) as (? & ? & ?). unfold list_init.
    by rewrite lookup_insert_ne.
  - intros t Ht (h' & xs & Hx & Hc). apply lookup_insert_Some in Hx as [[<- <-]|[_ Hx]].
    + apply list_elem_of_singleton in Hc. by destruct (H t).
    + apply (Hdd t Ht). by exists h', xs.
Qed.

Definition new_task (f : cofunc_t) (ip op : ptr) (cid : Z) : task_t :=
  Task f ip op (if decide (f = NoFunc) then 0 else RUN_STACK_SIZE) None cid 0 0 READY None.

(** [task_create] yields a new detached task with the next id. *)
Lemma task_create_wp w R th f ip op Q :
  tasks_ok w R → w_threads w !! w_self w = Some th →
  (∀ T, ∃ cid al, alloc_cid T (g_cids th) = Ok (cid, al)) →
  (∀ t T cid al th', t ≠ NULL → w_tasks w !! t = None →
     alloc_cid T (g_cids th) = Ok (cid, al) →
     g_current th' = g_current th → g_sched th' = g_sched th → g_cids th' = al →
     g_task_alive th' = u32 (g_task_alive th + 1) →
     tasks_ok (with_threads (with_links (with_tasks w (<[t := new_task f ip op cid]> (w_tasks w)))
       (list_init (w_links w) (run_link t))) (<[w_self w := th']> (w_threads w))) R →
     Q t (with_threads (with_links (with_tasks w (<[t := new_task f ip op cid]> (w_tasks w)))
       (list_init (w_links w) (run_link t))) (<[w_self w := th']> (w_threads w)))) →
  wp (task_create f ip op) Q w.
Proof.
  intros Hok Hth Hal HQ. unfold task_create, malloc_task. wp_steps.
  pose proof (is_fresh ({[NULL]} ∪ dom (w_tasks w))) as Hf.
  set (t := fresh ({[NULL]} ∪ dom (w_tasks w))) in *. clearbody t.
  assert (Hn : t ≠ NULL) by set_solver.
  assert (Ht : w_tasks w !! t = None) by (apply not_elem_of_dom; set_solver).
  unfold task_init. rewrite decide_False by done. unfold m_alloc_cid. wp_steps.
  apply (wp_mono _ (λ T w', w' = w ∨ ∃ c, w' = with_threads w (<[w_self w :=
    Thread (g_current th) (g_sched th) (g_cids th) (g_task_alive th) (g_errno th) c]> (w_threads w)))).
  { case_decide; [wp_steps; by left|]. unfold m_tid. wp_steps. right. eauto. }
  intros T w1 Hw1. destruct (Hal T) as (cid & al & Hc).
  assert (Hth1 : ∃ c, w_threads w1 !! w_self w1 = Some (Thread (g_current th) (g_sched th)
    (g_cids th) (g_task_alive th) (g_errno th) c) ∧ w1 = with_threads w (<[w_self w :=
    Thread (g_current th) (g_sched th) (g_cids th) (g_task_alive th) (g_errno th) c]> (w_threads w))).
  { destruct Hw1 as [->|[c ->]].
    - exists (g_cached_tid th). destruct th. split; [done|]. simpl. rewrite insert_id by done.
      by destruct w.
    - exists c. simpl. by rewrite lookup_insert_eq. }
  clear Hw1. destruct Hth1 as (c & Hth1 & ->). wp_step. eapply wp_lift; [done|].
  unfold set_cids. wp_steps. simpl. eapply wp_upd_links; [done|]. unfold set_alive. wp_steps.
  simpl. rewrite !insert_insert_eq. eapply (HQ t T cid al); try done.
  destruct Hok as [HR Hh Htk Hdd]. split; simpl; [by apply lrep_init; [|apply Hdd]|done| |].
  - intros t' v' [[<- <-]|[Hne Ht']]%lookup_insert_Some; unfold list_init.
    + rewrite lookup_insert_eq. split_and!; [done|by eauto|by left].
    + destruct (Htk _ _ Ht') as (? & ? & ?). rewrite lookup_insert_ne by (intros [=]; done). done.
  - intros t' [Ht' _]%lookup_insert_None. by apply Hdd.
Qed.

(** * The first call *)

(** A new detached node of another kind. *)
Lemma tasks_ok_node w R e :
  tasks_ok w R → ¬ in_rings R e → lk e ≠ LRunLink →
  tasks_ok (with_links w (list_init (w_links w) e)) R.
Proof.
  intros [HR Hh Htk Hdd] Hn Hk. split; simpl; [by apply lrep_init|done| |done].
  intros t v Hv. destruct (Htk _ _ Hv) as (? & ? & ?). unfold list_init.
  rewrite lookup_insert_ne; [done|]. intros ->. done.
Qed.

Lemma tasks_ok_slots n w R tw i :
  tasks_ok w R → (∀ j, i ≤ j → ¬ in_rings R (slot tw j)) →
  tasks_ok (with_links w (init_slots n tw i (w_links w))) (slots_abs n tw i R).
Proof.
  revert w R i. induction n as [|n IH]; intros w R i Hok Hn; simpl; [by destruct w|].
  apply (IH (with_links w (list_init (w_links w) (slot tw i)))).
  - apply tasks_ok_head; [done|apply Hn; lia|done].
  - intros j Hj (h & xs & Hx & Hc). apply lookup_insert_Some in Hx as [[<- <-]|[_ Hx]].
    + apply list_elem_of_singleton, slot_inj in Hc. lia.
    + apply (Hn j); [lia|]. by exists h, xs.
Qed.

(** No list or element of this kind. *)
Definition no_kind (R : gmap laddr (list laddr)) (k : lkind) : Prop :=
  ∀ a, in_rings R a → lk a ≠ k.

Lemma no_kind_head R h k : no_kind R k → lk h ≠ k → no_kind (<[h := []]> R) k.
Proof.
  intros Hn Hk a (h' & xs & Hx & Hc). apply lookup_insert_Some in Hx as [[<- <-]|[_ Hx]].
  - by apply list_elem_of_singleton in Hc as ->.
  - apply Hn. by exists h', xs.
Qed.

Lemma no_kind_slots n tw i R k :
  no_kind R k → LWheelSlot ≠ k → no_kind (slots_abs n tw i R) k.
Proof.
  revert i R. induction n as [|n IH]; intros i R Hn Hk; simpl; [done|].
  apply IH; [|done]. by apply no_kind_head.
Qed.

Lemma no_kind_enqueue s t ts R k :
  no_kind R k → LRunList ≠ k → LRunLink ≠ k → no_kind (enqueue_rings s t ts R) k.
Proof.
  intros Hn H1 H2 a (h & xs & Hx & Hc). unfold enqueue_rings in Hx.
  apply lookup_insert_Some in Hx as [[<- <-]|[_ Hx]].
  - apply elem_of_cons in Hc as [->|(? & -> & _)%list_elem_of_fmap]; done.
  - apply Hn. apply (in_rings_remove (run_link t)). by exists h, xs.
Qed.

Lemma slots_abs_other n tw i R h : lk h ≠ LWheelSlot → slots_abs n tw i R !! h = R !! h.
Proof.
  intros Hk. revert i R. induction n as [|n IH]; intros i R; simpl; [done|].
  rewrite IH, lookup_insert_ne; [done|]. intros <-. done.
Qed.

(** Before the first call: nothing allocated, the thread in its start state. *)
Record boot (w : world) (cur : ptr) (en : Z) : Prop := {
  boot_links : w_links w = ∅;
  boot_tasks : w_tasks w = ∅;
  boot_scheds : w_scheds w = ∅;
  boot_epolls : w_epolls w = ∅;
  boot_self : w_threads w !! w_self w = Some (Thread cur NULL None 0 en 0)
}.

Lemma boot_tasks_ok w cur en : boot w cur en → tasks_ok w ∅.
Proof.
  intros [Hl Ht _ _ _]. split; rewrite ?Hl, ?Ht.
  - split; [split; intros; by simplify_map_eq|]. intros e He. set_solver.
  - done.
  - intros t v Hv. by simplify_map_eq.
  - intros t _ (h & xs & Hx & _). by simplify_map_eq.
Qed.

(** The ids of the first three tasks. *)
Definition alloc_ok (al : option id_dispatch_t) : Prop :=
  ∀ T, ∃ cid al', alloc_cid T al = Ok (cid, al').

Lemma alloc_next T h b ht :
  0 ≤ b < THREAD_MAX_TASK_SIZE →
  alloc_cid T (Some (IdDispatch h b THREAD_MAX_TASK_SIZE ht)) =
  Ok (b, Some (IdDispatch h (b + 1) THREAD_MAX_TASK_SIZE ht)).
Proof.
  unfold THREAD_MAX_TASK_SIZE. intros Hb. unfold alloc_cid. simpl. rewrite u64_small by lia.
  rewrite decide_False by lia. unfold c_int. rewrite decide_True by (unfold INT_MAX; lia). done.
Qed.

Lemma alloc_first T :
  ∃ h ht, heap_rep h _id_cmp [] ∧ alloc_cid T None = Ok (0, Some (IdDispatch h 1 THREAD_MAX_TASK_SIZE ht)).
Proof.
  exists (heap_init (Some _id_cmp)). eexists. split; [by split; [split| |]|]. etrans; [|apply (alloc_next T _ 0); unfold THREAD_MAX_TASK_SIZE; lia]. reflexivity.
Qed.

(** A thread whose allocator has handed out [n] ids and taken none back. *)
Definition boot_thread (th : thread_t) (cur s : ptr) (n : Z) : Prop :=
  g_current th = cur ∧ g_sched th = s ∧ g_task_alive th = n ∧
  ∃ h ht, heap_rep h _id_cmp [] ∧ g_cids th = Some (IdDispatch h n THREAD_MAX_TASK_SIZE ht).

Lemma boot_thread_create w R th cur s n f ip op Q :
  tasks_ok w R → w_threads w !! w_self w = Some th → boot_thread th cur s n → 0 ≤ n < 10 →
  (∀ t th', t ≠ NULL → w_tasks w !! t = None → boot_thread th' cur s (n + 1) →
     tasks_ok (with_threads (with_links (with_tasks w (<[t := new_task f ip op n]> (w_tasks w)))
       (list_init (w_links w) (run_link t))) (<[w_self w := th']> (w_threads w))) R →
     Q t (with_threads (with_links (with_tasks w (<[t := new_task f ip op n]> (w_tasks w)))
       (list_init (w_links w) (run_link t))) (<[w_self w := th']> (w_threads w)))) →
  wp (task_create f ip op) Q w.
Proof.
  intros Hok Hth (Hc & Hs & Ha & h & ht & Hrep & Hcid) Hn HQ.
  assert (Hal : ∀ T, alloc_cid T (g_cids th) =
    Ok (n, Some (IdDispatch h (n + 1) THREAD_MAX_TASK_SIZE ht))).
  { intros T. rewrite Hcid. apply alloc_next. unfold THREAD_MAX_TASK_SIZE. lia. }
  eapply task_create_wp; [done..|intros T; by eauto|].
  intros t T cid al th' Ht Hnt Hall Hc' Hs' Hcid' Ha' Hok'. rewrite Hal in Hall. simplify_eq.
  apply (HQ t th'); [done|done| |done]. split_and!; [congruence|congruence| |by eauto].
  rewrite Ha'. apply u32_small. lia.
Qed.

Lemma sched_create_boot w cur en fd1 e1 k1 Q :
  boot w cur en → sys_epoll_create (w_kernel w) = ((fd1, e1), k1) → 0 ≤ fd1 →
  (∀ s st ep sv th w', s ≠ NULL → ep ≠ NULL → tasks_ok w' {[run_list s := []]} →
     w_self w' = w_self w → w_threads w' = <[w_self w := th]> (w_threads w) →
     boot_thread th cur NULL 1 → w_scheds w' !! s = Some sv → s_sched_task sv = st →
     s_epoll sv = ep → rq_lock sv = Raw.SPIN_RELESAED → rq_task_num sv = 0 →
     w_epolls w' = {[ep := Epoll 1024 0 fd1 1 None]} → w_kernel w' = k1 →
     w_ifds w' = w_ifds w → w_fdtab w' = w_fdtab w → w_wheels w' = w_wheels w →
     w_tasks w' = {[st := new_task NoFunc NULL NULL 0]} →
     w_mutexes w' = w_mutexes w → w_sems w' = w_sems w → Q s w') →
  wp sched_create Q w.
Proof.
  intros Hb Hk Hfd HQ. pose proof (boot_tasks_ok _ _ _ Hb) as Hok. destruct Hb as [Hl Ht Hs He Hth].
  unfold sched_create. wp_steps.
  pose proof (is_fresh ({[NULL]} ∪ dom (w_scheds w))) as Hf.
  set (s := fresh ({[NULL]} ∪ dom (w_scheds w))) in *. clearbody s.
  eapply task_create_wp; [done..| |].
  { intros T. destruct (alloc_first T) as (h & ht & _ & Ha). eauto. }
  intros t T cid al th Htn Htk Hall Hc Hsc Hcid Hal Hok1. simpl in *.
  destruct (alloc_first T) as (h & ht & Hrep & Ha). rewrite Ha in Hall. simplify_eq.
  unfold new_epoll. wp_step. wp_step. eapply wp_syscall; [simpl; by rewrite lookup_insert_eq|].
  intros r e k Hk'. simpl in Hk'. rewrite Hk in Hk'. simplify_eq. simpl.
  rewrite !decide_False by lia. wp_steps. simpl.
  pose proof (is_fresh ({[NULL]} ∪ dom (w_epolls w))) as Hfe.
  set (ep := fresh ({[NULL]} ∪ dom (w_epolls w))) in *. clearbody ep.
  wp_steps. unfold RR_init. wp_steps. eapply wp_upd_links; [done|]. wp_steps.
  unfold m_tid. wp_steps. simpl.
  eapply (HQ s t ep); simpl; try done.
  - set_solver.
  - set_solver.
  - eapply tasks_ok_frame; [eapply (tasks_ok_head _ ∅ (run_list s)); [exact Hok1| |done]|..]; try done.
    intros (h' & xs & Hx & _). by simplify_map_eq.
  - by rewrite insert_insert_eq.
  - split_and!; simpl; [done|done|rewrite Hal; done|by eauto].
  - by rewrite lookup_insert_eq.
  - done.
  - done.
  - done.
  - done.
  - by rewrite He.
  - by rewrite Ht.
Qed.

Lemma tasks_ok_threads w R th :
  tasks_ok w R → tasks_ok (with_threads w (<[w_self w := th]> (w_threads w))) R.
Proof. intros Hok. by eapply tasks_ok_frame. Qed.

(** The wheel of the epoll timer. *)
Definition boot_wheel (w : world) (fd sz : Z) : time_wheel_t := TimeWheel (w_wheels w) fd sz 1 0.

Lemma boot_wheel_new w fd l sz :
  60 < sz → new_time_wheel (w_wheels w) fd l sz 1 =
    (boot_wheel w fd sz, init_slots (Z.to_nat sz) (boot_wheel w fd sz) 0 l).
Proof. intros. unfold new_time_wheel, MIN_TIME_WHEEL_SIZE. by rewrite decide_True by lia. Qed.

Lemma m_new_time_wheel_wp w R th sz fd2 e2 k2 e3 k3 Q :
  60 < sz → tasks_ok w R → w_threads w !! w_self w = Some th → no_kind R LWheelSlot →
  sys_timerfd_create (w_kernel w) = ((fd2, e2), k2) → 0 ≤ fd2 →
  sys_timerfd_settime fd2 1 0 1 k2 = ((0, e3), k3) →
  (∀ l, tasks_ok (with_wheels (with_links (with_kernel w k3) l) (w_wheels w + sz))
          (slots_abs (Z.to_nat sz) (boot_wheel w fd2 sz) 0 R) →
     Q (boot_wheel w fd2 sz) (with_wheels (with_links (with_kernel w k3) l) (w_wheels w + sz))) →
  wp (m_new_time_wheel sz 1) Q w.
Proof.
  intros Hsz Hok Hth Hn Hk1 Hfd Hk2 HQ. unfold m_new_time_wheel. wp_step.
  eapply wp_syscall; [done|]. intros r e k Hk. rewrite Hk1 in Hk. simplify_eq.
  rewrite decide_False by lia. wp_step.
  eapply wp_syscall; [done|]. intros r' e' k' Hk. simpl in Hk. rewrite Hk2 in Hk. simplify_eq.
  rewrite decide_False by lia. wp_steps. rewrite boot_wheel_new by done. wp_step.
  eapply wp_upd_links; [done|]. wp_steps. apply HQ.
  eapply tasks_ok_frame; [eapply (tasks_ok_slots (Z.to_nat sz) w R (boot_wheel w r sz) 0); [done|]|..]; try done.
  intros j _ Hin. by apply Hn in Hin.
Qed.

(** What [init_epoll_timer] has added: the wheel, the descriptor of its timer as
    object [i], and the timer task [t], the first in the run queue. *)
Record timer_started (w w' : world) (s ep : ptr) (e : epoll_t) (fd sz : Z) (k : kstate) (t i : ptr)
    (R : gmap laddr (list laddr)) : Prop := {
  ts_rings : R = enqueue_rings s t [] (slots_abs (Z.to_nat sz) (boot_wheel w fd sz) 0 {[run_list s := []]});
  ts_tasks : w_tasks w !! t = None ∧
    w_tasks w' = <[t := enqueued_task (w_self w) (new_task TimeoutTask ep NULL 1)]> (w_tasks w);
  ts_epolls : w_epolls w' = <[ep := Epoll (ep_maxevents e) (ep_timeout e) (ep_fd e) (ep_loop e)
    (Some (boot_wheel w fd sz))]> (w_epolls w);
  ts_kernel : w_kernel w' = k;
  ts_ifds : i ≠ NULL ∧ w_ifds w !! i = None ∧
    w_ifds w' = <[i := InnerFd fd (Z.lor 0 O_NONBLOCK) 0 t (-1) IENONE]> (w_ifds w);
  ts_fdtab : w_fdtab w' = <[fd := i]> (w_fdtab w);
  ts_link : is_Some (w_links w' !! ifd_link i);
  ts_sched : s_epoll <$> w_scheds w' !! s = Some ep;
  ts_sync : w_mutexes w' = w_mutexes w ∧ w_sems w' = w_sems w
}.

(** [init_epoll_timer] on a scheduler that has just been made: the timer task
    is created and enqueued. *)
Lemma init_epoll_timer_boot w s sv ep e th cur sz fd2 e2 k2 e3 k3 Q :
  60 < sz → s ≠ NULL → ep ≠ NULL → tasks_ok w {[run_list s := []]} →
  w_threads w !! w_self w = Some th → boot_thread th cur s 1 →
  w_scheds w !! s = Some sv → s_epoll sv = ep → rq_lock sv = Raw.SPIN_RELESAED →
  w_epolls w !! ep = Some e →
  sys_timerfd_create (w_kernel w) = ((fd2, e2), k2) → 0 ≤ fd2 < MAX_FD_NUM →
  sys_timerfd_settime fd2 1 0 1 k2 = ((0, e3), k3) →
  (∀ t i th' R w' tv, boot_thread th' cur s 2 → rt w' s R [t] → no_kind R LMutexWait →
     w_self w' = w_self w → w_threads w' !! w_self w = Some th' →
     w_tasks w' !! t = Some tv → t_func tv = TimeoutTask → timer_started w w' s ep e fd2 sz k3 t i R → Q () w') →
  wp (init_epoll_timer_with (sched_rq_enqueue_with current_sched_set) ep sz 1) Q w.
Proof.
  intros Hsz Hs Hep Hok Hth Hbt Hsv Hsep Hlk He Hk1 Hfd Hk2 HQ. unfold init_epoll_timer_with. wp_step.
  assert (Hnk : ∀ k, LRunList ≠ k → no_kind {[run_list s := []]} k).
  { intros k Hk. apply (no_kind_head ∅); [|done]. intros a (h & xs & Hx & _). by simplify_map_eq. }
  eapply m_new_time_wheel_wp; [done|done|done|by apply Hnk|done|lia|done|]. intros l Hok1. wp_steps.
  apply new_inner_fd_wp; [simpl; lia|].
  set (w2 := with_fdtab _ _). set (i := fresh_ifd _) in *.
  assert (Hfr : i ≠ NULL ∧ w_ifds w !! i = None) by exact (fresh_ifd_spec _).
  assert (Hi : w_ifds w2 !! i = Some (InnerFd fd2 0 0 NULL FD_TIMEOUT IENONE))
    by (simpl; by rewrite lookup_insert_eq).
  assert (Hok2 : tasks_ok w2 (slots_abs (Z.to_nat sz) (boot_wheel w fd2 sz) 0 {[run_list s := []]})).
  { eapply tasks_ok_frame; [eapply (tasks_ok_node _ _ (ifd_link i)); [exact Hok1| |done]|..]; try done.
    intros Hin. apply (no_kind_slots _ _ _ _ LFdLink) in Hin; [by apply Hin|by apply Hnk|done]. }
  clearbody i. unfold or_i_flags, set_i_timeout. wp_step. wp_step. wp_step. wp_step. wp_step.
  eapply boot_thread_create; [by eapply tasks_ok_frame; [exact Hok2|..]|done|done|lia|].
  intros t th' Htn Hnt Hbt' Hok3. unfold set_i_task. wp_steps.
  eapply (sched_rq_enqueue_with_wp _ _ s); [apply current_sched_set_ready| | |].
  - split; simpl; [done| | | | |]; [..|intros ? []%not_elem_of_nil].
    + exists th'. rewrite lookup_insert_eq. split; [done|]. apply Hbt'.
    + exists sv. rewrite Hsep, lookup_insert_eq. by eauto.
    + eapply tasks_ok_frame; [exact Hok3|..]; done.
    + rewrite slots_abs_other by done. by rewrite lookup_singleton_eq.
  - simpl. by rewrite lookup_insert_eq.
  - intros sv' l' Hsv' Hrt' Hdl. eapply (HQ t i th'); [done|exact Hrt'|..]; simpl; try done.
    + apply no_kind_enqueue; [|done|done]. apply no_kind_slots; [by apply Hnk|done].
    + by rewrite lookup_insert_eq.
    + by rewrite lookup_insert_eq.
    + done.
    + split; cbn; try done.
      * split; [done|by rewrite insert_insert_eq].
      * destruct Hfr. split_and!; [done|done|by rewrite !insert_insert_eq].
      * apply elem_of_dom. rewrite Hdl. cbn. unfold list_init. rewrite !dom_insert_L. set_solver.
      * rewrite lookup_insert_eq. cbn. cbn in Hsv'. congruence.
Qed.

(** What [init_active_task] has added: the task [t]. *)
Record active_started (w w' : world) (s t : ptr) (ts : list Z) (R R' : gmap laddr (list laddr)) : Prop := {
  as_rings : R' = enqueue_rings s t ts R;
  as_tasks : w_tasks w' = <[t := enqueued_task (w_self w) (new_task ActiveTask NULL NULL 2)]> (w_tasks w);
  as_epolls : w_epolls w' = w_epolls w;
  as_kernel : w_kernel w' = w_kernel w;
  as_ifds : w_ifds w' = w_ifds w ∧ w_fdtab w' = w_fdtab w;
  as_links : dom (w_links w) ⊆ dom (w_links w');
  as_sched : s_epoll <$> w_scheds w' !! s = s_epoll <$> w_scheds w !! s;
  as_sync : w_mutexes w' = w_mutexes w ∧ w_sems w' = w_sems w
}.

(** The active task, on a scheduler with its timer. *)
Lemma init_active_task_boot w s R ts th cur Q :
  rt w s R ts → w_threads w !! w_self w = Some th → boot_thread th cur s 2 →
  no_kind R LMutexWait →
  (∀ t th' R' w' tv, boot_thread th' cur s 3 → rt w' s R' (t :: ts) → no_kind R' LMutexWait →
     w_self w' = w_self w → w_threads w' !! w_self w = Some th' →
     w_tasks w' !! t = Some tv → t_func tv = ActiveTask →
     (∀ t', t' ≠ t → w_tasks w' !! t' = w_tasks w !! t') → w_tasks w !! t = None →
     active_started w w' s t ts R R' → Q 0 w') →
  wp (init_active_task_with (sched_rq_enqueue_with current_sched_set)) Q w.
Proof.
  intros Hrt Hth Hbt Hnk HQ. pose proof Hrt as [Hnn Hself Hsch Htk Hq Hlv].
  unfold init_active_task_with. wp_step.
  eapply boot_thread_create; [done|done|done|lia|]. intros t th' Htn Hnt Hbt' Hok'. wp_step.
  assert (Hts : t ∉ ts) by (intros Hin; apply Hlv in Hin as [? ?]; congruence).
  eapply (sched_rq_enqueue_with_wp _ _ s); [apply current_sched_set_ready| | |].
  - split; simpl; [done| |done|done|done|].
    + exists th'. rewrite lookup_insert_eq. split; [done|]. apply Hbt'.
    + intros t' Ht'. rewrite lookup_insert. case_decide; [by eauto|by apply Hlv].
  - simpl. by rewrite lookup_insert_eq.
  - intros sv' l' Hsv' Hrt' Hdl. wp_steps. rewrite filter_ne_id in Hrt' by done.
    eapply (HQ t th'); [done|exact Hrt'|by apply no_kind_enqueue|..]; simpl; try done.
    + by rewrite lookup_insert_eq.
    + by rewrite lookup_insert_eq.
    + done.
    + intros t' Hne. by rewrite !lookup_insert_ne by done.
    + split; cbn; try done.
      * by rewrite insert_insert_eq.
      * rewrite Hdl. cbn. unfold list_init. rewrite dom_insert_L. set_solver.
      * rewrite lookup_insert_eq. cbn in *. by rewrite Hsv'.
Qed.

Lemma rt_mutex_head w s R ts m :
  rt w s R ts → no_kind R LMutexWait →
  rt (with_links w (list_init (w_links w) (mutex_wait m))) s (<[mutex_wait m := []]> R) ts.
Proof.
  intros [Hnn Hself Hsch Htk Hq Hlv] Hn. split; simpl; try done.
  - apply tasks_ok_head; [done| |done]. intros Hin. by apply Hn in Hin.
  - by rewrite lookup_insert_ne.
Qed.

(** What the first call has made: scheduler [s] with its task [st], the epoll object
    [ep] with the wheel, the timer's descriptor as object [i], the timer task [t1]
    and the active task [t2]. *)
Record booted (w w' : world) (s ep st t1 t2 i : ptr) (fd1 fd2 : Z) (k : kstate) (R : gmap laddr (list laddr)) : Prop := {
  bd_rings : R = <[mutex_wait (dns_mutex (w_self w)) := []]> (enqueue_rings s t2 [t1] (enqueue_rings s t1 []
    (slots_abs 600 (boot_wheel w fd2 600) 0 {[run_list s := []]})));
  bd_names : st ≠ t1 ∧ st ≠ t2 ∧ t1 ≠ t2 ∧ i ≠ NULL;
  bd_tasks : w_tasks w' = <[t2 := enqueued_task (w_self w) (new_task ActiveTask NULL NULL 2)]>
    (<[t1 := enqueued_task (w_self w) (new_task TimeoutTask ep NULL 1)]> {[st := new_task NoFunc NULL NULL 0]});
  bd_self : w_self w' = w_self w;
  bd_sched : s_epoll <$> w_scheds w' !! s = Some ep;
  bd_epoll : w_epolls w' !! ep = Some (Epoll 1024 0 fd1 1 (Some (boot_wheel w fd2 600)));
  bd_kernel : w_kernel w' = k;
  bd_ifds : w_ifds w' = <[i := InnerFd fd2 (Z.lor 0 O_NONBLOCK) 0 t1 (-1) IENONE]> (w_ifds w);
  bd_fdtab : w_fdtab w' = <[fd2 := i]> (w_fdtab w);
  bd_link : is_Some (w_links w' !! ifd_link i);
  bd_mutexes : w_mutexes w' = <[dns_mutex (w_self w) := Mutex NULL Raw.spin_lock_init]> (w_mutexes w);
  bd_sems : w_sems w' = w_sems w
}.

Lemma current_sched_boot w cur en fd1 e1 k1 fd2 e2 k2 e3 k3 :
  boot w cur en →
  sys_epoll_create (w_kernel w) = ((fd1, e1), k1) → 0 ≤ fd1 →
  sys_timerfd_create k1 = ((fd2, e2), k2) → 0 ≤ fd2 < MAX_FD_NUM →
  sys_timerfd_settime fd2 1 0 1 k2 = ((0, e3), k3) →
  wp current_sched (λ s w', ∃ R t1 t2 v1 v2 th, rt w' s R [t2; t1] ∧
    w_tasks w' !! t1 = Some v1 ∧ t_func v1 = TimeoutTask ∧
    w_tasks w' !! t2 = Some v2 ∧ t_func v2 = ActiveTask ∧
    w_threads w' !! w_self w' = Some th ∧ boot_thread th cur s 3 ∧
    ∃ ep st i, booted w w' s ep st t1 t2 i fd1 fd2 k3 R) w.
Proof.
  intros Hb Hk1 Hfd1 Hk2 Hfd2 Hk3. unfold current_sched. pose proof (boot_self _ _ _ Hb) as Hth0.
  wp_step. eapply wp_rd_self; [done|]. cbn [g_sched]. rewrite decide_True by done. wp_step. wp_step.
  eapply sched_create_boot; [done..|].
  intros s st ep sv th w1 Hs Hep Hok Hself Hths (Hb1 & _ & Hb2) Hsv Hst <- Hlk _ Heps Hker Hifd Hfdt Hwhl Htks Hmx Hsm.
  unfold set_g_sched. wp_step.
  eapply wp_upd_self; [by rewrite Hths, Hself, lookup_insert_eq|]. wp_step.
  eapply wp_rd_sched; [done|]. wp_step.
  eapply wp_rd_epoll; [cbn; by rewrite Heps, lookup_singleton_eq|]. cbn [ep_timer].
  wp_step. wp_step. eapply (init_epoll_timer_boot _ s sv (s_epoll sv)); try done.
  { by apply tasks_ok_threads. }
  { cbn. by rewrite lookup_insert_eq. }
  { split; [done|]. split; [done|]. exact Hb2. }
  { cbn. by rewrite Heps, lookup_singleton_eq. }
  { cbn. by rewrite Hker. }
  intros t1 i th1 R1 w2 v1 Hbt1 Hrt1 Hn1 Hself2 Hth2 Hv1 Hf1 Hts. cbn in Hself2, Hth2. wp_step.
  eapply init_active_task_boot; [done|by rewrite Hself2|done|done|].
  intros t2 th2 R2 w3 v2 Hbt2 Hrt2 Hn2 Hself3 Hth3 Hv2 Hf2 Hoth Ht2 Has. wp_steps.
  unfold co_mutex_init. wp_steps. eapply wp_upd_links; [done|].
  apply wp_ret, wp_ret, wp_bind.
  eapply wp_rd_self; [cbn; by rewrite Hself3|]. apply wp_ret.
  pose proof Hbt2 as (_ & -> & _). eexists _, t1, t2, v1, v2, th2. split_and!.
  - eapply rt_mutex_head; [|done]. by eapply rt_frame.
  - cbn. rewrite Hoth; [done|]. intros ->. congruence.
  - done.
  - done.
  - done.
  - cbn. by rewrite Hself3.
  - done.
  - exists (s_epoll sv), st, i. destruct Hts as [A1 [A2 A3] A4 A5 (A6 & A7 & A8) A9 A10 A11 [A12 A13]].
    destruct Has as [B1 B2 B3 B4 [B5 B6] B7 B8 [B9 B10]]. cbn in *.
    assert (Hst1 : st ≠ t1) by (intros ->; by rewrite Htks, lookup_singleton_eq in A2).
    assert (Hst2 : st ≠ t2).
    { intros ->. rewrite A3, lookup_insert_ne, Htks, lookup_singleton_eq in Ht2 by done. done. }
    assert (Ht12 : t1 ≠ t2) by (intros ->; by rewrite A3, lookup_insert_eq in Ht2).
    split.
    { rewrite B1, A1, Hself3, Hself2, Hself. unfold boot_wheel. cbn [w_wheels with_threads]. by rewrite Hwhl. }
    all: clear A1 B1 Hrt1 Hrt2 Hn1 Hn2; cbn; try done; try congruence.
    + rewrite B3, A4, lookup_insert_eq. unfold boot_wheel. cbn. by rewrite Hwhl.
    + apply elem_of_dom. unfold list_init. rewrite dom_insert_L. apply elem_of_union. right. apply B7. by apply elem_of_dom.
Qed.

(** The first call into the library on a thread makes its scheduler: the
    run queue holds the timer task and, newer, the active task, the scheduler
    invariant holds, and three tasks are alive, the number [no_task()] counts
    on. *)
Theorem current_sched_first_call w cur en fd1 e1 k1 fd2 e2 k2 e3 k3 :
  boot w cur en →
  sys_epoll_create (w_kernel w) = ((fd1, e1), k1) → 0 ≤ fd1 →
  sys_timerfd_create k1 = ((fd2, e2), k2) → 0 ≤ fd2 < MAX_FD_NUM →
  sys_timerfd_settime fd2 1 0 1 k2 = ((0, e3), k3) →
  ∃ s w' R t1 t2 v1 v2 th, current_sched w = Ok (s, w') ∧ rt w' s R [t2; t1] ∧
    w_tasks w' !! t1 = Some v1 ∧ t_func v1 = TimeoutTask ∧
    w_tasks w' !! t2 = Some v2 ∧ t_func v2 = ActiveTask ∧
    w_threads w' !! w_self w' = Some th ∧ g_sched th = s ∧ g_task_alive th = 3.
Proof.
  intros Hb Hk1 Hfd1 Hk2 Hfd2 Hk3.
  destruct (current_sched_boot _ _ _ _ _ _ _ _ _ _ _ Hb Hk1 Hfd1 Hk2 Hfd2 Hk3)
    as (s & w' & Hc & R & t1 & t2 & v1 & v2 & th & Hrt & ? & ? & ? & ? & ? & (_ & ? & ? & _) & _).
  exists s, w', R, t1, t2, v1, v2, th. done.
Qed.

(** Waking a task that is already in the run queue is not idempotent: the
    task loses its place and goes to the end of the line, and [task_num] counts
    it twice. *)
Theorem requeue_counts_twice s w R ts1 t ts2 v sv :
  rt w s R (ts1 ++ t :: ts2) → w_tasks w !! t = Some v → w_scheds w !! s = Some sv →
  ∃ w' R' sv', sched_rq_enqueue t w = Ok ((), w') ∧ rt w' s R' (t :: ts1 ++ ts2) ∧
    w_scheds w' !! s = Some sv' ∧ rq_task_num sv' = u64 (rq_task_num sv + 1) ∧
    length (t :: ts1 ++ ts2) = length (ts1 ++ t :: ts2).
Proof.
  intros Hrt Hv Hsv. pose proof (rt_nodup _ _ _ _ Hrt) as Hnd.
  assert (Hwp : wp (sched_rq_enqueue t) (λ _ w', ∃ R' sv', rt w' s R' (t :: ts1 ++ ts2) ∧
    w_scheds w' !! s = Some sv' ∧ rq_task_num sv' = u64 (rq_task_num sv + 1)) w).
  { eapply sched_rq_enqueue_wp; [done..|]. intros sv' l Hsv' Hrt' _. simplify_eq.
    rewrite filter_ne_split in Hrt' by done. eexists _, _. split; [exact Hrt'|].
    simpl. by rewrite lookup_insert_eq. }
  destruct Hwp as ([] & w' & He & R' & sv' & ? & ? & ?). exists w', R', sv'.
  split_and!; try done. simpl. rewrite !length_app. simpl. lia.
Qed.

End sched.

(** * Examples *)

Lemma ex_world_boot : boot (K := ex_kernel) ex_world NULL 0.
Proof. by split. Qed.

Lemma current_sched_first_call_witness :
  ∃ s w' R t1 t2 v1 v2 th, current_sched (K := ex_kernel) ex_world = Ok (s, w') ∧
    rt (K := ex_kernel) w' s R [t2; t1] ∧
    w_tasks w' !! t1 = Some v1 ∧ t_func v1 = TimeoutTask ∧
    w_tasks w' !! t2 = Some v2 ∧ t_func v2 = ActiveTask ∧
    w_threads w' !! w_self w' = Some th ∧ g_sched th = s ∧ g_task_alive th = 3.
Proof.
  apply (current_sched_first_call (K := ex_kernel) ex_world NULL 0 3 0 4 4 0 5 0 5);
    [apply ex_world_boot|reflexivity|done|reflexivity|done|reflexivity].
Defined.

(** The state after the first call on [ex_world]. *)
Definition ex_started : world (K := ex_kernel) :=
  match current_sched (K := ex_kernel) ex_world with Ok (_, w) => w | _ => ex_world end.

Lemma ex_started_rt : ∃ R, rt (K := ex_kernel) ex_started 1 R [3; 2].
Proof.
  destruct (current_sched_boot (K := ex_kernel) ex_world NULL 0 3 0 4 4 0 5 0 5)
    as (s & w' & Hc & R & t1 & t2 & v1 & v2 & th & Hrt & _);
    [apply ex_world_boot|reflexivity|done|reflexivity|done|reflexivity|].
  assert (Hw : w' = ex_started) by (unfold ex_started; by rewrite Hc). rewrite Hw in Hrt. clear Hw.
  assert (Hs : s = 1).
  { destruct (rt_self _ _ _ _ Hrt) as (th' & Hth' & <-).
    assert (E : g_sched <$> w_threads ex_started !! w_self ex_started = Some 1)
      by (vm_compute; reflexivity).
    rewrite Hth' in E. by injection E. }
  subst s. destruct (rt_links _ _ _ _ Hrt) as [[HR _] _].
  pose proof (HR _ _ (rt_queue _ _ _ _ Hrt)) as Hring.
  pose proof (ring_next_head _ _ _ Hring) as Hn. pose proof (ring_prev_head _ _ _ Hring) as Hp.
  vm_compute in Hn, Hp. injection Hn as Hn. injection Hp as Hp.
  exists R. rewrite Hn, Hp. exact Hrt.
Qed.

Lemma requeue_counts_twice_witness :
  ∃ sv w' R' sv', sched_rq_enqueue (K := ex_kernel) 2 ex_started = Ok ((), w') ∧
    rt (K := ex_kernel) w' 1 R' [2; 3] ∧
    w_scheds w' !! 1 = Some sv' ∧ rq_task_num sv' = u64 (rq_task_num sv + 1) ∧
    length [2; 3] = length [3; 2].
Proof.
  destruct ex_started_rt as [R Hrt]. destruct (rt_live _ _ _ _ Hrt 2) as [v Hv]; [set_solver|].
  destruct (rt_sched _ _ _ _ Hrt) as (sv & Hsv & _). exists sv.
  exact (requeue_counts_twice (K := ex_kernel) 1 ex_started R [3] 2 [] v sv Hrt Hv Hsv).
Defined.
