(* ===== verification/Event.v ===== *)
(** event.c: waiting for descriptors and the tick of the timer wheel.

    [event_poll] yields in the middle; it is given as the part before the yield
    and the part after, which runs when the task is scheduled again. *)

From Stdlib Require Import ZArith Lia.
From stdpp Require Import base numbers strings sets gmap list.
From S2P Require Import Prelude IntrusiveList Links SpinLock TimeWheel World InnerFd Task Sched.
Open Scope Z_scope.

Section event.
Context {K : Kernel}.

Definition rd_errno : M Z := th ← rd_self; mret (g_errno th).

Definition cntl_events (ep : ptr) (op fd events : Z) : M Z :=
  if decide (ep = NULL) then set_errno EBADF;; mret (-1) else
  if negb (is_fd_valid fd) then set_errno EBADF;; mret (-1) else
  e ← rd_epoll ep;
  syscall (sys_epoll_ctl (ep_fd e) op fd events).

Definition add_events (ep : ptr) (fd events : Z) : M Z :=
  r ← cntl_events ep EPOLL_CTL_ADD fd events;
  en ← rd_errno;
  if decide (r < 0 ∧ en = EEXIST) then cntl_events ep EPOLL_CTL_MOD fd events else mret r.

Definition delete_events (ep : ptr) (fd events : Z) : M Z :=
  r ← cntl_events ep EPOLL_CTL_DEL fd events;
  en ← rd_errno;
  mret (if decide (r < 0 ∧ en = ENOENT) then 0 else r).

Definition modify_events (ep : ptr) (fd events : Z) : M Z :=
  cntl_events ep EPOLL_CTL_MOD fd events.

(** [events & flag]. *)
Definition has (events flag : Z) : bool := negb (bool_decide (Z.land events flag = 0)).

Definition events_to_error (events : Z) : Z :=
  let error := IENONE in
  let error := if has events EPOLLIN then Z.lor error IEREAD else error in
  let error := if has events EPOLLOUT then Z.lor error IEWRITE else error in
  let error := if has events EPOLLERR then Z.lor error IEERR else error in
  let error := if has events EPOLLRDHUP then Z.lor error IERDHUP else error in
  if has events EPOLLHUP then Z.lor error IEHUP else error.

(** [event_poll] up to [co_io_yield]: [None] when it yields. *)
Definition event_poll_begin (ep : ptr) (fd events : Z) : M (option Z) :=
  ifd ← get_inner_fd fd;
  if decide (ifd = NULL) then panic "ifd is NULL" else
  set_i_error ifd IENONE;;
  t ← co_self;
  set_i_task ifd t;;
  r ← add_events ep fd events;
  if decide (r ≠ 0) then _ ← delete_events ep fd events; mret (Some (-1)) else
  e ← rd_epoll ep;
  v ← rd_ifd ifd;
  (match ep_timer e with
   | Some tw => upd_links (λ l, wheel_update_element tw l (ifd_link ifd) (s32 (i_timeout v)))
   | None => lift Undef
   end);;
  set_status t IO_BLOCK;;
  mret None.

(** [event_poll] after the yield; [ifd] is the local variable. *)
Definition event_poll_end (ep : ptr) (ifd : ptr) : M Z :=
  upd_links (λ l, wheel_delete_element l (ifd_link ifd));;
  v ← rd_ifd ifd;
  r ← delete_events ep (i_fd v) 0;
  if decide (r ≠ 0) then mret (-1) else
  v ← rd_ifd ifd;
  if has (i_error v) IETIMEOUT then set_errno ETIME;; mret (-1) else
  if has (i_error v) IEERR then set_errno ENETDOWN;; mret (-1) else
  if has (i_error v) IEHUP then set_errno ENETDOWN;; mret (-1) else
  mret 0.

Definition stop_event_loop (ep : ptr) : M unit :=
  if decide (ep = NULL) then mret () else
  upd_epoll ep (λ e, Epoll (ep_maxevents e) (ep_timeout e) (ep_fd e) 0 (ep_timer e)).

(** One ready descriptor in the loop of [event_wait]. *)
Definition wake_fd (ep : ptr) (ev : Z * Z) : M unit :=
  ifd ← get_inner_fd ev.1;
  set_i_error ifd (events_to_error ev.2);;
  v ← rd_ifd ifd;
  _ ← delete_events ep (i_fd v) 0;
  v ← rd_ifd ifd;
  if decide (i_task v = NULL) then mret () else co_resume (i_task v).

Fixpoint wake_fds (ep : ptr) (evs : list (Z * Z)) : M unit :=
  match evs with
  | [] => mret ()
  | ev :: evs => wake_fd ep ev;; wake_fds ep evs
  end.

(** [dfatal] logs and exits when [epoll_wait] fails. *)
Definition event_wait (ep : ptr) : M Z :=
  if decide (ep = NULL) then panic "assert" else
  e ← rd_epoll ep;
  w ← get;
  let '(r, k) := sys_epoll_wait (ep_fd e) (ep_maxevents e) (ep_timeout e) (w_kernel w) in
  put_kernel k;;
  match r with
  | inl err => set_errno err;; panic "dfatal"
  | inr evs => wake_fds ep evs;; mret (Z.of_nat (length evs))
  end.

(** The expired slot: [while(!list_empty(ls))] of [_timeout_task]. *)
Fixpoint expire_loop (fuel : nat) (ls : laddr) : M unit :=
  e ← rd_links (λ l, list_empty l ls);
  if (e : bool) then mret () else
  match fuel with
  | O => lift OutOfFuel
  | S fuel =>
      ifd ← lift (list_to_struct LFdLink ls);
      v ← rd_ifd ifd;
      set_i_error ifd (Z.lor (i_error v) IETIMEOUT);;
      co_resume (i_task v);;
      next ← rd_links (λ l, list_next l ls);
      upd_links (λ l, wheel_delete_element l ls);;
      expire_loop fuel next
  end.

(** One turn of [_timeout_task] after a complete read of the timer. *)
Definition timeout_tick (ep : ptr) : M unit :=
  e ← rd_epoll ep;
  tw ← lift (deref (ep_timer e));
  tw ← lift (wheel_rotate tw);
  upd_epoll ep (λ e, Epoll (ep_maxevents e) (ep_timeout e) (ep_fd e) (ep_loop e) (Some tw));;
  ls ← rd_links (λ l, list_next l (wheel_timeout_list tw));
  w ← get;
  expire_loop (size (w_ifds w)) ls.

(** What [_timeout_task] does with the result of [read(tw->fd, buf, 8)]: [true]
    when it goes on. *)
Definition timeout_turn (ep : ptr) (ret : Z) : M bool :=
  if decide (ret ≠ 8) then
    e ← rd_epoll ep;
    tw ← lift (deref (ep_timer e));
    _ ← close (tw_fd tw);
    mret false
  else timeout_tick ep;; mret true.

Definition delete_epoll (ep : ptr) : M unit :=
  if decide (ep = NULL) then mret () else
  e ← rd_epoll ep;
  _ ← close (ep_fd e);
  (match ep_timer e with
   | Some tw =>
       ifd ← get_inner_fd (tw_fd tw);
       v ← rd_ifd ifd;
       task_destory (i_task v);;
       _ ← close (tw_fd tw);
       upd_links (λ l, Ok (delete_time_wheel (Some tw) l))
   | None => mret ()
   end);;
  w ← get;
  put_epolls (delete ep (w_epolls w)).

(** * What the scheduler relies on *)

(** The context of a computation that runs inside a task or the scheduler:
    thread and current task stay, no task disappears. *)
Definition same_ctx (w w' : world) : Prop :=
  w_self w' = w_self w ∧
  (g_current <$> w_threads w' !! w_self w' = g_current <$> w_threads w !! w_self w) ∧
  (∀ t, is_Some (w_tasks w !! t) → is_Some (w_tasks w' !! t)).

#[global] Instance same_ctx_preorder : PreOrder same_ctx.
Proof.
  split; [done|]. intros w1 w2 w3 (H1 & H2 & H3) (H4 & H5 & H6).
  split_and!; [congruence|congruence|auto].
Qed.

(** What a task was created with, and whether its calls are hooked; what of a
    scheduler only its own service task changes. *)
Definition entry (v : task_t) : cofunc_t * ptr * ptr * Z := (t_func v, t_iparam v, t_oparam v, t_hook v).
Definition sched_fixed (v : sched_t) : ptr * Z * Z := (s_epoll v, s_active0 v, s_active1 v).

(** What a wake-up leaves alone: the variables of the threads, the semaphores, the
    descriptors and the kernel, the ids and the data of all tasks; it kills nobody. *)
Record wake_frame (w w' : world) : Prop := {
  wf_self : w_self w' = w_self w;
  wf_threads : w_threads w' = w_threads w;
  wf_sems : w_sems w' = w_sems w;
  wf_links : dom (w_links w') = dom (w_links w);
  wf_io : w_fdtab w' = w_fdtab w ∧ w_ifds w' = w_ifds w ∧ w_epolls w' = w_epolls w ∧ w_kernel w' = w_kernel w ∧
    w_objs w' = w_objs w;
  wf_scheds : ∀ s, sched_fixed <$> w_scheds w' !! s = sched_fixed <$> w_scheds w !! s;
  wf_ids : ∀ u, (λ v, (t_cid v, t_specs v)) <$> w_tasks w' !! u = (λ v, (t_cid v, t_specs v)) <$> w_tasks w !! u;
  wf_entry : ∀ u, entry <$> w_tasks w' !! u = entry <$> w_tasks w !! u;
  wf_killed : ∀ u v', w_tasks w' !! u = Some v' → t_status v' = KILLED →
    ∃ v, w_tasks w !! u = Some v ∧ t_status v = KILLED
}.

#[global] Instance wake_frame_preorder : PreOrder wake_frame.
Proof.
  split; [split; by eauto|].
  intros w1 w2 w3 [Ea Eb Ec El Eio Es Ei Ee Hk] [Ea' Eb' Ec' El' Eio' Es' Ei' Ee' Hk'].
  split; [congruence..|naive_solver congruence|intros u; by rewrite Es'|intros u; by rewrite Ei'|intros u; by rewrite Ee'|].
  intros u v' Hv Hkl. destruct (Hk' _ _ Hv Hkl) as (v & Hv2 & Hk2). eauto.
Qed.

(** The run queue of one scheduler changes. *)
Lemma scheds_rq w s0 sv sv' :
  w_scheds w !! s0 = Some sv → sched_fixed sv' = sched_fixed sv →
  ∀ s, sched_fixed <$> <[s0 := sv']> (w_scheds w) !! s = sched_fixed <$> w_scheds w !! s.
Proof.
  intros Hv E s. destruct (decide (s = s0)) as [->|]; [rewrite lookup_insert_eq, Hv; cbn; by rewrite E|].
  by rewrite lookup_insert_ne.
Qed.

Lemma wake_frame_same w w' :
  w_self w' = w_self w → w_threads w' = w_threads w → w_sems w' = w_sems w → dom (w_links w') = dom (w_links w) →
  (w_fdtab w' = w_fdtab w ∧ w_ifds w' = w_ifds w ∧ w_epolls w' = w_epolls w ∧ w_kernel w' = w_kernel w ∧
   w_objs w' = w_objs w) →
  w_tasks w' = w_tasks w →
  (∀ s, sched_fixed <$> w_scheds w' !! s = sched_fixed <$> w_scheds w !! s) → wake_frame w w'.
Proof. intros E1 E2 E3 E4 E5 E6 E7. split; rewrite ?E6; by eauto. Qed.

(** One task changes its status, to something else than killed, or its scheduler. *)
Lemma wake_frame_task w w' t v v' :
  w_self w' = w_self w → w_threads w' = w_threads w → w_sems w' = w_sems w → dom (w_links w') = dom (w_links w) →
  (w_fdtab w' = w_fdtab w ∧ w_ifds w' = w_ifds w ∧ w_epolls w' = w_epolls w ∧ w_kernel w' = w_kernel w ∧
   w_objs w' = w_objs w) →
  w_tasks w !! t = Some v → w_tasks w' = <[t := v']> (w_tasks w) →
  t_cid v' = t_cid v → t_specs v' = t_specs v → entry v' = entry v → t_status v' ≠ KILLED →
  (∀ s, sched_fixed <$> w_scheds w' !! s = sched_fixed <$> w_scheds w !! s) → wake_frame w w'.
Proof.
  intros Es Et Em Hl Hio Hv E Ec Ep Ee Hk Hsc. split; [done..| | |]; rewrite E.
  - intros u. destruct (decide (u = t)) as [->|]; [rewrite lookup_insert_eq, Hv; cbn; congruence|by rewrite lookup_insert_ne].
  - intros u. destruct (decide (u = t)) as [->|]; [rewrite lookup_insert_eq, Hv; cbn; by rewrite Ee|by rewrite lookup_insert_ne].
  - intros u v1. rewrite lookup_insert_Some. intros [[<- <-]|[_ Hu]]; [done|by eauto].
Qed.

(** A task enters the run queue. *)
Lemma wake_frame_enqueued w s t v sv l :
  w_tasks w !! t = Some v → w_scheds w !! s = Some sv → dom l = dom (w_links w) →
  wake_frame w (enqueued w s t v sv l).
Proof. intros Hv Hsv Hl. eapply (wake_frame_task w _ t v); try done. by eapply scheds_rq. Qed.

(** The lists of the time wheel stay as they are while tasks move; of the tasks on
    any list, only [t] may be new. *)
Record fd_rings (t : ptr) (R R' : gmap laddr (list laddr)) : Prop := {
  fr_slot : ∀ h il, lk h = LWheelSlot → R !! h = Some (ifd_link <$> il) → R' !! h = Some (ifd_link <$> il);
  fr_head : ∀ p, R !! ifd_link p = None → R' !! ifd_link p = None;
  fr_in : ∀ p, in_rings R' (ifd_link p) → in_rings R (ifd_link p);
  fr_run : ∀ u, in_rings R' (run_link u) → in_rings R (run_link u) ∨ u = t
}.

#[global] Instance fd_rings_preorder t : PreOrder (fd_rings t).
Proof.
  split; [split; by eauto|]. intros R1 R2 R3 [] [H1 H2 H3 H4]. split; eauto.
  intros u [Hu|Hu]%H4; [by eauto|by right].
Qed.

Lemma fd_rings_remove t x R : fd_rings t R (ring_remove (run_link x) R).
Proof.
  split.
  - intros h il Hh Hr. rewrite ring_remove_lookup, Hr. cbn. f_equal. apply filter_ne_id.
    intros (? & [=] & _)%list_elem_of_fmap.
  - intros p Hp. by rewrite ring_remove_lookup, Hp.
  - intros p. apply in_rings_remove.
  - intros u ?%in_rings_remove. by left.
Qed.

(** A list of tasks takes the place of another. *)
Lemma fd_rings_tasks t R R1 h us us' :
  fd_rings t R R1 → R1 !! h = Some (run_link <$> us) → lk h ≠ LWheelSlot → lk h ≠ LFdLink → lk h ≠ LRunLink →
  (∀ u, u ∈ us' → u ∈ us ∨ in_rings R (run_link u) ∨ u = t) → fd_rings t R (<[h := run_link <$> us']> R1).
Proof.
  intros [H1 H2 H3 H4] Hh Hk1 Hk2 Hk3 Hus. split.
  - intros h' il Hh' Hr. rewrite lookup_insert_ne by (by intros ->). by apply H1.
  - intros p Hp. rewrite lookup_insert_ne by (by intros ->). by apply H2.
  - intros p (h' & ys & [[<- <-]|[_ Hy]]%lookup_insert_Some & Hc); [|apply H3; by exists h', ys].
    apply elem_of_cons in Hc as [<-|(? & [=] & _)%list_elem_of_fmap]. by destruct Hk2.
  - intros u (h' & ys & [[<- <-]|[_ Hy]]%lookup_insert_Some & Hc); [|apply H4; by exists h', ys].
    apply elem_of_cons in Hc as [<-|(y & [= <-] & Hu)%list_elem_of_fmap]; [by destruct Hk3|].
    destruct (Hus _ Hu) as [Hu'|?]; [|done]. apply H4. exists h, (run_link <$> us). split; [done|].
    right. by apply list_elem_of_fmap_2.
Qed.

Lemma fd_rings_enqueue t s x ts R R1 :
  fd_rings t R R1 → R1 !! run_list s = Some (run_link <$> ts) → (in_rings R (run_link x) ∨ x = t) →
  fd_rings t R (enqueue_rings s x ts R1).
Proof.
  intros HR Hq Hx. unfold enqueue_rings.
  eapply (fd_rings_tasks t R (ring_remove (run_link x) R1) _ (filter (λ y, y ≠ x) ts)); try done.
  - etrans; [exact HR|apply fd_rings_remove].
  - rewrite ring_remove_lookup, Hq. cbn. by rewrite filter_run_link.
  - intros u [->|Hu]%elem_of_cons; [by right|by left].
Qed.

(** [event_wait] may wake tasks, which become the newest of the queue, and
    leaves the others in their places. *)
Class EventSource (s : ptr) : Prop :=
  event_wait_keeps : ∀ w R ts v,
    rt w s R ts → w_scheds w !! s = Some v →
    wp (event_wait (s_epoll v)) (λ _ w', ∃ R' new, rt w' s R' (new ++ ts) ∧ same_ctx w w') w.

(** A kernel with nothing to report. *)
Lemma event_wait_quiet s w R ts v e k Q :
  rt w s R ts → w_scheds w !! s = Some v → w_epolls w !! s_epoll v = Some e →
  sys_epoll_wait (ep_fd e) (ep_maxevents e) (ep_timeout e) (w_kernel w) = (inr [], k) →
  Q 0 (with_kernel w k) → wp (event_wait (s_epoll v)) Q w.
Proof.
  intros Hrt Hv He Hk HQ. unfold event_wait.
  destruct (rt_sched _ _ _ _ Hrt) as (v' & Hv' & _ & Hne & _). simplify_eq.
  rewrite decide_False by done. wp_steps. rewrite Hk. wp_steps. simpl. wp_steps. done.
Qed.

Lemma quiet_event_source s :
  (∀ fd n t k, ∃ k', sys_epoll_wait fd n t k = (inr [], k')) → EventSource s.
Proof.
  intros Hq w R ts v Hrt Hv. pose proof (rt_sched _ _ _ _ Hrt) as (v' & Hv' & _ & _ & [e He]).
  simplify_eq. destruct (Hq (ep_fd e) (ep_maxevents e) (ep_timeout e) (w_kernel w)) as [k Hk].
  eapply event_wait_quiet; [done..|]. exists R, []. split; [by eapply rt_frame|done].
Qed.

(** * The tick of the timer *)

Lemma filter_ifd_links e (il : list Z) :
  filter (λ x, x ≠ run_link e) (ifd_link <$> il) = ifd_link <$> il.
Proof. apply filter_ne_id. intros (i & [=] & _)%list_elem_of_fmap. Qed.

Lemma enqueue_rings_other s t ts R h :
  h ≠ run_list s → enqueue_rings s t ts R !! h = filter (λ x, x ≠ run_link t) <$> R !! h.
Proof. intros Hh. unfold enqueue_rings. by rewrite lookup_insert_ne, ring_remove_lookup. Qed.

Lemma enqueue_rings_slot s t ts R h il :
  R !! h = Some (ifd_link <$> il) → h ≠ run_list s →
  enqueue_rings s t ts R !! h = Some (ifd_link <$> il).
Proof.
  intros Hh Hne. rewrite enqueue_rings_other, Hh by done.
  exact (f_equal Some (filter_ifd_links t il)).
Qed.

(** Taking a descriptor out of the wheel leaves the scheduler alone. *)
Lemma rt_remove_ifd w s R ts i l :
  rt w s R ts → lrep l (ring_remove (ifd_link i) R) → dom l = dom (w_links w) →
  rt (with_links w l) s (ring_remove (ifd_link i) R) ts.
Proof.
  intros [Hnn Hself Hsch [HR Hh Htk Hdd] Hq Hlv] Hl Hdom. split; simpl; try done; [split; simpl|].
  - done.
  - intros t. by rewrite ring_remove_lookup, Hh.
  - intros t v Hv. destruct (Htk _ _ Hv) as (? & ? & ?). split_and!; [done| |done].
    apply elem_of_dom. rewrite Hdom. by apply elem_of_dom.
  - intros t Ht ?%in_rings_remove. by apply (Hdd t).
  - rewrite ring_remove_lookup, Hq. simpl. f_equal. apply filter_ne_id.
    intros (? & [=] & _)%list_elem_of_fmap.
Qed.

(** The descriptors [il] wait in slot [h], each for a live task. *)
Definition waiting (w : world) (R : gmap laddr (list laddr)) (h : laddr) (il : list Z) : Prop :=
  R !! h = Some (ifd_link <$> il) ∧
  ∀ i, i ∈ il → R !! ifd_link i = None ∧
    ∃ v, w_ifds w !! i = Some v ∧ is_Some (w_tasks w !! i_task v).

(** What a tick leaves behind for the descriptors [il]: the error bit is set
    and the task is in the queue. *)
Definition expired (w w' : world) (il : list Z) (ts' : list Z) : Prop :=
  ∀ i v, i ∈ il → w_ifds w !! i = Some v →
    i_task v ∈ ts' ∧
    (∃ tv, w_tasks w' !! i_task v = Some tv ∧ t_status tv = RUNNABLE) ∧
    w_ifds w' !! i = Some (InnerFd (i_fd v) (i_flags v) (i_user_flags v) (i_task v) (i_timeout v)
                             (Z.lor (i_error v) IETIMEOUT)).

(** Between two steps of the loop: what was woken stays woken. *)
Definition ticked (w w' : world) (ts ts' : list Z) : Prop :=
  (∀ t, t ∈ ts → t ∈ ts') ∧
  (∀ t tv, w_tasks w !! t = Some tv → t_status tv = RUNNABLE →
     ∃ tv', w_tasks w' !! t = Some tv' ∧ t_status tv' = RUNNABLE) ∧
  (∀ t, is_Some (w_tasks w !! t) → is_Some (w_tasks w' !! t)).

Lemma filter_ifd_cons i il :
  i ∉ il → filter (λ x, x ≠ ifd_link i) (ifd_link <$> i :: il) = ifd_link <$> il.
Proof.
  intros Hi. rewrite fmap_cons, filter_cons_False by (by intros []). apply filter_ne_id.
  intros (j & [= ->] & Hj)%list_elem_of_fmap. done.
Qed.

(** One descriptor: the effect of the loop body on [waiting]. *)
Lemma waiting_next w R s ts t h i il w' l :
  waiting w R h (i :: il) → i ∉ il → h ≠ run_list s →
  lrep l (ring_remove (ifd_link i) (enqueue_rings s t ts R)) →
  (∀ j, j ≠ i → w_ifds w' !! j = w_ifds w !! j) →
  (∀ t, is_Some (w_tasks w !! t) → is_Some (w_tasks w' !! t)) →
  waiting w' (ring_remove (ifd_link i) (enqueue_rings s t ts R)) h il.
Proof.
  intros [Hh Hw] Hi Hhs Hl Hif Htk. split.
  - rewrite ring_remove_lookup, (enqueue_rings_slot _ _ _ _ _ (i :: il)) by done.
    exact (f_equal Some (filter_ifd_cons i il Hi)).
  - intros j Hj. destruct (Hw j) as [Hn (v & Hv & Ht)]; [set_solver|]. split.
    + rewrite ring_remove_lookup, enqueue_rings_other by done. by rewrite Hn.
    + exists v. rewrite Hif by set_solver. auto.
Qed.

Lemma expire_loop_wp fuel w s R ts h il :
  rt w s R ts → lk h = LWheelSlot → waiting w R h il → NoDup il → (length il ≤ fuel)%nat →
  wp (expire_loop fuel (first_or h (ifd_link <$> il))) (λ _ w', ∃ R' ts',
    rt w' s R' ts' ∧ R' !! h = Some [] ∧ ticked w w' ts ts' ∧ expired w w' il ts' ∧
    (∀ i, i ∉ il → w_ifds w' !! i = w_ifds w !! i) ∧ w_epolls w' = w_epolls w) w.
Proof.
  revert w R ts il. induction fuel as [|fuel IH]; intros w R ts [|i il] Hrt Hk Hw Hnd Hlen;
    try (simpl in Hlen; lia).
  1,2: cbn [expire_loop fmap list_fmap first_or head]; wp_step;
       destruct (rt_links _ _ _ _ Hrt) as [[HR _] _];
       (eapply wp_rd_links; [by apply (ring_list_empty _ _ []), HR, Hw|]);
       rewrite bool_decide_eq_true_2 by done; wp_steps; exists R, ts;
       split_and!; [done|apply Hw|split_and!; naive_solver|intros ?? []%not_elem_of_nil|done|done].
  apply NoDup_cons in Hnd as [Hi Hnd]. pose proof Hw as [Hh Hwi].
  assert (Hhs : h ≠ run_list s) by (by intros ->).
  destruct (Hwi i) as [Hni (v & Hv & [tv Htv])]; [set_solver|].
  destruct (rt_links _ _ _ _ Hrt) as [[HR _] _]. pose proof (HR _ _ Hh) as Hring.
  cbn [expire_loop fmap list_fmap first_or head default]. wp_step.
  eapply wp_rd_links; [apply (ring_list_empty_elem _ _ _ _ Hring); set_solver|]. simpl. wp_step.
  eapply wp_lift; [apply list_to_struct_member|]. unfold set_i_error. wp_steps.
  eapply sched_rq_enqueue_wp; [by eapply rt_frame|done|]. intros sv l Hsv Hrt2 Hdom.
  pose proof (rt_links _ _ _ _ Hrt2) as HR2. wp_step.
  pose proof (enqueue_rings_slot s (i_task v) ts R h (i :: il) Hh Hhs) as Hh2.
  pose proof (proj1 (proj1 HR2) _ _ Hh2) as Hring2.
  eapply wp_rd_links; [apply (ring_next_elem _ _ [] _ _ Hring2)|]. wp_step.
  destruct (lrep_delete _ _ (ifd_link i) HR2) as (l3 & Hd & HR3 & Hdom3 & _).
  { rewrite enqueue_rings_other by done. by rewrite Hni. }
  { apply (ring_dom _ _ _ _ Hring2). set_solver. }
  eapply wp_upd_links; [exact Hd|].
  set (w3 := with_links _ _).
  assert (Hif : ∀ j, j ≠ i → w_ifds w3 !! j = w_ifds w !! j).
  { intros j Hj. simpl. by rewrite lookup_insert_ne. }
  assert (Htk3 : ∀ t, is_Some (w_tasks w !! t) → is_Some (w_tasks w3 !! t)).
  { intros t Ht. simpl. rewrite lookup_insert. case_decide; [by eauto|done]. }
  eapply wp_mono; [eapply (IH w3); [by eapply rt_remove_ifd|done|by eapply waiting_next|done|]|].
  { simpl in Hlen. lia. }
  intros [] w' (R' & ts' & Hrt' & Hh' & (Hts & Hrun & Hliv) & Hexp & Hoth & Hep).
  exists R', ts'. split_and!; [done|done|split_and!| | |done].
  - intros t Ht. apply Hts. destruct (decide (t = i_task v)) as [->|Hne]; [by left|].
    right. by apply list_elem_of_filter.
  - intros t tv' Ht Hst. destruct (decide (t = i_task v)) as [->|Hne].
    + eapply Hrun; [simpl; by rewrite lookup_insert_eq|done].
    + eapply Hrun; [simpl; by rewrite lookup_insert_ne|done].
  - auto.
  - intros j vj Hj Hvj. apply elem_of_cons in Hj as [->|Hj].
    + simplify_eq. split_and!; [apply Hts; by left| |].
      * eapply Hrun; [simpl; by rewrite lookup_insert_eq|done].
      * rewrite Hoth by done. simpl. by rewrite lookup_insert_eq.
    + apply Hexp; [done|]. rewrite Hif; [done|]. by intros ->.
  - intros j Hj. rewrite Hoth by set_solver. apply Hif. set_solver.
Qed.

Lemma timeout_tick_wp w s R ts ep e tw tw' il Q :
  rt w s R ts → w_epolls w !! ep = Some e → ep_timer e = Some tw → wheel_rotate tw = Ok tw' →
  waiting w R (wheel_timeout_list tw') il →
  (∀ w' R' ts', rt w' s R' ts' → R' !! wheel_timeout_list tw' = Some [] →
     expired w w' il ts' → (∀ i, i ∉ il → w_ifds w' !! i = w_ifds w !! i) →
     ep_timer <$> w_epolls w' !! ep = Some (Some tw') → Q () w') →
  wp (timeout_tick ep) Q w.
Proof.
  intros Hrt He Htw Hrot Hw HQ. unfold timeout_tick. wp_steps. rewrite Htw. wp_steps.
  pose proof Hw as [Hh Hwi]. destruct (rt_links _ _ _ _ Hrt) as [[HR _] _].
  pose proof (HR _ _ Hh) as Hring. cbn.
  eapply wp_rd_links; [apply (ring_next_head _ _ _ Hring)|]. wp_steps. cbn.
  assert (Hnd : NoDup il).
  { destruct Hring as [[_ Hnd]%NoDup_cons _]. by apply NoDup_fmap_1 in Hnd. }
  eapply wp_mono; [eapply (expire_loop_wp _ _ s R ts)|].
  - eapply rt_frame; [done..|]. cbn. rewrite dom_insert_L. apply elem_of_dom_2 in He. set_solver.
  - done.
  - exact Hw.
  - done.
  - apply NoDup_dom_length; [done|]. intros i Hi. destruct (Hwi i Hi) as [_ (v & Hv & _)]. eauto.
  - intros [] w' (R' & ts' & Hrt' & Hh' & _ & Hexp & Hoth & Hep). eapply HQ; try done.
    rewrite Hep. cbn. by rewrite lookup_insert_eq.
Qed.


(** * Ready descriptors *)

Lemma delete_events_wp w ep e fd events th Q :
  ep ≠ NULL → 0 ≤ fd < MAX_FD_NUM → w_epolls w !! ep = Some e →
  w_threads w !! w_self w = Some th →
  (∀ r k th', g_sched th' = g_sched th → g_current th' = g_current th →
     Q r (with_threads (with_kernel w k) (<[w_self w := th']> (w_threads w)))) →
  wp (delete_events ep fd events) Q w.
Proof.
  intros Hep Hfd He Hth HQ. unfold delete_events, cntl_events. wp_step.
  rewrite decide_False by done. rewrite is_fd_valid_spec, bool_decide_eq_true_2 by done. simpl.
  wp_step. eapply wp_rd_epoll; [done|]. eapply wp_syscall; [done|]. intros r er k _. unfold rd_errno.
  case_decide; wp_steps; cbn.
  - by apply HQ.
  - specialize (HQ (if decide (r < 0 ∧ g_errno th = ENOENT) then 0 else r) k th eq_refl eq_refl).
    by rewrite insert_id in HQ.
Qed.

(** The events [evs] are for registered descriptors of live tasks. *)
Definition ready (w : world) (evs : list (Z * Z)) : Prop :=
  ∀ fd ev, (fd, ev) ∈ evs → 0 ≤ fd < MAX_FD_NUM ∧
    ∃ i v, w_fdtab w !! fd = Some i ∧ w_ifds w !! i = Some v ∧ i_fd v = fd ∧
      i_task v ≠ NULL ∧ is_Some (w_tasks w !! i_task v).

(** Each of them has its events recorded and its task in the queue. *)
Definition woken (w w' : world) (evs : list (Z * Z)) (ts' : list Z) : Prop :=
  ∀ fd ev i v, (fd, ev) ∈ evs → w_fdtab w !! fd = Some i → w_ifds w !! i = Some v →
    i_task v ∈ ts' ∧
    (∃ tv, w_tasks w' !! i_task v = Some tv ∧ t_status tv = RUNNABLE) ∧
    w_ifds w' !! i = Some (InnerFd (i_fd v) (i_flags v) (i_user_flags v) (i_task v) (i_timeout v)
                             (events_to_error ev)).

Lemma wake_fd_wp w s R ts ep e fd ev i v Q :
  rt w s R ts → ep ≠ NULL → w_epolls w !! ep = Some e → 0 ≤ fd < MAX_FD_NUM →
  w_fdtab w !! fd = Some i → w_ifds w !! i = Some v → i_fd v = fd → i_task v ≠ NULL →
  is_Some (w_tasks w !! i_task v) →
  (∀ w', rt w' s (enqueue_rings s (i_task v) ts R) (i_task v :: filter (λ x, x ≠ i_task v) ts) →
     same_ctx w w' → w_epolls w' = w_epolls w → w_fdtab w' = w_fdtab w →
     w_ifds w' = <[i := InnerFd (i_fd v) (i_flags v) (i_user_flags v) (i_task v) (i_timeout v)
                         (events_to_error ev)]> (w_ifds w) →
     (∀ t, t ≠ i_task v → w_tasks w' !! t = w_tasks w !! t) →
     (∃ tv, w_tasks w' !! i_task v = Some tv ∧ t_status tv = RUNNABLE) → Q () w') →
  wp (wake_fd ep (fd, ev)) Q w.
Proof.
  intros Hrt Hep He Hfd Hi Hv <- Htn [tv Htv] HQ. pose proof (rt_self _ _ _ _ Hrt) as (th & Hth & Hs).
  unfold wake_fd, set_i_error. wp_step. apply wp_get_inner_fd; [done|]. cbn [fst snd]. rewrite Hi.
  cbn [default]. wp_steps. cbn.
  eapply delete_events_wp; [done|done|done|done|]. intros r k th' Hs' Hc'. wp_steps. cbn.
  rewrite decide_False by done.
  eapply (sched_rq_enqueue_wp _ s R ts); [|done|].
  { eapply (rt_frame (with_threads w (<[w_self w := th']> (w_threads w)))); try done.
    eapply rt_threads; [done|congruence]. }
  intros sv l Hsv Hrt' Hdom. eapply HQ; [exact Hrt'| |reflexivity..| |].
  - split_and!; [done| |].
    + cbn. rewrite lookup_insert_eq, Hth. cbn. congruence.
    + intros t Ht. cbn. rewrite lookup_insert. case_decide; [by eauto|done].
  - intros t Ht. cbn. by rewrite lookup_insert_ne.
  - cbn. rewrite lookup_insert_eq. by eauto.
Qed.

Lemma wake_fds_wp w s R ts ep e evs :
  rt w s R ts → ep ≠ NULL → w_epolls w !! ep = Some e → ready w evs → NoDup evs.*1 →
  wp (wake_fds ep evs) (λ _ w', ∃ R' ts', rt w' s R' ts' ∧ ticked w w' ts ts' ∧
    woken w w' evs ts' ∧ same_ctx w w' ∧
    (∀ i, (∀ fd ev, (fd, ev) ∈ evs → w_fdtab w !! fd ≠ Some i) → w_ifds w' !! i = w_ifds w !! i)) w.
Proof.
  revert w R ts. induction evs as [|[fd ev] evs IH]; intros w R ts Hrt Hep He Hrd Hnd; cbn [wake_fds].
  { wp_steps. exists R, ts. split_and!; [done|split_and!; naive_solver|intros ???? []%not_elem_of_nil|done|done]. }
  apply NoDup_cons in Hnd as [Hfd Hnd].
  destruct (Hrd fd ev) as (Hfdr & i & v & Hi & Hv & Hvfd & Htn & Htv); [by left|].
  wp_step. eapply wake_fd_wp; [done..|].
  intros w1 Hrt1 Hctx1 Hep1 Hft1 Hif1 Htk1 (tv & Htv1 & Hst1).
  assert (Hinj : ∀ fd' ev' i', (fd', ev') ∈ evs → w_fdtab w !! fd' = Some i' → i' ≠ i).
  { intros fd' ev' i' Hin Hi' ->. destruct (Hrd fd' ev') as (_ & i2 & v2 & Hi2 & Hv2 & Hvfd2 & _); [by right|].
    apply Hfd. simplify_eq. apply list_elem_of_fmap. by exists (i_fd v, ev'). }
  eapply wp_mono; [eapply IH; [done|done|by rewrite Hep1| |done]|].
  { intros fd' ev' Hin. destruct (Hrd fd' ev') as (Hr' & i' & v' & Hi' & Hv' & ? & ? & ?); [by right|].
    split; [done|]. exists i', v'. rewrite Hft1, Hif1, lookup_insert_ne by (symmetry; by eapply Hinj).
    split_and!; try done. by apply Hctx1. }
  intros [] w' (R' & ts' & Hrt' & (Hts & Hrun & Hlv) & Hwk & Hctx & Hoth).
  exists R', ts'. split_and!; [done|split_and!| |by etrans|].
  - intros t Ht. apply Hts. destruct (decide (t = i_task v)) as [->|Hne]; [by left|].
    right. by apply list_elem_of_filter.
  - intros t tv' Ht Hst. destruct (decide (t = i_task v)) as [->|Hne]; [by eapply Hrun|].
    eapply Hrun; [by rewrite Htk1|done].
  - intros t Ht. apply Hlv. by apply Hctx1.
  - intros fd' ev' i' v' Hin Hi' Hv'. apply elem_of_cons in Hin as [[= -> ->]|Hin].
    + simplify_eq. split_and!; [apply Hts; by left|by eapply Hrun|].
      rewrite Hoth; [by rewrite Hif1, lookup_insert_eq|].
      intros fd' ev' Hin Hi'. rewrite Hft1 in Hi'. by eapply Hinj.
    + eapply Hwk; [done|by rewrite Hft1|].
      rewrite Hif1, lookup_insert_ne; [done|]. symmetry. by eapply Hinj.
  - intros j Hj. rewrite Hoth.
    + rewrite Hif1, lookup_insert_ne; [done|]. intros ->. by eapply Hj; [left|].
    + intros fd' ev' Hin. rewrite Hft1. eapply Hj. by right.
Qed.


(** * Waiting on one descriptor *)

Definition armed_rings (h : laddr) (i : Z) (xs : list laddr) (R : gmap laddr (list laddr))
    : gmap laddr (list laddr) :=
  <[h := ifd_link i :: filter (λ x, x ≠ ifd_link i) xs]> (ring_remove (ifd_link i) R).

Lemma wheel_update_lrep tw l R i T xs :
  wheel_ok tw → 0 ≤ T ≤ INT_MAX → lrep l R → R !! ifd_link i = None → is_Some (l !! ifd_link i) →
  R !! slot tw (wheel_index tw T) = Some xs →
  ∃ l', wheel_update_element tw l (ifd_link i) T = Ok l' ∧
    lrep l' (armed_rings (slot tw (wheel_index tw T)) i xs R) ∧ dom l' = dom l.
Proof.
  intros Hok HT HR Hh Hl Hxs. unfold wheel_update_element, wheel_delete_element, list_add.
  rewrite decide_False by lia. rewrite decide_False by (destruct Hok; lia).
  destruct (lrep_delete _ _ _ HR Hh Hl) as (l1 & -> & HR1 & Hdom1 & Hni). simpl.
  destruct (lrep_add_after l1 (ring_remove (ifd_link i) R) (slot tw (wheel_index tw T)) (ifd_link i)
    (filter (λ x, x ≠ ifd_link i) xs)) as (l2 & -> & HR2 & Hdom2); [done| |done| |].
  - by rewrite ring_remove_lookup, Hxs.
  - apply elem_of_dom. rewrite Hdom1. by apply elem_of_dom.
  - exists l2. split_and!; [done|done|congruence].
Qed.

Lemma rt_arm w s R ts h i xs l :
  rt w s R ts → lk h = LWheelSlot → R !! h = Some xs → lrep l (armed_rings h i xs R) →
  dom l = dom (w_links w) → rt (with_links w l) s (armed_rings h i xs R) ts.
Proof.
  intros Hrt Hk Hxs Hl Hdom. pose proof Hrt as [Hnn Hself Hsch [HR Hh Htk Hdd] Hq Hlv].
  assert (∀ t, h ≠ run_link t) by (by intros t ->). assert (h ≠ run_list s) by (by intros ->).
  unfold armed_rings in *. split; simpl; try done; [split; simpl|].
  - done.
  - intros t. rewrite lookup_insert_ne by done. by rewrite ring_remove_lookup, Hh.
  - intros t v Hv. destruct (Htk _ _ Hv) as (? & ? & ?). split_and!; [done| |done].
    apply elem_of_dom. rewrite Hdom. by apply elem_of_dom.
  - intros t Ht (h' & ys & Hy & Hc). apply (Hdd t Ht).
    apply lookup_insert_Some in Hy as [[<- <-]|[_ Hy]].
    + exists h, xs. split; [done|]. apply elem_of_cons in Hc as [->|Hc]; [by left|].
      apply elem_of_cons in Hc as [?|Hc]; [done|]. right. by apply list_elem_of_filter in Hc as [_ ?].
    + apply (in_rings_remove (ifd_link i)). by exists h', ys.
  - rewrite lookup_insert_ne by done. rewrite ring_remove_lookup, Hq. simpl. f_equal.
    apply filter_ne_id. intros (? & [=] & _)%list_elem_of_fmap.
Qed.


Lemma events_to_error_no_timeout ev : has (events_to_error ev) IETIMEOUT = false.
Proof.
  unfold events_to_error.
  destruct (has ev EPOLLIN), (has ev EPOLLOUT), (has ev EPOLLERR), (has ev EPOLLRDHUP), (has ev EPOLLHUP);
    reflexivity.
Qed.


End event.

(** * Examples *)

(** A small runtime: scheduler 1 with a wheel of 64 slots, task 2 running,
    descriptor 7 registered as object 1 with a timeout of one tick. *)
Definition ex_tw : time_wheel_t := TimeWheel 0 4 64 1 0.
Definition ex_rings : gmap laddr (list laddr) := slots_abs 64 ex_tw 0 {[run_list 1 := []]}.
Definition ex_links : lmem :=
  list_init (list_init (init_slots 64 ex_tw 0 (list_init ∅ (run_list 1))) (ifd_link 1)) (run_link 2).
Definition ex_runtime (l : lmem) (err task : Z) (k : Kernel) (s : kstate (Kernel := k)) : world (K := k) :=
  World (K := k) 1 l {[2 := Task (UserFunc 9) 0 0 0 None 0 1 0 RUNNABLE (Some 1)]}
    {[1 := Sched 1 0 5 1 0 0 7 (-1) (-1)]} {[1 := Epoll 1024 0 3 1 (Some ex_tw)]}
    {[1 := InnerFd 7 0 0 task 1 err]} {[7 := 1]} {[1 := Thread 2 1 None 1 0 7]} ∅ ∅ no_objects 3 s.

Lemma ex_rings_no_kind k : k ≠ LRunList → k ≠ LWheelSlot → no_kind ex_rings k.
Proof.
  intros H1 H2. apply no_kind_slots; [|done]. apply (no_kind_head ∅); [|done].
  intros a (h & xs & Hx & _). by simplify_map_eq.
Qed.

Lemma ex_links_lrep : lrep ex_links ex_rings.
Proof.
  assert (H0 : tasks_ok (K := ex_kernel) ex_world ∅) by (eapply boot_tasks_ok, ex_world_boot).
  unfold ex_links. apply lrep_init; [apply lrep_init|].
  - refine (tk_links _ _ (tasks_ok_slots (K := ex_kernel) 64
      (with_links (K := ex_kernel) ex_world (list_init ∅ (run_list 1))) _ ex_tw 0 _ _)).
    + apply (tasks_ok_head (K := ex_kernel) _ _ (run_list 1) H0); [|done].
      intros (h & xs & Hx & _). by simplify_map_eq.
    + intros j _ (h & xs & [<- <-]%lookup_singleton_Some & Hc).
      by apply list_elem_of_singleton in Hc.
  - intros Hin. by apply (ex_rings_no_kind LFdLink) in Hin.
  - intros Hin. by apply (ex_rings_no_kind LRunLink) in Hin.
Qed.

(** The same lists with the descriptor in the next slot to expire. *)
Definition ex_armed_links : lmem :=
  match wheel_update_element ex_tw ex_links (ifd_link 1) 0 with Ok l => l | _ => ∅ end.
Definition ex_armed_rings : gmap laddr (list laddr) := armed_rings (slot ex_tw 1) 1 [] ex_rings.

Lemma ex_armed_lrep : lrep ex_armed_links ex_armed_rings ∧ dom ex_armed_links = dom ex_links.
Proof.
  destruct (wheel_update_lrep ex_tw ex_links ex_rings 1 0 []) as (l & Hu & HR & Hdom).
  - by vm_compute.
  - by vm_compute.
  - apply ex_links_lrep.
  - done.
  - by eexists.
  - done.
  - unfold ex_armed_links. by rewrite Hu.
Qed.

Lemma ex_runtime_rt l err task k s : l = ex_links → rt (K := k) (ex_runtime l err task k s) 1 ex_rings [].
Proof.
  intros ->. split; [done| | | |reflexivity|intros t Ht; by apply not_elem_of_nil in Ht].
  - by eexists.
  - eexists. split_and!; [done|done|done|by eexists].
  - split; cbn -[ex_links ex_rings].
    + apply ex_links_lrep.
    + intros t. unfold ex_rings. rewrite slots_abs_other by done. by rewrite lookup_singleton_ne.
    + intros t v [<- <-]%lookup_singleton_Some. split_and!; [done|by eexists|by right].
    + intros t _ Hin. by apply (ex_rings_no_kind LRunLink) in Hin.
Qed.

Lemma ex_armed_rt err task k s :
  rt (K := k) (ex_runtime ex_armed_links err task k s) 1 ex_armed_rings [].
Proof.
  destruct ex_armed_lrep as [HR Hdom].
  apply (rt_arm (K := k) (ex_runtime ex_links err task k s) 1 ex_rings [] (slot ex_tw 1) 1 [] ex_armed_links);
    [by apply ex_runtime_rt|done|done|done|done].
Qed.




(** A kernel that reports descriptor 7 readable. *)
Definition ex_busy_kernel : Kernel := {|
  kstate := Z;
  sys_epoll_create := λ k, ((k, 0), k + 1);
  sys_epoll_ctl := λ _ _ _ _ k, ((0, 0), k);
  sys_epoll_wait := λ _ _ _ k, (inr [(7, EPOLLIN)], k);
  sys_close := λ _ k, ((0, 0), k);
  sys_write := λ _ b k, ((Z.of_nat (length b), 0), k);
  sys_timerfd_create := λ k, ((k, 0), k + 1);
  sys_timerfd_settime := λ _ _ _ _ k, ((0, 0), k);
  sys_gettid := λ th _, 1000 + th
|}.

