(* ===== verification/Schedule.v ===== *)
(** [RR_picknext] of sched_RR.c and the loop of [schedule] in task_sched.c.

    [task_switch] hands the processor to a task and returns when the task
    switches back; what the task does meanwhile is the argument [run]. *)

From Stdlib Require Import ZArith Lia.
From stdpp Require Import base numbers strings sets gmap list.
From S2P Require Import Prelude IntrusiveList Links Cid SpinLock TimeWheel HashMap World InnerFd Task Sched Event.
Open Scope Z_scope.

Section schedule.
Context {K : Kernel}.

(** [current_sched()->epoll->timeout = time]. *)
Definition delay_event (time : Z) : M unit :=
  s ← current_sched;
  v ← rd_sched s;
  upd_epoll (s_epoll v) (λ e, Epoll (ep_maxevents e) time (ep_fd e) (ep_loop e) (ep_timer e)).

(** The loop body: wait for events, choose how long the next wait may block,
    look at the queue again. *)
Fixpoint picknext_loop (fuel : nat) (rq : ptr) (ls : laddr) : M laddr :=
  match fuel with
  | O => lift OutOfFuel
  | S fuel =>
      s ← current_sched;
      v ← rd_sched s;
      n ← event_wait (s_epoll v);
      idle ← (if decide (n = 0) then rd_links (λ l, list_empty l ls) else mret false);
      (if (idle : bool) then delay_event (1000 * 60) else delay_event 0);;
      ls ← rd_links (λ l, list_prev l (run_list rq));
      e ← rd_links (λ l, list_empty l ls);
      if (e : bool) then picknext_loop fuel rq ls else mret ls
  end.

(** [fuel] bounds the number of [epoll_wait] calls made on an empty queue. *)
Definition RR_picknext (fuel : nat) (rq : ptr) : M ptr :=
  _ ← current_sched;
  ls ← rd_links (λ l, list_prev l (run_list rq));
  ls ← picknext_loop fuel rq ls;
  lift (list_to_struct LRunLink ls).

Definition sched_rq_picknext (fuel : nat) : M ptr :=
  s ← current_sched; RR_picknext fuel s.

Definition set_in_sched (b : Z) : M unit :=
  th ← rd_self;
  upd_sched (g_sched th) (λ v, Sched (rq_lock v) (rq_task_num v) (s_sched_task v) (s_epoll v) b
                                 (s_force_sched v) (s_tid v) (s_active0 v) (s_active1 v)).

(** [switch(prev_task->status)]. *)
Definition recycle_prev (prev_task : ptr) : M unit :=
  if decide (prev_task = NULL) then mret () else
  v ← rd_task prev_task;
  match t_status v with
  | RUNNABLE => sched_rq_enqueue prev_task
  | KILLED => task_destory prev_task
  | _ => mret ()
  end.

(** One turn of [while(1)], the block under [CO_SCHED_STOP] apart: takes
    [prev_task] and returns the next one, with what the run of the task says. *)
Definition schedule_turn_with {A} (fuel : nat) (run : ptr → M A) (prev_task : ptr) : M (ptr * option A) :=
  recycle_prev prev_task;;
  next_task ← sched_rq_picknext fuel;
  if decide (next_task = NULL) then mret (NULL, None) else
  sched_rq_dequeue next_task;;
  set_current next_task;;
  set_in_sched 0;;
  set_status next_task RUNNABLE;;
  a ← run next_task;
  set_in_sched 1;;
  th ← rd_self;
  let prev := g_current th in
  set_current NULL;;
  mret (prev, Some a).

Definition schedule_turn (fuel : nat) (run : ptr → M unit) (prev_task : ptr) : M ptr :=
  r ← schedule_turn_with fuel run prev_task; mret r.1.

(** [n] turns; the result lists the tasks that were given the processor. *)
Fixpoint schedule_turns (n fuel : nat) (run : ptr → M unit) (prev_task : ptr) : M (list ptr * ptr) :=
  match n with
  | O => mret ([], prev_task)
  | S n =>
      prev ← schedule_turn fuel run prev_task;
      r ← schedule_turns n fuel run prev;
      mret (prev :: r.1, r.2)
  end.

Definition schedule_begin : M unit := _ ← current_sched; set_in_sched 1.

Definition no_task : M bool := n ← task_count; mret (bool_decide (n ≤ 3)).
Definition can_destory : M bool := n ← task_count; mret (bool_decide (n ≤ 2)).

(** The block under [CO_SCHED_STOP]: [true] when the loop ends. *)
Definition schedule_stop : M bool :=
  nt ← no_task;
  if negb (nt : bool) then mret false else
  th ← rd_self;
  v ← rd_sched (g_sched th);
  if decide (0 ≤ s_active0 v) then _ ← close (s_active1 v); mret false else
  can_destory.

Definition sched_destory (s : ptr) : M unit :=
  if decide (s = NULL) then mret () else
  v ← rd_sched s;
  task_destory (s_sched_task v);;
  delete_epoll (s_epoll v);;
  w ← get;
  put_scheds (delete s (w_scheds w));;
  upd_links (λ l, Ok (delete (run_list s) l));;
  set_g_sched NULL.

(** The loop until it is left, with [CO_SCHED_STOP] or without. *)
Fixpoint schedule_loop (stop : bool) (turns fuel : nat) (run : ptr → M unit) (prev_task : ptr) : M unit :=
  match turns with
  | O => lift OutOfFuel
  | S turns =>
      prev ← schedule_turn fuel run prev_task;
      done ← (if stop then schedule_stop else mret false);
      if (done : bool) then mret () else schedule_loop stop turns fuel run prev
  end.

Definition schedule (stop : bool) (turns fuel : nat) (run : ptr → M unit) : M unit :=
  schedule_begin;;
  schedule_loop stop turns fuel run NULL;;
  th ← rd_self;
  sched_destory (g_sched th).

Definition sched_task (stop : bool) (turns fuel : nat) (run : ptr → M unit) : M unit :=
  schedule stop turns fuel run.

(** [__cyg_profile_func_enter]: [true] when the running task is preempted; the
    flag is cleared when it is resumed. *)
Definition profile_func_enter : M bool :=
  th ← rd_self;
  if decide (g_sched th = NULL) then mret false else
  if decide (g_current th = NULL) then mret false else
  v ← rd_sched (g_sched th);
  mret (bool_decide (s_in_sched v = 0 ∧ s_force_sched v ≠ 0)).

(** * Round robin *)

Lemma last_or_run_link h ts x : last_or h (run_link <$> ts ++ [x]) = run_link x.
Proof. rewrite fmap_app. apply last_or_snoc. Qed.

Lemma rt_oldest w s R ts x :
  rt w s R (ts ++ [x]) →
  list_prev (w_links w) (run_list s) = Ok (run_link x) ∧
  list_empty (w_links w) (run_link x) = Ok false.
Proof.
  intros Hrt. destruct (rt_links _ _ _ _ Hrt) as [[HR _] _].
  pose proof (HR _ _ (rt_queue _ _ _ _ Hrt)) as Hring. split.
  - rewrite (ring_prev_head _ _ _ Hring). by rewrite last_or_run_link.
  - apply (ring_list_empty_elem _ _ _ _ Hring). rewrite fmap_app. set_solver.
Qed.

Lemma delay_event_wp s w R ts n Q :
  rt w s R ts →
  (∀ es, dom es = dom (w_epolls w) → Q () (with_epolls w es)) → wp (delay_event n) Q w.
Proof.
  intros Hrt HQ. pose proof Hrt as [Hnn (th & Hth & Hths) (sv & Hsv & Hlk & Hne & [e He]) _ _ _].
  unfold delay_event. wp_step. eapply current_sched_ready; [done|congruence|]. rewrite Hths.
  wp_steps. apply HQ. rewrite dom_insert_L. apply elem_of_dom_2 in He. set_solver.
Qed.

(** With a task waiting, one round of [epoll_wait] is enough and the oldest
    task of the queue is chosen. *)
Lemma sched_rq_picknext_wp `{!EventSource s} fuel w R ts x :
  rt w s R (ts ++ [x]) →
  wp (sched_rq_picknext (S fuel)) (λ t w', t = x ∧
    ∃ R' new, rt w' s R' (new ++ ts ++ [x]) ∧ same_ctx w w') w.
Proof.
  intros Hrt. pose proof Hrt as [Hnn (th & Hth & Hths) (sv & Hsv & Hlk & Hne & Hep) _ _ _].
  destruct (rt_oldest _ _ _ _ _ Hrt) as [Hp _].
  unfold sched_rq_picknext, RR_picknext. wp_step.
  eapply current_sched_ready; [done|congruence|]. rewrite Hths. wp_step.
  eapply current_sched_ready; [done|congruence|]. wp_step. eapply wp_rd_links; [done|]. wp_step.
  cbn [picknext_loop]. wp_step. eapply current_sched_ready; [done|congruence|]. rewrite Hths.
  wp_steps. eapply wp_mono; [by eapply event_wait_keeps|]. intros n w1 (R1 & new & Hrt1 & Hctx).
  rewrite app_assoc in Hrt1. destruct (rt_oldest _ _ _ _ _ Hrt1) as [Hp1 He1].
  assert (Hdelay : ∀ k, wp (delay_event k) (λ _,
    wp (ls ← rd_links (λ l, list_prev l (run_list s)); e ← rd_links (λ l, list_empty l ls);
        if (e : bool) then picknext_loop fuel s ls else mret ls)
     (λ ls, wp (lift (list_to_struct LRunLink ls)) (λ t w', t = x ∧
        ∃ R' new, rt w' s R' (new ++ ts ++ [x]) ∧ same_ctx w w'))) w1).
  { intros k. eapply delay_event_wp; [done|]. intros es Hes. wp_step.
    eapply wp_rd_links; [done|]. wp_step. eapply wp_rd_links; [done|]. simpl. wp_step.
    eapply wp_lift; [apply list_to_struct_member|]. split; [done|]. exists R1, new.
    rewrite app_assoc. split; [by eapply rt_frame|done]. }
  wp_step. case_decide; [|wp_step].
  - eapply wp_rd_links; [done|]. simpl. apply wp_bind, Hdelay.
  - simpl. apply wp_bind, Hdelay.
Qed.

Lemma filter_ne_app (x : Z) l1 l2 :
  x ∉ l2 → filter (λ y, y ≠ x) (l1 ++ l2) = filter (λ y, y ≠ x) l1 ++ l2.
Proof. intros Hx. by rewrite filter_app, (filter_ne_id x l2). Qed.

(** The task that just ran: none, or a task that is not among the waiting ones
    [ts] and can be destroyed if it has exited. *)
Definition prev_ok (w : world) (p : ptr) (ts : list Z) : Prop :=
  p = NULL ∨ ∃ v, w_tasks w !! p = Some v ∧ (p ∉ ts) ∧ (t_status v = KILLED → destroyable w p).

Lemma recycle_prev_wp s w R new ts p :
  rt w s R (new ++ ts) → prev_ok w p ts →
  wp (recycle_prev p) (λ _ w', ∃ R' new', rt w' s R' (new' ++ ts) ∧ w_self w' = w_self w) w.
Proof.
  intros Hrt Hp. unfold recycle_prev. case_decide as Hnull; [wp_steps; by exists R, new|].
  destruct Hp as [->|(v & Hv & Hn & Hk)]; [done|]. wp_steps.
  assert (Hdone : wp (mret ()) (λ _ w', ∃ R' new', rt w' s R' (new' ++ ts) ∧ w_self w' = w_self w) w)
    by (wp_steps; by exists R, new).
  destruct (t_status v) eqn:Est; try exact Hdone.
  - eapply sched_rq_enqueue_wp; [done..|]. intros sv l Hsv Hrt' _.
    rewrite filter_ne_app in Hrt' by done. by eexists _, (_ :: _).
  - destruct (Hk eq_refl) as (v' & th & a & Hv' & Hth & Ha & Hsp). simplify_eq.
    eapply task_destory_wp; [done..|]. intros l _ Hrt'. rewrite filter_ne_app in Hrt' by done.
    by eexists _, _.
Qed.

(** What a task may do with the processor: anything that leaves the waiting
    tasks in the queue in their order (it may block, exit, create and wake
    tasks), comes back as the current task, and can be destroyed if it exits. *)
Definition run_ok (s : ptr) (run : ptr → M unit) : Prop :=
  ∀ w R ts t v, rt w s R ts → w_tasks w !! t = Some v → t ∉ ts → t_status v = RUNNABLE →
    g_current <$> w_threads w !! w_self w = Some t →
    wp (run t) (λ _ w', ∃ R' new, rt w' s R' (new ++ ts) ∧
      g_current <$> w_threads w' !! w_self w' = Some t ∧ w_self w' = w_self w ∧
      ∃ v', w_tasks w' !! t = Some v' ∧ (t_status v' = KILLED → destroyable w' t)) w.

Lemma set_in_sched_wp s w R ts b Q :
  rt w s R ts →
  (∀ w', rt w' s R ts → w_self w' = w_self w → w_threads w' = w_threads w → w_tasks w' = w_tasks w →
    (∀ t, destroyable w t → destroyable w' t) → Q () w') →
  wp (set_in_sched b) Q w.
Proof.
  intros Hrt HQ. pose proof Hrt as [_ (th & Hth & Hths) (sv & Hsv & _) _ _ _].
  unfold set_in_sched. wp_steps. rewrite Hths. wp_steps. apply HQ; try done.
  by eapply rt_scheds.
Qed.

Lemma schedule_turn_wp `{!EventSource s} fuel run w R new ts x p :
  run_ok s run → rt w s R (new ++ ts ++ [x]) → prev_ok w p (ts ++ [x]) →
  wp (schedule_turn (S fuel) run p) (λ p' w', p' = x ∧
    ∃ R' new', rt w' s R' (new' ++ ts) ∧ prev_ok w' x ts) w.
Proof.
  intros Hrun Hrt Hp. unfold schedule_turn, schedule_turn_with. wp_step. wp_step.
  eapply wp_mono; [by eapply recycle_prev_wp|]. clear R new Hrt Hp.
  intros [] w1 (R & new & Hrt & Hself1). rewrite app_assoc in Hrt. wp_step.
  eapply wp_mono; [by eapply sched_rq_picknext_wp|].
  intros t w2 (-> & R2 & new2 & Hrt2 & Hctx2). rewrite !app_assoc in Hrt2.
  pose proof (rt_nodup _ _ _ _ Hrt2) as Hnd. apply NoDup_app in Hnd as (_ & Hnd & _).
  assert (Hx : x ∉ new2 ++ new ++ ts) by (rewrite app_assoc; intros ?; by eapply Hnd; [|left]).
  destruct (rt_live _ _ _ _ Hrt2 x) as [v Hv]; [set_solver|].
  destruct (rt_tasks _ _ _ _ _ _ Hrt2 Hv) as (Hxn & _). rewrite decide_False by done.
  wp_step. eapply sched_rq_dequeue_wp; [done..|]. intros sv l Hsv Hrt3 _ _.
  rewrite filter_app, filter_cons_False, app_nil_r, filter_ne_id in Hrt3
    by (by rewrite <-?app_assoc || naive_solver).
  pose proof (rt_self _ _ _ _ Hrt3) as (th & Hth & Hths). unfold set_current. wp_steps.
  eapply set_in_sched_wp; [by eapply rt_threads|]. intros w4 Hrt4 Hself4 Hths4 Htk4 _.
  unfold set_status. wp_step. eapply wp_upd_task; [by rewrite Htk4|]. wp_step.
  eapply wp_mono.
  { eapply Hrun; [eapply rt_task_upd; [done|by rewrite Htk4|done]|..]; simpl.
    - by rewrite lookup_insert_eq.
    - by rewrite <-app_assoc.
    - done.
    - rewrite Hself4, Hths4. simpl in *. by rewrite lookup_insert_eq. }
  intros [] w5 (R5 & new5 & Hrt5 & Hcur5 & Hself5 & v5 & Hv5 & Hk5). wp_step.
  eapply set_in_sched_wp; [done|]. intros w6 Hrt6 Hself6 Hths6 Htk6 Hd6.
  destruct (rt_self _ _ _ _ Hrt6) as (th6 & Hth6 & Hs6). unfold set_current. wp_steps.
  assert (Hcur : g_current th6 = x).
  { rewrite <-Hself6, <-Hths6, Hth6 in Hcur5. by injection Hcur5. }
  split; [done|]. exists R5, (new5 ++ new2 ++ new). split.
  - rewrite <-!app_assoc in Hrt6. rewrite <-!app_assoc. by eapply rt_threads.
  - right. exists v5. simpl. rewrite Htk6. split_and!; [done| |].
    + intros Hin. apply Hx. set_solver.
    + intros Hk. destruct (Hd6 _ (Hk5 Hk)) as (v' & th' & a & ? & Hth' & ? & ?).
      exists v', (Thread NULL (g_sched th6) (g_cids th6) (g_task_alive th6) (g_errno th6) (g_cached_tid th6)), a.
      simpl. rewrite lookup_insert_eq. simplify_eq. done.
Qed.

(** Waiting tasks run in the order they were enqueued. *)
Lemma schedule_turns_wp `{!EventSource s} fuel run w R new ts p :
  run_ok s run → rt w s R (new ++ ts) → prev_ok w p ts →
  wp (schedule_turns (length ts) (S fuel) run p) (λ r w', r.1 = reverse ts ∧
    ∃ R' new', rt w' s R' new') w.
Proof.
  intros Hrun. revert w R new p. induction ts as [|x ts IH] using rev_ind; intros w R new p Hrt Hp.
  - simpl. wp_steps. split; [done|]. rewrite app_nil_r in Hrt. eauto.
  - rewrite length_app, Nat.add_comm. cbn [length Nat.add schedule_turns]. wp_step.
    eapply wp_mono; [by eapply schedule_turn_wp|]. intros p' w1 (-> & R1 & new1 & Hrt1 & Hp1).
    wp_step. eapply wp_mono; [by eapply IH|]. intros r w2 [Hr Hrt2]. wp_steps. simpl.
    rewrite reverse_snoc, Hr. done.
Qed.

(** A task that only yields. *)
Lemma run_yield_ok s : run_ok s (λ _, mret ()).
Proof.
  intros w R ts t v Hrt Hv Hn Hst Hcur. wp_steps. exists R, []. split_and!; [done|done|done|].
  exists v. split; [done|]. intros Hk. congruence.
Qed.



End schedule.

(** * Examples *)

Lemma ex_event_source s : EventSource (K := ex_kernel) s.
Proof. apply quiet_event_source. intros fd n t k. by exists k. Qed.


(** The active task, and the state after its [task_exit]. *)
Definition ex_active : task_t :=
  default (Task NoFunc 0 0 0 None 0 0 0 READY None) (w_tasks ex_started !! 3).
Definition exited (v : task_t) : task_t :=
  Task (t_func v) (t_iparam v) (t_oparam v) (t_stack_size v) (t_specs v) (t_cid v) (t_hook v)
    (t_errnu v) KILLED (t_sched v).
Abbreviation ex_killed :=
  (with_tasks (K := ex_kernel) ex_started (<[3 := exited ex_active]> (w_tasks ex_started))).

Lemma with_tasks_fields {K : Kernel} (w : world) x :
  w_threads (with_tasks w x) !! w_self (with_tasks w x) = w_threads w !! w_self w ∧
  w_tasks (with_tasks w x) = x.
Proof. done. Qed.

Lemma ex_active_task : w_tasks ex_started !! 3 = Some ex_active.
Proof.
  destruct ex_started_rt as [R Hrt]. destruct (rt_live _ _ _ _ Hrt 3) as [v Hv]; [set_solver|].
  unfold ex_active. by rewrite Hv.
Qed.

Lemma ex_active_no_specs : t_specs ex_active = None.
Proof. vm_compute. reflexivity. Qed.

Lemma exited_fields v :
  t_sched (exited v) = t_sched v ∧ t_specs (exited v) = t_specs v ∧ t_status (exited v) = KILLED.
Proof. done. Qed.

