(* ===== verification/Mutex.v ===== *)
(** co_mutex.c: the mutex between coroutines, as functions on the runtime.

    [co_mutex_lock] loops until it owns the lock and may yield in each turn; one
    turn is [lock_turn], whose result says whether the caller owns the lock, has
    yielded (it takes the next turn when it is resumed) or tries again at once.
    MutexProtocol.v lets tasks on several threads interleave inside these
    functions. *)

From Stdlib Require Import ZArith Lia.
From stdpp Require Import base numbers strings sets gmap list.
From S2P Require Import Prelude IntrusiveList Links SpinLock World InnerFd Task Sched Event.
Open Scope Z_scope.

Definition MUTEX_UNLOCKED : Z := 0.

Inductive turn := Acquired | Yielded | Again.

Section mutex.
Context {K : Kernel}.

(** [ATOMIC_READ_OWNER]. *)
Definition rd_owner (m : ptr) : M ptr := v ← rd_mutex m; mret (m_lock v).

Definition set_m_lock (m : ptr) (o : ptr) : M unit := upd_mutex m (λ v, Mutex o (m_wait_lock v)).

(** [__sync_bool_compare_and_swap(&mutex->lock, o, n)]. *)
Definition cas_lock (m o n : ptr) : M bool :=
  v ← rd_mutex m;
  if decide (m_lock v = o) then set_m_lock m n;; mret true else mret false.

Definition ATOMIC_LOCK (m : ptr) : M bool := t ← co_self; cas_lock m MUTEX_UNLOCKED t.
Definition ATOMIC_UNLOCK (m : ptr) : M bool := t ← co_self; cas_lock m t MUTEX_UNLOCKED.

Definition wait_spin_lock (m : ptr) : M unit :=
  v ← rd_mutex m;
  lk ← lift (Raw.spin_lock (m_wait_lock v));
  upd_mutex m (λ v, Mutex (m_lock v) lk).
Definition wait_spin_unlock (m : ptr) : M unit :=
  v ← rd_mutex m;
  lk ← lift (Raw.spin_unlock (m_wait_lock v));
  upd_mutex m (λ v, Mutex (m_lock v) lk).

Definition co_mutex_locked (m : ptr) : M bool := o ← rd_owner m; mret (bool_decide (o ≠ NULL)).

(** co_inner_define.h: [co_sync_yield] up to the switch. *)
Definition co_sync_yield : M unit := t ← co_self; set_status t SYS_BLOCK.

(** [true] when the task is on the wait list and yields. *)
Definition task_wait_mutex (m t : ptr) : M bool :=
  wait_spin_lock m;;
  locked ← co_mutex_locked m;
  if negb (locked : bool) then wait_spin_unlock m;; mret false else
  upd_links (λ l, list_add_before l (mutex_wait m) (run_link t));;
  wait_spin_unlock m;;
  co_sync_yield;;
  mret true.

(** [ls = list_next(head); while(!list_empty(ls)) { t = ...; list_delete(ls); break; }]. *)
Definition take_first (head : laddr) : M ptr :=
  ls ← rd_links (λ l, list_next l head);
  e ← rd_links (λ l, list_empty l ls);
  if (e : bool) then mret NULL else
  t ← lift (list_to_struct LRunLink ls);
  upd_links (λ l, list_delete l ls);;
  mret t.

Definition mutex_wakeup_task (m : ptr) : M unit :=
  wait_spin_lock m;;
  locked ← co_mutex_locked m;
  if (locked : bool) then wait_spin_unlock m else
  t ← take_first (mutex_wait m);
  wait_spin_unlock m;;
  if decide (t = NULL) then mret () else co_resume t.

(** [while(!ATOMIC_LOCK(mutex)) task_wait_mutex(mutex, co_self())], one turn. *)
Definition lock_turn (m : ptr) : M turn :=
  ok ← ATOMIC_LOCK m;
  if (ok : bool) then mret Acquired else
  t ← co_self;
  y ← task_wait_mutex m t;
  mret (if (y : bool) then Yielded else Again).

(** [co_mutex_lock] up to its return or first yield. *)
Definition co_mutex_lock (m : ptr) : M turn :=
  o ← rd_owner m;
  t ← co_self;
  if decide (o = t) then panic "recusive mutex lock" else lock_turn m.

Definition co_mutex_try_lock (m : ptr) : M bool :=
  o ← rd_owner m;
  t ← co_self;
  if decide (o = t) then mret true else ATOMIC_LOCK m.

(** [co_mutex_lock_wait]: [Some 1] at once, or [None] when it sleeps; afterwards
    it only looks whether anybody holds the mutex. *)
Definition co_mutex_lock_wait_begin (m : ptr) : M (option Z) :=
  ok ← co_mutex_try_lock m; mret (if (ok : bool) then Some 1 else None).
Definition co_mutex_lock_wait_end (m : ptr) : M bool := co_mutex_locked m.

Definition co_mutex_unlock (m : ptr) : M unit :=
  o ← rd_owner m;
  t ← co_self;
  if decide (o ≠ t) then panic "mutex is not locked by current task" else
  locked ← co_mutex_locked m;
  if negb (locked : bool) then mret () else
  _ ← ATOMIC_UNLOCK m;
  mutex_wakeup_task m.

(** * Behaviour *)

(** Task [t] runs; mutex [m] has owner [o], its wait lock is free and the tasks
    [ws] wait for it, the longest waiting first. *)
Record mutex_at (w : world) (R : gmap laddr (list laddr)) (t m o : ptr) (ws : list Z) : Prop := {
  ma_current : ∃ th, w_threads w !! w_self w = Some th ∧ g_current th = t;
  ma_mutex : w_mutexes w !! m = Some (Mutex o Raw.SPIN_RELESAED);
  ma_wait : R !! mutex_wait m = Some (run_link <$> ws)
}.

(** The mutex after a step, everything else unchanged. *)
Definition with_mutex (w : world) (m : ptr) (v : co_mutex_t) : world :=
  with_mutexes w (<[m := v]> (w_mutexes w)).

Lemma rt_mutexes w s R ts x : rt w s R ts → rt (with_mutexes w x) s R ts.
Proof. intros Hrt. by eapply rt_frame. Qed.

(** A wait list of tasks: not the run list, not a task link. *)
Definition wait_head (h : laddr) : Prop := lk h ≠ LRunList ∧ lk h ≠ LRunLink.

Lemma mutex_wait_head m : wait_head (mutex_wait m).
Proof. by split. Qed.

Lemma rt_add_wait w s R ts h ws t tv :
  rt w s R ts → wait_head h → R !! h = Some (run_link <$> ws) → w_tasks w !! t = Some tv →
  ¬ in_rings R (run_link t) →
  ∃ l, list_add_before (w_links w) h (run_link t) = Ok l ∧
    rt (with_links w l) s (<[h := run_link <$> ws ++ [t]]> R) ts ∧ dom l = dom (w_links w).
Proof.
  intros Hrt [Hk1 Hk2] Hh Htv Hni. pose proof Hrt as [Hnn Hself Hsch [HR Hhd Htk Hdd] Hq Hlv].
  destruct (Htk _ _ Htv) as (Hn & Hl & _).
  destruct (lrep_add_before _ _ _ _ _ HR Hh Hni Hl) as (l & Ha & HR' & Hdom).
  exists l. split; [done|]. split; [|done].
  replace (<[h:=run_link <$> ws ++ [t]]> R) with (<[h:=(run_link <$> ws) ++ [run_link t]]> R)
    by (by rewrite fmap_app).
  assert (∀ u, h ≠ run_link u) by (by intros u ->). assert (h ≠ run_list s) by (by intros ->).
  split; simpl; try done; [split; simpl|].
  - done.
  - intros u. by rewrite lookup_insert_ne.
  - intros u v Hv. destruct (Htk _ _ Hv) as (? & ? & ?). split_and!; [done| |done].
    apply elem_of_dom. rewrite Hdom. by apply elem_of_dom.
  - intros u Hu (h' & ys & Hy & Hc). apply lookup_insert_Some in Hy as [[<- <-]|[_ Hy]].
    + rewrite elem_of_cons, elem_of_app, list_elem_of_singleton in Hc.
      destruct Hc as [?|[Hc|[= ->]]]; [by eapply H| |congruence].
      apply (Hdd u Hu). exists h, (run_link <$> ws). split; [done|by right].
    + apply (Hdd u Hu). by exists h', ys.
  - by rewrite lookup_insert_ne.
Qed.

Lemma filter_run_cons x ws :
  x ∉ ws → filter (λ y, y ≠ run_link x) (run_link <$> x :: ws) = run_link <$> ws.
Proof.
  intros Hx. rewrite fmap_cons, filter_cons_False by (by intros []). apply filter_ne_id.
  intros (y & [= ->] & Hy)%list_elem_of_fmap. done.
Qed.

(** Taking the first task off a wait list. *)
Lemma take_first_wp w s R ts h x ws tv Q :
  rt w s R ts → wait_head h → R !! h = Some (run_link <$> x :: ws) → w_tasks w !! x = Some tv →
  (∀ l, rt (with_links w l) s (ring_remove (run_link x) R) (filter (λ y, y ≠ x) ts) →
     ring_remove (run_link x) R !! h = Some (run_link <$> ws) →
     ¬ in_rings (ring_remove (run_link x) R) (run_link x) → dom l = dom (w_links w) → Q x (with_links w l)) →
  wp (take_first h) Q w.
Proof.
  intros Hrt [Hk1 Hk2] Hh Htv HQ. pose proof Hrt as [Hnn Hself Hsch [HR Hhd Htk Hdd] Hq Hlv].
  destruct (Htk _ _ Htv) as (Hn & Hl & _). pose proof (proj1 (proj1 HR) _ _ Hh) as Hring.
  destruct (lrep_delete _ _ _ HR (Hhd x) Hl) as (l & Hd & HR' & Hdom & Hni).
  unfold take_first. wp_step. eapply wp_rd_links; [apply (ring_next_head _ _ _ Hring)|]. cbn. wp_step.
  eapply wp_rd_links; [apply (ring_list_empty_elem _ _ _ _ Hring); by left|]. simpl. wp_step.
  eapply wp_lift; [apply list_to_struct_member|]. wp_step. eapply wp_upd_links; [exact Hd|]. wp_step.
  apply HQ; [| |done|done].
  - split; simpl; try done; [split; simpl| |].
    + done.
    + intros u. by rewrite ring_remove_lookup, Hhd.
    + intros u v Hv. destruct (Htk _ _ Hv) as (? & ? & ?). split_and!; [done| |done].
      apply elem_of_dom. rewrite Hdom. by apply elem_of_dom.
    + intros u Hu ?%in_rings_remove. by apply (Hdd u).
    + rewrite ring_remove_lookup, Hq. cbn. by rewrite filter_run_link.
    + intros u [_ Hu]%list_elem_of_filter. by apply Hlv.
  - rewrite ring_remove_lookup, Hh. apply (f_equal Some), filter_run_cons.
    destruct Hring as [[_ [Hx _]%NoDup_cons]%NoDup_cons _]. intros Hin. apply Hx.
    by apply list_elem_of_fmap_2.
Qed.

Lemma take_first_empty_wp w s R ts h Q :
  rt w s R ts → R !! h = Some [] → Q NULL w → wp (take_first h) Q w.
Proof.
  intros Hrt Hh HQ. pose proof (proj1 (proj1 (rt_links _ _ _ _ Hrt)) _ _ Hh) as Hring.
  unfold take_first. wp_step. eapply wp_rd_links; [apply (ring_next_head _ _ _ Hring)|]. cbn. wp_step.
  eapply wp_rd_links; [apply (ring_list_empty _ _ _ Hring)|]. simpl. by wp_step.
Qed.

(** A waiting task is live and not in the run queue. *)
Lemma waiter_live w s R ts h x ws :
  rt w s R ts → wait_head h → R !! h = Some (run_link <$> x :: ws) →
  is_Some (w_tasks w !! x) ∧ x ∉ ts.
Proof.
  intros Hrt [Hk1 Hk2] Hh. pose proof Hrt as [_ _ _ [[HR _] _ _ Hdd] Hq _].
  assert (Hin : in_rings R (run_link x)).
  { exists h, (run_link <$> x :: ws). split; [done|]. set_solver. }
  split.
  - destruct (w_tasks w !! x) as [v|] eqn:E; [by eauto|]. by destruct (Hdd x).
  - intros Hx. apply Hk1. destruct HR as [_ HR].
    rewrite (HR h (run_link <$> x :: ws) (run_list s) (run_link <$> ts) (run_link x)); try done.
    + set_solver.
    + right. by apply list_elem_of_fmap_2.
Qed.

Lemma co_mutex_lock_free_wp w R t m ws Q :
  mutex_at w R t m NULL ws → t ≠ NULL →
  Q Acquired (with_mutex w m (Mutex t Raw.SPIN_RELESAED)) → wp (co_mutex_lock m) Q w.
Proof.
  intros [(th & Hth & Hc) Hm Hws] Htn HQ.
  unfold co_mutex_lock, rd_owner, co_self, lock_turn, ATOMIC_LOCK, cas_lock, set_m_lock, co_self.
  wp_steps. cbn. rewrite decide_False by congruence. wp_steps. rewrite decide_True by done.
  wp_steps. cbn. by rewrite Hc.
Qed.

Lemma mutex_at_owner w R t m o o' ws :
  mutex_at w R t m o ws → mutex_at (with_mutex w m (Mutex o' Raw.SPIN_RELESAED)) R t m o' ws.
Proof. intros [Hc Hm Hws]. split; cbn; [done|by rewrite lookup_insert_eq|done]. Qed.

Lemma co_mutex_lock_panics w R t m ws :
  mutex_at w R t m t ws → co_mutex_lock m w = Panic "recusive mutex lock".
Proof.
  intros [(th & Hth & Hc) Hm _].
  unfold co_mutex_lock, rd_owner, co_self, rd_mutex, rd_self, mbind, M_bind, lift. cbn.
  rewrite Hm. cbn. rewrite Hth. cbn. by rewrite Hc, decide_True.
Qed.

(** Taking the mutex: a free mutex is taken at once; with the mutex held
    by another task the caller goes to the end of the wait list, blocked; a
    second lock by the owner is the panic. *)
Theorem co_mutex_lock_cases w s R ts t m o ws tv :
  rt w s R ts → mutex_at w R t m o ws → w_tasks w !! t = Some tv → ¬ in_rings R (run_link t) →
  (o = NULL → ∃ w', co_mutex_lock m w = Ok (Acquired, w') ∧ rt w' s R ts ∧ mutex_at w' R t m t ws) ∧
  (o ≠ NULL → o ≠ t → ∃ w' R' tv', co_mutex_lock m w = Ok (Yielded, w') ∧ rt w' s R' ts ∧
     mutex_at w' R' t m o (ws ++ [t]) ∧ w_tasks w' !! t = Some tv' ∧ t_status tv' = SYS_BLOCK) ∧
  (o = t → co_mutex_lock m w = Panic "recusive mutex lock").
Proof.
  intros Hrt [(th & Hth & Hc) Hm Hws] Htv Hni.
  destruct (rt_tasks _ _ _ _ _ _ Hrt Htv) as (Htn & _).
  split_and!.
  - intros ->.
    assert (Hwp : wp (co_mutex_lock m) (λ r w', r = Acquired ∧ rt w' s R ts ∧ mutex_at w' R t m t ws) w).
    { eapply co_mutex_lock_free_wp; [split; by eauto|done|]. split; [done|]. split; [by apply rt_mutexes|].
      eapply mutex_at_owner. split; by eauto. }
    destruct Hwp as (r & w' & Hr & -> & ?). eauto.
  - intros Ho Hot.
    destruct (rt_add_wait w s R ts (mutex_wait m) ws t tv) as (l & Ha & Hrt' & _); [done|done|done|done|done|].
    assert (Hwp : wp (co_mutex_lock m) (λ r w', r = Yielded ∧ ∃ R' tv', rt w' s R' ts ∧
      mutex_at w' R' t m o (ws ++ [t]) ∧ w_tasks w' !! t = Some tv' ∧ t_status tv' = SYS_BLOCK) w).
    { unfold co_mutex_lock, rd_owner, lock_turn, ATOMIC_LOCK, cas_lock, set_m_lock, task_wait_mutex,
        wait_spin_lock, wait_spin_unlock, co_mutex_locked, rd_owner, co_sync_yield, set_status, co_self.
      wp_steps. cbn. rewrite Hc. rewrite decide_False by congruence. wp_steps. cbn.
      rewrite decide_False by done. wp_steps. cbn. rewrite bool_decide_eq_true_2 by done. cbn. wp_steps.
      rewrite Hc. eapply wp_upd_links; [exact Ha|]. wp_steps. rewrite Hc. wp_steps. cbn. wp_steps.
      split; [done|]. eexists _, _. split_and!.
      - eapply (rt_frame (with_tasks (with_links w l) (<[t := _]> (w_tasks w)))); [|reflexivity..].
        eapply (rt_task_upd (with_links w l)); [exact Hrt'|exact Htv|reflexivity].
      - split; cbn; [by eauto| |by rewrite lookup_insert_eq].
        by rewrite !insert_insert_eq, lookup_insert_eq.
      - cbn. by rewrite lookup_insert_eq.
      - done. }
    destruct Hwp as (r & w' & Hr & -> & R' & tv' & ?). eauto 10.
  - intros ->. eapply co_mutex_lock_panics. split; by eauto.
Qed.

(** The lists after the first of [ws] has been woken. *)
Definition woken_rings (s : ptr) (ts ws : list Z) (R : gmap laddr (list laddr))
    : gmap laddr (list laddr) :=
  match ws with
  | [] => R
  | x :: _ => enqueue_rings s x (filter (λ y, y ≠ x) ts) (ring_remove (run_link x) R)
  end.

Lemma co_mutex_unlock_wp w s R ts t m ws Q :
  rt w s R ts → mutex_at w R t m t ws → t ≠ NULL →
  (∀ w', rt w' s (woken_rings s ts ws R) (take 1 ws ++ ts) →
     mutex_at w' (woken_rings s ts ws R) t m NULL (drop 1 ws) →
     same_ctx w w' → w_mutexes w' = <[m := Mutex NULL Raw.SPIN_RELESAED]> (w_mutexes w) →
     w_objs w' = w_objs w →
     (∀ u, u ∉ take 1 ws → w_tasks w' !! u = w_tasks w !! u) →
     (∀ u, u ∈ take 1 ws → ∃ v, w_tasks w' !! u = Some v ∧ t_status v = RUNNABLE) →
     wake_frame w w' → Q () w') →
  wp (co_mutex_unlock m) Q w.
Proof.
  intros Hrt [(th & Hth & Hc) Hm Hws] Htn HQ.
  unfold co_mutex_unlock, mutex_wakeup_task, ATOMIC_UNLOCK, cas_lock, set_m_lock, wait_spin_lock,
    wait_spin_unlock, co_mutex_locked, rd_owner, co_self.
  wp_steps. rewrite Hc. cbn. rewrite decide_False by (intros E; by apply E). wp_steps. cbn.
  rewrite bool_decide_eq_true_2 by done. cbn. wp_steps. rewrite Hc. cbn.
  rewrite decide_True by done. wp_steps. cbn. wp_steps. cbn.
  rewrite bool_decide_eq_false_2 by (intros E; by apply E). wp_step. cbn.
  set (w1 := with_mutexes _ _).
  assert (Hrt1 : rt w1 s R ts) by (by eapply rt_frame).
  destruct ws as [|x ws].
  - eapply take_first_empty_wp; [exact Hrt1|exact Hws|]. wp_steps. rewrite decide_True by done.
    wp_steps. apply HQ; try done; cbn.
    + by eapply rt_frame.
    + split; cbn; [by eauto|by rewrite lookup_insert_eq|exact Hws].
    + by rewrite !insert_insert_eq.
    + intros u []%not_elem_of_nil.
    + by apply wake_frame_same.
  - destruct (waiter_live _ _ _ _ _ _ _ Hrt1 (mutex_wait_head m) Hws) as [[tv Htv] Hxts].
    eapply (take_first_wp w1 s R ts _ x ws); [exact Hrt1|apply mutex_wait_head|exact Hws|exact Htv|].
    intros l Hrt2 Hws2 Hni2 Hdl. rewrite filter_ne_id in Hrt2 by done. wp_steps. cbn.
    destruct (rt_tasks _ _ _ _ _ _ Hrt1 Htv) as (Hxn & _). rewrite decide_False by done.
    eapply (sched_rq_enqueue_wp _ s (ring_remove (run_link x) R) ts); [|exact Htv|].
    { eapply (rt_frame (with_links w1 l)); [exact Hrt2|reflexivity..]. }
    intros sv l3 Hsv Hrt3 Hdl3. rewrite filter_ne_id in Hrt3 by done.
    apply HQ; cbn [woken_rings take drop app]; rewrite ?(filter_ne_id x ts) by done.
    + exact Hrt3.
    + split; [cbn; by eauto|cbn; by rewrite lookup_insert_eq|].
      rewrite enqueue_rings_other, Hws2 by done. apply (f_equal Some).
      rewrite (filter_run_link x ws), filter_ne_id; [done|]. intros Hx. destruct Hni2 as []. exists (mutex_wait m), (run_link <$> ws).
      split; [done|]. right. by apply list_elem_of_fmap_2.
    + split_and!; [done|done|]. intros u Hu. cbn. rewrite lookup_insert. case_decide; [by eauto|done].
    + cbn. by rewrite !insert_insert_eq.
    + done.
    + intros u Hu. cbn. rewrite lookup_insert_ne; [done|]. set_solver.
    + intros u ->%list_elem_of_singleton. cbn. rewrite lookup_insert_eq. by eauto.
    + etrans; [|by apply wake_frame_enqueued]. by apply wake_frame_same.
Qed.

Lemma co_mutex_unlock_panics w R t m o ws :
  mutex_at w R t m o ws → o ≠ t → co_mutex_unlock m w = Panic "mutex is not locked by current task".
Proof.
  intros [(th & Hth & Hc) Hm _] Ho.
  unfold co_mutex_unlock, rd_owner, co_self, rd_mutex, rd_self, mbind, M_bind, lift. cbn.
  rewrite Hm. cbn. rewrite Hth. cbn. by rewrite Hc, decide_True.
Qed.

(** Releasing the mutex: it becomes free and the task that has waited
    longest, if any, leaves the wait list, becomes runnable and the newest of
    the run queue; nobody else moves.  A release by a task that does not own
    the mutex is the panic. *)
Theorem co_mutex_unlock_wakes_first w s R ts t m o ws :
  rt w s R ts → mutex_at w R t m o ws → t ≠ NULL →
  (o = t → ∃ w' R', co_mutex_unlock m w = Ok ((), w') ∧ rt w' s R' (take 1 ws ++ ts) ∧
     mutex_at w' R' t m NULL (drop 1 ws) ∧
     (∀ u, u ∈ take 1 ws → ∃ v, w_tasks w' !! u = Some v ∧ t_status v = RUNNABLE) ∧
     (∀ u, u ∉ take 1 ws → w_tasks w' !! u = w_tasks w !! u)) ∧
  (o ≠ t → co_mutex_unlock m w = Panic "mutex is not locked by current task").
Proof.
  intros Hrt Hma Htn. split.
  - intros ->.
    assert (Hwp : wp (co_mutex_unlock m) (λ _ w', ∃ R', rt w' s R' (take 1 ws ++ ts) ∧
      mutex_at w' R' t m NULL (drop 1 ws) ∧
      (∀ u, u ∈ take 1 ws → ∃ v, w_tasks w' !! u = Some v ∧ t_status v = RUNNABLE) ∧
      (∀ u, u ∉ take 1 ws → w_tasks w' !! u = w_tasks w !! u)) w).
    { eapply co_mutex_unlock_wp; [done..|]. intros w' ????????. by eexists. }
    destruct Hwp as ([] & w' & ? & R' & ?). by exists w', R'.
  - intros Ho. by eapply co_mutex_unlock_panics.
Qed.

End mutex.

(** * Examples *)

(** A small runtime for the synchronisation objects: scheduler 1, task 2
    running, tasks 3 and 4 blocked; mutex 5 with owner [o], condition 6,
    semaphore 7 with count [n]. *)
Definition ex_sync (l : lmem) (o n : Z) : world (K := ex_kernel) :=
  World (K := ex_kernel) 1 l
    {[2 := Task (UserFunc 9) 0 0 0 None 0 1 0 RUNNABLE (Some 1);
      3 := Task (UserFunc 9) 0 0 0 None 0 1 1 SYS_BLOCK (Some 1);
      4 := Task (UserFunc 9) 0 0 0 None 0 1 2 SYS_BLOCK (Some 1)]}
    {[1 := Sched 1 0 5 1 0 0 7 (-1) (-1)]} {[1 := Epoll 1024 0 3 1 None]}
    ∅ ∅ {[1 := Thread 2 1 None 1 0 7]}
    {[5 := Mutex o Raw.SPIN_RELESAED]} {[7 := Sem n Raw.SPIN_RELESAED]} no_objects 8 (9 : kstate (Kernel := ex_kernel)).

Definition ex_heads : list laddr := [run_list 1; mutex_wait 5; LAddr LCondWait 6; LAddr LSemWait 7].
Definition ex_sync_links : lmem :=
  foldr (λ h m, list_init m h) ∅ (ex_heads ++ (run_link <$> [2; 3; 4])).
Definition ex_sync_rings : gmap laddr (list laddr) := foldr (λ h R, <[h := []]> R) ∅ ex_heads.

Lemma ex_sync_links_lone e : e ∈ dom ex_sync_links → ring ex_sync_links e [].
Proof.
  intros He. apply ring_nil. revert He. unfold ex_sync_links.
  induction (ex_heads ++ _) as [|h hs IH]; cbn [foldr]; [set_solver|]. unfold list_init at 1.
  rewrite dom_insert_L. intros [->%elem_of_singleton|He]%elem_of_union.
  - apply lookup_insert_eq.
  - destruct (decide (e = h)) as [->|Hne]; [apply lookup_insert_eq|].
    unfold list_init. rewrite lookup_insert_ne by done. by apply IH.
Qed.

Lemma ex_sync_rings_lookup h xs : ex_sync_rings !! h = Some xs → h ∈ ex_heads ∧ xs = [].
Proof.
  unfold ex_sync_rings. induction ex_heads as [|h' hs IH]; simpl; [done|].
  rewrite lookup_insert_Some. intros [[<- <-]|[_ [? ?]%IH]]; set_solver.
Qed.

Lemma ex_sync_in e : in_rings ex_sync_rings e → e ∈ ex_heads.
Proof. intros (h & xs & [Hh ->]%ex_sync_rings_lookup & ->%list_elem_of_singleton). done. Qed.

Lemma ex_sync_lrep : lrep ex_sync_links ex_sync_rings.
Proof.
  split; [split|].
  - intros h xs [Hh ->]%ex_sync_rings_lookup. apply ex_sync_links_lone.
    revert h Hh. apply (proj1 (Forall_forall _ _)). repeat constructor; by vm_compute.
  - intros h1 xs1 h2 xs2 c [_ ->]%ex_sync_rings_lookup [_ ->]%ex_sync_rings_lookup.
    by intros ->%list_elem_of_singleton ->%list_elem_of_singleton.
  - intros e He _. by apply ex_sync_links_lone.
Qed.

Lemma ex_heads_no_task t : run_link t ∉ ex_heads.
Proof. unfold ex_heads. intros H. rewrite !elem_of_cons in H. destruct_or! H; try done. by apply elem_of_nil in H. Qed.

Lemma ex_sync_rt o n : rt (ex_sync ex_sync_links o n) 1 ex_sync_rings [].
Proof.
  split; [done|by eexists| | |reflexivity|intros t Ht; by apply not_elem_of_nil in Ht].
  - eexists. split_and!; [done|done|done|by eexists].
  - split; cbn [ex_sync w_links w_tasks w_self].
    + apply ex_sync_lrep.
    + intros t. destruct (ex_sync_rings !! _) eqn:E; [|done].
      by apply ex_sync_rings_lookup in E as [[]%ex_heads_no_task _].
    + apply map_Forall_lookup. repeat apply map_Forall_insert_2; [..|apply map_Forall_empty];
        (split_and!; [done|by eexists|by right]).
    + intros t _ []%ex_sync_in%ex_heads_no_task.
Qed.

(** Tasks 3 and 4 wait at [h]. *)
Definition ex_waiting (h : laddr) : lmem :=
  match list_add_before ex_sync_links h (run_link 3) with
  | Ok l => match list_add_before l h (run_link 4) with Ok l => l | _ => ∅ end
  | _ => ∅
  end.
Definition ex_waiting_rings (h : laddr) : gmap laddr (list laddr) :=
  <[h := run_link <$> [3; 4]]> ex_sync_rings.

Lemma ex_waiting_in h e : in_rings (ex_waiting_rings h) e → e = h ∨ e ∈ run_link <$> [3; 4] ∨ e ∈ ex_heads.
Proof.
  unfold ex_waiting_rings. intros (h' & xs & [[<- <-]|[_ Hx]]%lookup_insert_Some & Hc).
  - apply elem_of_cons in Hc as [?|?]; auto.
  - right. right. apply ex_sync_in. by exists h', xs.
Qed.

Lemma ex_waiting_rt h o n :
  wait_head h → ex_sync_rings !! h = Some [] → rt (ex_sync (ex_waiting h) o n) 1 (ex_waiting_rings h) [].
Proof.
  intros Hw Hh.
  destruct (rt_add_wait _ 1 ex_sync_rings [] h [] 3 (Task (UserFunc 9) 0 0 0 None 0 1 1 SYS_BLOCK (Some 1))
    (ex_sync_rt o n) Hw Hh) as (l & Ha & Hrt & _); [reflexivity|by intros []%ex_sync_in%ex_heads_no_task|].
  destruct (rt_add_wait _ 1 _ [] h [3] 4 (Task (UserFunc 9) 0 0 0 None 0 1 2 SYS_BLOCK (Some 1)) Hrt Hw)
    as (l2 & Ha2 & Hrt2 & _); [by rewrite lookup_insert_eq|reflexivity| |].
  - intros (h' & xs & [[<- <-]|[_ Hx]]%lookup_insert_Some & Hc).
    + destruct Hw as [_ Hw]. apply elem_of_cons in Hc as [<-|Hc%list_elem_of_singleton]; [by apply Hw|done].
    + eapply (ex_heads_no_task 4), ex_sync_in. by exists h', xs.
  - unfold ex_waiting. change (list_add_before ex_sync_links h (run_link 3) = Ok l) in Ha. rewrite Ha.
    change (list_add_before l h (run_link 4) = Ok l2) in Ha2. rewrite Ha2.
    unfold ex_waiting_rings. rewrite insert_insert_eq in Hrt2. exact Hrt2.
Qed.

Lemma ex_waiting_ready h : lk h ≠ LRunLink → ¬ in_rings (ex_waiting_rings h) (run_link 2).
Proof.
  intros Hk [Hh|[Hin|Hin]]%ex_waiting_in; [by rewrite <-Hh in Hk| |by apply ex_heads_no_task in Hin].
  rewrite !fmap_cons, !elem_of_cons in Hin. destruct_or! Hin; try done. by apply elem_of_nil in Hin.
Qed.

Definition ex_task2 : task_t := Task (UserFunc 9) 0 0 0 None 0 1 0 RUNNABLE (Some 1).

Lemma ex_mutex_at o n :
  mutex_at (ex_sync (ex_waiting (mutex_wait 5)) o n) (ex_waiting_rings (mutex_wait 5)) 2 5 o [3; 4].
Proof. split; [by eexists|reflexivity|]. unfold ex_waiting_rings. by rewrite lookup_insert_eq. Qed.

Lemma co_mutex_lock_cases_witness :
  ∃ w' R' tv', co_mutex_lock 5 (ex_sync (ex_waiting (mutex_wait 5)) 9 0) = Ok (Yielded, w') ∧
    rt w' 1 R' [] ∧ mutex_at w' R' 2 5 9 [3; 4; 2] ∧
    w_tasks w' !! 2 = Some tv' ∧ t_status tv' = SYS_BLOCK.
Proof.
  apply (co_mutex_lock_cases (ex_sync (ex_waiting (mutex_wait 5)) 9 0) 1 (ex_waiting_rings (mutex_wait 5))
    [] 2 5 9 [3; 4] ex_task2);
    [by apply ex_waiting_rt|apply ex_mutex_at|reflexivity|by apply ex_waiting_ready|done|done].
Defined.

Lemma co_mutex_unlock_wakes_first_witness :
  ∃ w' R', co_mutex_unlock 5 (ex_sync (ex_waiting (mutex_wait 5)) 2 0) = Ok ((), w') ∧
    rt w' 1 R' [3] ∧ mutex_at w' R' 2 5 NULL [4] ∧
    (∀ u, u ∈ [3] → ∃ v, w_tasks w' !! u = Some v ∧ t_status v = RUNNABLE) ∧
    (∀ u, u ∉ [3] → w_tasks w' !! u = w_tasks (ex_sync (ex_waiting (mutex_wait 5)) 2 0) !! u).
Proof.
  apply (co_mutex_unlock_wakes_first (ex_sync (ex_waiting (mutex_wait 5)) 2 0) 1
    (ex_waiting_rings (mutex_wait 5)) [] 2 5 2 [3; 4]);
    [by apply ex_waiting_rt|apply ex_mutex_at|done|done].
Defined.
