(* ===== verification/MutexProtocol.v ===== *)
(** co_mutex.c between threads: tasks of several threads run the functions of
    Mutex.v at the same time, one shared access at a time.

    [exec] is one such access by task [t]: a read or compare-and-swap of [lock],
    a move of the spin lock [wait_lock], an update of the wait list, the entry
    of a task into a run queue.  [wl] is the holder of [wait_lock], whose mutual
    exclusion SpinLock.v proves; [ready] holds the tasks that are in the run
    queue of their thread.  A task that has put itself on the wait list may be
    taken off and made ready before it has yielded: then its thread finds it in
    the run queue right after the yield. *)

From Stdlib Require Import ZArith Lia.
From stdpp Require Import base functions numbers sets gmap list.
From S2P Require Import Prelude.
Open Scope Z_scope.

(** Where a task is.  [Outside]: in none of the functions, without the mutex.
    [LCas] .. [Blocked]: in [co_mutex_lock], at the compare-and-swap; waiting for
    [wait_lock] in [task_wait_mutex]; at the second look at the mutex; at the
    release of [wait_lock] after finding it free; at [list_add_before]; at the
    release of [wait_lock]; at the yield; in it.  [Crit]: owner of the mutex.
    [UCas] .. [UResume]: in [co_mutex_unlock], at the compare-and-swap; waiting
    for [wait_lock] in [mutex_wakeup_task]; at its look at the mutex; at the
    early return; at the search of the wait list; at the release of [wait_lock]
    with the task found; at [co_resume]. *)
Inductive pc :=
| Outside | LCas | LSpin | LCheck | LRetry | LAdd | LUnlock | LYield | Blocked
| Crit | UCas | USpin | UCheck | URet | UPop | UUnlock (found : option Z) | UResume (x : Z)
| Panicked.

Record state := State {
  owner : option Z;     (* mutex->lock *)
  wl : option Z;        (* mutex->wait_lock *)
  waiters : list Z;     (* mutex->wait_list *)
  ready : gset Z;       (* tasks in a run queue *)
  pcs : Z → pc
}.

(** What a task does next when it has a choice: which function it calls. *)
Inductive call := Lock | TryLock.

Definition goto (s : state) (t : Z) (p : pc) : state :=
  State (owner s) (wl s) (waiters s) (ready s) (<[t := p]> (pcs s)).
Definition set_owner (s : state) (o : option Z) : state := State o (wl s) (waiters s) (ready s) (pcs s).
Definition set_wl (s : state) (o : option Z) : state := State (owner s) o (waiters s) (ready s) (pcs s).
Definition set_waiters (s : state) (l : list Z) : state := State (owner s) (wl s) l (ready s) (pcs s).
Definition set_ready (s : state) (r : gset Z) : state := State (owner s) (wl s) (waiters s) r (pcs s).

(** The next access of task [t]; [None] when it waits. *)
Definition exec (c : call) (t : Z) (s : state) : option state :=
  match pcs s t with
  | Outside =>
      match c with
      | Lock => Some (goto s t (if decide (owner s = Some t) then Panicked else LCas))
      | TryLock =>
          Some match owner s with
               | None => goto (set_owner s (Some t)) t Crit
               | Some o => goto s t (if decide (o = t) then Crit else Outside)
               end
      end
  | LCas => Some (match owner s with
                  | None => goto (set_owner s (Some t)) t Crit
                  | Some _ => goto s t LSpin
                  end)
  | LSpin => match wl s with None => Some (goto (set_wl s (Some t)) t LCheck) | Some _ => None end
  | LCheck => Some (goto s t (match owner s with None => LRetry | Some _ => LAdd end))
  | LRetry => Some (goto (set_wl s None) t LCas)
  | LAdd => Some (goto (set_waiters s (waiters s ++ [t])) t LUnlock)
  | LUnlock => Some (goto (set_wl s None) t LYield)
  | LYield => Some (goto s t Blocked)
  | Blocked => if decide (t ∈ ready s) then Some (goto (set_ready s (ready s ∖ {[t]})) t LCas) else None
  | Crit => Some (goto s t (if decide (owner s = Some t) then UCas else Panicked))
  | UCas => Some (if decide (owner s = Some t) then goto (set_owner s None) t USpin else goto s t USpin)
  | USpin => match wl s with None => Some (goto (set_wl s (Some t)) t UCheck) | Some _ => None end
  | UCheck => Some (goto s t (match owner s with None => UPop | Some _ => URet end))
  | URet => Some (goto (set_wl s None) t Outside)
  | UPop => Some (match waiters s with
                  | [] => goto s t (UUnlock None)
                  | x :: l => goto (set_waiters s l) t (UUnlock (Some x))
                  end)
  | UUnlock found => Some (goto (set_wl s None) t (match found with None => Outside | Some x => UResume x end))
  | UResume x => Some (goto (set_ready s (ready s ∪ {[x]})) t Outside)
  | Panicked => None
  end.

Inductive reach : state → Prop :=
| reach_init : reach (State None None [] ∅ (λ _, Outside))
| reach_step s c t s' : reach s → exec c t s = Some s' → reach s'.

(** * Invariants *)

(** Between taking the mutex and giving it back. *)
Definition has_mutex (p : pc) : bool := match p with Crit | UCas => true | _ => false end.

(** Between [spin_lock] and [spin_unlock] of [wait_lock]. *)
Definition has_wl (p : pc) : bool :=
  match p with LCheck | LRetry | LAdd | LUnlock | UCheck | URet | UPop | UUnlock _ => true | _ => false end.

(** On its way to or in the yield. *)
Definition waits (p : pc) : bool := match p with LUnlock | LYield | Blocked => true | _ => false end.

(** The task that a waker has taken off the list and not yet made ready. *)
Definition carries (p : pc) : option Z :=
  match p with UUnlock (Some x) | UResume x => Some x | _ => None end.

(** Will try to take the mutex, or will wake somebody who does. *)
Definition active (s : state) (t : Z) : Prop :=
  match pcs s t with
  | LCas | LSpin | LCheck | LRetry | USpin | UCheck | UPop | UUnlock (Some _) | UResume _ => True
  | _ => t ∈ ready s
  end.

(** Every waiting task is in exactly one of three places: on the list, carried
    by a waker, ready. *)
Record inv (s : state) : Prop := {
  inv_owner : ∀ t, has_mutex (pcs s t) = true ↔ owner s = Some t;
  inv_wl : ∀ t, has_wl (pcs s t) = true ↔ wl s = Some t;
  inv_panic : ∀ t, pcs s t ≠ Panicked;
  inv_list : ∀ t, t ∈ waiters s → waits (pcs s t) = true ∧ (t ∉ ready s) ∧ (∀ u, carries (pcs s u) ≠ Some t);
  inv_nodup : NoDup (waiters s);
  inv_ready : ∀ t, t ∈ ready s → waits (pcs s t) = true;
  inv_carried : ∀ u t, carries (pcs s u) = Some t → waits (pcs s t) = true ∧ (t ∉ ready s);
  inv_carrier : ∀ u v t, carries (pcs s u) = Some t → carries (pcs s v) = Some t → u = v;
  inv_place : ∀ t, waits (pcs s t) = true →
    t ∈ waiters s ∨ t ∈ ready s ∨ ∃ u, carries (pcs s u) = Some t;
  inv_wake : owner s = None → (waiters s ≠ [] ∨ ∃ t, pcs s t = LAdd) → ∃ u, active s u
}.

Lemma goto_pc s t p u : pcs (goto s t p) u = if decide (u = t) then p else pcs s u.
Proof.
  cbn. case_decide as Hu; [subst; apply fn_lookup_insert|]. by apply fn_lookup_insert_ne.
Qed.

(** Case analysis on the access; [Hpc] says where the task was. *)
Ltac exec_cases H :=
  unfold exec in H;
  match type of H with context [pcs ?s ?t] => destruct (pcs s t) eqn:Hpc end;
  repeat case_match; simplify_eq; try done.

Ltac pc_cases :=
  repeat match goal with
  | |- context [pcs (goto ?s ?t ?p) ?u] => rewrite (goto_pc s t p u); destruct (decide (u = t)); [subst|]
  | H : context [pcs (goto ?s ?t ?p) ?u] |- _ =>
      rewrite (goto_pc s t p u) in H; destruct (decide (u = t)); [subst|]
  end; 
  repeat match goal with
  | H : pcs ?s ?t = _ |- context [pcs ?s ?t] => rewrite H
  | H : pcs ?s ?t = _, H2 : context [pcs ?s ?t] |- _ => assert_fails (constr_eq H H2); rewrite H in H2
  end; cbn [set_owner set_wl set_waiters set_ready goto owner wl waiters ready pcs] in *.

Lemma inv_owner_step s c t s' :
  inv s → exec c t s = Some s' → ∀ u, has_mutex (pcs s' u) = true ↔ owner s' = Some u.
Proof.
  intros [Ho _ _ _ _ _ _ _ _ _] Hs u. pose proof (Ho t) as Ht. pose proof (Ho u) as Hu.
  exec_cases Hs; pc_cases; simplify_eq/=; try tauto; try congruence.
  all: naive_solver.
Qed.

Lemma inv_wl_step s c t s' :
  inv s → exec c t s = Some s' → ∀ u, has_wl (pcs s' u) = true ↔ wl s' = Some u.
Proof.
  intros [_ Ho _ _ _ _ _ _ _ _] Hs u. pose proof (Ho t) as Ht. pose proof (Ho u) as Hu.
  exec_cases Hs; pc_cases; simplify_eq/=; try tauto; try congruence.
  all: naive_solver.
Qed.

Lemma inv_panic_step s c t s' : inv s → exec c t s = Some s' → ∀ u, pcs s' u ≠ Panicked.
Proof.
  intros [Ho _ Hp _ _ _ _ _ _ _] Hs u. pose proof (Ho t) as Ht. pose proof (Hp u) as Hu.
  exec_cases Hs; pc_cases; simplify_eq/=; try done; naive_solver.
Qed.

(** Who waits changes only at [list_add_before] and at the end of the yield. *)
Lemma waits_step s c t s' u :
  exec c t s = Some s' → waits (pcs s' u) = true ↔
    (waits (pcs s u) = true ∧ ¬ (u = t ∧ pcs s t = Blocked)) ∨ (u = t ∧ pcs s t = LAdd).
Proof.
  intros Hs. exec_cases Hs; pc_cases; simplify_eq/=; naive_solver.
Qed.

(** A task is carried from [UPop] to [UResume]. *)
Lemma carries_step s c t s' u x :
  exec c t s = Some s' → carries (pcs s' u) = Some x ↔
    (carries (pcs s u) = Some x ∧ ¬ (u = t ∧ pcs s t = UResume x)) ∨
    (u = t ∧ pcs s t = UPop ∧ head (waiters s) = Some x).
Proof.
  intros Hs. exec_cases Hs; pc_cases; simplify_eq/=; naive_solver.
Qed.

Lemma ready_step s c t s' x :
  exec c t s = Some s' → x ∈ ready s' ↔
    (x ∈ ready s ∧ ¬ (x = t ∧ pcs s t = Blocked)) ∨ pcs s t = UResume x.
Proof.
  intros Hs. exec_cases Hs; cbn; set_solver.
Qed.

Lemma blocked_ready s c t s' : exec c t s = Some s' → pcs s t = Blocked → t ∈ ready s.
Proof. intros Hs Hp. unfold exec in Hs. rewrite Hp in Hs. by case_decide. Qed.

Lemma waiters_step s c t s' :
  exec c t s = Some s' → waiters s' =
    match pcs s t with LAdd => waiters s ++ [t] | UPop => tail (waiters s) | _ => waiters s end.
Proof. intros Hs. exec_cases Hs; cbn; congruence. Qed.

(** The tasks on the list after an access: those before, less the one taken
    off, plus the one that adds itself. *)
Lemma waiters_elem s c t s' x :
  NoDup (waiters s) → exec c t s = Some s' → x ∈ waiters s' ↔
    (x ∈ waiters s ∧ ¬ (pcs s t = UPop ∧ head (waiters s) = Some x)) ∨ (x = t ∧ pcs s t = LAdd).
Proof.
  intros Hnd Hs. rewrite (waiters_step _ _ _ _ Hs). destruct (pcs s t); try (by naive_solver).
  - rewrite elem_of_app, list_elem_of_singleton. naive_solver.
  - destruct (waiters s) as [|y l]; cbn; [naive_solver|]. apply NoDup_cons in Hnd as [Hy _].
    rewrite elem_of_cons. naive_solver.
Qed.

Section step.
Context (s : state) (c : call) (t : Z) (s' : state) (Hinv : inv s) (Hs : exec c t s = Some s').

Lemma inv_nodup_step : NoDup (waiters s').
Proof using Hinv Hs.
  pose proof (inv_nodup s Hinv) as Hnd. rewrite (waiters_step _ _ _ _ Hs).
  destruct (pcs s t) eqn:Hp; try done.
  - apply NoDup_app. split_and!; [done| |apply NoDup_singleton].
    intros x Hx ->%list_elem_of_singleton. apply (inv_list s Hinv) in Hx as [Hw _]. by rewrite Hp in Hw.
  - by destruct (waiters s); [|apply NoDup_cons in Hnd as [_ ?]].
Qed.

Lemma inv_list_step x :
  x ∈ waiters s' → waits (pcs s' x) = true ∧ (x ∉ ready s') ∧ (∀ u, carries (pcs s' u) ≠ Some x).
Proof using Hinv Hs.
  rewrite (waiters_elem s c t s' x (inv_nodup s Hinv) Hs), (waits_step _ _ _ _ x Hs), (ready_step _ _ _ _ x Hs).
  setoid_rewrite (carries_step s c t s' _ _ Hs).
  pose proof (inv_list s Hinv x) as Hl. pose proof (inv_ready s Hinv x) as Hr.
  pose proof (λ u, inv_carried s Hinv u x) as Hc.
  intros [[Hx Hnp]|[-> Hp]].
  - destruct (Hl Hx) as (Hw & Hnr & Hnc). split_and!.
    + left. split; [done|]. intros [-> Hb]. by apply Hnr, (blocked_ready s c t s').
    + intros [[? _]|Hre]; [done|]. apply (Hnc t). by rewrite Hre.
    + intros u [[? _]|(-> & ? & ?)]; [by eapply Hnc|naive_solver].
  - rewrite Hp in *. split_and!; [by right|naive_solver|].
    intros u [[Hu _]|(_ & ? & _)]; [|done]. destruct (Hc u Hu). done.
Qed.

Lemma inv_ready_step x : x ∈ ready s' → waits (pcs s' x) = true.
Proof using Hinv Hs.
  rewrite (waits_step _ _ _ _ x Hs), (ready_step _ _ _ _ x Hs).
  intros [[Hx Hnb]|Hp].
  - left. split; [by apply (inv_ready s Hinv)|done].
  - left. destruct (inv_carried s Hinv t x) as [Hw Hnr]; [by rewrite Hp|]. split; [done|].
    intros [-> Hb]. congruence.
Qed.

Lemma inv_carried_step u x :
  carries (pcs s' u) = Some x → waits (pcs s' x) = true ∧ (x ∉ ready s').
Proof using Hinv Hs.
  rewrite (waits_step _ _ _ _ x Hs), (ready_step _ _ _ _ x Hs), (carries_step s c t s' u x Hs).
  intros [[Hu Hnr]|(-> & Hp & Hx)].
  - destruct (inv_carried s Hinv u x Hu) as [Hw Hni]. split.
    + left. split; [done|]. intros [-> Hb]. by apply Hni, (blocked_ready s c t s').
    + intros [[? _]|Hp]; [done|]. apply Hnr. split; [|done].
      apply (inv_carrier s Hinv u t x Hu). by rewrite Hp.
  - destruct (inv_list s Hinv x) as (Hw & Hni & _); [by apply head_Some_elem_of|].
    rewrite Hp. split; [left; split; [done|by intros [_ ?]]|by intros [[? _]|?]].
Qed.

Lemma inv_carrier_step u v x :
  carries (pcs s' u) = Some x → carries (pcs s' v) = Some x → u = v.
Proof using Hinv Hs.
  rewrite !(carries_step s c t s' _ x Hs).
  pose proof (head_Some_elem_of (waiters s) x) as Hl.
  intros [[Hu _]|(-> & Hp & Hx)] [[Hv _]|(-> & Hp' & Hx')].
  - by apply (inv_carrier s Hinv u v x).
  - exfalso. by destruct (inv_list s Hinv x (Hl Hx')) as (_ & _ & []%(λ H, H u)).
  - exfalso. by destruct (inv_list s Hinv x (Hl Hx)) as (_ & _ & []%(λ H, H v)).
  - done.
Qed.

Lemma inv_place_step x :
  waits (pcs s' x) = true → x ∈ waiters s' ∨ x ∈ ready s' ∨ ∃ u, carries (pcs s' u) = Some x.
Proof using Hinv Hs.
  rewrite (waiters_elem s c t s' x (inv_nodup s Hinv) Hs), (waits_step _ _ _ _ x Hs),
    (ready_step _ _ _ _ x Hs).
  setoid_rewrite (carries_step s c t s' _ x Hs).
  intros [[Hw Hnb]|[-> Hp]]; [|by left; right].
  destruct (inv_place s Hinv x Hw) as [Hx|[Hx|[u Hu]]].
  - destruct (decide (head (waiters s) = Some x)) as [Hh|]; [|left; left; tauto].
    destruct (pcs s t) eqn:Hp; try (left; left; split; [done|by intros [? _]]).
    right; right. exists t. right. done.
  - right; left; left. done.
  - destruct (pcs s t) eqn:Hp; try (right; right; exists u; left; split; [done|by intros [_ ?]]).
    destruct (decide (x0 = x)) as [->|]; [by right; left; right|].
    right; right. exists u. left. split; [done|]. intros [_ ?]. congruence.
Qed.

(** An active task stays active while others run. *)
Lemma active_other u : u ≠ t → active s u → active s' u.
Proof using Hs.
  intros Hne. unfold active.
  assert (pcs s' u = pcs s u) as ->.
  { clear Hinv. exec_cases Hs; pc_cases; done. }
  pose proof (proj2 (ready_step _ _ _ _ u Hs)) as Hr.
  repeat case_match; try done; intros; apply Hr; left; split; try done; by intros [? _].
Qed.

(** What the waiters and the release of the mutex say about the state before. *)
Lemma wake_before :
  owner s' = None → (waiters s' ≠ [] ∨ ∃ x, pcs s' x = LAdd) →
  pcs s t = UCas ∨ (owner s = None ∧ (waiters s ≠ [] ∨ ∃ x, pcs s x = LAdd) ∧
    (pcs s t = UPop → waiters s ≠ [])).
Proof using Hinv Hs.
  intros Ho Hp. pose proof (inv_wl s Hinv) as Hwl.
  assert (Hx : ∀ x, pcs s t = UPop → pcs s x = LAdd → False).
  { intros x E1 E2. pose proof (proj1 (Hwl t)) as H1. pose proof (proj1 (Hwl x)) as H2.
    rewrite E1 in H1. rewrite E2 in H2. specialize (H1 eq_refl). specialize (H2 eq_refl).
    assert (t = x) by congruence. congruence. }
  assert (Ho' : pcs s t = UCas ∨ owner s = None).
  { clear -Hs Ho. exec_cases Hs; cbn in Ho; auto; congruence. }
  assert (HL : ∀ x, pcs s' x = LAdd → pcs s x = LAdd).
  { clear -Hs Ho. intros x Hx. exec_cases Hs; pc_cases; congruence. }
  destruct Ho' as [?|Ho']; [by left|]. right. split; [done|].
  destruct Hp as [Hp|[x Hp%HL]]; [|split; [by right; exists x|intros E; by destruct (Hx x)]].
  rewrite (waiters_step _ _ _ _ Hs) in Hp.
  destruct (pcs s t) eqn:Ht; try (split; [by left|done]).
  - split; [right; by exists t|done].
  - destruct (waiters s); [done|]. split; [by left|done].
Qed.

Lemma inv_wake_step :
  owner s' = None → (waiters s' ≠ [] ∨ ∃ x, pcs s' x = LAdd) → ∃ u, active s' u.
Proof using Hinv Hs.
  intros Ho Hp. destruct (wake_before Ho Hp) as [Ht|(Ho1 & Hp1 & Hpop)].
  { exists t. unfold active. clear -Hs Ho Ht. exec_cases Hs; pc_cases; done. }
  destruct (inv_wake s Hinv Ho1 Hp1) as [u Hu].
  destruct (decide (u = t)) as [->|Hne]; [|exists u; by apply active_other].
  assert (Hr : ∀ x, x ∈ ready s' → active s' x) by (intros x; unfold active; by repeat case_match).
  pose proof (inv_ready s Hinv t) as Hrt. pose proof (λ x, ready_step _ _ _ _ x Hs) as Hr'.
  unfold active in Hu. destruct (pcs s t) eqn:Ht; try (by specialize (Hrt Hu)).
  all: try (exists t; apply Hr, Hr'; left; split; [done|by intros [_ ?]]).
  all: try (exists x; apply Hr, Hr'; by right).
  all: try (destruct found; [|by specialize (Hrt Hu)]).
  all: exists t; unfold active; clear -Hs Ho Ht Hpop Ho1; exec_cases Hs; pc_cases; try done.
  all: by destruct Hpop.
Qed.

Lemma mutex_inv_step : inv s'.
Proof using Hinv Hs.
  split; [by eapply inv_owner_step|by eapply inv_wl_step|by eapply inv_panic_step|apply inv_list_step|
    apply inv_nodup_step|apply inv_ready_step|apply inv_carried_step|apply inv_carrier_step|
    apply inv_place_step|apply inv_wake_step].
Qed.
End step.

Lemma reach_inv s : reach s → inv s.
Proof.
  induction 1 as [|s c t s' _ IH Hs]; [|by eapply mutex_inv_step].
  split; cbn; try done; try (intros t Ht; set_solver).
  apply NoDup_nil_2.
Qed.

(** * Progress *)

(** Inside the library: neither outside nor in the critical section. *)
Definition inside (p : pc) : bool := match p with Outside | Crit | Panicked => false | _ => true end.

(** An access inside the library. *)
Inductive istep : state → state → Prop :=
| istep_intro s c t s' : inside (pcs s t) = true → exec c t s = Some s' → istep s s'.

Lemma holder_runs s t : inv s → wl s = Some t → ∃ s', istep s s'.
Proof.
  intros Hinv Ht%(inv_wl s Hinv).
  destruct (exec Lock t s) as [s'|] eqn:Hs.
  - exists s'. apply (istep_intro s Lock t s'); [|done]. by destruct (pcs s t).
  - unfold exec in Hs. by destruct (pcs s t).
Qed.

(** An active task can run, or the holder of [wait_lock] can. *)
Lemma active_runs s t : inv s → active s t → ∃ s', istep s s'.
Proof.
  intros Hinv Ha. pose proof (inv_ready s Hinv t) as Hr.
  destruct (wl s) as [u|] eqn:Hwl; [by eapply holder_runs|].
  destruct (exec Lock t s) as [s'|] eqn:Hs.
  - exists s'. apply (istep_intro s Lock t s'); [|done].
    unfold active in Ha. destruct (pcs s t); try done; by specialize (Hr Ha).
  - exfalso. unfold exec in Hs. unfold active in Ha. destruct (pcs s t); try done.
    + by rewrite Hwl in Hs.
    + by rewrite decide_True in Hs.
    + by rewrite Hwl in Hs.
    + by specialize (Hr Ha).
Qed.

Lemma waiting_runs s t :
  inv s → waits (pcs s t) = true → (∃ o, owner s = Some o) ∨ ∃ s', istep s s'.
Proof.
  intros Hinv Hw. destruct (owner s) as [o|] eqn:Ho; [by left; exists o|]. right.
  destruct (inv_place s Hinv t Hw) as [Hl|[Hr|[u Hu]]].
  - destruct (inv_wake s Hinv Ho) as [u Hu]; [left; by intros E; rewrite E in Hl; apply elem_of_nil in Hl|].
    by eapply active_runs.
  - apply (active_runs s t Hinv). unfold active. by repeat case_match.
  - apply (active_runs s u Hinv). unfold active. destruct (pcs s u); try done. by destruct found.
Qed.

(** Accesses inside the library come to an end: the tasks inside, then whether
    the mutex is held, then the tasks in run queues, then how far each task
    has got. *)
Definition weight (free : bool) (p : pc) : nat :=
  match p with
  | LRetry => if free then 2 else 9 | LCas => if free then 1 else 8
  | LSpin => if free then 4 else 7 | LCheck => if free then 3 else 6
  | LAdd => if free then 8 else 5 | LUnlock => if free then 7 else 4
  | LYield => if free then 6 else 3 | Blocked => if free then 5 else 2
  | UCas => 6 | USpin => 5 | UCheck => 4 | UPop => 3 | UUnlock _ => 2 | URet => 2 | UResume _ => 1
  | _ => 0
  end.

Definition total (f : pc → nat) (T : list Z) (s : state) : nat := sum_list_with (λ t, f (pcs s t)) T.
Definition is_free (s : state) : bool := bool_decide (owner s = None).
Definition inside1 (p : pc) : nat := if inside p then 1 else 0.
Definition held1 (s : state) : nat := if is_free s then 0 else 1.

Lemma total_ext f T s s' : (∀ u, u ∈ T → pcs s' u = pcs s u) → total f T s' = total f T s.
Proof.
  unfold total. induction T as [|u T IH]; intros He; [done|]. cbn.
  rewrite He by left. rewrite IH; [done|]. intros v Hv. apply He. by right.
Qed.

Lemma total_goto f T s t p :
  NoDup T → t ∈ T → (total f T (goto s t p) + f (pcs s t) = total f T s + f p)%nat.
Proof.
  induction T as [|u T IH]; intros Hnd Ht; [by apply elem_of_nil in Ht|].
  apply NoDup_cons in Hnd as [Hu Hnd]. cbn [total sum_list_with]. unfold total in *. cbn [sum_list_with].
  rewrite goto_pc. destruct (decide (u = t)) as [->|Hne].
  - pose proof (total_ext f T s (goto s t p)) as E. unfold total in E. rewrite E; [lia|].
    intros v Hv. rewrite goto_pc. by rewrite decide_False by (by intros ->).
  - apply elem_of_cons in Ht as [?|Ht]; [done|]. specialize (IH Hnd Ht). lia.
Qed.

(** One of the four goes down and those before it stay. *)
Definition progress (T : list Z) (s' s : state) : Prop :=
  let a := total inside1 T in let r s := size (ready s) in
  let w s := total (weight (is_free s)) T s in
  (a s' < a s ∨ (a s' ≤ a s ∧ held1 s' < held1 s) ∨
  (a s' ≤ a s ∧ held1 s' ≤ held1 s ∧ r s' < r s) ∨
  (a s' ≤ a s ∧ held1 s' ≤ held1 s ∧ r s' ≤ r s ∧ w s' < w s))%nat.

Lemma size_remove (X : gset Z) t : t ∈ X → (size (X ∖ {[t]}) < size X)%nat.
Proof. intros Ht. apply subset_size. set_solver. Qed.

(** The mutex does not change hands and the task has got further. *)
Ltac weight_falls Hw :=
  match goal with
  | |- (total (weight (is_free (goto ?s1 ?t ?p))) _ _ < total (weight (is_free ?s)) _ _)%nat =>
      change (is_free (goto s1 t p)) with (is_free s);
      cbn [weight] in Hw;
      destruct (is_free s) eqn:E; first [lia|exfalso; unfold is_free in E; case_bool_decide; congruence]
  end.

Lemma istep_progress T s s' :
  NoDup T → (∀ t, t ∉ T → pcs s t = Outside) → inv s → istep s s' → progress T s' s.
Proof.
  intros Hnd HT Hinv Hi. inversion Hi as [? c t ? Hin Hs]. subst. clear Hi.
  assert (Ht : t ∈ T).
  { destruct (decide (t ∈ T)) as [|Hni]; [done|]. by rewrite (HT _ Hni) in Hin. }
  pose proof (proj1 (inv_owner s Hinv t)) as Ho. clear HT Hinv.
  assert (Ha : ∀ s1 p, pcs s1 = pcs s →
    (total inside1 T (goto s1 t p) + 1 = total inside1 T s + inside1 p)%nat).
  { intros s1 p E. rewrite <-(total_ext inside1 T s s1) by (by rewrite E).
    rewrite <-(total_goto inside1 T s1 t p Hnd Ht). rewrite E. f_equal. unfold inside1. by rewrite Hin. }
  assert (Hw : ∀ s1 p b, pcs s1 = pcs s →
    (total (weight b) T (goto s1 t p) + weight b (pcs s t) = total (weight b) T s + weight b p)%nat).
  { intros s1 p b E. rewrite <-(total_ext (weight b) T s s1) by (by rewrite E).
    rewrite <-(total_goto (weight b) T s1 t p Hnd Ht). by rewrite E. }
  unfold progress. exec_cases Hs.
  all: match goal with |- context [goto ?s1 _ ?p] =>
         pose proof (Ha s1 p eq_refl) as Ha1; pose proof (Hw s1 p (is_free s) eq_refl) as Hw1 end.
  all: cbn [inside1 inside] in Ha1.
  all: try (left; lia).
  all: try (right; right; right; split; [lia|]; split; [apply Nat.eq_le_incl; reflexivity|];
    split; [apply Nat.eq_le_incl; reflexivity|];
    weight_falls Hw1).
  - right; right; left. split; [lia|]. split; [apply Nat.eq_le_incl; reflexivity|].
    by apply size_remove.
  - right; left. split; [lia|]. unfold held1, is_free. cbn [goto set_owner owner].
    rewrite (bool_decide_eq_true_2 (None = None)) by done. rewrite bool_decide_eq_false_2 by congruence. lia.
Qed.

(** Every task that has ever called the mutex is in a finite list. *)
Lemma reach_support s : reach s → ∃ T, NoDup T ∧ ∀ t, t ∉ T → pcs s t = Outside.
Proof.
  induction 1 as [|s c t s' _ (T & Hnd & HT) Hs]; [by exists []; split; [apply NoDup_nil_2|]|].
  exists (if decide (t ∈ T) then T else t :: T). split.
  - case_decide; [done|]. by apply NoDup_cons.
  - intros u Hu. assert (u ≠ t ∧ u ∉ T) as [Hne Hni] by (case_decide; set_solver).
    rewrite <-(HT u Hni). clear -Hs Hne. exec_cases Hs; pc_cases; done.
Qed.

Lemma istep_support (T : list Z) s s' :
  (∀ t, t ∉ T → pcs s t = Outside) → istep s s' → ∀ t, t ∉ T → pcs s' t = Outside.
Proof.
  intros HT Hi u Hu. inversion Hi as [? c t ? Hin Hs]. subst.
  assert (Hne : u ≠ t) by (intros ->; by rewrite (HT _ Hu) in Hin).
  rewrite <-(HT u Hu). clear -Hs Hne. exec_cases Hs; pc_cases; done.
Qed.

Lemma istep_inv s s' : inv s → istep s s' → inv s'.
Proof. intros Hinv Hi. inversion Hi. subst. by eapply mutex_inv_step. Qed.

Lemma istep_acc T s :
  NoDup T → (∀ t, t ∉ T → pcs s t = Outside) → inv s → Acc (flip istep) s.
Proof.
  intros Hnd. remember (total inside1 T s) as a eqn:Ea. remember (held1 s) as h eqn:Eh.
  remember (size (ready s)) as r eqn:Er. remember (total (weight (is_free s)) T s) as w eqn:Ew.
  apply eq_sym, Nat.eq_le_incl in Ea, Eh, Er, Ew. revert h r w s Ea Eh Er Ew.
  induction a as [a IHa] using lt_wf_ind. induction h as [h IHh] using lt_wf_ind.
  induction r as [r IHr] using lt_wf_ind. induction w as [w IHw] using lt_wf_ind.
  intros s Ea Eh Er Ew HT Hinv. constructor. intros s' Hi. unfold flip in Hi.
  pose proof (istep_support T s s' HT Hi) as HT'. pose proof (istep_inv s s' Hinv Hi) as Hinv'.
  destruct (istep_progress T s s' Hnd HT Hinv Hi) as [Hp|[[? Hp]|[(? & ? & Hp)|(? & ? & ? & Hp)]]].
  - eapply (IHa (total inside1 T s')); [lia|reflexivity..|done|done].
  - eapply (IHh (held1 s')); [lia|lia|reflexivity..|done|done].
  - eapply (IHr (size (ready s'))); [lia|lia|lia|reflexivity..|done|done].
  - eapply (IHw (total (weight (is_free s')) T s')); [lia|lia|lia|lia|reflexivity|done|done].
Qed.

Lemma rtc_istep_inv s s' : inv s → rtc istep s s' → inv s'.
Proof. intros Hinv Hr. induction Hr as [|s s1 s' Hi _ IH]; [done|]. by apply IH, (istep_inv s). Qed.

(** C19. Mutual exclusion: whatever threads and tasks interleave inside
    [co_mutex_lock], [co_mutex_try_lock] and [co_mutex_unlock], at most one task
    is between taking the mutex and giving it back, [mutex->lock] names it, and
    neither panic is reached. *)
Theorem mutex_exclusion s :
  reach s →
  (∀ t u, has_mutex (pcs s t) = true → has_mutex (pcs s u) = true → t = u) ∧
  (∀ t, has_mutex (pcs s t) = true ↔ owner s = Some t) ∧
  (∀ t, pcs s t ≠ Panicked).
Proof.
  intros Hr%reach_inv. pose proof (inv_owner s Hr) as Ho. split_and!; [|done|apply (inv_panic s Hr)].
  intros t u Ht%Ho Hu%Ho. congruence.
Qed.

(** C18. No wakeup is lost: from every reachable state the tasks inside the
    mutex functions, run in any order, come to rest after finitely many
    accesses; and when they have, a task that still waits does so because
    another one is in its critical section, whose [co_mutex_unlock] will wake
    the first of the list. *)
Theorem mutex_no_lost_wakeup s :
  reach s →
  Acc (flip istep) s ∧
  ∀ s', rtc istep s s' → (∀ s'', ¬ istep s' s'') →
    ∀ t, waits (pcs s' t) = true → ∃ o, owner s' = Some o ∧ pcs s' o = Crit.
Proof.
  intros Hr. pose proof (reach_inv s Hr) as Hinv. split.
  - destruct (reach_support s Hr) as (T & Hnd & HT). by apply (istep_acc T).
  - intros s' Hs Hq t Hw. pose proof (rtc_istep_inv s s' Hinv Hs) as Hinv'.
    destruct (waiting_runs s' t Hinv' Hw) as [[o Ho]|[s'' Hi]]; [|by destruct (Hq s'')].
    exists o. split; [done|]. apply (inv_owner s' Hinv') in Ho. destruct (pcs s' o) eqn:Hp; try done.
    destruct (exec Lock o s') as [s''|] eqn:He; [|unfold exec in He; by rewrite Hp in He].
    destruct (Hq s''). apply (istep_intro s' Lock o s''); [by rewrite Hp|done].
Qed.

(** * Examples *)

(** A run given by the tasks in the order of their accesses. *)
Fixpoint run (l : list (call * Z)) (s : state) : option state :=
  match l with
  | [] => Some s
  | (c, t) :: l => match exec c t s with Some s' => run l s' | None => None end
  end.

Lemma run_reach l s s' : reach s → run l s = Some s' → reach s'.
Proof.
  revert s. induction l as [|[c t] l IH]; intros s Hr Hrun; cbn in Hrun; [by simplify_eq|].
  destruct (exec c t s) as [s1|] eqn:He; [|done]. eapply IH; [|done]. by eapply reach_step.
Qed.

(** Task 1 takes the mutex, task 2 waits for it, task 1 releases the mutex while
    task 3 tries to take it. *)
Definition ex_init : state := State None None [] ∅ (λ _, Outside).
Definition ex_run : list (call * Z) :=
  [(Lock, 1); (Lock, 1); (Lock, 2); (Lock, 2); (Lock, 2); (Lock, 2); (Lock, 2); (Lock, 2); (Lock, 2);
   (Lock, 1); (Lock, 3); (Lock, 1); (Lock, 1)].
Definition ex_state : state := default ex_init (run ex_run ex_init).

Lemma ex_state_reach : reach ex_state.
Proof.
  unfold ex_state. destruct (run ex_run ex_init) as [s|] eqn:E; [|exact reach_init].
  exact (run_reach ex_run ex_init s reach_init E).
Qed.

Example ex_state_where :
  (pcs ex_state 1, pcs ex_state 2, pcs ex_state 3, owner ex_state, waiters ex_state) =
  (UCheck, Blocked, LCas, None, [2]).
Proof. vm_compute. reflexivity. Qed.

Lemma mutex_exclusion_witness :
  (∀ t u, has_mutex (pcs ex_state t) = true → has_mutex (pcs ex_state u) = true → t = u) ∧
  (∀ t, has_mutex (pcs ex_state t) = true ↔ owner ex_state = Some t) ∧
  (∀ t, pcs ex_state t ≠ Panicked).
Proof. apply (mutex_exclusion ex_state), ex_state_reach. Defined.

Lemma mutex_no_lost_wakeup_witness :
  Acc (flip istep) ex_state ∧
  ∀ s', rtc istep ex_state s' → (∀ s'', ¬ istep s' s'') →
    ∀ t, waits (pcs s' t) = true → ∃ o, owner s' = Some o ∧ pcs s' o = Crit.
Proof. apply (mutex_no_lost_wakeup ex_state), ex_state_reach. Defined.
