(* ===== verification/Cond.v ===== *)
(** co_cond.c and timer.c: condition variables between coroutines.

    [co_cond_wait] yields between releasing the mutex and taking it again; the
    two parts are [co_cond_wait_begin] and, on resumption, [co_mutex_lock]. *)

From Stdlib Require Import ZArith Lia.
From stdpp Require Import base numbers strings sets gmap list.
From S2P Require Import Prelude IntrusiveList Links SpinLock World InnerFd Task Sched Event Mutex.
Open Scope Z_scope.

Definition cond_wait_list (c : ptr) : laddr := LAddr LCondWait c.

Definition EPOLLET : Z := Z.shiftl 1 31.

Section cond.
Context {K : Kernel}.

(** * timer.c *)

(** [ms / 1000] and [ms % 1000] truncate towards zero. *)
Definition __set_timer (timerfd ms : Z) : M Z :=
  if decide (timerfd ≤ 0) then mret (-1) else
  syscall (sys_timerfd_settime timerfd (Z.quot ms 1000) (Z.rem ms 1000 * 1000000) 0).

Definition open_timer : M Z :=
  timerfd ← syscall sys_timerfd_create;
  if decide (timerfd ≤ 0) then mret (-1) else
  ifd ← get_inner_fd timerfd;
  ifd ← (if decide (ifd = NULL) then new_inner_fd timerfd else mret ifd);
  or_i_flags ifd O_NONBLOCK;;
  set_i_timeout ifd (-1);;
  set_i_error ifd IENONE;;
  mret timerfd.

Definition set_timer (timerfd ms : Z) : M Z :=
  r ← __set_timer timerfd ms;
  if decide (r < 0) then mret r else
  ifd ← get_inner_fd timerfd;
  t ← co_self;
  set_i_task ifd t;;
  set_i_error ifd IENONE;;
  s ← current_sched;
  v ← rd_sched s;
  _ ← add_events (s_epoll v) timerfd (Z.lor EPOLLIN EPOLLET);
  mret 0.

Definition cancel_timer (timerfd : Z) : M Z :=
  _ ← __set_timer timerfd 0;
  s ← current_sched;
  v ← rd_sched s;
  _ ← delete_events (s_epoll v) timerfd 0;
  mret 0.

Definition is_timeout_timer (timerfd : Z) : M bool :=
  if decide (timerfd ≤ 0) then mret false else
  ifd ← get_inner_fd timerfd;
  v ← rd_ifd ifd;
  mret (has (i_error v) IEREAD).

Definition close_timer (timerfd : Z) : M Z := close timerfd.

(** * co_cond.c *)

Definition co_cond_init (c : ptr) : M unit :=
  upd_links (λ l, Ok (list_init l (cond_wait_list c))).

(** [list_add_before(&cond->wait_list, &co_self()->run_link)]. *)
Definition cond_enlist (c : ptr) : M unit :=
  t ← co_self;
  upd_links (λ l, list_add_before l (cond_wait_list c) (run_link t)).

Definition co_cond_wait_begin (c m : ptr) : M unit :=
  locked ← co_mutex_locked m;
  if negb (locked : bool) then panic "cond_wait mutex is not locked" else
  cond_enlist c;;
  co_mutex_unlock m;;
  co_sync_yield.

(** The timed variant; the result is the timer descriptor. *)
Definition co_cond_wait_till_begin (c m : ptr) (ms : Z) : M Z :=
  locked ← co_mutex_locked m;
  if negb (locked : bool) then panic "cond_wait mutex is not locked" else
  cond_enlist c;;
  timerfd ← open_timer;
  _ ← set_timer timerfd ms;
  co_mutex_unlock m;;
  co_sync_yield;;
  mret timerfd.

(** After the yield: the value returned once the mutex is taken again, and
    that first attempt to take it. *)
Definition co_cond_wait_till_end (m : ptr) (timerfd : Z) : M (bool * turn) :=
  timeout ← is_timeout_timer timerfd;
  _ ← close_timer timerfd;
  r ← co_mutex_lock m;
  mret (timeout, r).

Fixpoint signal_loop (fuel : nat) (all : bool) (ls : laddr) : M unit :=
  e ← rd_links (λ l, list_empty l ls);
  if (e : bool) then mret () else
  match fuel with
  | O => lift OutOfFuel
  | S fuel =>
      t ← lift (list_to_struct LRunLink ls);
      next ← rd_links (λ l, list_next l ls);
      upd_links (λ l, list_delete l (run_link t));;
      co_resume t;;
      if all then signal_loop fuel all next else mret ()
  end.

Definition _co_cond_signal_all (c : ptr) (all : bool) : M unit :=
  ls ← rd_links (λ l, list_next l (cond_wait_list c));
  w ← get;
  signal_loop (size (w_tasks w)) all ls.

Definition co_cond_signal (c : ptr) : M unit := _co_cond_signal_all c false.
Definition co_cond_broadcast (c : ptr) : M unit := _co_cond_signal_all c true.

(** * Behaviour *)

(** How many waiters a signal wakes. *)
Definition to_wake (all : bool) (ws : list Z) : list Z := if all then ws else take 1 ws.

Lemma cond_wait_head c : wait_head (cond_wait_list c).
Proof. by split. Qed.

(** Between [R] and [R'] tasks only move from [h] to the run queue. *)
Definition moves (h : laddr) (R R' : gmap laddr (list laddr)) : Prop :=
  (∀ h' us, h' ≠ h → wait_head h' → R !! h' = Some (run_link <$> us) → R' !! h' = Some (run_link <$> us)) ∧
  (∀ u, in_rings R' (run_link u) → in_rings R (run_link u)) ∧ (∀ t, fd_rings t R R').

#[global] Instance moves_preorder h : PreOrder (moves h).
Proof.
  split; [intros R; unfold moves; split_and!; [by auto|by auto|intros t; reflexivity]|]. intros R1 R2 R3 (H1 & H2 & H3) (H4 & H5 & H6).
  split_and!; [by auto|by auto|]. intros t. etrans; [apply H3|apply H6].
Qed.

Lemma moves_woken w s R ts h x ws :
  rt w s R ts → wait_head h → R !! h = Some (run_link <$> x :: ws) →
  moves h R (enqueue_rings s x ts (ring_remove (run_link x) R)).
Proof.
  intros Hrt Hh Hws.
  assert (Hx : in_rings R (run_link x)).
  { exists h, (run_link <$> x :: ws). split; [done|]. set_solver. }
  split_and!.
  - intros h' us Hne [Hk1 Hk2] Hus.
    assert (Hxu : x ∉ us).
    { intros Hx'. apply Hne. destruct (rt_links _ _ _ _ Hrt) as [[_ Hd] _].
      apply (Hd h' (run_link <$> us) h (run_link <$> x :: ws) (run_link x)); try done.
      - right. by apply list_elem_of_fmap_2.
      - right. by left. }
    rewrite enqueue_rings_other by (by intros ->). rewrite ring_remove_lookup, Hus.
    cbn [fmap option_fmap option_map].
    by rewrite (filter_run_link x us), (filter_ne_id x us), (filter_run_link x us), (filter_ne_id x us).
  - intros u (h' & ys & Hy & Hc). unfold enqueue_rings in Hy.
    apply lookup_insert_Some in Hy as [[<- <-]|[_ Hy]].
    + apply elem_of_cons in Hc as [?|Hc]; [done|].
      apply list_elem_of_fmap in Hc as (y & [= ->] & Hc).
      apply elem_of_cons in Hc as [->|[_ Hy]%list_elem_of_filter]; [done|].
      exists (run_list s), (run_link <$> ts). split; [apply Hrt|]. right. by apply list_elem_of_fmap_2.
    + apply (in_rings_remove (run_link x)), (in_rings_remove (run_link x)). by exists h', ys.
  - intros t. apply fd_rings_enqueue; [apply fd_rings_remove| |by left].
    rewrite ring_remove_lookup, (rt_queue _ _ _ _ Hrt). cbn.
    destruct (waiter_live _ _ _ _ _ _ _ Hrt Hh Hws) as [_ Hxts]. by rewrite filter_run_link, filter_ne_id.
Qed.

(** One waiter: off the list and into the run queue. *)
Lemma wake_waiter_wp w s R ts h x ws Q :
  rt w s R ts → wait_head h → R !! h = Some (run_link <$> x :: ws) →
  (∀ R' w', rt w' s R' (x :: ts) → R' !! h = Some (run_link <$> ws) →
     same_ctx w w' → w_threads w' = w_threads w → w_mutexes w' = w_mutexes w →
     w_objs w' = w_objs w → moves h R R' →
     dom (w_tasks w') = dom (w_tasks w) →
     (∀ u, u ≠ x → w_tasks w' !! u = w_tasks w !! u) →
     (∃ v, w_tasks w' !! x = Some v ∧ t_status v = RUNNABLE) → wake_frame w w' → Q () w') →
  wp (upd_links (λ l, list_delete l (run_link x))) (λ _, wp (co_resume x) Q) w.
Proof.
  intros Hrt Hh Hws HQ. destruct (waiter_live _ _ _ _ _ _ _ Hrt Hh Hws) as [[tv Htv] Hx].
  pose proof Hrt as [Hnn Hself Hsch [HR Hhd Htk Hdd] Hq Hlv].
  destruct (Htk _ _ Htv) as (Hn & Hl & _). pose proof (proj1 (proj1 HR) _ _ Hws) as Hring.
  destruct (lrep_delete _ _ _ HR (Hhd x) Hl) as (l & Hd & HR' & Hdom & Hni).
  assert (Hxws : x ∉ ws).
  { destruct Hring as [[_ [H _]%NoDup_cons]%NoDup_cons _]. intros Hin. apply H. by apply list_elem_of_fmap_2. }
  eapply wp_upd_links; [exact Hd|].
  eapply (sched_rq_enqueue_wp _ s (ring_remove (run_link x) R) ts); [|exact Htv|].
  { split; cbn; try done; [split; cbn|].
    - done.
    - intros u. by rewrite ring_remove_lookup, Hhd.
    - intros u v Hv. destruct (Htk _ _ Hv) as (? & ? & ?). split_and!; [done| |done].
      apply elem_of_dom. rewrite Hdom. by apply elem_of_dom.
    - intros u Hu ?%in_rings_remove. by apply (Hdd u).
    - rewrite ring_remove_lookup, Hq. apply (f_equal Some).
      by rewrite filter_run_link, filter_ne_id. }
  intros sv l3 Hsv Hrt3 Hdl3. rewrite filter_ne_id in Hrt3 by done. eapply HQ; [exact Hrt3|..].
  - destruct Hh as [Hk1 Hk2]. rewrite enqueue_rings_other by (by intros ->).
    rewrite ring_remove_lookup, Hws. apply (f_equal Some).
    rewrite filter_run_cons, filter_run_link, filter_ne_id by done. done.
  - split_and!; [done|done|]. intros u Hu. cbn. rewrite lookup_insert. case_decide; [by eauto|done].
  - done.
  - done.
  - done.
  - by eapply moves_woken.
  - cbn. rewrite dom_insert_L. apply elem_of_dom_2 in Htv. set_solver.
  - intros u Hu. cbn. by rewrite lookup_insert_ne.
  - cbn. rewrite lookup_insert_eq. by eauto.
  - etrans; [|by apply wake_frame_enqueued]. by apply wake_frame_same.
Qed.

Lemma signal_loop_wp fuel all w s R ts h ws :
  rt w s R ts → wait_head h → R !! h = Some (run_link <$> ws) → (length ws ≤ fuel)%nat →
  wp (signal_loop fuel all (first_or h (run_link <$> ws))) (λ _ w', ∃ R',
    rt w' s R' (reverse (to_wake all ws) ++ ts) ∧
    R' !! h = Some (run_link <$> drop (length (to_wake all ws)) ws) ∧
    same_ctx w w' ∧ w_mutexes w' = w_mutexes w ∧ w_objs w' = w_objs w ∧ moves h R R' ∧
    (∀ u, u ∉ to_wake all ws → w_tasks w' !! u = w_tasks w !! u) ∧
    (∀ u, u ∈ to_wake all ws → ∃ v, w_tasks w' !! u = Some v ∧ t_status v = RUNNABLE) ∧ wake_frame w w') w.
Proof.
  revert w R ts ws. induction fuel as [|fuel IH]; intros w R ts [|x ws] Hrt Hh Hws Hlen;
    try (simpl in Hlen; lia).
  1,2: cbn [signal_loop fmap list_fmap first_or head default]; wp_step;
       pose proof (proj1 (proj1 (rt_links _ _ _ _ Hrt)) _ _ Hws) as Hring;
       (eapply wp_rd_links; [apply (ring_list_empty _ _ [] Hring)|]);
       rewrite bool_decide_eq_true_2 by done; wp_steps; exists R; destruct all;
       split_and!; try done; try (intros u []%not_elem_of_nil).
  pose proof (proj1 (proj1 (rt_links _ _ _ _ Hrt)) _ _ Hws) as Hring.
  assert (Hx : x ∉ ws).
  { destruct Hring as [[_ [H _]%NoDup_cons]%NoDup_cons _]. intros Hin. apply H. by apply list_elem_of_fmap_2. }
  cbn [signal_loop fmap list_fmap first_or head default]. wp_step.
  eapply wp_rd_links; [apply (ring_list_empty_elem _ _ _ _ Hring); by left|]. simpl. wp_step.
  eapply wp_lift; [apply list_to_struct_member|]. wp_step.
  eapply wp_rd_links; [apply (ring_next_elem _ _ [] _ _ Hring)|]. wp_step.
  eapply wp_mono; [eapply (wake_waiter_wp w s R ts h x ws (λ _ w', ∃ R', rt w' s R' (x :: ts) ∧
    R' !! h = Some (run_link <$> ws) ∧ same_ctx w w' ∧ w_mutexes w' = w_mutexes w ∧
    w_objs w' = w_objs w ∧ moves h R R' ∧
    (∀ u, u ≠ x → w_tasks w' !! u = w_tasks w !! u) ∧
    (∃ v, w_tasks w' !! x = Some v ∧ t_status v = RUNNABLE) ∧ wake_frame w w'));
    [done..|intros R' w' ???????????; by exists R']|].
  intros [] w1 Hwp. apply wp_bind. eapply wp_mono; [exact Hwp|]. clear Hwp.
  intros [] w2 (R2 & Hrt2 & Hws2 & Hctx & Hmx & Hob & Hmv & Hoth & (v & Hv & Hst) & Hfr). destruct all.
  - eapply wp_mono; [apply (IH w2 R2 (x :: ts) ws Hrt2 Hh Hws2); simpl in Hlen; lia|].
    intros [] w' (R' & Hrt' & Hws' & Hctx' & Hmx' & Hob' & Hmv' & Hoth' & Hrun' & Hfr'). exists R'. cbn [to_wake] in *.
    split_and!.
    + rewrite reverse_cons, <-app_assoc. exact Hrt'.
    + done.
    + by etrans.
    + congruence.
    + congruence.
    + by etrans.
    + intros u Hu. rewrite Hoth' by set_solver. apply Hoth. set_solver.
    + intros u [->|Hu]%elem_of_cons; [|by apply Hrun']. exists v. by rewrite Hoth'.
    + by etrans.
  - wp_steps. exists R2. cbn [to_wake take length drop reverse]. split_and!; [exact Hrt2|exact Hws2|done|done|done|done| | |done].
    + intros u Hu. apply Hoth. set_solver.
    + intros u ->%list_elem_of_singleton. by exists v.
Qed.

Lemma signal_all_wp w s R ts c ws all :
  rt w s R ts → R !! cond_wait_list c = Some (run_link <$> ws) →
  wp (_co_cond_signal_all c all) (λ _ w', ∃ R',
    rt w' s R' (reverse (to_wake all ws) ++ ts) ∧
    R' !! cond_wait_list c = Some (run_link <$> drop (length (to_wake all ws)) ws) ∧
    same_ctx w w' ∧ w_mutexes w' = w_mutexes w ∧ w_objs w' = w_objs w ∧ moves (cond_wait_list c) R R' ∧
    (∀ u, u ∉ to_wake all ws → w_tasks w' !! u = w_tasks w !! u) ∧
    (∀ u, u ∈ to_wake all ws → ∃ v, w_tasks w' !! u = Some v ∧ t_status v = RUNNABLE) ∧ wake_frame w w') w.
Proof.
  intros Hrt Hws. pose proof (proj1 (proj1 (rt_links _ _ _ _ Hrt)) _ _ Hws) as Hring.
  unfold _co_cond_signal_all. wp_step. eapply wp_rd_links; [apply (ring_next_head _ _ _ Hring)|]. wp_steps.
  eapply signal_loop_wp; [done|apply cond_wait_head|done|].
  apply NoDup_dom_length.
  - destruct Hring as [[_ Hnd]%NoDup_cons _]. by apply NoDup_fmap_1 in Hnd.
  - intros u Hu. pose proof (rt_tasks_ok _ _ _ _ Hrt) as [_ _ _ Hdd].
    destruct (w_tasks w !! u) as [v|] eqn:E; [by eauto|]. exfalso. apply (Hdd u E).
    exists (cond_wait_list c), (run_link <$> ws). split; [done|]. right. by apply list_elem_of_fmap_2.
Qed.

(** C20. Signalling: [co_cond_signal] wakes the task that has waited longest,
    if there is one, and [co_cond_broadcast] wakes all of them, in the order in
    which they began to wait; the woken tasks leave the wait list, are runnable
    and queue up behind the tasks already in the run queue; nobody else moves. *)
Theorem cond_signal_wakes w s R ts c ws all :
  rt w s R ts → R !! cond_wait_list c = Some (run_link <$> ws) →
  ∃ w' R', _co_cond_signal_all c all w = Ok ((), w') ∧
    rt w' s R' (reverse (to_wake all ws) ++ ts) ∧
    R' !! cond_wait_list c = Some (run_link <$> drop (length (to_wake all ws)) ws) ∧
    (∀ u, u ∉ to_wake all ws → w_tasks w' !! u = w_tasks w !! u) ∧
    (∀ u, u ∈ to_wake all ws → ∃ v, w_tasks w' !! u = Some v ∧ t_status v = RUNNABLE).
Proof.
  intros Hrt Hws. destruct (signal_all_wp w s R ts c ws all Hrt Hws)
    as ([] & w' & ? & R' & ? & ? & _ & _ & _ & _ & ? & ? & _). by exists w', R'.
Qed.

(** Waking a mutex waiter does not disturb another wait list. *)
Lemma woken_rings_other w s R ts m ws h us :
  rt w s R ts → R !! mutex_wait m = Some (run_link <$> ws) → h ≠ mutex_wait m → wait_head h →
  R !! h = Some (run_link <$> us) → woken_rings s ts ws R !! h = Some (run_link <$> us).
Proof.
  intros Hrt Hws Hne Hw Hh. destruct ws as [|x ws]; [done|]. cbn [woken_rings].
  destruct (waiter_live _ _ _ _ _ _ _ Hrt (mutex_wait_head m) Hws) as [_ Hx]. rewrite (filter_ne_id x ts) by done.
  by eapply (proj1 (moves_woken _ _ _ _ _ _ _ Hrt (mutex_wait_head m) Hws)).
Qed.

Lemma woken_fd_rings t w s R ts m ws :
  rt w s R ts → R !! mutex_wait m = Some (run_link <$> ws) → fd_rings t R (woken_rings s ts ws R).
Proof.
  intros Hrt Hws. destruct ws as [|x ws]; [done|]. cbn [woken_rings].
  destruct (waiter_live _ _ _ _ _ _ _ Hrt (mutex_wait_head m) Hws) as [_ Hx]. rewrite (filter_ne_id x ts) by done.
  by apply (moves_woken _ _ _ _ _ _ _ Hrt (mutex_wait_head m) Hws).
Qed.

Lemma co_cond_wait_begin_wp w s R ts t tv c cws m mws Q :
  rt w s R ts → mutex_at w R t m t mws → w_tasks w !! t = Some tv → ¬ in_rings R (run_link t) →
  R !! cond_wait_list c = Some (run_link <$> cws) →
  (∀ w' R' tv', rt w' s R' (take 1 mws ++ ts) → R' !! cond_wait_list c = Some (run_link <$> cws ++ [t]) →
     mutex_at w' R' t m NULL (drop 1 mws) → w_tasks w' !! t = Some tv' → t_status tv' = SYS_BLOCK →
     w_objs w' = w_objs w →
     (∀ h us, h ≠ cond_wait_list c → h ≠ mutex_wait m → wait_head h → R !! h = Some (run_link <$> us) →
        R' !! h = Some (run_link <$> us)) →
     w_mutexes w' = <[m := Mutex NULL Raw.SPIN_RELESAED]> (w_mutexes w) → wake_frame w w' → fd_rings t R R' →
     Q () w') →
  wp (co_cond_wait_begin c m) Q w.
Proof.
  intros Hrt Hma Htv Hni Hcws HQ. pose proof Hma as [(th & Hth & Hc) Hm Hmws].
  destruct (rt_tasks _ _ _ _ _ _ Hrt Htv) as (Htn & _).
  destruct (rt_add_wait w s R ts (cond_wait_list c) cws t tv) as (l & Ha & Hrt1 & Hdl);
    [done|apply cond_wait_head|done|done|done|].
  set (R1 := <[cond_wait_list c := run_link <$> cws ++ [t]]> R) in *.
  assert (Hma1 : mutex_at (with_links w l) R1 t m t mws).
  { split; cbn; [by eauto|done|]. unfold R1. by rewrite lookup_insert_ne. }
  assert (Ht : t ∉ take 1 mws).
  { intros Hin. apply Hni. exists (mutex_wait m), (run_link <$> mws). split; [done|]. right.
    apply list_elem_of_fmap_2. destruct mws; [done|]. cbn in Hin. set_solver. }
  unfold co_cond_wait_begin, co_mutex_locked, rd_owner, cond_enlist, co_self. wp_steps. cbn.
  rewrite bool_decide_eq_true_2 by done. cbn. wp_steps. rewrite Hc.
  eapply wp_upd_links; [exact Ha|]. wp_step.
  eapply (co_mutex_unlock_wp _ s R1 ts t m mws); [done|done|done|].
  intros w2 Hrt2 Hma2 Hctx2 Hmx2 Hob2 Hoth2 _ Hfr2. pose proof Hma2 as [(th2 & Hth2 & Hc2) Hm2 Hmws2].
  assert (Htv2 : w_tasks w2 !! t = Some tv) by (by rewrite Hoth2).
  unfold co_sync_yield, set_status, co_self. wp_steps. rewrite Hc2. wp_steps.
  eapply HQ; [eapply rt_task_upd; done| |split; cbn; [by eauto|done|done]| | |done| |exact Hmx2| |].
  - eapply woken_rings_other; [exact Hrt1|apply Hma1|done|apply cond_wait_head|].
    unfold R1. by rewrite lookup_insert_eq.
  - cbn. by rewrite lookup_insert_eq.
  - done.
  - intros h us Hne1 Hne2 Hh Hus. eapply woken_rings_other; [exact Hrt1|apply Hma1|done|done|].
    unfold R1. by rewrite lookup_insert_ne.
  - transitivity (with_links w l); [by apply wake_frame_same|]. etrans; [exact Hfr2|]. by eapply (wake_frame_task w2 _ t tv).
  - etrans; [|eapply woken_fd_rings; [exact Hrt1|apply Hma1]].
    eapply (fd_rings_tasks _ R R _ cws); try done. intros u. rewrite elem_of_app, list_elem_of_singleton. naive_solver.
Qed.


End cond.

(** * Examples *)

Lemma cond_signal_wakes_witness :
  ∃ w' R', _co_cond_signal_all 6 true (ex_sync (ex_waiting (cond_wait_list 6)) 2 0) = Ok ((), w') ∧
    rt w' 1 R' [4; 3] ∧ R' !! cond_wait_list 6 = Some [] ∧
    (∀ u, u ∉ [3; 4] → w_tasks w' !! u = w_tasks (ex_sync (ex_waiting (cond_wait_list 6)) 2 0) !! u) ∧
    (∀ u, u ∈ [3; 4] → ∃ v, w_tasks w' !! u = Some v ∧ t_status v = RUNNABLE).
Proof.
  apply (cond_signal_wakes (ex_sync (ex_waiting (cond_wait_list 6)) 2 0) 1
    (ex_waiting_rings (cond_wait_list 6)) [] 6 [3; 4] true);
    [by apply ex_waiting_rt|]. unfold ex_waiting_rings. by rewrite lookup_insert_eq.
Defined.

