(* ===== verification/Sem.v ===== *)
(** co_sem.c: counting semaphores between coroutines.

    [co_sem_wait] loops and may yield in each turn, as [co_mutex_lock] does; one
    turn is [sem_wait_turn]. *)

From Stdlib Require Import ZArith Lia.
From stdpp Require Import base numbers strings sets gmap list.
From S2P Require Import Prelude IntrusiveList Links SpinLock World InnerFd Task Sched Event Mutex Cond.
Open Scope Z_scope.

Definition sem_wait_list (s : ptr) : laddr := LAddr LSemWait s.

Section sem.
Context {K : Kernel}.

Definition co_sem_init (p : ptr) (count : Z) : M unit :=
  w ← get;
  put_sems (<[p := Sem (atomic_set count) Raw.spin_lock_init]> (w_sems w));;
  upd_links (λ l, Ok (list_init l (sem_wait_list p))).

(** An atomic operation on the counter. *)
Definition sem_atomic (p : ptr) (f : Z → bool * Z) : M bool :=
  v ← rd_sem p;
  upd_sem p (λ v, Sem (f (sem_count v)).2 (sem_wait_lock v));;
  mret (f (sem_count v)).1.

Definition sem_spin_lock (p : ptr) : M unit :=
  v ← rd_sem p;
  lk ← lift (Raw.spin_lock (sem_wait_lock v));
  upd_sem p (λ v, Sem (sem_count v) lk).
Definition sem_spin_unlock (p : ptr) : M unit :=
  v ← rd_sem p;
  lk ← lift (Raw.spin_unlock (sem_wait_lock v));
  upd_sem p (λ v, Sem (sem_count v) lk).

Definition sem_get (p : ptr) : M Z := v ← rd_sem p; mret (atomic_get (sem_count v)).

(** One turn of [while(atomic_dec_and_negative(&s->sem))]. *)
Definition sem_wait_turn (p : ptr) : M turn :=
  neg ← sem_atomic p atomic_dec_and_negative;
  if negb (neg : bool) then mret Acquired else
  sem_spin_lock p;;
  v ← sem_get p;
  if decide (0 ≤ v) then sem_spin_unlock p;; mret Acquired else
  t ← co_self;
  upd_links (λ l, list_add_before l (sem_wait_list p) (run_link t));;
  sem_spin_unlock p;;
  co_sync_yield;;
  mret Yielded.

Definition co_sem_try_wait (p : ptr) : M Z :=
  neg ← sem_atomic p atomic_dec_and_negative;
  if negb (neg : bool) then mret 1 else
  sem_spin_lock p;;
  v ← sem_get p;
  if decide (0 ≤ v) then sem_spin_unlock p;; mret 1 else
  _ ← sem_atomic p (λ v, (true, atomic_inc v));
  sem_spin_unlock p;;
  mret 0.

Definition co_sem_post (p : ptr) : M unit :=
  neg ← sem_atomic p atomic_inc_and_negative;
  if negb (neg : bool) then mret () else
  sem_spin_lock p;;
  v ← sem_get p;
  if decide (0 ≤ v) then sem_spin_unlock p else
  t ← take_first (sem_wait_list p);
  sem_spin_unlock p;;
  if decide (t = NULL) then mret () else co_resume t.

Definition co_sem_destory (p : ptr) : M unit := sem_spin_lock p;; sem_spin_unlock p.

(** * Behaviour *)

(** Task [t] runs; semaphore [p] has count [n], a free wait lock and the waiting
    tasks [ws], the longest waiting first. *)
Record sem_at (w : world) (R : gmap laddr (list laddr)) (t p : ptr) (n : Z) (ws : list Z) : Prop := {
  sa_current : ∃ th, w_threads w !! w_self w = Some th ∧ g_current th = t;
  sa_sem : w_sems w !! p = Some (Sem n Raw.SPIN_RELESAED);
  sa_wait : R !! sem_wait_list p = Some (run_link <$> ws)
}.

Lemma sem_wait_head p : wait_head (sem_wait_list p).
Proof. by split. Qed.

Lemma rt_sems w s R ts x : rt w s R ts → rt (with_sems w x) s R ts.
Proof. intros Hrt. by eapply rt_frame. Qed.

(** [co_sem_wait]: the count goes down by one; the caller passes if it was
    positive and otherwise waits at the end of the line. *)
Lemma sem_wait_turn_pass w s R ts t p n ws :
  rt w s R ts → sem_at w R t p n ws → 0 < n < 2 ^ 31 →
  wp (sem_wait_turn p) (λ r w', r = Acquired ∧ rt w' s R ts ∧ sem_at w' R t p (n - 1) ws) w.
Proof.
  intros Hrt [(th & Hth & Hc) Hs Hws] Hn. unfold sem_wait_turn, sem_atomic.
  wp_steps. cbn. rewrite s32_small by lia. rewrite bool_decide_eq_false_2 by lia. cbn. wp_steps.
  split; [done|]. split; [by apply rt_sems|]. split; cbn; [by eauto|by rewrite lookup_insert_eq|done].
Qed.

Lemma sem_wait_turn_block w s R ts t p n ws tv :
  rt w s R ts → sem_at w R t p n ws → - 2 ^ 31 < n ≤ 0 → w_tasks w !! t = Some tv →
  ¬ in_rings R (run_link t) →
  wp (sem_wait_turn p) (λ r w', r = Yielded ∧ ∃ R' tv', rt w' s R' ts ∧
    sem_at w' R' t p (n - 1) (ws ++ [t]) ∧ w_tasks w' !! t = Some tv' ∧ t_status tv' = SYS_BLOCK) w.
Proof.
  intros Hrt [(th & Hth & Hc) Hs Hws] Hn Htv Hni.
  destruct (rt_add_wait w s R ts (sem_wait_list p) ws t tv) as (l & Ha & Hrt' & _);
    [done|apply sem_wait_head|done|done|done|].
  unfold sem_wait_turn, sem_atomic, sem_spin_lock, sem_spin_unlock, sem_get, co_sync_yield, set_status, co_self.
  wp_steps. cbn. rewrite s32_small by lia. rewrite bool_decide_eq_true_2 by lia. cbn. wp_steps. cbn.
  rewrite decide_False by (unfold atomic_get; lia). wp_steps. rewrite Hc.
  eapply wp_upd_links; [exact Ha|]. wp_steps. rewrite Hc. wp_steps. cbn. wp_steps.
  split; [done|]. eexists _, _. split_and!.
  - eapply (rt_frame (with_tasks (with_links w l) (<[t := _]> (w_tasks w)))); [|reflexivity..].
    eapply (rt_task_upd (with_links w l)); [exact Hrt'|exact Htv|reflexivity].
  - split; cbn; [by eauto|by rewrite lookup_insert_eq|by rewrite lookup_insert_eq].
  - cbn. by rewrite lookup_insert_eq.
  - done.
Qed.

(** The waiters a post wakes: the first one, but only if the count stays
    negative after the increment. *)
Definition sem_woken (n : Z) (ws : list Z) : list Z :=
  if decide (n + 1 < 0) then take 1 ws else [].

(** Semaphore [p] after a post, whoever runs. *)
Record sem_state (w : world) (R : gmap laddr (list laddr)) (p : ptr) (n : Z) (ws : list Z) : Prop := {
  ss_sem : w_sems w !! p = Some (Sem n Raw.SPIN_RELESAED);
  ss_wait : R !! sem_wait_list p = Some (run_link <$> ws)
}.

Lemma sem_at_state w R t p n ws : sem_at w R t p n ws → sem_state w R p n ws.
Proof. by intros [? ? ?]. Qed.

Lemma co_sem_post_wp w s R ts p n ws :
  rt w s R ts → sem_state w R p n ws → - 2 ^ 31 ≤ n < 2 ^ 31 - 1 →
  wp (co_sem_post p) (λ _ w', ∃ R', rt w' s R' (sem_woken n ws ++ ts) ∧
    sem_state w' R' p (n + 1) (drop (length (sem_woken n ws)) ws) ∧
    same_ctx w w' ∧
    (∀ u, u ∈ sem_woken n ws → ∃ v, w_tasks w' !! u = Some v ∧ t_status v = RUNNABLE) ∧
    (∀ u, u ∉ sem_woken n ws → w_tasks w' !! u = w_tasks w !! u)) w.
Proof.
  intros Hrt [Hs Hws] Hn. unfold co_sem_post, sem_atomic, sem_spin_lock, sem_spin_unlock, sem_get, sem_woken.
  wp_steps. cbn. rewrite s32_small by lia. case_decide as Hneg.
  2:{ rewrite bool_decide_eq_false_2 by lia. cbn. wp_steps. exists R.
      split; [by apply rt_sems|]. split; [split; cbn; [by rewrite lookup_insert_eq|done]|].
      split; [by split_and!|]. split; [intros u []%not_elem_of_nil|done]. }
  rewrite bool_decide_eq_true_2 by lia. cbn. wp_steps. cbn.
  rewrite decide_False by (unfold atomic_get; lia). wp_step. set (w1 := with_sems _ _).
  assert (Hrt1 : rt w1 s R ts) by (by eapply rt_frame). destruct ws as [|x ws].
  - eapply take_first_empty_wp; [exact Hrt1|exact Hws|]. wp_steps. rewrite decide_True by done.
    wp_steps. exists R. split; [by eapply rt_frame|].
    split; [split; cbn; [by rewrite lookup_insert_eq|done]|]. split; [by split_and!|].
    split; [intros u []%not_elem_of_nil|done].
  - destruct (waiter_live _ _ _ _ _ _ _ Hrt1 (sem_wait_head p) Hws) as [[tv Htv] Hxts].
    eapply (take_first_wp w1 s R ts _ x ws); [exact Hrt1|apply sem_wait_head|exact Hws|exact Htv|].
    intros l Hrt2 Hws2 Hni2 _. rewrite filter_ne_id in Hrt2 by done. wp_steps. cbn.
    destruct (rt_tasks _ _ _ _ _ _ Hrt1 Htv) as (Hxn & _). rewrite decide_False by done.
    eapply (sched_rq_enqueue_wp _ s (ring_remove (run_link x) R) ts); [|exact Htv|].
    { eapply (rt_frame (with_links w1 l)); [exact Hrt2|reflexivity..]. }
    intros sv l3 Hsv Hrt3 _. rewrite filter_ne_id in Hrt3 by done.
    exists (enqueue_rings s x ts (ring_remove (run_link x) R)). cbn [take drop length app].
    split; [exact Hrt3|]. split; [split|split; [|split]].
    + cbn. by rewrite lookup_insert_eq.
    + rewrite enqueue_rings_other, Hws2 by done. apply (f_equal Some).
      rewrite (filter_run_link x ws), filter_ne_id; [done|]. intros Hx. destruct Hni2 as [].
      exists (sem_wait_list p), (run_link <$> ws). split; [done|]. right. by apply list_elem_of_fmap_2.
    + split_and!; [done|done|]. intros u Hu. cbn. rewrite lookup_insert. case_decide; [by eauto|done].
    + intros u ->%list_elem_of_singleton. cbn. rewrite lookup_insert_eq. by eauto.
    + intros u Hu. cbn. rewrite lookup_insert_ne; [done|]. set_solver.
Qed.

(** [co_sem_wait], one turn: the count goes down by one; the caller passes
    if it was positive and otherwise is blocked at the end of the line. *)
Theorem co_sem_wait_cases w s R ts t p n ws tv :
  rt w s R ts → sem_at w R t p n ws → - 2 ^ 31 < n < 2 ^ 31 → w_tasks w !! t = Some tv →
  ¬ in_rings R (run_link t) →
  (0 < n → ∃ w', sem_wait_turn p w = Ok (Acquired, w') ∧ rt w' s R ts ∧ sem_at w' R t p (n - 1) ws) ∧
  (n ≤ 0 → ∃ w' R' tv', sem_wait_turn p w = Ok (Yielded, w') ∧ rt w' s R' ts ∧
     sem_at w' R' t p (n - 1) (ws ++ [t]) ∧ w_tasks w' !! t = Some tv' ∧ t_status tv' = SYS_BLOCK).
Proof.
  intros Hrt Hsa Hn Htv Hni. split; intros Hp.
  - destruct (sem_wait_turn_pass w s R ts t p n ws) as (r & w' & ? & -> & ?); [done|done|lia|]. eauto.
  - destruct (sem_wait_turn_block w s R ts t p n ws tv) as (r & w' & ? & -> & R' & tv' & ?);
      [done|done|lia|done|done|]. eauto 10.
Qed.

(** [co_sem_post]: the count goes up by one and, when it is still negative,
    the task that has waited longest becomes runnable and leaves the line; when
    the count reaches zero or more nobody is woken. *)
Theorem co_sem_post_wakes w s R ts p n ws :
  rt w s R ts → sem_state w R p n ws → - 2 ^ 31 ≤ n < 2 ^ 31 - 1 →
  ∃ w' R', co_sem_post p w = Ok ((), w') ∧ rt w' s R' (sem_woken n ws ++ ts) ∧
    sem_state w' R' p (n + 1) (drop (length (sem_woken n ws)) ws) ∧
    (∀ u, u ∈ sem_woken n ws → ∃ v, w_tasks w' !! u = Some v ∧ t_status v = RUNNABLE) ∧
    (∀ u, u ∉ sem_woken n ws → w_tasks w' !! u = w_tasks w !! u).
Proof.
  intros Hrt Hss Hn. destruct (co_sem_post_wp w s R ts p n ws Hrt Hss Hn)
    as ([] & w' & ? & R' & ? & ? & _ & ? & ?). by exists w', R'.
Qed.

(** [k] posts in a row. *)
Fixpoint posts (k : nat) (p : ptr) : M unit :=
  match k with O => mret () | S k => co_sem_post p;; posts k p end.

Lemma posts_wp k w s R ts p n ws :
  rt w s R ts → sem_state w R p n ws → -1 ≤ n → n + Z.of_nat k < 2 ^ 31 →
  wp (posts k p) (λ _ w', ∃ R', rt w' s R' ts ∧ sem_state w' R' p (n + Z.of_nat k) ws ∧
    (∀ u, w_tasks w' !! u = w_tasks w !! u)) w.
Proof.
  revert w R n. induction k as [|k IH]; intros w R n Hrt Hss Hlo Hhi; cbn [posts].
  { wp_steps. exists R. by rewrite Z.add_0_r. }
  wp_step. eapply wp_mono; [apply (co_sem_post_wp w s R ts p n ws); [done|done|lia]|].
  intros [] w1 (R1 & Hrt1 & Hss1 & _ & _ & Hoth). unfold sem_woken in *.
  rewrite decide_False in * by lia. cbn [app drop length] in *.
  eapply wp_mono; [apply (IH w1 R1 (n + 1)); [done|done|lia|lia]|].
  intros [] w' (R' & Hrt' & Hss' & Hoth'). exists R'. split; [done|].
  replace (n + Z.of_nat (S k)) with (n + 1 + Z.of_nat k) by lia. split; [done|].
  intros u. rewrite Hoth'. apply Hoth. set_solver.
Qed.

(** C38. A task that waits on a semaphore with count 0 is lost: however many
    times the semaphore is posted before anybody else waits, the task stays
    blocked on the wait list. *)
Theorem sem_lone_waiter_lost w s R ts t p tv k :
  rt w s R ts → sem_at w R t p 0 [] → w_tasks w !! t = Some tv → ¬ in_rings R (run_link t) →
  Z.of_nat k < 2 ^ 31 →
  ∃ w' R' tv', (sem_wait_turn p;; posts k p) w = Ok ((), w') ∧ rt w' s R' ts ∧
    sem_state w' R' p (Z.of_nat k - 1) [t] ∧ w_tasks w' !! t = Some tv' ∧ t_status tv' = SYS_BLOCK.
Proof.
  intros Hrt Hsa Htv Hni Hk.
  assert (Hwp : wp (sem_wait_turn p;; posts k p) (λ _ w', ∃ R' tv', rt w' s R' ts ∧
    sem_state w' R' p (Z.of_nat k - 1) [t] ∧ w_tasks w' !! t = Some tv' ∧ t_status tv' = SYS_BLOCK) w).
  { wp_step. eapply wp_mono; [apply (sem_wait_turn_block w s R ts t p 0 [] tv); [done|done|lia|done|done]|].
    intros r w1 (_ & R1 & tv1 & Hrt1 & Hsa1 & Htv1 & Hst).
    eapply wp_mono; [apply (posts_wp k w1 s R1 ts p (-1) [t]); [done|by eapply sem_at_state|lia|lia]|].
    intros [] w' (R' & Hrt' & Hss' & Hoth). exists R', tv1. rewrite Hoth. split_and!; try done.
    by replace (Z.of_nat k - 1) with (-1 + Z.of_nat k) by lia. }
  destruct Hwp as ([] & w' & ? & R' & tv' & ?). by exists w', R', tv'.
Qed.

End sem.

(** * Examples *)

Lemma ex_sem_state n :
  sem_state (ex_sync (ex_waiting (sem_wait_list 7)) 2 n) (ex_waiting_rings (sem_wait_list 7)) 7 n [3; 4].
Proof. split; [reflexivity|]. unfold ex_waiting_rings. by rewrite lookup_insert_eq. Qed.

Lemma co_sem_wait_cases_witness :
  ∃ w' R' tv', sem_wait_turn 7 (ex_sync (ex_waiting (sem_wait_list 7)) 2 (-2)) = Ok (Yielded, w') ∧
    rt w' 1 R' [] ∧ sem_at w' R' 2 7 (-3) [3; 4; 2] ∧
    w_tasks w' !! 2 = Some tv' ∧ t_status tv' = SYS_BLOCK.
Proof.
  apply (co_sem_wait_cases (ex_sync (ex_waiting (sem_wait_list 7)) 2 (-2)) 1
    (ex_waiting_rings (sem_wait_list 7)) [] 2 7 (-2) [3; 4] ex_task2);
    [by apply ex_waiting_rt| |lia|reflexivity|by apply ex_waiting_ready|lia].
  destruct (ex_sem_state (-2)). by split; [eexists|..].
Defined.

Lemma co_sem_post_wakes_witness :
  ∃ w' R', co_sem_post 7 (ex_sync (ex_waiting (sem_wait_list 7)) 2 (-2)) = Ok ((), w') ∧
    rt w' 1 R' [3] ∧ sem_state w' R' 7 (-1) [4] ∧
    (∀ u, u ∈ [3] → ∃ v, w_tasks w' !! u = Some v ∧ t_status v = RUNNABLE) ∧
    (∀ u, u ∉ [3] → w_tasks w' !! u = w_tasks (ex_sync (ex_waiting (sem_wait_list 7)) 2 (-2)) !! u).
Proof.
  apply (co_sem_post_wakes (ex_sync (ex_waiting (sem_wait_list 7)) 2 (-2)) 1
    (ex_waiting_rings (sem_wait_list 7)) [] 7 (-2) [3; 4]);
    [by apply ex_waiting_rt|apply ex_sem_state|lia].
Defined.

Lemma sem_lone_waiter_lost_witness :
  ∃ w' R' tv', (sem_wait_turn 7;; posts 5 7) (ex_sync ex_sync_links 2 0) = Ok ((), w') ∧ rt w' 1 R' [] ∧
    sem_state w' R' 7 4 [2] ∧ w_tasks w' !! 2 = Some tv' ∧ t_status tv' = SYS_BLOCK.
Proof.
  apply (sem_lone_waiter_lost (ex_sync ex_sync_links 2 0) 1 ex_sync_rings [] 2 7 ex_task2 5);
    [apply ex_sync_rt| |reflexivity|by intros []%ex_sync_in%ex_heads_no_task|lia].
  split; [by eexists|reflexivity|reflexivity].
Defined.
