(* ===== verification/Blocking.v ===== *)
(** The blocking functions of the runtime in one piece: [event_poll] (event.c),
    [co_mutex_lock] (co_mutex.c), [co_cond_wait] and [co_cond_wait_till]
    (co_cond.c) and [co_sem_wait] (co_sem.c), put together from the parts
    between two yields.  [fuel] bounds how often a loop goes round. *)

From Stdlib Require Import ZArith Lia.
From stdpp Require Import base numbers strings sets gmap list.
From S2P Require Import Prelude IntrusiveList Links SpinLock TimeWheel World Coroutine InnerFd Task.
From S2P Require Import Sched Event Mutex Cond Sem.
Open Scope Z_scope.

Section blocking.
Context {K : Kernel}.

(** [ifd] is the local variable of [event_poll]. *)
Definition event_poll (ep : ptr) (fd events : Z) : C Z :=
  let! ifd := act (get_inner_fd fd) in
  let! r := act (event_poll_begin ep fd events) in
  match r with
  | Some r => cret r
  | None => do! yield in act (event_poll_end ep ifd)
  end.

(** A loop given by its turn. *)
Fixpoint turns (fuel : nat) (step : M turn) : C unit :=
  match fuel with
  | O => act (lift OutOfFuel)
  | S fuel =>
      let! r := act step in
      match r with
      | Acquired => cret ()
      | Yielded => do! yield in turns fuel step
      | Again => turns fuel step
      end
  end.

Definition mutex_lock (fuel : nat) (m : ptr) : C unit :=
  let! r := act (co_mutex_lock m) in
  match r with
  | Acquired => cret ()
  | Yielded => do! yield in turns fuel (lock_turn m)
  | Again => turns fuel (lock_turn m)
  end.

Definition cond_wait (fuel : nat) (c m : ptr) : C unit :=
  do! act (co_cond_wait_begin c m) in
  do! yield in
  mutex_lock fuel m.

Definition cond_wait_till (fuel : nat) (c m : ptr) (ms : Z) : C bool :=
  let! timerfd := act (co_cond_wait_till_begin c m ms) in
  do! yield in
  let! timeout := act (is_timeout_timer timerfd) in
  do! act (close_timer timerfd) in
  do! mutex_lock fuel m in
  cret timeout.

Definition sem_wait (fuel : nat) (p : ptr) : C unit := turns fuel (sem_wait_turn p).

End blocking.
