(* ===== verification/Hook.v ===== *)
(** sys_hook.c: the system calls of the process, which block the calling task
    instead of the thread.

    [HOOK_SYS_CALL] has found the C library's function; that function is a
    system call of [Sockets].  The calls that receive ([read], [recv],
    [recvfrom], [recvmsg]) share one shape in the source, as do those that send;
    each is an instance of that shape here. *)

From Stdlib Require Import ZArith Lia.
From stdpp Require Import base numbers strings sets gmap list.
From S2P Require Import Prelude IntrusiveList Links SpinLock TimeWheel World Coroutine InnerFd Task.
From S2P Require Import Sched Event Mutex Cond Sem Blocking.
Open Scope Z_scope.

(** The calls behind the hooks.  A call that receives returns its value, the
    bytes it stored in the buffer and its [errno]. *)
Class Sockets `{K : Kernel} := {
  sys_read : Z → Z → kstate → (Z * list Z * Z) * kstate;              (* fd n *)
  sys_recv : Z → Z → Z → kstate → (Z * list Z * Z) * kstate;          (* fd n flags *)
  sys_recvfrom : Z → Z → Z → kstate → (Z * list Z * Z) * kstate;      (* fd n flags *)
  sys_recvmsg : Z → Z → kstate → (Z * list Z * Z) * kstate;           (* fd flags *)
  sys_send : Z → list Z → Z → kstate → (Z * Z) * kstate;              (* fd bytes flags *)
  sys_sendto : Z → list Z → Z → Z → kstate → (Z * Z) * kstate;        (* fd bytes flags address *)
  sys_sendmsg : Z → list (list Z) → Z → kstate → (Z * Z) * kstate;    (* fd iovec flags *)
  sys_fcntl : Z → Z → Z → kstate → (Z * Z) * kstate;                  (* fd cmd arg *)
  sys_socket : Z → Z → Z → kstate → (Z * Z) * kstate;
  sys_listen : Z → Z → kstate → (Z * Z) * kstate;
  sys_connect : Z → Z → kstate → (Z * Z) * kstate;                    (* fd address *)
  sys_accept : Z → kstate → (Z * Z) * kstate;
  sys_so_error : Z → kstate → Z * kstate;                             (* getsockopt SO_ERROR *)
  sys_pipe : kstate → (Z * (Z * Z)) * kstate;
  sys_sleep : Z → kstate → Z * kstate;
  sys_gethostbyname_r : list Z → Z → kstate → (Z * Z) * kstate        (* name herrno: value, herrno *)
}.

(** errno.h and fcntl.h; EWOULDBLOCK is EAGAIN. *)
Definition EAGAIN : Z := 11.
Definition EALREADY : Z := 114.
Definition EINPROGRESS : Z := 115.
Definition F_DUPFD : Z := 0.
Definition F_GETFD : Z := 1.
Definition F_SETFD : Z := 2.
Definition F_GETFL : Z := 3.
Definition F_SETFL : Z := 4.
Definition F_GETLK : Z := 5.
Definition F_SETLK : Z := 6.
Definition F_SETLKW : Z := 7.
Definition F_SETOWN : Z := 8.
Definition F_GETOWN : Z := 9.
Definition F_DUPFD_CLOEXEC : Z := 1030.

Section hook.
Context `{S : Sockets}.

(** [current_thread_epoll()]. *)
Definition current_thread_epoll : M ptr := s ← current_sched; v ← rd_sched s; mret (s_epoll v).

Definition set_i_user_flags (i : ptr) (f : Z) : M unit :=
  upd_ifd i (λ v, InnerFd (i_fd v) (i_flags v) f (i_task v) (i_timeout v) (i_error v)).
Definition set_i_flags (i : ptr) (f : Z) : M unit :=
  upd_ifd i (λ v, InnerFd (i_fd v) f (i_user_flags v) (i_task v) (i_timeout v) (i_error v)).

(** * fcntl *)

(** [ifd && (ifd->flags & O_NONBLOCK)]. *)
Definition ifd_nonblock (ifd : ptr) : M bool :=
  if decide (ifd = NULL) then mret false else
  v ← rd_ifd ifd; mret (has (i_flags v) O_NONBLOCK).

Definition fcntl_setfl (fd : Z) (ifd : ptr) (flags : Z) : M Z :=
  h ← co_hooked;
  if negb (h : bool) then syscall (sys_fcntl fd F_SETFL flags) else
  ifd ← (if decide (ifd = NULL) then
           if has flags O_NONBLOCK then new_inner_fd fd else mret ifd
         else mret ifd);
  if negb (has flags O_NONBLOCK) then
    set_i_user_flags ifd flags;;
    syscall (sys_fcntl fd F_SETFL (Z.lor flags O_NONBLOCK))
  else
  v ← rd_ifd ifd;
  if decide (i_user_flags v = flags) then mret 0 else
  if decide (i_flags v = flags) then set_i_user_flags ifd (i_flags v);; mret 0 else
  ret ← syscall (sys_fcntl fd F_SETFL flags);
  (if decide (0 = ret) then set_i_user_flags ifd flags;; set_i_flags ifd flags else mret ());;
  mret ret.

(** [param] is the third argument, 0 when the call has none. *)
Definition fcntl (fd cmd param : Z) : M Z :=
  if decide (fd < 0) then set_errno EBADF;; mret (-1) else
  ifd ← get_inner_fd fd;
  if decide (cmd = F_DUPFD_CLOEXEC ∨ cmd = F_DUPFD) then
    ret ← syscall (sys_fcntl fd cmd param);
    h ← (if decide (0 < ret) then co_hooked else mret false);
    nb ← (if (h : bool) then ifd_nonblock ifd else mret false);
    (if (nb : bool) then _ ← new_inner_fd ret; mret () else mret ());;
    mret ret
  else if decide (cmd = F_GETFD ∨ cmd = F_GETOWN) then syscall (sys_fcntl fd cmd 0)
  else if decide (cmd = F_GETFL) then
    h ← co_hooked;
    if negb (h : bool) then syscall (sys_fcntl fd cmd 0) else
    if decide (ifd = NULL) then syscall (sys_fcntl fd cmd 0) else
    v ← rd_ifd ifd; mret (i_user_flags v)
  else if decide (cmd = F_SETFL) then fcntl_setfl fd ifd param
  else if decide (cmd = F_SETFD ∨ cmd = F_SETOWN ∨ cmd = F_GETLK ∨ cmd = F_SETLK ∨ cmd = F_SETLKW) then
    syscall (sys_fcntl fd cmd param)
  else mret (-1).

Definition in_set_nonblock (sockfd : Z) : M Z :=
  co_disable_hook;;
  user_flags ← fcntl sockfd F_GETFL 0;
  co_enable_hook;;
  r ← fcntl sockfd F_SETFL (Z.lor user_flags O_NONBLOCK);
  if decide (r < 0) then mret (-1) else
  ifd ← get_inner_fd sockfd;
  set_i_user_flags ifd user_flags;;
  mret 0.

(** * Sockets *)

Definition socket (domain type protocol : Z) : M Z :=
  sockfd ← syscall (sys_socket domain type protocol);
  if decide (sockfd < 0) then mret sockfd else
  h ← co_hooked;
  if negb (h : bool) then mret sockfd else
  _ ← in_set_nonblock sockfd;
  mret sockfd.

Definition listen (sockfd backlog : Z) : M Z :=
  ifd ← get_inner_fd sockfd;
  h ← co_hooked;
  (if (h : bool) then if decide (ifd = NULL) then mret () else set_i_timeout ifd (-1) else mret ());;
  syscall (sys_listen sockfd backlog).

(** [!co_hooked()], or [!ifd || !(O_NONBLOCK & ifd->flags)]: the call goes
    straight to the kernel.  The [ifd] otherwise. *)
Definition hooked_fd (fd : Z) : M (option ptr) :=
  h ← co_hooked;
  if negb (h : bool) then mret None else
  ifd ← get_inner_fd fd;
  nb ← ifd_nonblock ifd;
  mret (if (nb : bool) then Some ifd else None).

(** sys_helper.c; [getsockopt] leaves 0 in [error] when it fails. *)
Definition get_connect_error (fd : Z) : M Z :=
  w ← get;
  let '(e, k) := sys_so_error fd (w_kernel w) in
  put_kernel k;; mret e.

Definition connect (sockfd address : Z) : C Z :=
  let! isfd := act (hooked_fd sockfd) in
  let! ret := act (syscall (sys_connect sockfd address)) in
  match isfd with
  | None => cret ret
  | Some isfd =>
      let! en := act rd_errno in
      if negb (bool_decide (ret = -1 ∧ (en = EALREADY ∨ en = EINPROGRESS))) then cret ret else
      let! ep := act current_thread_epoll in
      let! ret := event_poll ep sockfd (Z.lor EPOLLOUT (Z.lor EPOLLRDHUP EPOLLERR)) in
      if decide (ret ≠ 0) then cret (-1) else
      let! v := act (rd_ifd isfd) in
      if has (i_error v) IEWRITE then
        let! e := act (get_connect_error sockfd) in
        do! act (set_errno e) in
        cret (if decide (e = 0) then 0 else -1)
      else cret ret
  end.

Definition accept (sockfd : Z) : C Z :=
  let! isfd := act (hooked_fd sockfd) in
  let! ret := act (syscall (sys_accept sockfd)) in
  match isfd with
  | None => cret ret
  | Some isfd =>
      let finish (ret : Z) := do! act (in_set_nonblock ret) in cret ret in
      if decide (0 ≤ ret) then finish ret else
      let! en := act rd_errno in
      if decide (en ≠ EAGAIN) then cret ret else
      let! ep := act current_thread_epoll in
      let! ret := event_poll ep sockfd (Z.lor EPOLLIN (Z.lor EPOLLRDHUP (Z.lor EPOLLERR EPOLLET))) in
      if decide (ret ≠ 0) then cret ret else
      let! ret := act (syscall (sys_accept sockfd)) in
      if decide (ret < 0) then cret ret else finish ret
  end.

(** * Receiving *)

(** A call that receives: its value, converted to the type it is stored in, and
    the bytes. *)
Definition in_syscall (cast : Z → Z) (call : kstate → (Z * list Z * Z) * kstate) : M (Z * list Z) :=
  w ← get;
  let '((r, bs, e), k) := call (w_kernel w) in
  put_kernel k;;
  (if decide (r < 0) then set_errno e else mret ());;
  mret (cast r, bs).

(** [ret] is an [int]; without the hook the value goes through unchanged, or as
    an [int] too when the function returns one. *)
Definition hooked_in (direct : Z → Z) (fd : Z) (call : kstate → (Z * list Z * Z) * kstate) : C (Z * list Z) :=
  let! ifd := act (hooked_fd fd) in
  match ifd with
  | None => act (in_syscall direct call)
  | Some ifd =>
      let! r := act (in_syscall s32 call) in
      let! en := act rd_errno in
      if negb (bool_decide (r.1 = -1 ∧ en = EAGAIN)) then cret r else
      let! ep := act current_thread_epoll in
      let! p := event_poll ep fd (Z.lor EPOLLIN (Z.lor EPOLLRDHUP EPOLLERR)) in
      if decide (p ≠ 0) then cret (-1, []) else
      let! r := act (in_syscall s32 call) in
      if decide (r.1 = 0) then
        let! v := act (rd_ifd ifd) in
        cret (if has (i_error v) IERDHUP then (-1, r.2) else r)
      else cret r
  end.

Definition read (fd n : Z) : C (Z * list Z) := hooked_in s32 fd (sys_read fd n).
Definition recv (sockfd len flags : Z) : C (Z * list Z) := hooked_in id sockfd (sys_recv sockfd len flags).
Definition recvfrom (sockfd len flags : Z) : C (Z * list Z) :=
  hooked_in id sockfd (sys_recvfrom sockfd len flags).
Definition recvmsg (sockfd flags : Z) : C (Z * list Z) := hooked_in id sockfd (sys_recvmsg sockfd flags).

(** * Sending *)

(** [while(len < n) { ... len += ret; }]: [inl] returns from the function, [inr]
    leaves the loop.  [call len] sends what is left. *)
Fixpoint out_loop (fuel : nat) (call : Z → M Z) (n len : Z) : M (Z + Z) :=
  if decide (n ≤ len) then mret (inr len) else
  match fuel with
  | O => lift OutOfFuel
  | Datatypes.S fuel =>
      ret ← call len;
      let ret := s32 ret in
      if decide (ret < 0) then
        en ← rd_errno;
        mret (if decide (en = EAGAIN) then inr len else inl ret)
      else
      len ← lift (if decide (len + ret ≤ INT_MAX) then Ok (len + ret) else Undef);
      out_loop fuel call n len
  end.

(** [while(1)] around it. *)
Fixpoint out_turns (fuel : nat) (fd : Z) (call : Z → M Z) (n len : Z) : C Z :=
  match fuel with
  | O => act (lift OutOfFuel)
  | Datatypes.S fuel' =>
      let! r := act (out_loop fuel call n len) in
      match r with
      | inl ret => cret ret
      | inr len =>
          if decide (n ≤ len) then cret len else
          let! ep := act current_thread_epoll in
          let! p := event_poll ep fd (Z.lor EPOLLOUT (Z.lor EPOLLRDHUP (Z.lor EPOLLERR EPOLLET))) in
          if decide (p ≠ 0) then cret (-1) else
          out_turns fuel' fd call n len
      end
  end.

(** Without the hook the call goes to the kernel once. *)
Definition hooked_out (direct : Z → Z) (fuel : nat) (fd : Z) (call : Z → M Z) (n : Z) : C Z :=
  let! ifd := act (hooked_fd fd) in
  match ifd with
  | None => act (r ← call 0; mret (direct r))
  | Some _ => out_turns fuel fd call n 0
  end.

(** [buf + len], [n - len]. *)
Definition rest (buf : list Z) (len : Z) : list Z := drop (Z.to_nat len) buf.

(** The call with a buffer the task keeps to itself. *)
Definition to_kernel (call : Z → kstate → (Z * Z) * kstate) (len : Z) : M Z := syscall (call len).

Definition write (fuel : nat) (fd : Z) (buf : list Z) : C Z :=
  hooked_out s32 fuel fd (to_kernel (λ len, sys_write fd (rest buf len))) (Z.of_nat (length buf)).
Definition send (fuel : nat) (sockfd : Z) (buf : list Z) (flags : Z) : C Z :=
  hooked_out id fuel sockfd (to_kernel (λ len, sys_send sockfd (rest buf len) flags)) (Z.of_nat (length buf)).
Definition sendto (fuel : nat) (sockfd : Z) (buf : list Z) (flags dest : Z) : C Z :=
  hooked_out id fuel sockfd (to_kernel (λ len, sys_sendto sockfd (rest buf len) flags dest)) (Z.of_nat (length buf)).

(** sys_helper.c: [len += msg->msg_iov[i].iov_len] into an [int]. *)
Definition get_msg_len (msg : option (list (list Z))) : Z :=
  match msg with
  | None => -1
  | Some iov => fold_left (λ len v, s32 (len + Z.of_nat (length v))) iov 0
  end.

(** Every turn sends the whole message. *)
Definition sendmsg (fuel : nat) (sockfd : Z) (msg : list (list Z)) (flags : Z) : C Z :=
  let! ifd := act (hooked_fd sockfd) in
  match ifd with
  | None => act (syscall (sys_sendmsg sockfd msg flags))
  | Some _ =>
      let n := get_msg_len (Some msg) in
      if decide (n < 0) then act (syscall (sys_sendmsg sockfd msg flags)) else
      out_turns fuel sockfd (to_kernel (λ _, sys_sendmsg sockfd msg flags)) n 0
  end.

(** * Names *)

(** [*h_errnop] goes in and comes out. *)
Definition resolve (name : list Z) (herrno : Z) : M (Z * Z) :=
  w ← get;
  let '(r, k) := sys_gethostbyname_r name herrno (w_kernel w) in
  put_kernel k;; mret r.

(** The mutex of the thread keeps its tasks apart. *)
Definition gethostbyname_r (fuel : nat) (name : list Z) (herrno : Z) : C (Z * Z) :=
  let! h := act co_hooked in
  if negb h then act (resolve name herrno) else
  let! w := act get in
  do! mutex_lock fuel (dns_mutex (w_self w)) in
  let! r := act (resolve name herrno) in
  do! act (co_mutex_unlock (dns_mutex (w_self w))) in
  cret r.

End hook.
