(* ===== verification/HookIO.v ===== *)
(** What the hooked calls promise to the task that makes them: a descriptor that
    is registered and non-blocking is waited for by blocking the task, and data
    is neither lost nor repeated. *)

From Stdlib Require Import ZArith Lia.
From stdpp Require Import base numbers strings sets gmap list.
From S2P Require Import Prelude IntrusiveList Links SpinLock TimeWheel World Coroutine InnerFd Task.
From S2P Require Import Sched Event Mutex Cond Sem Blocking Hook.
Open Scope Z_scope.

Section hookio.
Context `{S : Sockets}.

(** Task [t] runs hooked; descriptor [fd] is registered as object [i] and is
    non-blocking; the thread's scheduler has its timer wheel. *)
Record io_at (w : world) (t fd i : ptr) (s : ptr) (R : gmap laddr (list laddr)) (ts : list Z)
    (sv : sched_t) (e : epoll_t) (tw : time_wheel_t) (th : thread_t) (tv : task_t) (v : inner_fd)
    : Prop := IoAt {
  io_rt : rt w s R ts;
  io_sched : w_scheds w !! s = Some sv;
  io_epoll : w_epolls w !! s_epoll sv = Some e;
  io_timer : ep_timer e = Some tw;
  io_wheel : wheel_ok tw;
  io_slots : ∀ j, 0 ≤ j < tw_size tw → is_Some (R !! slot tw j);
  io_nohead : R !! ifd_link i = None;
  io_link : is_Some (w_links w !! ifd_link i);
  io_thread : w_threads w !! w_self w = Some th;
  io_current : g_current th = t;
  io_task : w_tasks w !! t = Some tv;
  io_hook : t_hook tv = 1;
  io_range : 0 ≤ fd < MAX_FD_NUM;
  io_entry : w_fdtab w !! fd = Some i;
  io_nonnull : i ≠ NULL;
  io_ifd : w_ifds w !! i = Some v;
  io_fd : i_fd v = fd;
  io_nonblock : has (i_flags v) O_NONBLOCK = true;
  io_timeout : - 2 ^ 31 ≤ i_timeout v < tw_size tw
}.

(** [ep] is the epoll instance of the scheduler. *)
Definition io (w : world) (t fd i ep : ptr) : Prop :=
  ∃ s R ts sv e tw th tv v, s_epoll sv = ep ∧ io_at w t fd i s R ts sv e tw th tv v.

Lemma io_intro w t fd i s R ts sv e tw th tv v : io_at w t fd i s R ts sv e tw th tv v → io w t fd i (s_epoll sv).
Proof. intros H. by exists s, R, ts, sv, e, tw, th, tv, v. Qed.

(** The task waits for the descriptor. *)
Definition waits_for (w : world) (t i : ptr) : Prop :=
  (∃ tv, w_tasks w !! t = Some tv ∧ t_status tv = IO_BLOCK) ∧
  (∃ v, w_ifds w !! i = Some v ∧ i_task v = t).

Lemma io_epoll_nonnull w t fd i s R ts sv e tw th tv v :
  io_at w t fd i s R ts sv e tw th tv v → s_epoll sv ≠ NULL.
Proof.
  intros H. destruct (rt_sched _ _ _ _ (io_rt _ _ _ _ _ _ _ _ _ _ _ _ _ H)) as (sv' & Hsv & _ & ? & _).
  pose proof (io_sched _ _ _ _ _ _ _ _ _ _ _ _ _ H). by simplify_eq.
Qed.

Lemma io_task_nonnull w t fd i s R ts sv e tw th tv v :
  io_at w t fd i s R ts sv e tw th tv v → t ≠ NULL.
Proof.
  intros H. by destruct (rt_tasks _ _ _ _ _ _ (io_rt _ _ _ _ _ _ _ _ _ _ _ _ _ H)
    (io_task _ _ _ _ _ _ _ _ _ _ _ _ _ H)).
Qed.

(** The kernel and [errno] may change. *)
Lemma io_at_errno w t fd i s R ts sv e tw th tv v k th' :
  io_at w t fd i s R ts sv e tw th tv v → g_current th' = g_current th → g_sched th' = g_sched th →
  io_at (with_threads (with_kernel w k) (<[w_self w := th']> (w_threads w))) t fd i s R ts sv e tw th' tv v.
Proof.
  intros [] Hc Hs. split; cbn; try done.
  - eapply (rt_threads (with_kernel w k)); [by eapply rt_frame|].
    destruct (rt_self _ _ _ _ io_rt0) as (th0 & Hth0 & <-). congruence.
  - by rewrite lookup_insert_eq.
  - congruence.
Qed.

Lemma io_at_kernel w t fd i s R ts sv e tw th tv v k :
  io_at w t fd i s R ts sv e tw th tv v → io_at (with_kernel w k) t fd i s R ts sv e tw th tv v.
Proof. intros []. split; cbn; try done. by eapply rt_frame. Qed.

(** A system call keeps the runtime as it is. *)
Lemma io_syscall w t fd i s R ts sv e tw th tv v call Q :
  io_at w t fd i s R ts sv e tw th tv v →
  (∀ r er k w', call (w_kernel w) = ((r, er), k) → w_kernel w' = k →
     (r < 0 → g_errno <$> w_threads w' !! w_self w' = Some er) →
     (∃ th', io_at w' t fd i s R ts sv e tw th' tv v) → Q r w') →
  wp (syscall call) Q w.
Proof.
  intros Hio HQ. eapply wp_syscall; [apply Hio|]. intros r er k Hk. eapply HQ; [done|done|..].
  - intros Hr. rewrite decide_True by done. cbn. by rewrite lookup_insert_eq.
  - case_decide.
    + eexists. eapply io_at_errno; [done|done|done].
    + exists th. pose proof (io_at_errno _ _ _ _ _ _ _ _ _ _ _ _ _ k th Hio eq_refl eq_refl) as H'.
      by rewrite insert_id in H' by apply Hio.
Qed.

Lemma hooked_fd_io w t fd i s R ts sv e tw th tv v Q :
  io_at w t fd i s R ts sv e tw th tv v → Q (Some i) w → wp (hooked_fd fd) Q w.
Proof.
  intros Hio HQ. pose proof (io_task_nonnull _ _ _ _ _ _ _ _ _ _ _ _ _ Hio) as Ht. destruct Hio.
  unfold hooked_fd, co_hooked, co_self, ifd_nonblock. wp_steps. rewrite io_current0, decide_False by done.
  wp_steps. rewrite bool_decide_eq_true_2 by done. cbn [negb]. wp_step. apply wp_get_inner_fd; [done|].
  rewrite io_entry0. cbn [default]. wp_step. rewrite decide_False by done. wp_steps.
  by rewrite io_nonblock0.
Qed.

Lemma current_thread_epoll_io w t fd i s R ts sv e tw th tv v Q :
  io_at w t fd i s R ts sv e tw th tv v → Q (s_epoll sv) w → wp current_thread_epoll Q w.
Proof.
  intros [] HQ. unfold current_thread_epoll. wp_step.
  destruct (rt_self _ _ _ _ io_rt0) as (th' & Hth' & Hs). simplify_eq.
  eapply current_sched_ready; [done|by apply (rt_nonnull _ _ _ _ io_rt0)|]. wp_steps. done.
Qed.

(** Facts about the kernel that [epoll_ctl] does not touch. *)
Section polling.
Context (I : kstate → Prop) (HI : ∀ ep op fd ev k, I k → I (sys_epoll_ctl ep op fd ev k).2).

Lemma cntl_events_io w t fd i s R ts sv e tw th tv v op ev Q :
  io_at w t fd i s R ts sv e tw th tv v → I (w_kernel w) →
  (∀ r w' th', io_at w' t fd i s R ts sv e tw th' tv v → I (w_kernel w') → Q r w') →
  wp (cntl_events (s_epoll sv) op fd ev) Q w.
Proof.
  intros Hio HIw HQ. unfold cntl_events.
  rewrite decide_False by (by eapply io_epoll_nonnull).
  rewrite is_fd_valid_spec, bool_decide_eq_true_2 by apply Hio. cbn [negb]. wp_step.
  eapply wp_rd_epoll; [apply Hio|]. eapply io_syscall; [exact Hio|].
  intros r er k w' Hk <- _ [th' Hio']. eapply HQ; [exact Hio'|].
  specialize (HI (ep_fd e) op fd ev _ HIw). by rewrite Hk in HI.
Qed.

Lemma rd_errno_io w t fd i s R ts sv e tw th tv v Q :
  io_at w t fd i s R ts sv e tw th tv v → Q (g_errno th) w → wp rd_errno Q w.
Proof. intros [] HQ. unfold rd_errno. by wp_steps. Qed.

Lemma add_events_io w t fd i s R ts sv e tw th tv v ev Q :
  io_at w t fd i s R ts sv e tw th tv v → I (w_kernel w) →
  (∀ r w' th', io_at w' t fd i s R ts sv e tw th' tv v → I (w_kernel w') → Q r w') →
  wp (add_events (s_epoll sv) fd ev) Q w.
Proof.
  intros Hio HIw HQ. unfold add_events. wp_step. eapply cntl_events_io; [exact Hio|exact HIw|].
  intros r w1 th1 Hio1 HI1. wp_step. eapply rd_errno_io; [exact Hio1|]. case_decide.
  - eapply cntl_events_io; [exact Hio1|exact HI1|exact HQ].
  - wp_step. by eapply HQ.
Qed.

Lemma delete_events_io w t fd i s R ts sv e tw th tv v ev Q :
  io_at w t fd i s R ts sv e tw th tv v → I (w_kernel w) →
  (∀ r w' th', io_at w' t fd i s R ts sv e tw th' tv v → I (w_kernel w') → Q r w') →
  wp (delete_events (s_epoll sv) fd ev) Q w.
Proof.
  intros Hio HIw HQ. unfold delete_events. wp_step. eapply cntl_events_io; [exact Hio|exact HIw|].
  intros r w1 th1 Hio1 HI1. wp_step. eapply rd_errno_io; [exact Hio1|]. wp_step. by eapply HQ.
Qed.

(** An update of the descriptor's object that keeps what [io] says. *)
Lemma io_at_ifd w t fd i s R ts sv e tw th tv v v' :
  io_at w t fd i s R ts sv e tw th tv v →
  i_fd v' = i_fd v → i_flags v' = i_flags v → i_timeout v' = i_timeout v →
  io_at (with_ifds w (<[i := v']> (w_ifds w))) t fd i s R ts sv e tw th tv v'.
Proof.
  intros [] E1 E2 E3. split; cbn; try congruence; try done.
  - by eapply rt_frame.
  - by rewrite lookup_insert_eq.
Qed.

Lemma io_at_status w t fd i s R ts sv e tw th tv v tv' :
  io_at w t fd i s R ts sv e tw th tv v → t_sched tv' = t_sched tv → t_hook tv' = t_hook tv →
  io_at (with_tasks w (<[t := tv']> (w_tasks w))) t fd i s R ts sv e tw th tv' v.
Proof.
  intros [] E1 E2. split; cbn; try congruence; try done.
  - by eapply rt_task_upd.
  - by rewrite lookup_insert_eq.
Qed.

(** The wheel takes the descriptor, or leaves it alone without a timeout. *)
Lemma wheel_update_io w t fd i s R ts sv e tw th tv v :
  io_at w t fd i s R ts sv e tw th tv v →
  ∃ l R', wheel_update_element tw (w_links w) (ifd_link i) (s32 (i_timeout v)) = Ok l ∧
    io_at (with_links w l) t fd i s R' ts sv e tw th tv v.
Proof.
  intros []. pose proof io_wheel0 as [Hs Hl]. rewrite s32_small by lia.
  destruct (decide (i_timeout v < 0)) as [Hneg|Hpos].
  { exists (w_links w), R. split; [unfold wheel_update_element; by rewrite decide_True|].
    split; cbn; try done. by eapply rt_frame. }
  destruct (io_slots0 (wheel_index tw (i_timeout v))) as [xs Hxs].
  { apply wheel_index_ok; [done|unfold INT_MAX; lia]. }
  destruct (wheel_update_lrep tw (w_links w) R i (i_timeout v) xs) as (l & Hu & HR & Hdom);
    [done|unfold INT_MAX; lia|apply io_rt0|done|done|done|].
  exists l, (armed_rings (slot tw (wheel_index tw (i_timeout v))) i xs R). split; [done|].
  split; cbn; try done.
  - by eapply rt_arm.
  - intros j Hj. unfold armed_rings. rewrite lookup_insert. case_decide; [by eauto|].
    rewrite ring_remove_lookup. destruct (io_slots0 j Hj) as [ys ->]. by eauto.
  - unfold armed_rings. rewrite lookup_insert_ne by done. by rewrite ring_remove_lookup, io_nohead0.
  - apply elem_of_dom. rewrite Hdom. by apply elem_of_dom.
Qed.

Lemma event_poll_begin_io w t fd i s R ts sv e tw th tv v ev Q :
  io_at w t fd i s R ts sv e tw th tv v → I (w_kernel w) →
  (∀ w', io w' t fd i (s_epoll sv) → I (w_kernel w') → Q (Some (-1)) w') →
  (∀ w', io w' t fd i (s_epoll sv) → I (w_kernel w') → waits_for w' t i → Q None w') →
  wp (event_poll_begin (s_epoll sv) fd ev) Q w.
Proof.
  intros Hio HIw HQ1 HQ2. unfold event_poll_begin, set_i_error, set_i_task, set_status, co_self. wp_step.
  apply wp_get_inner_fd; [apply Hio|]. rewrite (io_entry _ _ _ _ _ _ _ _ _ _ _ _ _ Hio). cbn [default].
  rewrite decide_False by apply Hio. wp_step. eapply wp_upd_ifd; [apply Hio|]. wp_steps.
  eapply wp_rd_self; [apply Hio|]. wp_steps. rewrite (io_current _ _ _ _ _ _ _ _ _ _ _ _ _ Hio).
  eapply (io_at_ifd _ _ _ _ _ _ _ _ _ _ _ _ _
    (InnerFd (i_fd v) (i_flags v) (i_user_flags v) (i_task v) (i_timeout v) IENONE)) in Hio; [|done..].
  eapply (io_at_ifd _ _ _ _ _ _ _ _ _ _ _ _ _
    (InnerFd (i_fd v) (i_flags v) (i_user_flags v) t (i_timeout v) IENONE)) in Hio; [|done..].
  eapply add_events_io; [exact Hio|exact HIw|]. clear Hio HIw. intros r w1 th1 Hio HIw. case_decide.
  { wp_step. eapply delete_events_io; [exact Hio|exact HIw|]. intros r2 w2 th2 Hio2 HI2. wp_steps.
    apply HQ1; [|done]. by eapply io_intro. }
  wp_step. eapply wp_rd_epoll; [apply Hio|]. wp_step. eapply wp_rd_ifd; [apply Hio|].
  rewrite (io_timer _ _ _ _ _ _ _ _ _ _ _ _ _ Hio). wp_step.
  destruct (wheel_update_io _ _ _ _ _ _ _ _ _ _ _ _ _ Hio) as (l & R' & Hu & Hio').
  eapply wp_upd_links; [exact Hu|]. wp_step. eapply wp_upd_task; [apply Hio'|]. wp_step.
  eapply io_at_status in Hio'; [apply HQ2| |]; [by eapply io_intro|done| |done|done].
  split; cbn; [eexists; by rewrite lookup_insert_eq|]. eexists. split; [apply Hio'|done].
Qed.

Lemma event_poll_end_io w t fd i s R ts sv e tw th tv v Q :
  io_at w t fd i s R ts sv e tw th tv v → I (w_kernel w) →
  (∀ r w', (r = 0 ∨ r = -1) → io w' t fd i (s_epoll sv) → I (w_kernel w') → Q r w') →
  wp (event_poll_end (s_epoll sv) i) Q w.
Proof.
  intros Hio HIw HQ. unfold event_poll_end, wheel_delete_element, set_errno. wp_step.
  destruct (lrep_delete (w_links w) R (ifd_link i)) as (l & Hd & HR & Hdom & Hni);
    [apply (io_rt _ _ _ _ _ _ _ _ _ _ _ _ _ Hio)|apply Hio|apply Hio|].
  eapply wp_upd_links; [exact Hd|].
  assert (Hio1 : io_at (with_links w l) t fd i s (ring_remove (ifd_link i) R) ts sv e tw th tv v).
  { destruct Hio. split; cbn; try done.
    - by eapply rt_remove_ifd.
    - intros j Hj. rewrite ring_remove_lookup. destruct (io_slots0 j Hj) as [ys ->]. by eauto.
    - by rewrite ring_remove_lookup, io_nohead0.
    - apply elem_of_dom. rewrite Hdom. by apply elem_of_dom. }
  clear Hio. wp_step. eapply wp_rd_ifd; [apply Hio1|].
  rewrite (io_fd _ _ _ _ _ _ _ _ _ _ _ _ _ Hio1). wp_step.
  eapply delete_events_io; [exact Hio1|exact HIw|]. clear Hio1 HIw. intros r w1 th1 Hio HIw.
  assert (HQ' : ∀ r w', (r = 0 ∨ r = -1) → (∃ th', io_at w' t fd i s (ring_remove (ifd_link i) R) ts sv e tw th' tv v) →
    w_kernel w' = w_kernel w1 → Q r w').
  { intros r' w' Hr [th' Hio'] Ek. apply HQ; [done|by eapply io_intro|congruence]. }
  clear HQ. case_decide; [wp_steps; apply HQ'; eauto|]. wp_step. eapply wp_rd_ifd; [apply Hio|].
  assert (Herr : ∀ er r, (r = 0 ∨ r = -1) → wp (upd_self (λ t0 : thread_t,
    Thread (g_current t0) (g_sched t0) (g_cids t0) (g_task_alive t0) er (g_cached_tid t0)) ;; mret r) Q w1).
  { intros er r' Hr. wp_step. eapply wp_upd_self; [apply Hio|]. wp_step. apply HQ'; [done| |done].
    eexists. pose proof (io_at_errno _ _ _ _ _ _ _ _ _ _ _ _ _ (w_kernel w1)
      (Thread (g_current th1) (g_sched th1) (g_cids th1) (g_task_alive th1) er (g_cached_tid th1)) Hio
      eq_refl eq_refl) as H'. by destruct w1. }
  repeat (case_match; [apply Herr; by right|]). wp_step. apply HQ'; eauto.
Qed.
End polling.

(** [event_poll] among other tasks: it switches away only with the task blocked
    and registered as the one to wake, and returns 0 or -1.  [I1] is known of the
    kernel before the switch, [I2] after it. *)
Lemma event_poll_io lax Y E (I1 I2 : kstate → Prop) w t fd i ep ev Q :
  (∀ ep op fd ev k, I1 k → I1 (sys_epoll_ctl ep op fd ev k).2) →
  (∀ ep op fd ev k, I2 k → I2 (sys_epoll_ctl ep op fd ev k).2) →
  io w t fd i ep → I1 (w_kernel w) →
  (∀ w', io w' t fd i ep → waits_for w' t i → Y w') →
  (∀ w1 w2, io w1 t fd i ep → waits_for w1 t i → E w1 w2 → I1 (w_kernel w1) →
     io w2 t fd i ep ∧ I2 (w_kernel w2)) →
  (∀ w', io w' t fd i ep → I1 (w_kernel w') → Q (-1) w') →
  (∀ r w', (r = 0 ∨ r = -1) → io w' t fd i ep → I2 (w_kernel w') → Q r w') →
  cwp lax Y E (event_poll ep fd ev) Q w.
Proof.
  intros H1 H2 (s & R & ts & sv & e & tw & th & tv & v & <- & Hio) HIw HY HE HQ1 HQ2. unfold event_poll.
  cwp_step. cwp_step. apply wp_get_inner_fd; [apply Hio|].
  rewrite (io_entry _ _ _ _ _ _ _ _ _ _ _ _ _ Hio). cbn [default]. cwp_step. cwp_step.
  eapply (event_poll_begin_io I1 H1); [exact Hio|exact HIw|..].
  - intros w' Hio' HI'. cwp_step. by apply HQ1.
  - intros w' Hio' HI' Hw'. cwp_step. apply cwp_yield; [by apply HY|].
    intros w2 HE2. destruct (HE w' w2 Hio' Hw' HE2 HI') as
      [(s2 & R2 & ts2 & sv2 & e2 & tw2 & th2 & tv2 & v2 & Hep & Hio2) HI2]. rewrite <-Hep in *. cwp_step.
    eapply (event_poll_end_io I2 H2); [exact Hio2|exact HI2|]. exact HQ2.
Qed.

(** * Sending *)

Section sending.
Context (fd t i ep : Z) (buf : list Z) (call : Z → kstate → (Z * Z) * kstate) (Sent : kstate → list Z).
Let n : Z := Z.of_nat (length buf).

(** What the kernel's call does when [len] bytes have gone: it accepts some of
    the rest, at least one, or fails and accepts none; waiting does not touch
    what has been accepted. *)
Definition accepts : Prop :=
  (∀ len k r er k', 0 ≤ len < n → call len k = ((r, er), k') →
     (0 < r ≤ n - len ∧ Sent k' = Sent k ++ take (Z.to_nat r) (rest buf len)) ∨
     (- 2 ^ 31 ≤ r < 0 ∧ Sent k' = Sent k)) ∧
  (∀ e op fd ev k, Sent (sys_epoll_ctl e op fd ev k).2 = Sent k).

(** The kernel does not answer EAGAIN. *)
Definition writable (k : kstate) : Prop :=
  ∀ len, 0 ≤ len < n → ¬ ((call len k).1.1 < 0 ∧ (call len k).1.2 = EAGAIN).

(** [len] bytes have gone since [base]. *)
Definition sent_upto (base : list Z) (len : Z) (k : kstate) : Prop :=
  0 ≤ len ≤ n ∧ Sent k = base ++ take (Z.to_nat len) buf.

Lemma sent_upto_more base len r k k' :
  0 < r ≤ n - len → sent_upto base len k → Sent k' = Sent k ++ take (Z.to_nat r) (rest buf len) →
  sent_upto base (len + r) k'.
Proof.
  intros Hr [Hl Hs] Hk. split; [lia|]. rewrite Hk, Hs, <-app_assoc. f_equal. unfold rest.
  rewrite Z2Nat.inj_add by lia. by rewrite take_take_drop.
Qed.

Lemma out_loop_io fuel base w len :
  accepts → n ≤ INT_MAX → io w t fd i ep → sent_upto base len (w_kernel w) →
  (out_loop fuel (to_kernel call) n len w = OutOfFuel ∧ Z.of_nat fuel < n - len) ∨
  wp (out_loop fuel (to_kernel call) n len) (λ r w', io w' t fd i ep ∧
    match r with
    | inl ret => ret < 0 ∧ ∃ m, sent_upto base m (w_kernel w')
    | inr len' => len ≤ len' ∧ sent_upto base len' (w_kernel w') ∧
        (writable (w_kernel w) → len < n → len < len')
    end) w.
Proof.
  intros [Hacc _] Hn. revert w len. induction fuel as [|fuel IH]; intros w len Hio Hs.
  - cbn [out_loop]. destruct (decide (n ≤ len)); [right|left; split; [done|lia]].
    wp_steps. split_and!; [done|lia|done|lia].
  - destruct (decide (n ≤ len)) as [Hdone|Hmore].
    { right. cbn [out_loop]. rewrite decide_True by done. wp_steps. split_and!; [done|lia|done|lia]. }
    destruct Hio as (s & R & ts & sv & e & tw & th & tv & v & <- & Hio).
    destruct (call len (w_kernel w)) as [[r er] k] eqn:Hk.
    pose proof Hs as [Hl _].
    destruct (Hacc len (w_kernel w) r er k ltac:(lia) Hk) as [[Hr Hk']|[Hr Hk']].
    + (* accepted *)
      assert (Hwp : wp (to_kernel call len) (λ r' w', r' = r ∧ io w' t fd i (s_epoll sv) ∧ w_kernel w' = k) w).
      { eapply io_syscall; [exact Hio|]. intros r' er' k1 w1 E1 E2 _ [th' Hio1]. rewrite Hk in E1.
        simplify_eq. split_and!; [done|by eapply io_intro|done]. }
      destruct Hwp as (r' & w1 & Hrun & -> & Hio1 & Hk1).
      assert (Hs1 : sent_upto base (len + r) (w_kernel w1)).
      { rewrite Hk1. by eapply sent_upto_more. }
      assert (Hgo : out_loop (Datatypes.S fuel) (to_kernel call) n len w = out_loop fuel (to_kernel call) n (len + r) w1).
      { cbn [out_loop]. rewrite decide_False by done. unfold mbind at 1, M_bind at 1. rewrite Hrun. cbn.
        rewrite s32_small by (unfold INT_MAX in *; lia). rewrite decide_False by lia.
        unfold mbind, M_bind, lift. rewrite decide_True by lia. done. }
      unfold wp. rewrite Hgo. destruct (IH w1 (len + r) Hio1 Hs1) as [[HO Hf]|(a & w' & Ha & Hio' & HQ)].
      * left. split; [done|lia].
      * right. exists a, w'. split_and!; [done|done|]. destruct a; [done|].
        destruct HQ as (? & ? & _). split_and!; [lia|done|lia].
    + (* refused *)
      right. cbn [out_loop]. rewrite decide_False by done. wp_step. eapply io_syscall; [exact Hio|].
      intros r' er' k1 w1 E1 E2 Her [th' Hio1]. rewrite Hk in E1. injection E1 as <- <- <-. cbn zeta.
      rewrite s32_small by lia. rewrite decide_True by lia. wp_step. eapply rd_errno_io; [exact Hio1|].
      wp_step. split; [by eapply io_intro|].
      assert (Hs1 : sent_upto base len (w_kernel w1)).
      { destruct Hs. split; [done|]. rewrite E2. congruence. }
      case_decide as Hen.
      * split_and!; [lia|done|]. intros Hw _. exfalso. apply (Hw len); [lia|]. rewrite Hk. cbn.
        split; [lia|]. specialize (Her (proj2 Hr)). rewrite (io_thread _ _ _ _ _ _ _ _ _ _ _ _ _ Hio1) in Her.
        cbn in Her. congruence.
      * split; [lia|]. by exists len.
Qed.

(** The others give the task the processor back with the runtime intact and have
    not written to the descriptor. *)
Definition gives_back (E : world → world → Prop) : Prop :=
  ∀ w1 w2, io w1 t fd i ep → waits_for w1 t i → E w1 w2 →
    io w2 t fd i ep ∧ Sent (w_kernel w2) = Sent (w_kernel w1).

(** They do so only once the kernel accepts bytes again. *)
Definition when_writable (E : world → world → Prop) : Prop :=
  (∀ w1 w2, E w1 w2 → writable (w_kernel w2)) ∧
  (∀ e op fd ev k, writable k → writable (sys_epoll_ctl e op fd ev k).2).

(** The task is blocked and will be woken for the descriptor. *)
Definition parked (w : world) : Prop := io w t fd i ep ∧ waits_for w t i.

Definition sent_result (base : list Z) (r : Z) (w : world) : Prop :=
  io w t fd i ep ∧
  ((r = n ∧ Sent (w_kernel w) = base ++ buf) ∨
   (r < 0 ∧ ∃ m, Sent (w_kernel w) = base ++ take m buf)).

Lemma out_turns_io lax E fuel base w len :
  accepts → n ≤ INT_MAX → gives_back E → io w t fd i ep → sent_upto base len (w_kernel w) →
  lax ∨ (when_writable E ∧
    ((writable (w_kernel w) ∧ n - len < Z.of_nat fuel) ∨ n - len + 1 < Z.of_nat fuel)) →
  cwp lax parked E (out_turns fuel fd (to_kernel call) n len) (sent_result base) w.
Proof.
  intros Hacc Hn HE. revert w len. induction fuel as [|fuel IH]; intros w len Hio Hs Ht.
  { cbn [out_turns]. apply cwp_act_cut; [done|]. destruct Ht as [?|[_ Ht]]; [done|]. destruct Hs. lia. }
  cbn [out_turns]. cwp_step.
  destruct (out_loop_io (Datatypes.S fuel) base w len Hacc Hn Hio Hs) as [[Hcut Hf]|Hwp].
  { apply cwp_act_cut; [done|]. destruct Ht as [?|[_ Ht]]; [done|lia]. }
  cwp_step. eapply wp_mono; [exact Hwp|]. clear Hwp. intros [r|len'] w1 [Hio1 HQ].
  { cwp_step. split; [done|]. right. destruct HQ as (? & m & _ & ?). split; [done|by eexists]. }
  destruct HQ as (Hle & Hs1 & Hprog). case_decide as Hd.
  { cwp_step. split; [done|]. left. destruct Hs1 as [? Hs1]. split; [lia|]. rewrite Hs1. f_equal.
    apply take_ge. lia. }
  destruct Hio1 as (s & R & ts & sv & e & tw & th & tv & v & Hep & Hio1). cwp_step. cwp_step.
  eapply current_thread_epoll_io; [exact Hio1|]. rewrite Hep. cwp_step.
  assert (Hfail : ∀ w', io w' t fd i ep → sent_upto base len' (w_kernel w') → sent_result base (-1) w').
  { intros w' Hw' [_ Hs']. split; [done|]. right. split; [lia|by eexists]. }
  assert (Hctl : ∀ e op fd ev k, sent_upto base len' k → sent_upto base len' (sys_epoll_ctl e op fd ev k).2).
  { intros e' op fd' ev k [??]. split; [done|]. rewrite (proj2 Hacc). done. }
  eapply (event_poll_io lax parked E (sent_upto base len')
    (λ k, sent_upto base len' k ∧ (lax ∨ when_writable E ∧ writable k))).
  - done.
  - intros e' op fd' ev k [? [?|[Hw ?]]]; (split; [by apply Hctl|]); [by left|right]. split; [done|].
    by apply (proj2 Hw).
  - rewrite <-Hep. by eapply io_intro.
  - done.
  - done.
  - intros w2 w3 Hio2 Hw2 HE3 [? Hs2]. destruct (HE w2 w3 Hio2 Hw2 HE3) as [Hio3 Hs3].
    split; [done|]. split; [split; [done|congruence]|].
    destruct Ht as [?|[Hw _]]; [by left|right]. split; [done|]. by apply (proj1 Hw w2 w3).
  - intros w' Hw' Hs'. rewrite decide_True by lia. cwp_step. by apply Hfail.
  - intros r w' Hr Hw' [Hs' Hwr]. case_decide as Hr0; [cwp_step; by apply Hfail|].
    apply IH; [done|done|]. destruct Ht as [?|[Hw Ht]]; [by left|]. destruct Hwr as [?|[_ Hwr]]; [by left|].
    right. split; [done|]. left. split; [done|].
    destruct Ht as [[Hww ?]|?]; [|lia]. specialize (Hprog Hww). lia.
Qed.
End sending.

Lemma hooked_out_io direct lax E fuel fd t i ep buf call Sent w base :
  accepts buf call Sent → Z.of_nat (length buf) ≤ INT_MAX → gives_back fd t i ep Sent E → io w t fd i ep →
  Sent (w_kernel w) = base →
  lax ∨ (when_writable buf call E ∧ Z.of_nat (length buf) + 1 < Z.of_nat fuel) →
  cwp lax (parked fd t i ep) E (hooked_out direct fuel fd (to_kernel call) (Z.of_nat (length buf)))
    (sent_result fd t i ep buf Sent base) w.
Proof.
  intros Hacc Hn HE Hio Hb Ht. unfold hooked_out. cwp_step. cwp_step.
  pose proof Hio as (s & R & ts & sv & e & tw & th & tv & v & _ & Hio1).
  eapply hooked_fd_io; [exact Hio1|]. apply out_turns_io; [done|done|done|done| |].
  - split; [lia|]. by rewrite Hb, app_nil_r.
  - destruct Ht as [?|[? ?]]; [by left|right]. split; [done|]. right. lia.
Qed.

(** C7. The hooked [write] on a registered non-blocking descriptor: whatever
    the kernel accepts at a time and whatever other tasks do while the task
    waits, the kernel gets a prefix of the buffer, each byte once and in order;
    the call returns the length exactly when all of it has gone, and a negative
    value otherwise; it switches away only with the task blocked and registered
    for the descriptor.  If the task is given the processor back only when the
    kernel accepts bytes again, the call returns after at most [length + 1]
    rounds of its loop. *)
Theorem write_sends_all E fd t i ep buf Sent w base :
  accepts buf (λ len, sys_write fd (rest buf len)) Sent → Z.of_nat (length buf) ≤ INT_MAX →
  gives_back fd t i ep Sent E → io w t fd i ep → Sent (w_kernel w) = base →
  (∀ fuel, cwp True (parked fd t i ep) E (write fuel fd buf) (sent_result fd t i ep buf Sent base) w) ∧
  (when_writable buf (λ len, sys_write fd (rest buf len)) E →
   cwp False (parked fd t i ep) E (write (length buf + 2) fd buf) (sent_result fd t i ep buf Sent base) w).
Proof.
  intros Hacc Hn HE Hio Hb. unfold write. split.
  - intros fuel. apply hooked_out_io; try done. by left.
  - intros Hw. apply hooked_out_io; try done. right. split; [done|lia].
Qed.

(** * Receiving *)

Section receiving.
Context (fd t i ep : Z) (call : kstate → (Z * list Z * Z) * kstate) (Got : kstate → list Z).

(** The kernel hands over bytes, as many as it says, or fails and keeps them. *)
Definition delivers : Prop :=
  (∀ k r bs er k', call k = ((r, bs, er), k') →
     (r = Z.of_nat (length bs) ∧ r ≤ INT_MAX ∧ Got k' = Got k ++ bs) ∨
     (- 2 ^ 31 ≤ r < 0 ∧ bs = [] ∧ Got k' = Got k)) ∧
  (∀ e op fd ev k, Got (sys_epoll_ctl e op fd ev k).2 = Got k).

(** The caller has the bytes that have left the kernel. *)
Definition got_result (base : list Z) (r : Z * list Z) (w : world) : Prop :=
  io w t fd i ep ∧ Got (w_kernel w) = base ++ r.2 ∧
  (r.1 = Z.of_nat (length r.2) ∨ (r.1 < 0 ∧ r.2 = [])).

Lemma in_syscall_io w base :
  delivers → io w t fd i ep → Got (w_kernel w) = base → wp (in_syscall s32 call) (got_result base) w.
Proof.
  intros [Hdel _] (s & R & ts & sv & e & tw & th & tv & v & Hep & Hio) Hb. unfold in_syscall. wp_step. wp_step.
  destruct (call (w_kernel w)) as [[[r bs] er] k] eqn:Hk. wp_steps.
  assert (Hs : s32 r = r). { apply s32_small. destruct (Hdel _ _ _ _ _ Hk) as [?|?]; unfold INT_MAX in *; lia. }
  rewrite Hs.
  assert (Hres : ∀ w', io w' t fd i ep → w_kernel w' = k → got_result base (r, bs) w').
  { intros w' Hw' E. split; [done|]. rewrite E. cbn. destruct (Hdel _ _ _ _ _ Hk) as [(-> & _ & ->)|(? & -> & ->)].
    - split; [by rewrite Hb|by left].
    - split; [by rewrite Hb, app_nil_r|right; split; [lia|done]]. }
  case_decide.
  - unfold set_errno. eapply wp_upd_self; [apply (io_thread _ _ _ _ _ _ _ _ _ _ _ _ _ Hio)|]. wp_step.
    apply Hres; [|done]. exists s, R, ts, sv, e, tw. eexists _, tv, v. split; [done|].
    apply (io_at_errno _ _ _ _ _ _ _ _ _ _ _ _ _ k _ Hio); done.
  - wp_steps. apply Hres; [|done]. exists s, R, ts, sv, e, tw, th, tv, v. split; [done|].
    by apply io_at_kernel.
Qed.

Lemma hooked_in_io direct lax E w base :
  delivers → gives_back fd t i ep Got E → io w t fd i ep → Got (w_kernel w) = base →
  cwp lax (parked fd t i ep) E (hooked_in direct fd call) (got_result base) w.
Proof.
  intros Hdel HE Hio Hb. unfold hooked_in. cwp_step. cwp_step.
  pose proof Hio as (s & R & ts & sv & e & tw & th & tv & v & _ & Hio0).
  eapply hooked_fd_io; [exact Hio0|]. clear - Hdel HE Hio Hb. cwp_step. cwp_step.
  eapply wp_mono; [by apply in_syscall_io|]. intros r w1 Hr. pose proof Hr as (Hio1 & Hg1 & Hr1).
  destruct Hio1 as (s & R & ts & sv & e & tw & th & tv & v & Hep & Hio1). cwp_step. cwp_step.
  eapply rd_errno_io; [exact Hio1|]. case_bool_decide as Hc; cbn [negb]; [|by cwp_step].
  destruct Hc as [Hm1 _]. assert (r.2 = []) as Hnil by (destruct Hr1 as [?|[_ ?]]; [lia|done]).
  rewrite Hnil, app_nil_r in Hg1. cwp_step. cwp_step. eapply current_thread_epoll_io; [exact Hio1|].
  rewrite Hep. cwp_step.
  eapply (event_poll_io lax _ E (λ k, Got k = base) (λ k, Got k = base)).
  - intros. by rewrite (proj2 Hdel).
  - intros. by rewrite (proj2 Hdel).
  - rewrite <-Hep. by eapply io_intro.
  - done.
  - done.
  - intros w2 w3 Hio2 Hw2 HE3 Hg2. destruct (HE w2 w3 Hio2 Hw2 HE3) as [? ?]. split; [done|congruence].
  - intros w2 Hio2 Hg2. rewrite decide_True by lia. cwp_step. split; [done|]. split; [by rewrite app_nil_r|].
    right. split; [cbn; lia|done].
  - intros p w2 Hp Hio2 Hg2. case_decide.
    { cwp_step. split; [done|]. split; [by rewrite app_nil_r|]. right. split; [cbn; lia|done]. }
    cwp_step. cwp_step. eapply wp_mono; [by apply in_syscall_io|].
    intros r2 w3 Hr2. case_decide as Hz; [|by cwp_step]. pose proof Hr2 as (Hio3 & Hg3 & Hr3).
    destruct Hio3 as (s3 & R3 & ts3 & sv3 & e3 & tw3 & th3 & tv3 & v3 & Hep3 & Hio3). cwp_step. cwp_step.
    eapply wp_rd_ifd; [apply Hio3|]. cwp_step. case_match; [|done].
    assert (r2.2 = []) as Hn2 by (destruct Hr3 as [Hr3|[_ ?]]; [destruct r2 as [? [|]]; cbn in *; [done|lia]|done]).
    split; [rewrite <-Hep3; by eapply io_intro|]. cbn. rewrite Hn2 in *. split; [done|right; split; [lia|done]].
Qed.
End receiving.

(** C8. The hooked [read] on a registered non-blocking descriptor returns, and
    the caller gets exactly the bytes that have left the kernel: their number
    and their values, whether the call had to wait or not; a negative result
    means that none have.  It switches away only with the task blocked and
    registered for the descriptor. *)
Theorem read_loses_nothing E fd n t i ep Got w base :
  delivers (sys_read fd n) Got → gives_back fd t i ep Got E → io w t fd i ep → Got (w_kernel w) = base →
  cwp False (parked fd t i ep) E (read fd n) (got_result fd t i ep Got base) w.
Proof. intros. by apply hooked_in_io. Qed.

(** * Registration *)

Lemma wp_syscall_ok (call : kstate → (Z * Z) * kstate) r e k Q w :
  call (w_kernel w) = ((r, e), k) → 0 ≤ r → Q r (with_kernel w k) → wp (syscall call) Q w.
Proof.
  intros Hk Hr HQ. unfold syscall. wp_step. wp_step. rewrite Hk. wp_steps. rewrite decide_False by lia.
  by wp_steps.
Qed.

Lemma has_lor f b : b ≠ 0 → has (Z.lor f b) b = true.
Proof.
  intros Hb. unfold has. rewrite bool_decide_eq_false_2; [done|].
  rewrite Z.land_comm, Z.land_lor_distr_r, Z.land_diag. intros [_ ?]%Z.lor_eq_0_iff. done.
Qed.

Lemma co_hooked_wp w th tv t Q :
  w_threads w !! w_self w = Some th → g_current th = t → t ≠ NULL → w_tasks w !! t = Some tv →
  Q (bool_decide (t_hook tv = 1)) w → wp co_hooked Q w.
Proof.
  intros Hth Hc Ht Htv HQ. unfold co_hooked, co_self. wp_steps. rewrite Hc, decide_False by done.
  by wp_steps.
Qed.

Definition with_hook (tv : task_t) (h : Z) : task_t :=
  Task (t_func tv) (t_iparam tv) (t_oparam tv) (t_stack_size tv) (t_specs tv) (t_cid tv) h (t_errnu tv)
    (t_status tv) (t_sched tv).

(** The state [in_set_nonblock] leaves for a descriptor that was not registered. *)
Definition registered (w : world) (t : ptr) (tv : task_t) (fd f : Z) (k : kstate) : world :=
  let i := fresh_ifd w in
  with_kernel (with_fdtab (with_links (with_ifds (with_tasks w (<[t := with_hook tv 1]> (w_tasks w)))
    (<[i := InnerFd fd (Z.lor f O_NONBLOCK) f NULL FD_TIMEOUT IENONE]> (w_ifds w)))
    (list_init (w_links w) (ifd_link i))) (<[fd := i]> (w_fdtab w))) k.

Lemma fcntl_getfl_wp w th tv t fd f e k Q :
  w_threads w !! w_self w = Some th → g_current th = t → t ≠ NULL → w_tasks w !! t = Some tv →
  t_hook tv ≠ 1 → 0 ≤ fd < MAX_FD_NUM → 0 ≤ f →
  sys_fcntl fd F_GETFL 0 (w_kernel w) = ((f, e), k) →
  Q f (with_kernel w k) → wp (fcntl fd F_GETFL 0) Q w.
Proof.
  intros Hth Hc Ht Htv Hh Hfd Hf Hk HQ. unfold fcntl. rewrite decide_False by lia. wp_step.
  apply wp_get_inner_fd; [done|]. rewrite decide_False by (intros [|]; discriminate).
  rewrite decide_False by (intros [|]; discriminate). rewrite decide_True by done. wp_step.
  eapply co_hooked_wp; [done..|]. rewrite bool_decide_eq_false_2 by done. by eapply wp_syscall_ok.
Qed.

(** The state [fcntl] leaves when it registers a descriptor. *)
Definition made_nonblock (w : world) (fd f : Z) (k : kstate) : world :=
  let i := fresh_ifd w in
  with_kernel (with_fdtab (with_links (with_ifds w
    (<[i := InnerFd fd f f NULL FD_TIMEOUT IENONE]> (w_ifds w)))
    (list_init (w_links w) (ifd_link i))) (<[fd := i]> (w_fdtab w))) k.

Lemma fcntl_setfl_wp w th tv t fd f e k Q :
  w_threads w !! w_self w = Some th → g_current th = t → t ≠ NULL → w_tasks w !! t = Some tv →
  t_hook tv = 1 → 0 ≤ fd < MAX_FD_NUM → w_fdtab w !! fd = None → has f O_NONBLOCK = true → f ≠ 0 →
  sys_fcntl fd F_SETFL f (w_kernel w) = ((0, e), k) →
  Q 0 (made_nonblock w fd f k) → wp (fcntl fd F_SETFL f) Q w.
Proof.
  intros Hth Hc Ht Htv Hh Hfd Hfree Hnb Hf Hk HQ. unfold fcntl. rewrite decide_False by lia. wp_step.
  apply wp_get_inner_fd; [done|]. rewrite Hfree. rewrite decide_False by (intros [|]; discriminate).
  rewrite decide_False by (intros [|]; discriminate). rewrite decide_False by done.
  rewrite decide_True by done. unfold fcntl_setfl. wp_step.
  eapply co_hooked_wp; [done..|]. rewrite bool_decide_eq_true_2 by done. cbn [negb]. wp_step.
  rewrite decide_True by done. rewrite Hnb. apply new_inner_fd_wp; [done|]. cbn [negb].
  wp_step. eapply wp_rd_ifd; [cbn; by rewrite lookup_insert_eq|]. cbn [i_user_flags i_flags].
  rewrite !decide_False by done. wp_step. eapply wp_syscall_ok; [exact Hk|done|]. wp_step.
  rewrite decide_True by done. unfold set_i_user_flags, set_i_flags. wp_steps.
  match goal with |- Q 0 ?x => assert (E : x = made_nonblock w fd f k); [|by rewrite E] end.
  unfold made_nonblock. cbn. by rewrite !insert_insert_eq.
Qed.

Lemma in_set_nonblock_wp w th tv t fd f e2 k2 e3 k3 Q :
  w_threads w !! w_self w = Some th → g_current th = t → t ≠ NULL → w_tasks w !! t = Some tv →
  0 ≤ fd < MAX_FD_NUM → w_fdtab w !! fd = None → 0 ≤ f →
  sys_fcntl fd F_GETFL 0 (w_kernel w) = ((f, e2), k2) →
  sys_fcntl fd F_SETFL (Z.lor f O_NONBLOCK) k2 = ((0, e3), k3) →
  Q 0 (registered w t tv fd f k3) → wp (in_set_nonblock fd) Q w.
Proof.
  intros Hth Hc Ht Htv Hfd Hfree Hf Hk2 Hk3 HQ. subst t.
  unfold in_set_nonblock, co_disable_hook, co_enable_hook, set_hook, co_self. wp_steps.
  eapply (fcntl_getfl_wp _ th); [done|done|done|cbn; by rewrite lookup_insert_eq|done|done|done|done|].
  wp_steps. eapply (fcntl_setfl_wp _ th);
    [done|done|done|cbn; by rewrite lookup_insert_eq|done|done|done|by apply has_lor| |done|].
  { intros [_ ?]%Z.lor_eq_0_iff; done. }
  rewrite decide_False by lia. wp_step. apply wp_get_inner_fd; [done|]. unfold made_nonblock. cbn.
  rewrite lookup_insert_eq. cbn. unfold set_i_user_flags. wp_steps. 
  match goal with |- Q 0 ?x => assert (E : x = registered w (g_current th) tv fd f k3); [|by rewrite E] end.
  unfold registered. cbn. rewrite !insert_insert_eq. done.
Qed.

Lemma rt_node w s R ts a :
  rt w s R ts → ¬ in_rings R a → lk a ≠ LRunLink → rt (with_links w (list_init (w_links w) a)) s R ts.
Proof. intros [] Hn Hk. split; try done. by apply tasks_ok_node. Qed.

(** Registration keeps the runtime and makes the descriptor one to wait for. *)
Lemma registered_io w s R ts sv e tw th tv t fd f k :
  rt w s R ts → w_scheds w !! s = Some sv → w_epolls w !! s_epoll sv = Some e → ep_timer e = Some tw →
  wheel_ok tw → (∀ j, 0 ≤ j < tw_size tw → is_Some (R !! slot tw j)) → FD_TIMEOUT < tw_size tw →
  ¬ in_rings R (ifd_link (fresh_ifd w)) →
  w_threads w !! w_self w = Some th → g_current th = t → w_tasks w !! t = Some tv → 0 ≤ fd < MAX_FD_NUM →
  io (registered w t tv fd f k) t fd (fresh_ifd w) (s_epoll sv).
Proof.
  intros Hrt Hsv He Htm Hwh Hsl Hsz Hni Hth Hc Htv Hfd. destruct (fresh_ifd_spec w) as [Hnn _].
  eapply (io_intro _ _ _ _ s R ts). split; cbn; try done.
  - eapply (rt_frame (with_links (with_tasks w (<[t := with_hook tv 1]> (w_tasks w)))
      (list_init (w_links w) (ifd_link (fresh_ifd w))))); try done.
    by apply (rt_node (with_tasks w (<[t := with_hook tv 1]> (w_tasks w)))); [eapply rt_task_upd|..].
  - destruct (R !! ifd_link _) as [xs|] eqn:E; [|done]. destruct Hni. exists (ifd_link (fresh_ifd w)), xs. set_solver.
  - unfold list_init. by rewrite lookup_insert_eq.
  - by rewrite lookup_insert_eq.
  - done.
  - by rewrite lookup_insert_eq.
  - by rewrite lookup_insert_eq.
  - done.
  - by apply has_lor.
  - cbn. unfold FD_TIMEOUT in *. lia.
Qed.

End hookio.

(** * Examples *)

(** A kernel whose state is what it has been sent and how many bytes it still
    takes. *)
Definition ex_pipe_kernel : Kernel := {|
  kstate := list Z * Z;
  sys_epoll_create := λ k, ((3, 0), k);
  sys_epoll_ctl := λ _ _ _ _ k, ((0, 0), k);
  sys_epoll_wait := λ _ _ _ k, (inr [], k);
  sys_close := λ _ k, ((0, 0), k);
  sys_write := λ _ b k,
    if decide (k.2 ≤ 0) then ((-1, EAGAIN), k)
    else let r := Z.min k.2 (Z.of_nat (length b)) in
         ((r, 0), (k.1 ++ take (Z.to_nat r) b, k.2 - r));
  sys_timerfd_create := λ k, ((4, 0), k);
  sys_timerfd_settime := λ _ _ _ _ k, ((0, 0), k);
  sys_gettid := λ th _, 1000 + th
|}.

#[local] Existing Instance ex_pipe_kernel.

Definition ex_sockets : Sockets (K := ex_pipe_kernel) := {|
  sys_read := λ _ n k,
    if decide (k.2 ≤ 0) then ((-1, [], EAGAIN), k)
    else let r := Z.to_nat (Z.min k.2 n) in ((Z.of_nat r, replicate r 65, 0), (k.1 ++ replicate r 65, k.2 - n));
  sys_recv := λ _ _ _ k, ((-1, [], EAGAIN), k);
  sys_recvfrom := λ _ _ _ k, ((-1, [], EAGAIN), k);
  sys_recvmsg := λ _ _ k, ((-1, [], EAGAIN), k);
  sys_send := λ _ b _ k, sys_write (Kernel := ex_pipe_kernel) 0 b k;
  sys_sendto := λ _ b _ _ k, sys_write (Kernel := ex_pipe_kernel) 0 b k;
  sys_sendmsg := λ _ b _ k, sys_write (Kernel := ex_pipe_kernel) 0 (concat b) k;
  sys_fcntl := λ _ cmd _ k, ((if decide (cmd = F_GETFL) then 2 else 0, 0), k);
  sys_socket := λ _ _ _ k, ((8, 0), k);
  sys_listen := λ _ _ k, ((0, 0), k);
  sys_connect := λ _ _ k, ((0, 0), k);
  sys_accept := λ _ k, ((-1, EAGAIN), k);
  sys_so_error := λ _ k, (0, k);
  sys_pipe := λ k, ((0, (5, 6)), k);
  sys_sleep := λ _ k, (0, k);
  sys_gethostbyname_r := λ _ e k, ((0, e), k)
|}.

(** The runtime of Event.v with descriptor 7 non-blocking; the kernel takes two
    bytes. *)
Definition ex_io (k : kstate (Kernel := ex_pipe_kernel)) : world (K := ex_pipe_kernel) :=
  with_ifds (ex_runtime ex_links 0 0 ex_pipe_kernel k) {[1 := InnerFd 7 O_NONBLOCK 0 0 1 0]}.

Lemma ex_io_io k : io (K := ex_pipe_kernel) (ex_io k) 2 7 1 1.
Proof.
  exists 1, ex_rings, [], (World.Sched 1 0 5 1 0 0 7 (-1) (-1)), (Epoll 1024 0 3 1 (Some ex_tw)), ex_tw,
    (Thread 2 1 None 1 0 7), (Task (UserFunc 9) 0 0 0 None 0 1 0 RUNNABLE (Some 1)),
    (InnerFd 7 O_NONBLOCK 0 0 1 0).
  split; [done|]. split; try reflexivity; try done.
  - eapply (rt_frame (ex_runtime ex_links 0 0 ex_pipe_kernel k)); [by apply ex_runtime_rt|reflexivity..].
  - intros j Hj. eexists. apply slots_abs_lookup. left. cbn in Hj. lia.
Qed.

(** While the task waits, the reader takes some bytes out. *)
Definition ex_drains (w1 w2 : world (K := ex_pipe_kernel)) : Prop :=
  ∃ c, 0 < c ∧ w2 = with_kernel w1 ((w_kernel w1).1, c).

Lemma ex_accepts fd buf : accepts (K := ex_pipe_kernel) buf (λ len, sys_write fd (rest buf len)) fst.
Proof.
  split; [|done]. intros len [sent c] r er k' Hlen Hk. cbn in Hk.
  assert (Hl : Z.of_nat (length (rest buf len)) = Z.of_nat (length buf) - len).
  { unfold rest. rewrite length_drop. lia. }
  case_decide; simplify_eq; [right; split; [lia|done]|left]. cbn. split; [lia|done].
Qed.

Lemma ex_when_writable fd buf :
  when_writable (K := ex_pipe_kernel) buf (λ len, sys_write fd (rest buf len)) ex_drains.
Proof.
  split; [|done]. intros w1 w2 (c & Hc & ->) len Hlen. cbn. rewrite decide_False by lia. cbn. lia.
Qed.

Lemma ex_gives_back : gives_back (K := ex_pipe_kernel) 7 2 1 1 fst ex_drains.
Proof.
  intros w1 w2 (s & R & ts & sv & e & tw & th & tv & v & Hep & Hio) _ (c & _ & ->).
  split; [|done]. exists s, R, ts, sv, e, tw, th, tv, v. split; [done|]. by apply io_at_kernel.
Qed.

Lemma write_sends_all_witness :
  (∀ fuel, cwp True (parked 7 2 1 1) ex_drains
     (write (K := ex_pipe_kernel) fuel 7 [10; 11; 12; 13; 14])
     (sent_result 7 2 1 1 [10; 11; 12; 13; 14] fst [9]) (ex_io ([9], 2))) ∧
  cwp False (parked 7 2 1 1) ex_drains
     (write (K := ex_pipe_kernel) 7 7 [10; 11; 12; 13; 14])
     (sent_result 7 2 1 1 [10; 11; 12; 13; 14] fst [9]) (ex_io ([9], 2)).
Proof.
  destruct (write_sends_all (K := ex_pipe_kernel) ex_drains 7 2 1 1
    [10; 11; 12; 13; 14] fst (ex_io ([9], 2)) [9]) as [H1 H2];
    [apply ex_accepts|by vm_compute|apply ex_gives_back|apply ex_io_io|reflexivity|].
  split; [exact H1|]. apply H2, ex_when_writable.
Defined.

(** The same call, run: two bytes go at once, the others in two portions. *)
Example ex_write_run :
  (λ r, match r with Ok (a, w) => Some (a, w_kernel w) | _ => None end)
    (crun [λ w, with_kernel w ((w_kernel w).1, 2); λ w, with_kernel w ((w_kernel w).1, 5)]
       (write (K := ex_pipe_kernel) 7 7 [10; 11; 12; 13; 14]) (ex_io ([9], 2))) =
  Some (Some 5, ([9; 10; 11; 12; 13; 14], 4)).
Proof. vm_compute. reflexivity. Qed.

Lemma ex_delivers : delivers (K := ex_pipe_kernel) (sys_read (Sockets := ex_sockets) 7 4) fst.
Proof.
  split; [|done]. intros [got c] r bs er k' Hk. cbn in Hk. case_decide; simplify_eq; [right|left].
  - by vm_compute.
  - cbn -[INT_MAX]. rewrite length_replicate. assert (4 ≤ INT_MAX) by by vm_compute. split_and!; [done|lia|done].
Qed.

Lemma read_loses_nothing_witness :
  cwp False (parked 7 2 1 1) ex_drains (read (S := ex_sockets) 7 4) (got_result 7 2 1 1 fst [9]) (ex_io ([9], 0)).
Proof.
  apply (read_loses_nothing (S := ex_sockets) ex_drains 7 4 2 1 1 fst (ex_io ([9], 0)) [9]);
    [apply ex_delivers|apply ex_gives_back|apply ex_io_io|reflexivity].
Defined.

(** The same call, run: the task waits, six bytes arrive, it gets four. *)
Example ex_read_run :
  (λ r, match r with Ok (a, w) => Some (a, w_kernel w) | _ => None end)
    (crun [λ w, with_kernel w ((w_kernel w).1, 6)] (read (S := ex_sockets) 7 4) (ex_io ([9], 0))) =
  Some (Some (4, [65; 65; 65; 65]), ([9; 65; 65; 65; 65], 2)).
Proof. vm_compute. reflexivity. Qed.

