(* ===== verification/Log.v ===== *)
(** log.c and the macros of log.h and types.h that use it.

    Texts are lists of characters, as the strings of HashMap.v.  Of [printf] the
    model has the conversions the library uses, [%s], [%d], [%ld], [%lu] and
    [%%]; another one, or an argument that is missing or of another kind, is
    [Undef].  [snprintf] returns the length of the whole text and stores what fits.
    The clock, the time zone and the process number are the class [Clock].

    The line is put together in [_log_buf], which all tasks of a thread share, and
    the hooked [write] may switch to another task before all of it has gone; the
    model therefore reads the buffer again for every system call. *)

From Stdlib Require Import ZArith Lia Ascii.
From stdpp Require Import base numbers strings sets gmap list pretty.
From S2P Require Import Prelude IntrusiveList Links Cid SpinLock TimeWheel HashMap World Coroutine InnerFd.
From S2P Require Import Task Sched Event Mutex Cond Sem Blocking Hook.
Open Scope Z_scope.

(** * Text *)

Definition str (s : string) : cstring := (λ c, Z.of_N (N_of_ascii c)) <$> String.list_ascii_of_string s.

Definition dec (z : Z) : cstring := str (pretty z).

Definition PERCENT : Z := 37.

Definition s64 (z : Z) : Z := (z + 2 ^ 63) mod 2 ^ 64 - 2 ^ 63.

Inductive printf_arg := ArgStr (s : cstring) | ArgInt (z : Z).

(** The whole text [printf] makes of a format. *)
Fixpoint sprintf (fmt : cstring) (args : list printf_arg) : res cstring :=
  match fmt with
  | [] => Ok []
  | c :: fmt =>
      if decide (c ≠ PERCENT) then let* r := sprintf fmt args in Ok (c :: r) else
      match fmt with
      | [] => Undef
      | d :: fmt =>
          if decide (d = PERCENT) then let* r := sprintf fmt args in Ok (PERCENT :: r) else
          if decide (d = 115 (* s *)) then
            match args with
            | ArgStr s :: args => let* r := sprintf fmt args in Ok (s ++ r)
            | _ => Undef
            end
          else if decide (d = 100 (* d *)) then
            match args with
            | ArgInt z :: args => let* r := sprintf fmt args in Ok (dec (s32 z) ++ r)
            | _ => Undef
            end
          else if decide (d = 108 (* l *)) then
            match fmt, args with
            | e :: fmt, ArgInt z :: args =>
                if decide (e = 100) then let* r := sprintf fmt args in Ok (dec (s64 z) ++ r) else
                if decide (e = 117 (* u *)) then let* r := sprintf fmt args in Ok (dec (u64 z) ++ r) else
                Undef
            | _, _ => Undef
            end
          else Undef
      end
  end.

(** The return value of [snprintf]; a longer text is an error. *)
Definition snprintf_ret (text : cstring) : Z :=
  if decide (Z.of_nat (length text) ≤ INT_MAX) then Z.of_nat (length text) else -1.

(** Bytes stored at offset [off]; outside the array is undefined. *)
Definition wr_bytes (buf : list Z) (off : nat) (bs : list Z) : res (list Z) :=
  if decide (off + length bs ≤ length buf)%nat
  then Ok (take off buf ++ bs ++ drop (off + length bs) buf) else Undef.

(** What [snprintf(p, size, ...)] stores at [p]; [size] is not 0. *)
Definition snprintf_bytes (size : nat) (text : cstring) : list Z := take (size - 1) text ++ [0].

(** The string an array holds. *)
Fixpoint c_string (buf : list Z) : cstring :=
  match buf with
  | [] => []
  | c :: buf => if decide (c = 0) then [] else c :: c_string buf
  end.

(** * The environment *)

Class Clock {K : Kernel} := {
  sys_gettimeofday : kstate → (Z * Z) * kstate;    (* seconds, microseconds *)
  sys_getpid : Z;
  localtime : Z → Z * Z * Z;                       (* hour, minute, second *)
  strerror : Z → cstring;
  strerror_r : Z → cstring                         (* what it leaves in a zeroed buffer *)
}.

Definition LOG_BUFFER_SIZE : Z := 1024 * 4.
Definition TIME_STR_LEN : nat := 25.
Definition LOG_FD_STDOUT : Z := 1.
Definition LOG_FD_STDERR : Z := 2.

Definition LOG_DEBUG : Z := 0.
Definition LOG_INFO : Z := 1.
Definition LOG_ERROR : Z := 2.

Definition _log_levels : list cstring := [str "D"; str "I"; str "E"].
Definition _log_fmt : cstring := str "[%s]>%s<[%d-%d-%lu] %s".

Definition init_log : log_vars := LogVars (replicate 20 0) 0 (replicate (Z.to_nat LOG_BUFFER_SIZE) 0).

(** [%T]: two digits each. *)
Definition two_digits (n : Z) : cstring := [48 + n `div` 10; 48 + n mod 10].
Definition strftime_T (t : Z * Z * Z) : cstring :=
  let '(h, m, s) := t in two_digits h ++ [58] ++ two_digits m ++ [58] ++ two_digits s.

Section log.
Context `{S : Sockets} `{!Clock}.

Definition rd_log : M log_vars := w ← get; mret (default init_log (o_logs (w_objs w) !! w_self w)).
Definition wr_log (v : log_vars) : M unit :=
  w ← get;
  let o := w_objs w in
  put_objs (Objects (o_chans o) (o_bars o) (o_awaits o) (o_mem o) (<[w_self w := v]> (o_logs o))).

Definition get_time_str : M cstring :=
  w ← get;
  let '((tv_sec, tv_usec), k) := sys_gettimeofday (w_kernel w) in
  put_kernel k;;
  v ← rd_log;
  v ← (if decide (_old_time v ≠ tv_sec) then
         b ← lift (wr_bytes (_time_strf v) 0 (strftime_T (localtime tv_sec) ++ [0]));
         mret (LogVars b tv_sec (_log_buf v))
       else mret v);
  text ← lift (sprintf (str ".%ld") [ArgInt tv_usec]);
  b ← lift (wr_bytes (_time_strf v) 8 (snprintf_bytes (TIME_STR_LEN - 8) text));
  wr_log (LogVars b (_old_time v) (_log_buf v));;
  mret (c_string b).

Definition dprintf (fd : Z) (fmt : cstring) (args : list printf_arg) : M unit :=
  text ← lift (sprintf fmt args);
  _ ← syscall (sys_write fd text);
  mret ().

(** The bytes [len..n) of [_log_buf]; the array ends at [LOG_BUFFER_SIZE]. *)
Definition rd_log_buf (n len : Z) : M (list Z) :=
  v ← rd_log;
  if decide (0 ≤ n ≤ Z.of_nat (length (_log_buf v)))
  then mret (drop (Z.to_nat len) (take (Z.to_nat n) (_log_buf v))) else lift Undef.

(** [write(fd, buf, len)] from the buffer all tasks of the thread use. *)
Definition write_log (fuel : nat) (fd n : Z) : C Z :=
  hooked_out s32 fuel fd (λ len, b ← rd_log_buf n len; syscall (sys_write fd b)) n.

(** [snprintf(new_fmt, 1024, _log_fmt, ...)]: the whole text. *)
Definition log_new_fmt (level : Z) (fmt : cstring) : M cstring :=
  lv ← lift (if decide (0 ≤ level) then deref (_log_levels !! Z.to_nat level) else Undef);
  time ← get_time_str;
  t ← m_tid;
  cid ← getcid;
  lift (sprintf _log_fmt [ArgStr lv; ArgStr time; ArgInt sys_getpid; ArgInt t; ArgInt cid; ArgStr fmt]).

(** The line in [_log_buf], and its length as [vsnprintf] reports it. *)
Definition log_format (level : Z) (fmt : cstring) (args : list printf_arg) : M Z :=
  new_fmt ← log_new_fmt level fmt;
  let len := snprintf_ret new_fmt in
  if decide (len < 0) then
    dprintf LOG_FD_STDERR (str "[log_porintf] error: snprintf return %d" ++ [10]) [ArgInt len];;
    lift (Panic "abort")
  else
  (* new_fmt[len] = 0 in an array of 1024 *)
  if decide (1024 ≤ len) then lift Undef else
  text ← lift (sprintf new_fmt args);
  v ← rd_log;
  b ← lift (wr_bytes (_log_buf v) 0 (snprintf_bytes (Z.to_nat LOG_BUFFER_SIZE) text));
  wr_log (LogVars (_time_strf v) (_old_time v) b);;
  mret (snprintf_ret text).

Definition log_printf (fuel : nat) (fd level : Z) (fmt : cstring) (args : list printf_arg) : C Z :=
  let! len := act (log_format level fmt args) in
  let! n := write_log fuel fd len in
  if decide (n ≤ 0) then
    let! e := act rd_errno in
    do! act (dprintf LOG_FD_STDERR (str "[log_printf] error: write fd[%d] return: %d, cause: %s" ++ [10])
               [ArgInt fd; ArgInt n; ArgStr (strerror e)]) in
    cret (-1)
  else cret 0.

(** * Macros *)

(** Where the macro is used: [__func__], [basename(__FILE__)], [__LINE__]. *)
Record place := Place { pl_func : cstring; pl_file : cstring; pl_line : Z }.

Definition LOG_OUTPUT (fuel : nat) (at_ : place) (fd level : Z) (fmt : cstring) (args : list printf_arg) : C Z :=
  log_printf fuel fd level (fmt ++ str " <%s>@<%s:%d>" ++ [10])
    (args ++ [ArgStr (pl_func at_); ArgStr (pl_file at_); ArgInt (pl_line at_)]).

Definition DBG_LOG (fuel : nat) (at_ : place) := LOG_OUTPUT fuel at_ LOG_FD_STDOUT LOG_DEBUG.
Definition INF_LOG (fuel : nat) (at_ : place) := LOG_OUTPUT fuel at_ LOG_FD_STDOUT LOG_INFO.
Definition ERR_LOG (fuel : nat) (at_ : place) := LOG_OUTPUT fuel at_ LOG_FD_STDERR LOG_ERROR.

Definition dperror (fuel : nat) (at_ : place) (ret : Z) : C unit :=
  let! e := act rd_errno in
  do! ERR_LOG fuel at_ (str "return value: %d, errno: %d, %s") [ArgInt ret; ArgInt e; ArgStr (strerror_r e)] in
  cret ().

(** [exit(-1)] *)
Definition exit_ {A} : C A := act (lift (Panic "exit")).

Definition dfatal (fuel : nat) (at_ : place) (ret : Z) : C unit := do! dperror fuel at_ ret in exit_.

Definition PANIC (fuel : nat) (at_ : place) (msg : cstring) : C unit :=
  do! ERR_LOG fuel at_ (str "[PANIC] message: " ++ [34] ++ str "%s" ++ [34]) [ArgStr msg] in exit_.

Definition MY_ASSERT (fuel : nat) (at_ : place) (cond : bool) (comment : cstring) : C unit :=
  if cond then cret () else PANIC fuel at_ comment.

End log.

(** * Texts *)

(** The characters of a number. *)
Definition numeral (c : Z) : Prop := c = 45 ∨ 48 ≤ c ≤ 57.

Lemma str_app s t : str (s +:+ t) = str s ++ str t.
Proof.
  unfold str. rewrite <-fmap_app. f_equal. induction s as [|c s IH]; [done|]. change (String c s +:+ t) with (String c (s +:+ t)). cbn. by rewrite IH.
Qed.

Lemma str_cons c s : str (String c s) = Z.of_N (N_of_ascii c) :: str s.
Proof. done. Qed.

Lemma pretty_N_char_numeral x : 48 ≤ Z.of_N (N_of_ascii (pretty_N_char x)) ≤ 57.
Proof. unfold pretty_N_char. repeat case_match; cbn; lia. Qed.

Lemma pretty_N_go_numeral x s :
  Forall numeral (str s) → Forall numeral (str (pretty_N_go x s)).
Proof.
  revert s. induction (N.lt_wf_0 x) as [x _ IH]; intros s Hs.
  destruct (decide (x = 0)%N) as [->|Hx]; [by rewrite pretty_N_go_0|].
  rewrite pretty_N_go_step by lia. apply IH; [apply N.div_lt; lia|].
  rewrite str_cons. constructor; [|done]. right. apply pretty_N_char_numeral.
Qed.

Lemma pretty_N_numeral (x : N) : Forall numeral (str (pretty x)).
Proof.
  unfold pretty, pretty_N. case_decide; [constructor; [right; cbn; lia|constructor]|].
  apply pretty_N_go_numeral. constructor.
Qed.

Lemma dec_numeral z : Forall numeral (dec z).
Proof.
  unfold dec, pretty at 1, pretty_Z. destruct z as [|x|x].
  - constructor; [right; cbn; lia|constructor].
  - apply pretty_N_numeral.
  - rewrite str_app. apply Forall_app. split; [|apply pretty_N_numeral]. constructor; [by left|constructor].
Qed.

Lemma pretty_N_go_length x s (k : nat) :
  (x < 10 ^ N.of_nat k)%N → (length (str (pretty_N_go x s)) ≤ k + length (str s))%nat.
Proof.
  revert x s. induction k as [|k IH]; intros x s Hx.
  - assert (x = 0)%N as -> by (cbn in Hx; lia). by rewrite pretty_N_go_0.
  - destruct (decide (x = 0)%N) as [->|Hx0]; [rewrite pretty_N_go_0; lia|].
    rewrite pretty_N_go_step by lia. etrans; [apply IH|rewrite str_cons; cbn; lia].
    apply N.Div0.div_lt_upper_bound. rewrite Nat2N.inj_succ, N.pow_succ_r' in Hx. lia.
Qed.

(** A number of up to [k] digits. *)
Lemma dec_length z (k : nat) : 0 ≤ z < 10 ^ Z.of_nat (S k) → (length (dec z) ≤ S k)%nat.
Proof.
  intros Hz. unfold dec, pretty at 1, pretty_Z. destruct z as [|x|x]; [cbn; lia| |lia].
  unfold pretty, pretty_positive, pretty, pretty_N. rewrite decide_False by done.
  etrans; [apply (pretty_N_go_length _ _ (S k))|cbn; lia].
  apply N2Z.inj_lt. rewrite N2Z.inj_pow. rewrite nat_N_Z. cbn -[Z.of_nat Z.pow]. lia.
Qed.

(** * printf *)

(** A format begins with text that has no conversion. *)
Lemma sprintf_plain pre fmt args :
  PERCENT ∉ pre → sprintf (pre ++ fmt) args = let* r := sprintf fmt args in Ok (pre ++ r).
Proof.
  induction pre as [|c pre IH]; intros Hp; [cbn; by destruct (sprintf fmt args)|].
  apply not_elem_of_cons in Hp as [Hc Hp]. cbn [app sprintf].
  rewrite decide_True by done. rewrite IH by done. by destruct (sprintf fmt args).
Qed.

(** The conversions. *)
Lemma sprintf_s fmt s args :
  sprintf (PERCENT :: 115 :: fmt) (ArgStr s :: args) = let* r := sprintf fmt args in Ok (s ++ r).
Proof. reflexivity. Qed.
Lemma sprintf_d fmt z args :
  sprintf (PERCENT :: 100 :: fmt) (ArgInt z :: args) = let* r := sprintf fmt args in Ok (dec (s32 z) ++ r).
Proof. reflexivity. Qed.
Lemma sprintf_ld fmt z args :
  sprintf (PERCENT :: 108 :: 100 :: fmt) (ArgInt z :: args) =
  let* r := sprintf fmt args in Ok (dec (s64 z) ++ r).
Proof. reflexivity. Qed.
Lemma sprintf_lu fmt z args :
  sprintf (PERCENT :: 108 :: 117 :: fmt) (ArgInt z :: args) =
  let* r := sprintf fmt args in Ok (dec (u64 z) ++ r).
Proof. reflexivity. Qed.

Lemma s64_small z : - 2 ^ 63 ≤ z < 2 ^ 63 → s64 z = z.
Proof. intros. unfold s64. rewrite Z.mod_small; lia. Qed.

(** * Strings in arrays *)

Lemma c_string_app pre rest : 0 ∉ pre → c_string (pre ++ 0 :: rest) = pre.
Proof.
  induction pre as [|c pre IH]; intros H0; cbn; [by rewrite decide_True|].
  apply not_elem_of_cons in H0 as [Hc H0]. rewrite decide_False by done. by rewrite IH.
Qed.

Lemma wr_bytes_Ok buf off bs :
  (off + length bs ≤ length buf)%nat →
  wr_bytes buf off bs = Ok (take off buf ++ bs ++ drop (off + length bs) buf).
Proof. intros H. unfold wr_bytes. by rewrite decide_True. Qed.

Lemma numeral_not c l : (c = 0 ∨ c = PERCENT) → Forall numeral l → c ∉ l.
Proof.
  intros Hc Hl Hin. rewrite Forall_forall in Hl. specialize (Hl c Hin).
  unfold numeral, PERCENT in *. lia.
Qed.

(** * The time *)

Definition valid_hms (t : Z * Z * Z) : Prop :=
  let '(h, m, s) := t in 0 ≤ h < 24 ∧ 0 ≤ m < 60 ∧ 0 ≤ s ≤ 60.

Lemma two_digits_numeral n : 0 ≤ n < 100 → Forall numeral (two_digits n).
Proof.
  intros Hn. pose proof (Z.div_pos n 10). pose proof (Z.div_lt_upper_bound n 10 10).
  pose proof (Z.mod_pos_bound n 10). unfold two_digits.
  constructor; [|constructor; [|constructor]]; right; lia.
Qed.

Lemma strftime_T_chars t : valid_hms t →
  length (strftime_T t) = 8%nat ∧ Forall (λ c, numeral c ∨ c = 58) (strftime_T t).
Proof.
  destruct t as [[h m] s]. intros (Hh & Hm & Hs). split; [done|]. unfold strftime_T.
  assert (Hd : ∀ n, 0 ≤ n < 100 → Forall (λ c, numeral c ∨ c = 58) (two_digits n)).
  { intros n Hn. eapply Forall_impl; [by apply two_digits_numeral|]. by left. }
  rewrite !Forall_app. split_and!; try (apply Hd; lia); constructor; (by right) || constructor.
Qed.

Section proofs.
Context `{S : Sockets} `{!Clock}.

Definition log_of (w : world) : log_vars := default init_log (o_logs (w_objs w) !! w_self w).

(** The arrays have their sizes, and the cached time is that of [_old_time]. *)
Record log_ok (v : log_vars) : Prop := {
  lo_strf : length (_time_strf v) = 20%nat;
  lo_time : _old_time v = 0 ∨ take 8 (_time_strf v) = strftime_T (localtime (_old_time v));
  lo_buf : length (_log_buf v) = Z.to_nat LOG_BUFFER_SIZE
}.

Lemma init_log_ok : log_ok init_log.
Proof.
  split; unfold init_log, _time_strf, _log_buf, _old_time; [done|by left|]. by rewrite length_replicate.
Qed.

Definition time_text (sec usec : Z) : cstring := strftime_T (localtime sec) ++ [46] ++ dec usec.

Lemma sprintf_usec usec : 0 ≤ usec < 10 ^ 6 → sprintf (str ".%ld") [ArgInt usec] = Ok ([46] ++ dec usec).
Proof.
  intros Hu. change (str ".%ld") with ([46] ++ [PERCENT; 108; 100]).
  rewrite sprintf_plain by (by intros ?%list_elem_of_singleton). rewrite sprintf_ld, s64_small by lia.
  cbn. by rewrite app_nil_r.
Qed.

Definition with_log (w : world) (v : log_vars) : world :=
  let o := w_objs w in
  with_objs w (Objects (o_chans o) (o_bars o) (o_awaits o) (o_mem o) (<[w_self w := v]> (o_logs o))).

Lemma wp_rd_log Q w : Q (log_of w) w → wp rd_log Q w.
Proof. intros HQ. unfold rd_log. wp_steps. exact HQ. Qed.

Lemma wp_wr_log v Q w : Q () (with_log w v) → wp (wr_log v) Q w.
Proof. intros HQ. unfold wr_log. wp_steps. exact HQ. Qed.

Lemma get_time_str_wp sec usec k w Q :
  log_ok (log_of w) → sys_gettimeofday (w_kernel w) = ((sec, usec), k) → sec ≠ 0 →
  0 ≤ usec < 10 ^ 6 → valid_hms (localtime sec) →
  (∀ v, log_ok v → Q (time_text sec usec) (with_log (with_kernel w k) v)) →
  wp get_time_str Q w.
Proof.
  intros [Hl Ht Hb] Hk Hsec Hu Hv HQ. destruct (strftime_T_chars _ Hv) as [Hlen Hch].
  pose proof (dec_length usec 5 ltac:(lia)) as Hd.
  unfold get_time_str. wp_step. wp_step. rewrite Hk. wp_step. apply wp_put_kernel. wp_step. apply wp_rd_log.
  change (log_of (with_kernel w k)) with (log_of w).
  set (T := strftime_T (localtime sec)) in *.
  assert (Hv1 : wp (if decide (_old_time (log_of w) ≠ sec) then
      b ← lift (wr_bytes (_time_strf (log_of w)) 0 (T ++ [0]));
      mret (LogVars b sec (_log_buf (log_of w))) else mret (log_of w))
    (λ v w', w' = with_kernel w k ∧ length (_time_strf v) = 20%nat ∧ take 8 (_time_strf v) = T ∧
       _old_time v = sec ∧ _log_buf v = _log_buf (log_of w)) (with_kernel w k)).
  { case_decide as E.
    - wp_step. eapply wp_lift; [apply wr_bytes_Ok; rewrite length_app, Hlen, Hl; cbn; lia|].
      wp_step. cbn -[take drop]. split_and!; try done.
      + rewrite ?length_app, ?length_take, ?length_drop, ?length_app, Hlen, Hl. cbn. lia.
      + rewrite take_0. cbn [app]. rewrite <-app_assoc. by apply take_app_length'.
    - wp_step. split_and!; try done. destruct Ht as [?|Ht]; [congruence|].
      by rewrite Ht, E. }
  wp_step. eapply wp_mono; [exact Hv1|]. intros v w' (-> & Hl1 & Ht1 & Ho1 & Hb1).
  rewrite sprintf_usec by done. wp_step. wp_step.
  assert (Hsb : snprintf_bytes (TIME_STR_LEN - 8) ([46] ++ dec usec) = [46] ++ dec usec ++ [0]).
  { unfold snprintf_bytes, TIME_STR_LEN. rewrite take_ge by (cbn; lia). done. }
  wp_step. rewrite Hsb.
  eapply wp_lift; [apply wr_bytes_Ok; rewrite !length_app, Hl1; cbn; lia|].
  rewrite Ht1. wp_step. apply wp_wr_log. wp_step.
  replace (c_string _) with (time_text sec usec); cycle 1.
  { rewrite <-(c_string_app (time_text sec usec) (drop (8 + length ([46] ++ dec usec ++ [0])) (_time_strf v))).
    - unfold time_text. fold T. by rewrite <-!app_assoc.
    - unfold time_text. fold T. rewrite !not_elem_of_app. split_and!.
      + intros H0. rewrite Forall_forall in Hch. destruct (Hch 0 H0) as [Hn|Hn]; [|done].
        unfold numeral in Hn. lia.
      + by intros ?%list_elem_of_singleton.
      + apply numeral_not, dec_numeral. by left. }
  apply HQ. split; cbn [_time_strf _old_time _log_buf]; [|right|by rewrite Hb1].
  - rewrite !length_app, length_drop, ?length_app, Hlen, Hl1. cbn. lia.
  - rewrite Ho1. fold T. by apply take_app_length'.
Qed.

(** * The line *)

(** What a line starts with, in front of [rest]. *)
Definition log_line (lv time : cstring) (pid t cid : Z) (rest : cstring) : cstring :=
  [91] ++ lv ++ [93; 62] ++ time ++ [60; 91] ++ dec (s32 pid) ++ [45] ++ dec (s32 t) ++ [45] ++
  dec (u64 cid) ++ [93; 32] ++ rest.

Lemma log_line_app lv time pid t cid rest :
  log_line lv time pid t cid rest = log_line lv time pid t cid [] ++ rest.
Proof. unfold log_line. rewrite <-!app_assoc. by rewrite app_nil_l. Qed.

Lemma sprintf_log_fmt lv time pid t cid fmt :
  sprintf _log_fmt [ArgStr lv; ArgStr time; ArgInt pid; ArgInt t; ArgInt cid; ArgStr fmt] =
  Ok (log_line lv time pid t cid fmt).
Proof.
  change _log_fmt with ([91] ++ PERCENT :: 115 :: [93; 62] ++ PERCENT :: 115 :: [60; 91] ++
    PERCENT :: 100 :: [45] ++ PERCENT :: 100 :: [45] ++ PERCENT :: 108 :: 117 :: [93; 32] ++
    [PERCENT; 115]).
  assert (Hp : ∀ l : cstring, (∀ c, c ∈ l → c = 91 ∨ c = 93 ∨ c = 62 ∨ c = 60 ∨ c = 45 ∨ c = 32) → PERCENT ∉ l).
  { intros l Hl Hin. specialize (Hl _ Hin). unfold PERCENT in Hl. lia. }
  repeat first [ rewrite sprintf_plain by (apply Hp; set_solver) | rewrite sprintf_s
               | rewrite sprintf_d | rewrite sprintf_lu ].
  cbn -[dec s32 u64]. unfold log_line. by rewrite app_nil_r.
Qed.

(** Where a line is logged: the clock, the thread and its task. *)
Record logging (w : world) (th : thread_t) (level : Z) (lv : cstring) (sec usec cid : Z) (k : kstate)
    : Prop := {
  lg_ok : log_ok (log_of w);
  lg_level : 0 ≤ level ∧ _log_levels !! Z.to_nat level = Some lv;
  lg_clock : sys_gettimeofday (w_kernel w) = ((sec, usec), k);
  lg_sec : sec ≠ 0;
  lg_usec : 0 ≤ usec < 10 ^ 6;
  lg_hms : valid_hms (localtime sec);
  lg_thread : w_threads w !! w_self w = Some th;
  lg_task : g_current th = NULL ∧ cid = 0 ∨
    g_current th ≠ NULL ∧ ∃ t, w_tasks w !! g_current th = Some t ∧ t_cid t = cid
}.

(** The thread after [tid()]. *)
Definition tid_cached (w : world) (th : thread_t) (k : kstate) : Z :=
  tid (g_cached_tid th) (sys_gettid (w_self w) k).

(** What a line with [rest] looks like. *)
Definition line_of (w : world) (th : thread_t) (lv : cstring) (sec usec cid : Z) (k : kstate) (rest : cstring)
    : cstring :=
  log_line lv (time_text sec usec) sys_getpid (tid_cached w th k) cid rest.

Definition log_frame (w w' : world) (th : thread_t) (k : kstate) : Prop :=
  w_kernel w' = k ∧ w_self w' = w_self w ∧ w_tasks w' = w_tasks w ∧ w_fdtab w' = w_fdtab w ∧
  w_ifds w' = w_ifds w ∧ w_threads w' = <[w_self w := Thread (g_current th) (g_sched th) (g_cids th)
    (g_task_alive th) (g_errno th) (tid_cached w th k)]> (w_threads w).

Lemma log_new_fmt_wp w th level lv sec usec cid k fmt :
  logging w th level lv sec usec cid k →
  wp (log_new_fmt level fmt) (λ r w', r = line_of w th lv sec usec cid k fmt ∧ log_ok (log_of w') ∧
    log_frame w w' th k) w.
Proof.
  intros [Hok [Hl Hlv] Hk Hs Hu Hv Hth Hc]. unfold log_new_fmt. rewrite decide_True by done. rewrite Hlv.
  wp_step. wp_step. wp_step. eapply get_time_str_wp; [done..|]. intros v Hv'. unfold m_tid. wp_steps.
  unfold getcid, co_self. wp_steps. cbn [g_current].
  assert (Hlog : ∀ a w', a = cid → w' = with_threads (with_log (with_kernel w k) v)
    (<[w_self w := Thread (g_current th) (g_sched th) (g_cids th) (g_task_alive th) (g_errno th)
       (tid_cached w th k)]> (w_threads w)) →
    wp (lift (sprintf _log_fmt [ArgStr lv; ArgStr (time_text sec usec); ArgInt sys_getpid;
      ArgInt (tid_cached w th k); ArgInt a; ArgStr fmt])) (λ r w', r = line_of w th lv sec usec cid k fmt ∧
      log_ok (log_of w') ∧ log_frame w w' th k) w').
  { intros a w' -> ->. eapply wp_lift; [apply sprintf_log_fmt|]. split_and!; [done| |done].
    unfold log_of, with_log. cbn. by rewrite lookup_insert_eq. }
  destruct Hc as [[Hc ->]|[Hc (t & Ht & <-)]].
  - rewrite decide_True by done. wp_step. by apply Hlog.
  - rewrite decide_False by done. do 3 wp_step. by apply Hlog.
Qed.

(** Nothing in front of the caller's format is a conversion. *)
Lemma line_plain w th level lv sec usec cid k :
  logging w th level lv sec usec cid k → PERCENT ∉ line_of w th lv sec usec cid k [].
Proof.
  intros [_ [Hl Hlv] _ _ _ Hv _ _]. destruct (strftime_T_chars _ Hv) as [_ Hch].
  assert (PERCENT ∉ lv).
  { unfold _log_levels in Hlv. destruct (Z.to_nat level) as [|[|[|n]]]; simplify_eq/=;
      by intros ?%list_elem_of_singleton. }
  assert (PERCENT ∉ strftime_T (localtime sec)).
  { intros Hin. rewrite Forall_forall in Hch. specialize (Hch _ Hin). unfold numeral, PERCENT in Hch. lia. }
  assert (Hd : ∀ z, PERCENT ∉ dec z) by (intros z; apply numeral_not, dec_numeral; by right).
  unfold line_of, log_line, time_text. rewrite !not_elem_of_app. unfold PERCENT in *.
  split_and!; try done; set_solver by lia.
Qed.

Lemma snprintf_ret_Ok text :
  Z.of_nat (length text) ≤ INT_MAX → snprintf_ret text = Z.of_nat (length text).
Proof. intros Hl. unfold snprintf_ret. by rewrite decide_True. Qed.

Lemma length_snprintf n text : (0 < n)%nat → (length (snprintf_bytes n text) ≤ n)%nat.
Proof. intros Hn. unfold snprintf_bytes. rewrite length_app, length_take. cbn. lia. Qed.

(** Formatting: the buffer holds the line, or as much of it as fits. *)
Lemma log_format_wp w th level lv sec usec cid k fmt args msg :
  logging w th level lv sec usec cid k → sprintf fmt args = Ok msg →
  Z.of_nat (length (line_of w th lv sec usec cid k fmt)) < 1024 →
  wp (log_format level fmt args) (λ n w', n = snprintf_ret (line_of w th lv sec usec cid k msg) ∧
    log_ok (log_of w') ∧ log_frame w w' th k ∧
    take (Z.to_nat LOG_BUFFER_SIZE - 1) (line_of w th lv sec usec cid k msg) `prefix_of`
      _log_buf (log_of w')) w.
Proof.
  intros Hlg Hmsg Hlen. unfold log_format. wp_step.
  eapply wp_mono; [by apply log_new_fmt_wp|]. intros r w1 (-> & Hok1 & Hf).
  cbv zeta. rewrite (snprintf_ret_Ok (line_of w th lv sec usec cid k fmt)) by (unfold INT_MAX; lia).
  rewrite !decide_False by lia.
  assert (Ht : sprintf (line_of w th lv sec usec cid k fmt) args =
    Ok (line_of w th lv sec usec cid k msg)).
  { unfold line_of. rewrite log_line_app, sprintf_plain by (by eapply line_plain). rewrite Hmsg. cbn [res_bind].
    by rewrite <-log_line_app. }
  wp_step. eapply wp_lift; [exact Ht|]. wp_step. apply wp_rd_log. wp_step.
  eapply wp_lift; [apply wr_bytes_Ok; cbn [Nat.add]; rewrite (lo_buf _ Hok1); apply length_snprintf; unfold LOG_BUFFER_SIZE; lia|].
  wp_step. apply wp_wr_log. wp_step. split; [done|].
  assert (Hlo : log_of (with_log w1 (LogVars (_time_strf (log_of w1)) (_old_time (log_of w1))
    (take 0 (_log_buf (log_of w1)) ++ snprintf_bytes (Z.to_nat LOG_BUFFER_SIZE)
       (line_of w th lv sec usec cid k msg) ++ drop (0 + length (snprintf_bytes (Z.to_nat LOG_BUFFER_SIZE)
       (line_of w th lv sec usec cid k msg))) (_log_buf (log_of w1))))) =
    LogVars (_time_strf (log_of w1)) (_old_time (log_of w1))
      (snprintf_bytes (Z.to_nat LOG_BUFFER_SIZE) (line_of w th lv sec usec cid k msg) ++
       drop (length (snprintf_bytes (Z.to_nat LOG_BUFFER_SIZE) (line_of w th lv sec usec cid k msg)))
         (_log_buf (log_of w1)))).
  { unfold log_of at 1, with_log. cbn -[snprintf_bytes drop]. by rewrite lookup_insert_eq. }
  rewrite Hlo. split_and!; [|by destruct Hf as (?&?&?&?&?&?)|].
  - destruct Hok1 as [H1 H2 H3]. split; [done|done|]. cbn [_log_buf].
    rewrite length_app, length_drop, H3. pose proof (length_snprintf (Z.to_nat LOG_BUFFER_SIZE)
      (line_of w th lv sec usec cid k msg) ltac:(unfold LOG_BUFFER_SIZE; lia)). lia.
  - unfold snprintf_bytes at 1. cbn [_log_buf]. rewrite <-!app_assoc. by eexists.
Qed.

(** * Properties *)

(** Descriptors that are not registered, such as the standard streams, are
    written to directly. *)
Lemma hooked_fd_none fd th w :
  0 ≤ fd < MAX_FD_NUM → w_fdtab w !! fd = None → w_threads w !! w_self w = Some th →
  g_current th = NULL ∨ is_Some (w_tasks w !! g_current th) →
  hooked_fd fd w = Ok (None, w).
Proof.
  intros Hfd Hn Hth Hc.
  assert (Hwp : wp (hooked_fd fd) (λ r w', r = None ∧ w' = w) w).
  { unfold hooked_fd, co_hooked, co_self. wp_steps.
    assert (Hrest : ∀ h : bool, wp (if negb h then mret None else
      ifd ← get_inner_fd fd; nb ← ifd_nonblock ifd; mret (if (nb : bool) then Some ifd else None))
      (λ r w', r = None ∧ w' = w) w).
    { intros [|]; cbn [negb]; [|by wp_step]. wp_step. apply wp_get_inner_fd; [done|]. rewrite Hn. cbn.
      unfold ifd_nonblock. rewrite decide_True by done. by wp_steps. }
    case_decide as E; [wp_step; apply (Hrest false)|]. destruct Hc as [?|[t Ht]]; [done|].
    wp_step. wp_step. wp_step. apply Hrest. }
  destruct Hwp as (r & w' & Hrun & -> & ->). exact Hrun.
Qed.

(** The frame keeps the thread and its task. *)
Lemma log_frame_none w w' th level lv sec usec cid k fd :
  logging w th level lv sec usec cid k → log_frame w w' th k →
  0 ≤ fd < MAX_FD_NUM → w_fdtab w !! fd = None → hooked_fd fd w' = Ok (None, w').
Proof.
  intros [_ _ _ _ _ _ Hth Hc] (_ & Es & Et & Ef & _ & Eth) Hfd Hn.
  eapply hooked_fd_none; [done|by rewrite Ef|by rewrite Eth, Es, lookup_insert_eq|]. cbn. rewrite Et.
  destruct Hc as [[? _]|[_ (t & ? & _)]]; [by left|right; eauto].
Qed.

(** The thread's [errno] after a call that returned [r]. *)
Definition errno_after (th : thread_t) (r e : Z) : Z := if decide (r < 0) then e else g_errno th.

Definition write_error (fd r err : Z) : cstring :=
  str "[log_printf] error: write fd[" ++ dec (s32 fd) ++ str "] return: " ++ dec (s32 r) ++
  str ", cause: " ++ strerror err ++ [10].

Lemma sprintf_write_error fd r err :
  sprintf (str "[log_printf] error: write fd[%d] return: %d, cause: %s" ++ [10])
    [ArgInt fd; ArgInt r; ArgStr (strerror err)] = Ok (write_error fd r err).
Proof.
  change (str "[log_printf] error: write fd[%d] return: %d, cause: %s" ++ [10]) with
    (str "[log_printf] error: write fd[" ++ PERCENT :: 100 :: str "] return: " ++ PERCENT :: 100 ::
     str ", cause: " ++ PERCENT :: 115 :: [10]).
  repeat first [ rewrite sprintf_plain by (vm_compute; set_solver by lia) | rewrite sprintf_s
               | rewrite sprintf_d ].
  reflexivity.
Qed.

(** One system call of the thread. *)
Lemma syscall_wp call r e k' th w :
  call (w_kernel w) = ((r, e), k') → w_threads w !! w_self w = Some th →
  wp (syscall call) (λ r' w', r' = r ∧ w_kernel w' = k' ∧ w_self w' = w_self w ∧ w_objs w' = w_objs w ∧
    ∃ th', w_threads w' !! w_self w' = Some th' ∧ g_errno th' = errno_after th r e) w.
Proof.
  intros Hc Hth. unfold syscall, errno_after. wp_step. wp_step. rewrite Hc. wp_step. wp_step. case_decide.
  - wp_step. unfold set_errno. wp_steps. split_and!; try done. eexists. split; [apply lookup_insert_eq|done].
  - wp_step. split_and!; try done. by exists th.
Qed.

(** What [write] sends of the buffer. *)
Lemma rd_log_buf_wp w L :
  log_ok (log_of w) → Z.of_nat (length L) < LOG_BUFFER_SIZE →
  take (Z.to_nat LOG_BUFFER_SIZE - 1) L `prefix_of` _log_buf (log_of w) →
  wp (rd_log_buf (Z.of_nat (length L)) 0) (λ b w', b = L ∧ w' = w) w.
Proof.
  intros Hok Hl [tl Hb]. unfold rd_log_buf. wp_step. apply wp_rd_log.
  rewrite decide_True by (rewrite (lo_buf _ Hok); lia). wp_step. split; [|done].
  rewrite take_ge in Hb by (unfold LOG_BUFFER_SIZE in *; lia).
  by rewrite Hb, Nat2Z.id, drop_0, take_app_length.
Qed.

Lemma log_of_objs w w' : w_objs w' = w_objs w → w_self w' = w_self w → log_of w' = log_of w.
Proof. intros Eo Es. unfold log_of. by rewrite Eo, Es. Qed.

(** C34. A log line that fits goes out whole and in one piece: [log_printf] on a
    descriptor that is not hooked makes one [write], of the level, the time (taken
    from the cache within a second), the process, thread and coroutine numbers and
    the caller's message as [printf] formats it, although the caller's format has
    been pasted into another one on the way.  It returns 0 when something was
    written; otherwise it reports the descriptor, the result and [errno] on the
    standard error and returns -1.  It never switches to another task, and the
    buffers of the thread stay well formed. *)
Theorem log_writes_line fuel w th level lv sec usec cid k fd fmt args msg r e k' :
  logging w th level lv sec usec cid k → sprintf fmt args = Ok msg →
  0 ≤ fd < MAX_FD_NUM → w_fdtab w !! fd = None →
  Z.of_nat (length (line_of w th lv sec usec cid k fmt)) < 1024 →
  Z.of_nat (length (line_of w th lv sec usec cid k msg)) < LOG_BUFFER_SIZE →
  sys_write fd (line_of w th lv sec usec cid k msg) k = ((r, e), k') → - 2 ^ 31 ≤ r < 2 ^ 31 →
  ∃ n w', log_printf fuel fd level fmt args w = Ok (CRet n, w') ∧ log_ok (log_of w') ∧
    if decide (0 < r) then n = 0 ∧ w_kernel w' = k'
    else n = -1 ∧ w_kernel w' = (sys_write LOG_FD_STDERR (write_error fd r (errno_after th r e)) k').2.
Proof.
  intros Hlg Hmsg Hfd Hn Hlf Hlm Hk Hr. apply (cwp_direct (λ _ _, True)). unfold log_printf, write_log, hooked_out.
  cwp_step. cwp_step. eapply wp_mono; [by apply log_format_wp|]. intros n w1 (-> & Hok & Hf & Hb).
  rewrite snprintf_ret_Ok by (unfold LOG_BUFFER_SIZE, INT_MAX in *; lia).
  cwp_step. cwp_step. cwp_step. exists None, w1. split; [by eapply log_frame_none|]. cwp_step.
  wp_step. wp_step. eapply wp_mono; [by apply rd_log_buf_wp|]. intros b w2 [-> ->].
  destruct Hf as (Ek & Es & _ & _ & _ & Eth).
  eapply wp_mono; [eapply syscall_wp; [by rewrite Ek|by rewrite Eth, Es, lookup_insert_eq]|].
  intros r' w3 (-> & Hk3 & Hs3 & Ho3 & th3 & Hth3 & He3). wp_step. rewrite s32_small by lia.
  assert (Hok3 : log_ok (log_of w3)) by (by rewrite (log_of_objs w1)).
  destruct (decide (r ≤ 0)) as [Hr0|Hr0].
  - cwp_step. cwp_step. unfold rd_errno. wp_steps. cwp_step. cwp_step. unfold dprintf.
    rewrite He3. wp_step. eapply wp_lift; [apply sprintf_write_error|]. wp_step.
    change (errno_after (Thread _ _ _ _ _ _) r e) with (errno_after th r e).
    destruct (sys_write LOG_FD_STDERR (write_error fd r (errno_after th r e)) k') as [[r4 e4] k4] eqn:H4.
    eapply wp_mono; [eapply syscall_wp; [by rewrite Hk3|done]|].
    intros r5 w5 (-> & Hk5 & Hs5 & Ho5 & _). wp_step. cwp_step. rewrite decide_False by lia.
    split_and!; [|done..]. by rewrite (log_of_objs w3).
  - cwp_step. by rewrite decide_True by lia.
Qed.

(** C40. A line that does not fit takes the program out of its arrays: when the
    prefix and the caller's format together have 1024 characters or more,
    [log_printf] stores its terminator behind [new_fmt]; when the finished line is
    longer than [_log_buf], it passes [write] the untruncated length that
    [vsnprintf] returns, and bytes behind the array go out.  Both are undefined
    behaviour, for every message and every descriptor that is not hooked. *)
Theorem log_overflows fuel w th level lv sec usec cid k fd fmt args msg :
  logging w th level lv sec usec cid k → sprintf fmt args = Ok msg →
  0 ≤ fd < MAX_FD_NUM → w_fdtab w !! fd = None →
  Z.of_nat (length (line_of w th lv sec usec cid k fmt)) ≤ INT_MAX →
  Z.of_nat (length (line_of w th lv sec usec cid k msg)) ≤ INT_MAX →
  1024 ≤ Z.of_nat (length (line_of w th lv sec usec cid k fmt)) ∨
    LOG_BUFFER_SIZE < Z.of_nat (length (line_of w th lv sec usec cid k msg)) →
  log_printf fuel fd level fmt args w = Undef.
Proof.
  intros Hlg Hmsg Hfd Hn Hif Him Hlong. unfold log_printf, cbind, act.
  destruct (decide (1024 ≤ Z.of_nat (length (line_of w th lv sec usec cid k fmt)))) as [Hf|Hf].
  - destruct (log_new_fmt_wp _ _ _ _ _ _ _ _ fmt Hlg) as (r & w1 & Hrun & -> & _).
    unfold log_format, mbind at 1, M_bind at 1. rewrite Hrun. cbn [res_bind fst snd].
    rewrite snprintf_ret_Ok by done. rewrite decide_False by lia. by rewrite decide_True.
  - destruct Hlong as [?|Hlong]; [done|].
    destruct (log_format_wp _ _ _ _ _ _ _ _ _ _ _ Hlg Hmsg ltac:(lia)) as (n & w1 & Hrun & -> & Hok & Hfr & _).
    rewrite Hrun, snprintf_ret_Ok by done. cbn [res_bind fst snd co_then].
    unfold write_log, hooked_out, cbind, act.
    rewrite (log_frame_none _ _ _ _ _ _ _ _ _ fd Hlg Hfr Hfd Hn). cbn [res_bind fst snd co_then].
    assert (Hrd : rd_log_buf (Z.of_nat (length (line_of w th lv sec usec cid k msg))) 0 w1 = Undef).
    { unfold rd_log_buf, mbind, M_bind. destruct (wp_rd_log (λ v w', v = log_of w1 ∧ w' = w1) w1) as (v & w' & Hr & -> & ->); [done|].
      rewrite Hr. cbn [res_bind fst snd]. by rewrite decide_False by (rewrite (lo_buf _ Hok); unfold LOG_BUFFER_SIZE in *; lia). }
    unfold mbind, M_bind. by rewrite Hrd.
Qed.
End proofs.

(** * Examples *)

(** A kernel that counts the microseconds since midnight, takes what it is sent
    on the standard streams, and as much as there is room for elsewhere. *)
Record ex_log_state := ExLog { ex_room : Z; ex_out : list Z; ex_std : list Z; ex_clock : Z }.

Definition ex_log_kernel : Kernel := {|
  kstate := ex_log_state;
  sys_epoll_create := λ k, ((3, 0), k);
  sys_epoll_ctl := λ _ _ _ _ k, ((0, 0), k);
  sys_epoll_wait := λ _ _ _ k, (inr [], k);
  sys_close := λ _ k, ((0, 0), k);
  sys_write := λ fd b k,
    if decide (fd ≤ 2)
    then ((Z.of_nat (length b), 0), ExLog (ex_room k) (ex_out k) (ex_std k ++ b) (ex_clock k))
    else if decide (ex_room k ≤ 0) then ((-1, EAGAIN), k)
    else let r := Z.min (ex_room k) (Z.of_nat (length b)) in
         ((r, 0), ExLog (ex_room k - r) (ex_out k ++ take (Z.to_nat r) b) (ex_std k) (ex_clock k));
  sys_timerfd_create := λ k, ((4, 0), k);
  sys_timerfd_settime := λ _ _ _ _ k, ((0, 0), k);
  sys_gettid := λ th _, 1000 + th
|}.

#[local] Existing Instance ex_log_kernel.

Definition ex_log_clock : Clock (K := ex_log_kernel) :=
  Build_Clock ex_log_kernel
    (λ k, ((ex_clock k `div` 1000000, ex_clock k mod 1000000),
      ExLog (ex_room k) (ex_out k) (ex_std k) (ex_clock k + 1000)))
    77
    (λ t, ((t `div` 3600) mod 24, (t `div` 60) mod 60, t mod 60))
    (λ _, str "Resource temporarily unavailable")
    (λ _, str "Resource temporarily unavailable").

#[local] Existing Instance ex_log_clock.

(** The runtime of Event.v with descriptor 7 non-blocking, at 01:02:03.004005. *)
Definition ex_log_world (room : Z) : world (K := ex_log_kernel) :=
  with_ifds (ex_runtime ex_links 0 0 ex_log_kernel (ExLog room [] [] 3723004005))
    {[1 := InnerFd 7 O_NONBLOCK 0 0 1 0]}.

Definition log_text {A} (r : res (A * world (K := ex_log_kernel))) : option (list Z * list Z) :=
  match r with Ok (_, w) => Some (ex_out (w_kernel w), ex_std (w_kernel w)) | _ => None end.

(** A line on the standard output; the microseconds are not padded. *)
Example ex_inf_log_run :
  log_text (INF_LOG 5 (Place (str "main") (str "a.c") 12)
    (str "%d of %s") [ArgInt (-3); ArgStr (str "x")] (ex_log_world 0)) =
  Some ([], str "[I]>01:02:03.4005<[77-7-0] -3 of x <main>@<a.c:12>" ++ [10]).
Proof. vm_compute. reflexivity. Qed.

(** Two tasks of a thread log to the same non-blocking descriptor: the first one's
    line does not fit and waits, the second one's line is put together in the same
    buffer meanwhile, and the rest of the first line that then goes out is the
    second one's. *)
Definition ex_other_logs (w : world (K := ex_log_kernel)) : world (K := ex_log_kernel) :=
  match log_printf 5 LOG_FD_STDOUT LOG_INFO (str "bbbbbbbb" ++ [10]) [] w with
  | Ok (_, w) => let k := w_kernel w in with_kernel w (ExLog 1000 (ex_out k) (ex_std k) (ex_clock k))
  | _ => w
  end.

Example ex_lines_mix :
  log_text (crun [ex_other_logs] (log_printf 5 7 LOG_ERROR (str "aaaaaaaa" ++ [10]) []) (ex_log_world 30)) =
  Some (str "[E]>01:02:03.4005<[77-7-0] aaabbbbb" ++ [10],
        str "[I]>01:02:03.5005<[77-7-0] bbbbbbbb" ++ [10]).
Proof. vm_compute. reflexivity. Qed.

Lemma ex_logging : logging (ex_log_world 0) (Thread 2 1 None 1 0 7) LOG_INFO (str "I") 3723 4005 0
  (ExLog 0 [] [] 3723005005).
Proof.
  split; try reflexivity; try done.
  - apply init_log_ok.
  - right. split; [done|]. by eexists.
Qed.

Lemma log_writes_line_witness :
  ∃ n w', log_printf 5 LOG_FD_STDOUT LOG_INFO (str "%d of %s") [ArgInt (-3); ArgStr (str "x")] (ex_log_world 0) =
      Ok (CRet n, w') ∧ log_ok (log_of w') ∧ n = 0 ∧
    w_kernel w' = ExLog 0 [] (str "[I]>01:02:03.4005<[77-7-0] -3 of x") 3723005005.
Proof.
  apply (log_writes_line 5 (ex_log_world 0) _ LOG_INFO _ _ _ _ _ LOG_FD_STDOUT (str "%d of %s")
    [ArgInt (-3); ArgStr (str "x")] (str "-3 of x") 34 0
    (ExLog 0 [] (str "[I]>01:02:03.4005<[77-7-0] -3 of x") 3723005005) ex_logging); by vm_compute.
Defined.

Lemma log_overflows_witness :
  log_printf 5 LOG_FD_STDOUT LOG_INFO (str "%s") [ArgStr (replicate 4096 97)] (ex_log_world 0) = Undef ∧
  log_printf 5 LOG_FD_STDOUT LOG_INFO (replicate 1024 97) [] (ex_log_world 0) = Undef.
Proof.
  split; [apply (log_overflows 5 (ex_log_world 0) _ LOG_INFO _ _ _ _ _ LOG_FD_STDOUT (str "%s") _ (replicate 4096 97) ex_logging)
         |apply (log_overflows 5 (ex_log_world 0) _ LOG_INFO _ _ _ _ _ LOG_FD_STDOUT (replicate 1024 97) _ (replicate 1024 97) ex_logging)];
    try (by vm_compute); [right|left]; by vm_compute.
Defined.
