(* ===== verification/Helper.v ===== *)
(** sys_helper.c, the rest of timer.c, the hooks of sys_hook.c that use them,
    the two service tasks of a scheduler ([_timeout_task] of event.c and
    [_active_task] of task_sched.c), and [_task_func] of task.c. *)

From Stdlib Require Import ZArith Lia.
From stdpp Require Import base numbers strings sets gmap list.
From S2P Require Import Prelude IntrusiveList Links SpinLock TimeWheel HashMap World Coroutine InnerFd.
From S2P Require Import Task Sched Event Mutex Cond Sem Blocking Hook.
Open Scope Z_scope.

(** netdb.h. *)
Definition HOST_NOT_FOUND : Z := 1.
Definition TRY_AGAIN : Z := 2.
Definition NO_RECOVERY : Z := 3.
Definition NO_DATA : Z := 4.

(** The name under which the resolver keeps its buffer, as characters. *)
Definition CO_HOST_NAME_KEY : cstring :=
  [99; 111; 95; 103; 101; 116; 104; 111; 115; 116; 98; 121; 110; 97; 109; 101].

Record pollfd := PollFd { pf_fd : Z; pf_events : Z; pf_revents : Z }.

Section helper.
Context `{S : Sockets}.

(** * Sleeping *)

Definition handle_timer (timerfd : Z) : C Z :=
  let! r := read timerfd 8 in cret r.1.

Definition wait_timer (timerfd ms : Z) : C Z :=
  let! res := act (set_timer timerfd ms) in
  if decide (res ≠ 0) then cret res else handle_timer timerfd.

Definition co_sleep (mseconds : Z) : C Z :=
  if decide (mseconds = 0) then cret 0 else
  let! timerfd := act open_timer in
  if decide (timerfd < 0) then act (panic "timer fd open failed!") else
  let! res := wait_timer timerfd mseconds in
  if decide (res < 0) then cret (-1) else
  do! act (close_timer timerfd) in
  cret 0.

(** [seconds * 1000] is a product of [unsigned int]s. *)
Definition sleep (seconds : Z) : C Z :=
  let! h := act co_hooked in
  if negb h then act (w ← get; let '(r, k) := sys_sleep seconds (w_kernel w) in put_kernel k;; mret r)
  else let! r := co_sleep (u32 (seconds * 1000)) in cret (u32 r).

(** * Resolving names *)

(** Of [struct co_hostent_st] the model keeps [herrno], which the code reads
    back; the rest is filled by the resolver and only handed on. *)
Definition rd_herrno (hbuf : ptr) : M Z :=
  t ← co_self;
  v ← rd_task t;
  m ← lift (deref (t_specs v));
  b ← lift (deref (hm_blocks m !! hbuf));
  lift (deref (head b)).
Definition wr_herrno (hbuf : ptr) (e : Z) : M unit :=
  t ← co_self;
  v ← rd_task t;
  m ← lift (deref (t_specs v));
  _ ← lift (deref (hm_blocks m !! hbuf));
  set_specs t (set_blocks m (<[hbuf := [e]]> (hm_blocks m))).

(** The [switch] on [herrno]: the values of [ret] and [retry] after it.  The case
    [TRY_AGAIN] falls through to the default. *)
Definition resolve_switch (herrno ret retry : Z) : Z * Z :=
  if decide (herrno = HOST_NOT_FOUND ∨ herrno = NO_DATA ∨ herrno = NO_RECOVERY) then (-1, 0)
  else if decide (herrno = TRY_AGAIN) then
    let retry := retry - 1 in
    let ret := if decide (retry = 0) then -1 else ret in
    (ret, 0)
  else (ret, 0).

Fixpoint resolve_loop (fuel : nat) (name : list Z) (hbuf : ptr) (ret retry : Z) : C Z :=
  if decide (retry = 0) then cret ret else
  match fuel with
  | O => act (lift OutOfFuel)
  | Datatypes.S fuel =>
      let! e := act (rd_herrno hbuf) in
      let! r := gethostbyname_r fuel name e in
      do! act (wr_herrno hbuf r.2) in
      let! e := act (rd_herrno hbuf) in
      let '(ret, retry) := resolve_switch e r.1 retry in
      resolve_loop fuel name hbuf ret retry
  end.

(** [&hbuf->host] is [hbuf]: it is the first field. *)
Definition co_gethostbyname (fuel : nat) (name : list Z) : C ptr :=
  let! hbuf := act (co_spec_get CO_HOST_NAME_KEY) in
  let! hbuf := act (if decide (hbuf = NULL)
                    then co_spec_set CO_HOST_NAME_KEY [0];; co_spec_get CO_HOST_NAME_KEY
                    else mret hbuf) in
  let! ret := resolve_loop fuel name hbuf 0 3 in
  cret (if decide (ret ≠ 0) then NULL else hbuf).

(** * poll *)

(** [if(!use_timeout) wheel_update_element(ep->timer, &ifd->link, ifd->timeout)]. *)
Definition arm_ifd (ep ifd : ptr) : M unit :=
  e ← rd_epoll ep;
  v ← rd_ifd ifd;
  match ep_timer e with
  | Some tw => upd_links (λ l, wheel_update_element tw l (ifd_link ifd) (s32 (i_timeout v)))
  | None => lift Undef
  end.

(** The first loop of [co_poll]. *)
Fixpoint poll_register (ep : ptr) (use_timeout : bool) (fds : list pollfd) : M unit :=
  match fds with
  | [] => mret ()
  | p :: fds =>
      ifd ← get_inner_fd (pf_fd p);
      t ← co_self;
      set_i_task ifd t;;
      set_i_error ifd IENONE;;
      v ← rd_ifd ifd;
      _ ← add_events ep (i_fd v) (pf_events p);
      (if use_timeout then mret () else arm_ifd ep ifd);;
      poll_register ep use_timeout fds
  end.

(** What [revents] gets from [ifd->error]. *)
Definition error_to_events (error : Z) : Z :=
  let events := 0 in
  let events := if has error IEREAD then Z.lor events EPOLLIN else events in
  let events := if has error IEWRITE then Z.lor events EPOLLOUT else events in
  let events := if has error IEERR then Z.lor events EPOLLERR else events in
  let events := if has error IERDHUP then Z.lor events EPOLLRDHUP else events in
  if has error IEHUP then Z.lor events EPOLLHUP else events.

Definition set_revents (p : pollfd) (e : Z) : pollfd := PollFd (pf_fd p) (pf_events p) e.

(** The body of the second loop on entry [i]: the array and [j] after it. *)
Definition poll_entry (ep : ptr) (use_timeout timeout_event : bool) (i : nat) (fds : list pollfd) (j : nat)
    : M (list pollfd * nat) :=
  p ← lift (deref (fds !! i));
  ifd ← get_inner_fd (pf_fd p);
  (if use_timeout then mret () else upd_links (λ l, wheel_delete_element l (ifd_link ifd)));;
  v ← rd_ifd ifd;
  _ ← delete_events ep (i_fd v) 0;
  let fds := <[i := set_revents p 0]> fds in
  v ← rd_ifd ifd;
  if decide (IENONE = i_error v) then
    (if use_timeout && timeout_event then set_i_error ifd IETIMEOUT else mret ());;
    mret (fds, j)
  else
  let q := set_revents p (error_to_events (i_error v)) in
  let fds := <[i := q]> fds in
  mret (<[j := q]> fds, Datatypes.S j).

Fixpoint poll_collect (n : nat) (ep : ptr) (use_timeout timeout_event : bool) (i : nat) (fds : list pollfd)
    (j : nat) : M (list pollfd * nat) :=
  match n with
  | O => mret (fds, j)
  | Datatypes.S n =>
      r ← poll_entry ep use_timeout timeout_event i fds j;
      poll_collect n ep use_timeout timeout_event (Datatypes.S i) r.1 r.2
  end.

(** The returned number and the array as the caller finds it. *)
Definition co_poll (fds : list pollfd) (timeout : Z) : C (Z * list pollfd) :=
  let! ep := act current_thread_epoll in
  let use_timeout := bool_decide (timeout ≠ 0 ∧ timeout ≠ -1) in
  do! act (poll_register ep use_timeout fds) in
  let! timerfd := act (if use_timeout
                       then timerfd ← open_timer; _ ← set_timer timerfd timeout; mret timerfd
                       else mret (-1)) in
  do! act (t ← co_self; set_status t IO_BLOCK) in
  do! yield in
  let! timeout_event := act (if use_timeout
                             then b ← is_timeout_timer timerfd; _ ← close_timer timerfd; mret b
                             else mret false) in
  let! r := act (poll_collect (length fds) ep use_timeout timeout_event 0 fds 0) in
  cret (Z.of_nat r.2, r.1).

(** * The service tasks *)

(** [_timeout_task]; the fuel bounds the number of ticks. *)
Fixpoint timeout_loop (fuel : nat) (ep : ptr) : C unit :=
  match fuel with
  | O => act (lift OutOfFuel)
  | Datatypes.S fuel =>
      let! e := act (rd_epoll ep) in
      let! tw := act (lift (deref (ep_timer e))) in
      let! r := read (tw_fd tw) 8 in
      let! go := act (timeout_turn ep r.1) in
      if (go : bool) then timeout_loop fuel ep else cret ()
  end.
Definition _timeout_task (fuel : nat) (ep : ptr) : C unit :=
  do! act co_enable_hook in timeout_loop fuel ep.

Definition set_active (s : ptr) (a0 a1 : Z) : M unit :=
  upd_sched s (λ v, World.Sched (rq_lock v) (rq_task_num v) (s_sched_task v) (s_epoll v) (s_in_sched v)
                      (s_force_sched v) (s_tid v) a0 a1).

(** [pipe(SCHED_ACTIVE_FDS)]. *)
Definition active_pipe : M unit :=
  s ← current_sched;
  w ← get;
  let '((r, (p0, p1)), k) := sys_pipe (w_kernel w) in
  put_kernel k;;
  if decide (r = -1) then panic "failed open pipe" else set_active s p0 p1.

(** [SCHED_ACTIVE_FDS[i]]. *)
Definition active_fd (i : bool) : M Z :=
  s ← current_sched; v ← rd_sched s; mret (if i then s_active1 v else s_active0 v).

Definition active_setup (i : bool) : M unit :=
  fd ← active_fd i;
  flags ← fcntl fd F_GETFL 0;
  _ ← fcntl fd F_SETFL (Z.lor flags O_NONBLOCK);
  ifd ← get_inner_fd fd;
  set_i_timeout ifd (-1).

(** [close(SCHED_ACTIVE_FDS[i]); SCHED_ACTIVE_FDS[i] = -1]. *)
Definition active_close (i : bool) : M unit :=
  fd ← active_fd i;
  _ ← close fd;
  s ← current_sched;
  v ← rd_sched s;
  if i then set_active s (s_active0 v) (-1) else set_active s (-1) (s_active1 v).

Fixpoint active_loop (fuel : nat) : C unit :=
  match fuel with
  | O => act (lift OutOfFuel)
  | Datatypes.S fuel =>
      let! fd := act (active_fd false) in
      let! r := read fd 256 in
      if decide (0 < r.1) then active_loop fuel else cret ()
  end.

Definition _active_task (fuel : nat) : C unit :=
  do! act active_pipe in
  do! act (active_setup false;; active_setup true) in
  do! active_loop fuel in
  act (active_close false;; active_close true).

(** * The life of a task *)

(** [_task_func]: the function a task starts in, where [body] is [TASK_RUN].  The
    switch in [task_exit] is the last one: the scheduler destroys the task. *)
Definition _task_func (body : C unit) : C unit :=
  do! act co_enable_hook in
  do! body in
  let! current := act co_self in
  if decide (current = NULL) then cret () else
  do! act task_exit in
  yield.

(** * The remaining hooks *)

Definition gethostbyname (fuel : nat) (name : list Z) (direct : M ptr) : C ptr :=
  let! h := act co_hooked in
  if negb h then act direct else co_gethostbyname fuel name.

Definition __poll (fds : list pollfd) (timeout : Z) (direct : M (Z * list pollfd)) : C (Z * list pollfd) :=
  let! h := act co_hooked in
  if negb h then act direct else co_poll fds timeout.

End helper.
