(* ===== verification/Poll.v ===== *)
(** What [co_poll] (sys_helper.c) tells its caller, and the end of a task.

    The second loop of [co_poll] takes every descriptor off the wheel and out of
    epoll and writes the ready entries to the front of the caller's array, while
    it still reads the later ones.  [poll_ready] is what it should find and
    [polled] the array it leaves. *)

From Stdlib Require Import ZArith Lia.
From stdpp Require Import base numbers strings sets gmap list.
From S2P Require Import Prelude IntrusiveList Links SpinLock TimeWheel HashMap World Coroutine InnerFd.
From S2P Require Import Task Sched Event Mutex Cond Sem Blocking Hook Helper.
Open Scope Z_scope.

(** * Events *)

(** The events a descriptor is told about. *)
Definition POLL_EVENTS : Z :=
  Z.lor EPOLLIN (Z.lor EPOLLOUT (Z.lor EPOLLERR (Z.lor EPOLLRDHUP EPOLLHUP))).

Lemma land_bit ev n : 0 ≤ n → Z.land ev (2 ^ n) = if has ev (2 ^ n) then 2 ^ n else 0.
Proof.
  intros Hn. unfold has. case_bool_decide as E; cbn; [done|].
  apply Z.bits_inj'. intros k Hk. rewrite Z.land_spec, Z.pow2_bits_eqb by done.
  destruct (Z.eqb_spec n k) as [<-|_]; [|apply andb_false_r]. rewrite andb_true_r.
  destruct (Z.testbit ev n) eqn:Eb; [done|]. exfalso. apply E. apply Z.bits_inj'. intros k Hk'.
  rewrite Z.land_spec, Z.pow2_bits_eqb, Z.bits_0 by done.
  destruct (Z.eqb_spec n k) as [<-|_]; [by rewrite Eb|apply andb_false_r].
Qed.

(** [event_wait] encodes what the kernel reports in the error field, and [co_poll]
    decodes it again. *)
Lemma events_roundtrip ev : error_to_events (events_to_error ev) = Z.land ev POLL_EVENTS.
Proof.
  unfold POLL_EVENTS. rewrite !Z.land_lor_distr_r.
  change EPOLLIN with (2 ^ 0). change EPOLLOUT with (2 ^ 2). change EPOLLERR with (2 ^ 3).
  change EPOLLRDHUP with (2 ^ 13). change EPOLLHUP with (2 ^ 4).
  rewrite !land_bit by lia. unfold events_to_error.
  change EPOLLIN with (2 ^ 0). change EPOLLOUT with (2 ^ 2). change EPOLLERR with (2 ^ 3).
  change EPOLLRDHUP with (2 ^ 13). change EPOLLHUP with (2 ^ 4).
  destruct (has ev (2 ^ 0)), (has ev (2 ^ 2)), (has ev (2 ^ 3)), (has ev (2 ^ 13)), (has ev (2 ^ 4));
    vm_compute; reflexivity.
Qed.

(** * The array *)

(** The error field of the descriptor of an entry. *)
Definition poll_error {K : Kernel} (w : world) (p : pollfd) : Z :=
  from_option i_error IENONE (w_fdtab w !! pf_fd p ≫= λ i, w_ifds w !! i).

Definition poll_done (err : pollfd → Z) (p : pollfd) : pollfd := set_revents p (error_to_events (err p)).

(** The entries something has happened to, in order. *)
Definition poll_ready (err : pollfd → Z) (fds : list pollfd) : list pollfd :=
  poll_done err <$> filter (λ p, err p ≠ IENONE) fds.

(** The array after the loop. *)
Definition polled (err : pollfd → Z) (fds : list pollfd) : list pollfd :=
  poll_ready err fds ++ drop (length (poll_ready err fds)) (poll_done err <$> fds).

Section polled.
Context (err : pollfd → Z).
Implicit Types (fds rest : list pollfd) (p : pollfd).

Lemma length_poll_ready fds : (length (poll_ready err fds) ≤ length fds)%nat.
Proof. unfold poll_ready. rewrite length_fmap. apply length_filter. Qed.

Lemma length_polled fds : length (polled err fds) = length fds.
Proof.
  unfold polled. pose proof (length_poll_ready fds).
  rewrite length_app, length_drop, length_fmap. lia.
Qed.

Lemma poll_ready_skip fds p : err p = IENONE → poll_ready err (fds ++ [p]) = poll_ready err fds.
Proof.
  intros Hp. unfold poll_ready. rewrite filter_app, filter_cons_False by (by intros []).
  by rewrite filter_nil, app_nil_r.
Qed.

Lemma poll_ready_take fds p :
  err p ≠ IENONE → poll_ready err (fds ++ [p]) = poll_ready err fds ++ [poll_done err p].
Proof.
  intros Hp. unfold poll_ready. rewrite filter_app, filter_cons_True by done. by rewrite filter_nil, fmap_app.
Qed.

(** One more entry that nothing has happened to. *)
Lemma polled_skip fds p rest :
  err p = IENONE → <[length fds := set_revents p 0]> (polled err fds ++ p :: rest)
    = polled err (fds ++ [p]) ++ rest.
Proof.
  intros Hp. pose proof (length_polled fds) as Hl. pose proof (length_poll_ready fds).
  rewrite insert_app_r_alt, Hl, Nat.sub_diag by lia. cbn.
  unfold polled. rewrite poll_ready_skip by done. rewrite fmap_app, drop_app_le by (rewrite length_fmap; lia).
  rewrite <-!app_assoc. do 2 f_equal. cbn. unfold poll_done. by rewrite Hp.
Qed.

(** One more ready entry: it is written at its place and then to the front. *)
Lemma polled_take fds p rest :
  err p ≠ IENONE →
  <[length (poll_ready err fds) := poll_done err p]>
    (<[length fds := poll_done err p]> (polled err fds ++ p :: rest)) = polled err (fds ++ [p]) ++ rest.
Proof.
  intros Hp. pose proof (length_polled fds) as Hl. pose proof (length_poll_ready fds).
  rewrite (insert_app_r_alt _ _ (length fds)), Hl, Nat.sub_diag by lia. cbn [insert list_insert].
  unfold polled at 2. rewrite poll_ready_take by done. rewrite length_app, fmap_app. cbn [length fmap list_fmap].
  unfold polled. rewrite <-!app_assoc.
  rewrite insert_app_r_alt, Nat.sub_diag by lia. f_equal.
  destruct (drop (length (poll_ready err fds)) (poll_done err <$> fds)) as [|q l] eqn:E.
  - assert (length fds = length (poll_ready err fds)) as Hf.
    { pose proof (f_equal length E) as El. rewrite length_drop, length_fmap in El. cbn in El. lia. }
    cbn. rewrite drop_ge; [done|]. rewrite length_app, length_fmap. cbn. lia.
  - cbn. rewrite drop_app_le by (pose proof (f_equal length E) as El;
      rewrite length_drop, length_fmap in El; cbn in El; rewrite length_fmap; lia).
    rewrite <-drop_drop, E. cbn. by rewrite <-app_assoc.
Qed.
End polled.

Section collect.
Context `{S : Sockets}.

(** Every entry is for a descriptor of its own that is registered, and no list
    starts at a descriptor. *)
Record pollable (w : world) (R : gmap laddr (list laddr)) (fds : list pollfd) : Prop := {
  pl_fd p : p ∈ fds → 0 ≤ pf_fd p < MAX_FD_NUM;
  pl_ifd p : p ∈ fds → ∃ i v, w_fdtab w !! pf_fd p = Some i ∧ w_ifds w !! i = Some v ∧
    0 ≤ i_fd v < MAX_FD_NUM ∧ R !! ifd_link i = None ∧ is_Some (w_links w !! ifd_link i);
  pl_distinct : NoDup ((λ p, w_fdtab w !! pf_fd p) <$> fds)
}.

(** What a turn of the loop on object [a] does to the process. *)
Record unpolled (w w' : world) (s : ptr) (R R' : gmap laddr (list laddr)) (ts : list Z)
    (use_timeout timed_out : bool) (a : Z) (v : inner_fd) : Prop := {
  up_rt : rt w' s R' ts;
  up_fdtab : w_fdtab w' = w_fdtab w;
  up_epolls : w_epolls w' = w_epolls w;
  up_dom : dom (w_links w') = dom (w_links w);
  up_heads h : R !! h = None → R' !! h = None;
  up_rings c : in_rings R' c → in_rings R c;
  up_off : use_timeout = false → ¬ in_rings R' (ifd_link a);
  up_others a' : a' ≠ a → w_ifds w' !! a' = w_ifds w !! a';
  up_error : i_error <$> w_ifds w' !! a =
    Some (if decide (i_error v = IENONE) then (if use_timeout && timed_out then IETIMEOUT else IENONE)
          else i_error v)
}.

Lemma poll_entry_wp w s R ts ep e ut te i fds j p a v Q :
  rt w s R ts → ep ≠ NULL → w_epolls w !! ep = Some e → fds !! i = Some p →
  0 ≤ pf_fd p < MAX_FD_NUM → w_fdtab w !! pf_fd p = Some a → w_ifds w !! a = Some v →
  0 ≤ i_fd v < MAX_FD_NUM → R !! ifd_link a = None → is_Some (w_links w !! ifd_link a) →
  (∀ w' R' r, unpolled w w' s R R' ts ut te a v →
     r = (let q := set_revents p (error_to_events (i_error v)) in
          if decide (i_error v = IENONE) then (<[i := set_revents p 0]> fds, j)
          else (<[j := q]> (<[i := q]> fds), Datatypes.S j)) → Q r w') →
  wp (poll_entry ep ut te i fds j) Q w.
Proof.
  intros Hrt Hep He Hp Hfd Ha Hv Hvf Hh Hl HQ.
  pose proof (rt_self _ _ _ _ Hrt) as (th & Hth & Hs).
  destruct (lrep_delete _ _ _ (rt_links _ _ _ _ Hrt) Hh Hl) as (l & Hd & HR & Hdom & Hni).
  set (R' := if ut then R else ring_remove (ifd_link a) R).
  set (w1 := if ut then w else with_links w l).
  assert (Hrt1 : rt w1 s R' ts) by (subst w1 R'; destruct ut; [done|by eapply rt_remove_ifd]).
  assert (Hlink : wp (if ut then mret () else upd_links (λ l, wheel_delete_element l (ifd_link a)))
    (λ _ w', w' = w1) w).
  { subst w1. destruct ut; [by apply wp_ret|]. by eapply wp_upd_links. }
  assert (Hup : ∀ w', rt w' s R' ts → w_fdtab w' = w_fdtab w → w_epolls w' = w_epolls w →
    w_links w' = w_links w1 → (∀ a', a' ≠ a → w_ifds w' !! a' = w_ifds w !! a') →
    (i_error v = IENONE → i_error <$> w_ifds w' !! a = Some (if ut && te then IETIMEOUT else IENONE)) →
    (i_error v ≠ IENONE → i_error <$> w_ifds w' !! a = Some (i_error v)) → unpolled w w' s R R' ts ut te a v).
  { intros w' Hrt' E1 E2 E3 E4 E5 E6. split; try done.
    - rewrite E3. subst w1. by destruct ut.
    - intros h Hn. subst R'. destruct ut; [done|]. by rewrite ring_remove_lookup, Hn.
    - intros c. subst R'. destruct ut; [done|]. apply in_rings_remove.
    - intros ->. exact Hni.
    - case_decide; auto. }
  unfold poll_entry. wp_step. rewrite Hp. wp_steps. apply wp_get_inner_fd; [done|].
  rewrite Ha. cbn [default from_option id]. wp_step. eapply wp_mono; [exact Hlink|]. intros [] ? ->.
  assert (Hv1 : w_ifds w1 !! a = Some v) by (subst w1; by destruct ut).
  assert (E1 : w_epolls w1 = w_epolls w ∧ w_fdtab w1 = w_fdtab w ∧ w_ifds w1 = w_ifds w ∧
    w_threads w1 = w_threads w ∧ w_self w1 = w_self w) by (subst w1; by destruct ut).
  destruct E1 as (Ee & Ef & Ei & Et & Es).
  wp_steps. eapply (delete_events_wp w1 ep e _ _ th); [done|done|by rewrite Ee|by rewrite Et, Es|].
  intros r k th' Hs' _. set (w2 := with_threads (with_kernel w1 k) (<[w_self w1 := th']> (w_threads w1))).
  assert (Hrt2 : rt w2 s R' ts).
  { apply (rt_threads (with_kernel w1 k)); [|congruence]. eapply rt_frame; [exact Hrt1|..]; reflexivity. }
  wp_steps. destruct (decide (IENONE = i_error v)) as [E|E].
  - destruct (ut && te) eqn:Eb; wp_steps.
    + unfold set_i_error. wp_steps. apply (HQ _ R'); [apply Hup; cbn; try congruence|by rewrite decide_True].
      * eapply rt_frame; [exact Hrt2|..]; reflexivity.
      * intros a' Hne. rewrite lookup_insert_ne by done. congruence.
      * by rewrite lookup_insert_eq.
    + apply (HQ w2 R'); [apply Hup; cbn; try congruence|by rewrite decide_True].
      rewrite Hv1. cbn. congruence.
  - wp_steps. rewrite list_insert_insert_eq.
    apply (HQ w2 R'); [apply Hup; cbn; try congruence|by rewrite decide_False by congruence].
    by rewrite Hv1.
Qed.

(** The error field afterwards. *)
Definition left_error (use_timeout timed_out : bool) (er : Z) : Z :=
  if decide (er = IENONE) then (if use_timeout && timed_out then IETIMEOUT else IENONE) else er.

(** What the loop over [fds] does to the process. *)
Record unpolled_all (w w' : world) (s : ptr) (R' : gmap laddr (list laddr)) (ts : list Z)
    (use_timeout timed_out : bool) (fds : list pollfd) : Prop := {
  ua_rt : rt w' s R' ts;
  ua_fdtab : w_fdtab w' = w_fdtab w;
  ua_others a : (∀ p, p ∈ fds → w_fdtab w !! pf_fd p ≠ Some a) → w_ifds w' !! a = w_ifds w !! a;
  ua_error p : p ∈ fds → poll_error w' p = left_error use_timeout timed_out (poll_error w p);
  ua_off p a : p ∈ fds → w_fdtab w !! pf_fd p = Some a → use_timeout = false →
    ¬ in_rings R' (ifd_link a)
}.

(** The later entries are still pollable after a turn. *)
Lemma pollable_step w w' s R R' ts ut te p a v fds :
  pollable w R (p :: fds) → w_fdtab w !! pf_fd p = Some a → unpolled w w' s R R' ts ut te a v →
  pollable w' R' fds ∧ ∀ q, q ∈ fds → poll_error w' q = poll_error w q.
Proof.
  intros [Hfd Hifd Hnd] Ha Hup. apply NoDup_cons in Hnd as [Hp Hnd].
  assert (Hne : ∀ q i, q ∈ fds → w_fdtab w !! pf_fd q = Some i → i ≠ a).
  { intros q i Hq Hi ->. apply Hp, list_elem_of_fmap. exists q. by rewrite Ha, Hi. }
  split; [split|].
  - intros q Hq. apply Hfd. set_solver.
  - intros q Hq. destruct (Hifd q) as (i & vi & Hi & Hvi & [??] & Hn & Hl); [set_solver|].
    exists i, vi. rewrite (up_fdtab _ _ _ _ _ _ _ _ _ _ Hup).
    rewrite (up_others _ _ _ _ _ _ _ _ _ _ Hup) by eauto.
    split_and!; [done..|by eapply up_heads|]. apply elem_of_dom.
    rewrite (up_dom _ _ _ _ _ _ _ _ _ _ Hup). by apply elem_of_dom.
  - by rewrite (up_fdtab _ _ _ _ _ _ _ _ _ _ Hup).
  - intros q Hq. unfold poll_error. rewrite (up_fdtab _ _ _ _ _ _ _ _ _ _ Hup).
    destruct (w_fdtab w !! pf_fd q) as [i|] eqn:Hi; [|done]. cbn.
    by rewrite (up_others _ _ _ _ _ _ _ _ _ _ Hup) by eauto.
Qed.

Lemma unpolled_cons w w1 w2 s R R1 R2 ts ut te p a v fds :
  pollable w R (p :: fds) → w_fdtab w !! pf_fd p = Some a → w_ifds w !! a = Some v →
  unpolled w w1 s R R1 ts ut te a v → unpolled_all w1 w2 s R2 ts ut te fds →
  (∀ c, in_rings R2 c → in_rings R1 c) → unpolled_all w w2 s R2 ts ut te (p :: fds).
Proof.
  intros Hpl Ha Hv Hup Hall Hin. destruct (pollable_step _ _ _ _ _ _ _ _ _ _ _ _ Hpl Ha Hup) as [_ Herr].
  pose proof (up_fdtab _ _ _ _ _ _ _ _ _ _ Hup) as Ef.
  destruct Hpl as [_ _ [Hp _]%NoDup_cons]. destruct Hall as [Hrt Ef2 Hoth Her Hoff]. rewrite Ef in *.
  assert (Hpa : w_ifds w2 !! a = w_ifds w1 !! a).
  { apply Hoth. intros q Hq Hqa. apply Hp, list_elem_of_fmap. exists q. by rewrite Ha, Hqa. }
  split; [done|congruence|..].
  - intros b Hb. rewrite Hoth by (intros q Hq; apply Hb; set_solver).
    apply (up_others _ _ _ _ _ _ _ _ _ _ Hup). intros ->. apply (Hb p); [set_solver|done].
  - intros q [->|Hq]%elem_of_cons; [|by rewrite Her, Herr].
    unfold poll_error. rewrite Ef2, Ha. cbn. rewrite Hpa, Hv. cbn.
    pose proof (up_error _ _ _ _ _ _ _ _ _ _ Hup) as Ee. unfold left_error.
    destruct (w_ifds w1 !! a) as [v1|]; [|done]. cbn in *. congruence.
  - intros q b [->|Hq]%elem_of_cons Hqb Hut; [|by eapply Hoff].
    simplify_eq. intros Hc%Hin. by apply (up_off _ _ _ _ _ _ _ _ _ _ Hup).
Qed.

Lemma poll_collect_wp s ts ep e ut te err todo w R dn :
  rt w s R ts → ep ≠ NULL → w_epolls w !! ep = Some e → pollable w R todo →
  (∀ p, p ∈ todo → poll_error w p = err p) →
  wp (poll_collect (length todo) ep ut te (length dn) (polled err dn ++ todo)
        (length (poll_ready err dn)))
     (λ r w', r = (polled err (dn ++ todo), length (poll_ready err (dn ++ todo))) ∧
        ∃ R', unpolled_all w w' s R' ts ut te todo ∧ ∀ c, in_rings R' c → in_rings R c) w.
Proof.
  revert w R dn. induction todo as [|p todo IH]; intros w R dn Hrt Hep He Hpl Herr.
  - cbn. apply wp_ret. rewrite !app_nil_r. split; [done|]. exists R. split; [|done].
    split; [done..| |]; set_solver.
  - destruct (pl_ifd _ _ _ Hpl p) as (a & v & Ha & Hv & Hvf & Hh & Hl); [set_solver|].
    assert (Hev : err p = i_error v).
    { rewrite <-Herr by set_solver. unfold poll_error. rewrite Ha. cbn. by rewrite Hv. }
    cbn [length poll_collect]. apply wp_bind.
    eapply (poll_entry_wp w s R ts ep e ut te _ _ _ p a v); [done|done|done| |apply (pl_fd _ _ _ Hpl); set_solver|done..|].
    { by rewrite lookup_app_r, length_polled, Nat.sub_diag by (rewrite length_polled; lia). }
    intros w1 R1 r Hup Hr.
    assert (Hr' : r = (polled err (dn ++ [p]) ++ todo, length (poll_ready err (dn ++ [p])))).
    { rewrite Hr. cbv zeta. rewrite <-Hev. destruct (decide (err p = IENONE)) as [E|E].
      - by rewrite polled_skip, poll_ready_skip.
      - rewrite <-(polled_take err dn p todo E), poll_ready_take, length_app by done.
        cbn [length]. rewrite Nat.add_1_r. reflexivity. }
    rewrite Hr'. cbn [fst snd].
    destruct (pollable_step _ _ _ _ _ _ _ _ _ _ _ _ Hpl Ha Hup) as [Hpl1 Herr1].
    replace (Datatypes.S (length dn)) with (length (dn ++ [p])) by (rewrite length_app; cbn; lia).
    eapply wp_mono; [apply (IH w1 R1); [by eapply up_rt|done|by rewrite (up_epolls _ _ _ _ _ _ _ _ _ _ Hup)|done|]|].
    { intros q Hq. rewrite Herr1 by done. apply Herr. set_solver. }
    intros r' w2 (-> & R2 & Hall & Hin). rewrite <-app_assoc. split; [done|]. exists R2.
    split; [|intros c Hc; by eapply up_rings, Hin].
    by eapply unpolled_cons.
Qed.

(** * Properties *)

(** C14. The second half of [co_poll]: whatever the other tasks have recorded in
    the descriptors, the loop returns the number of entries with something
    recorded and has put exactly those, in their order, at the front of the
    caller's array; their [revents] are the events the kernel reported for them.
    Every descriptor leaves the wheel if it was on it, and after an expired
    timeout the quiet ones are marked as timed out; no other descriptor
    changes. *)
Theorem poll_collects w s R ts ep e ut te fds :
  rt w s R ts → ep ≠ NULL → w_epolls w !! ep = Some e → pollable w R fds →
  ∃ w' R', poll_collect (length fds) ep ut te 0 fds 0 w =
      Ok ((polled (poll_error w) fds, length (poll_ready (poll_error w) fds)), w') ∧
    take (length (poll_ready (poll_error w) fds)) (polled (poll_error w) fds) =
      poll_ready (poll_error w) fds ∧
    (∀ p ev, poll_error w p = events_to_error ev →
       pf_revents (poll_done (poll_error w) p) = Z.land ev POLL_EVENTS) ∧
    unpolled_all w w' s R' ts ut te fds.
Proof.
  intros Hrt Hep He Hpl.
  destruct (poll_collect_wp s ts ep e ut te (poll_error w) fds w R [] Hrt Hep He Hpl)
    as (r & w' & Hrun & -> & R' & Hall & _); [done|].
  exists w', R'. split_and!; [exact Hrun| | |done].
  - unfold polled. by rewrite take_app_length.
  - intros p ev Hp. cbn. rewrite Hp. apply events_roundtrip.
Qed.

End collect.

(** * The end of a task *)

Section life.
Context {K : Kernel}.

Definition running (t : ptr) (w : world) : Prop :=
  ∃ th v, w_threads w !! w_self w = Some th ∧ g_current th = t ∧ w_tasks w !! t = Some v.
Definition is_killed (t : ptr) (w : world) : Prop :=
  ∃ v, w_tasks w !! t = Some v ∧ t_status v = KILLED.

(** A task whose function returns does not run off the end of [_task_func]: it
    switches away once more, marked as killed, and a killed task is not resumed,
    so that the last switch does not come back. *)
Lemma task_func_exits lax Y E body t w :
  t ≠ NULL → wp co_enable_hook (λ _, cwp lax Y E body (λ _, running t)) w →
  cwp lax (λ w, Y w ∨ is_killed t w) (λ w w', E w w' ∧ ¬ is_killed t w) (_task_func body)
    (λ _ _, False) w.
Proof.
  intros Ht Hhook. unfold _task_func. do 2 cwp_step. eapply wp_mono; [exact Hhook|]. intros [] w1 Hb.
  cwp_step. eapply cwp_mono.
  { eapply (cwp_restrict lax _ E), (cwp_weaken lax Y); [by intros ?? [? _]|by left|exact Hb]. }
  intros [] w2 (th & v & Hth & Hc & Hv). do 2 cwp_step. unfold co_self. wp_steps.
  rewrite Hc, decide_False by done. do 2 cwp_step. unfold task_exit, co_self. wp_steps.
  rewrite Hc, decide_False by done. unfold set_status. wp_steps.
  assert (Hk : is_killed t (with_tasks w2 (<[t := Task (t_func v) (t_iparam v) (t_oparam v)
    (t_stack_size v) (t_specs v) (t_cid v) (t_hook v) (t_errnu v) KILLED (t_sched v)]> (w_tasks w2)))).
  { eexists. cbn. by rewrite lookup_insert_eq. }
  apply cwp_yield; [by right|]. by intros w' [_ []].
Qed.
End life.

(** * Examples *)

Definition ex_polling (err : Z) : world (K := ex_kernel) := ex_runtime ex_armed_links err 2 ex_kernel 9.

Lemma ex_polling_ok err : pollable (K := ex_kernel) (ex_polling err) ex_armed_rings [PollFd 7 EPOLLIN 0].
Proof.
  split.
  - by intros p ->%list_elem_of_singleton.
  - intros p ->%list_elem_of_singleton. exists 1, (InnerFd 7 0 0 2 1 err).
    split_and!; [done..| |]; [reflexivity|].
    apply elem_of_dom. cbn [w_links ex_polling ex_runtime].
    destruct ex_armed_lrep as [_ ->]. apply elem_of_dom. by eexists.
  - apply NoDup_singleton.
Qed.

Lemma poll_collects_witness :
  ∃ w' R', poll_collect (K := ex_kernel) 1 1 false false 0 [PollFd 7 EPOLLIN 0] 0 (ex_polling IEREAD) =
      Ok (([PollFd 7 EPOLLIN EPOLLIN], 1%nat), w') ∧
    take 1 [PollFd 7 EPOLLIN EPOLLIN] = [PollFd 7 EPOLLIN EPOLLIN] ∧
    (∀ p ev, poll_error (K := ex_kernel) (ex_polling IEREAD) p = events_to_error ev →
       pf_revents (poll_done (poll_error (K := ex_kernel) (ex_polling IEREAD)) p) = Z.land ev POLL_EVENTS) ∧
    unpolled_all (K := ex_kernel) (ex_polling IEREAD) w' 1 R' [] false false [PollFd 7 EPOLLIN 0].
Proof.
  apply (poll_collects (K := ex_kernel) (ex_polling IEREAD) 1 ex_armed_rings [] 1
    (Epoll 1024 0 3 1 (Some ex_tw)) false false [PollFd 7 EPOLLIN 0]);
    [apply ex_armed_rt|done|reflexivity|apply ex_polling_ok].
Defined.

(** A descriptor whose own timeout has expired while [poll] waited without one is
    counted as ready, with nothing in [revents]. *)
Example ex_poll_counts_timeout :
  (let* r := poll_collect (K := ex_kernel) 1 1 false false 0 [PollFd 7 EPOLLIN 0] 0 (ex_polling IETIMEOUT) in
   Ok r.1) = Ok ([PollFd 7 EPOLLIN 0], 1%nat).
Proof. vm_compute. reflexivity. Qed.
