(* ===== verification/Chan.v ===== *)
(** chan.c, co_bar.h and co_await.c: channels, barriers and waiting for a
    function that runs in a thread of its own.

    A channel lies in memory with its mutex first, then its two conditions; a
    barrier with its mutex first, then its condition.  [fuel] bounds how often
    the loops around a wait go round. *)

From Stdlib Require Import ZArith Lia.
From stdpp Require Import base numbers strings sets gmap list.
From S2P Require Import Prelude IntrusiveList Links Deque SpinLock World Coroutine InnerFd Task Sched.
From S2P Require Import Event Mutex Cond Sem Blocking.
Open Scope Z_scope.

(** [&chan->mutex], [&chan->not_full], [&chan->not_empty]. *)
Definition chan_mutex (c : ptr) : ptr := c.
Definition chan_not_full (c : ptr) : ptr := c + 32.
Definition chan_not_empty (c : ptr) : ptr := c + 48.

(** [&bar->mutex], [&bar->cond]. *)
Definition bar_mutex (b : ptr) : ptr := b.
Definition bar_cond (b : ptr) : ptr := b + 32.

Section chan.
Context {K : Kernel}.

(** * Objects *)

Definition set_chans (x : gmap Z chan_t) : M unit :=
  w ← get; let o := w_objs w in put_objs (Objects x (o_bars o) (o_awaits o) (o_mem o) (o_logs o)).
Definition set_bars (x : gmap Z Z) : M unit :=
  w ← get; let o := w_objs w in put_objs (Objects (o_chans o) x (o_awaits o) (o_mem o) (o_logs o)).
Definition set_awaits (x : gmap Z co_await_t) : M unit :=
  w ← get; let o := w_objs w in put_objs (Objects (o_chans o) (o_bars o) x (o_mem o) (o_logs o)).
Definition set_mem (x : gmap Z (list Z)) : M unit :=
  w ← get; let o := w_objs w in put_objs (Objects (o_chans o) (o_bars o) (o_awaits o) x (o_logs o)).

Definition rd_chan (c : ptr) : M chan_t := w ← get; lift (deref (o_chans (w_objs w) !! c)).
Definition wr_chan (c : ptr) (v : chan_t) : M unit := w ← get; set_chans (<[c := v]> (o_chans (w_objs w))).

(** [MY_ASSERT(chan, "chan should not be NULL")]. *)
Definition assert_chan (c : ptr) : M unit :=
  if decide (c = NULL) then panic "chan should not be NULL" else mret ().

(** * chan.c *)

(** The sizes are stored as [unsigned int]. *)
Definition chan_open (c : ptr) (nelems elem_size : Z) : M unit :=
  assert_chan c;;
  wr_chan c (Chan (deque_init (Deque ∅ ∅ c 0)) 0 0);;
  _ ← co_mutex_init (chan_mutex c);
  co_cond_init (chan_not_full c);;
  co_cond_init (chan_not_empty c);;
  v ← rd_chan c;
  wr_chan c (Chan (ch_msgs v) (u32 nelems) (u32 elem_size)).

Definition chan_msgs_empty (c : ptr) : M bool := v ← rd_chan c; mret (deque_empty (ch_msgs v)).

(** [queue_size] is an [int] that is compared with an [unsigned int]. *)
Definition msgs_full (v : chan_t) : bool :=
  bool_decide (u32 (deque_size (ch_msgs v)) = ch_nelems v) ||
  (bool_decide (ch_nelems v = 0) && bool_decide (deque_size (ch_msgs v) = 1)).
Definition chan_msgs_full (c : ptr) : M bool := v ← rd_chan c; mret (msgs_full v).

(** [malloc(n)] and [memcpy] of [n] bytes of [msg] into it. *)
Definition copy_msg (msg n : Z) : M ptr :=
  w ← get;
  b ← lift (deref (o_mem (w_objs w) !! msg));
  if decide (Z.of_nat (length b) < n) then lift Undef else
  let nmsg := fresh ({[NULL]} ∪ dom (o_mem (w_objs w))) in
  set_mem (<[nmsg := take (Z.to_nat n) b]> (o_mem (w_objs w)));;
  mret nmsg.

Definition chan_push_msg (c msg : ptr) : M Z :=
  v ← rd_chan c;
  nmsg ← (if decide (ch_elem_size v ≠ 0 ∧ msg ≠ NULL) then copy_msg msg (ch_elem_size v) else mret msg);
  v ← rd_chan c;
  d ← lift (queue_push (ch_msgs v) nmsg);
  wr_chan c (Chan d (ch_nelems v) (ch_elem_size v));;
  mret 0.

Definition chan_pop_msg (c : ptr) : M ptr :=
  v ← rd_chan c;
  r ← lift (queue_pop (ch_msgs v));
  wr_chan c (Chan r.2 (ch_nelems v) (ch_elem_size v));;
  mret r.1.

(** The [int] value of an [unsigned int]. *)
Definition chan_buffered (c : ptr) : M Z := assert_chan c;; v ← rd_chan c; mret (s32 (ch_nelems v)).

(** [while(...) co_cond_wait(cond, &chan->mutex)]. *)
Fixpoint wait_while (fuel : nat) (test : M bool) (cond mutex : ptr) : C unit :=
  let! b := act test in
  if negb b then cret () else
  match fuel with
  | O => act (lift OutOfFuel)
  | S fuel => do! cond_wait fuel cond mutex in wait_while fuel test cond mutex
  end.

(** [while(!chan_msgs_empty(chan)) { co_cond_wait(...); if(sent) break; }]. *)
Fixpoint nobuffer_wait (fuel : nat) (c : ptr) (sent : bool) : C unit :=
  let! e := act (chan_msgs_empty c) in
  if (e : bool) then cret () else
  match fuel with
  | O => act (lift OutOfFuel)
  | S fuel =>
      do! cond_wait fuel (chan_not_full c) (chan_mutex c) in
      if sent then cret () else nobuffer_wait fuel c sent
  end.

(** [if(chan_msgs_empty(chan)) { push; signal; sent = 1; }]: the value of [sent]
    after it; it was 0. *)
Definition nobuffer_push (c msg : ptr) : M bool :=
  e ← chan_msgs_empty c;
  if (e : bool) then
    _ ← chan_push_msg c msg;
    co_cond_signal (chan_not_empty c);;
    mret true
  else mret false.

(** [do { ... } while(!sent)]. *)
Fixpoint nobuffer_turns (fuel : nat) (c msg : ptr) : C unit :=
  match fuel with
  | O => act (lift OutOfFuel)
  | S fuel =>
      let! sent := act (nobuffer_push c msg) in
      do! nobuffer_wait fuel c sent in
      if (sent : bool) then cret () else nobuffer_turns fuel c msg
  end.

Definition chan_nobuffer_send (fuel : nat) (c msg : ptr) : C Z :=
  do! mutex_lock fuel (chan_mutex c) in
  do! nobuffer_turns fuel c msg in
  do! act (co_mutex_unlock (chan_mutex c)) in
  cret 0.

(** The result is the value returned and what [*msg] gets. *)
Definition chan_nobuffer_recv (fuel : nat) (c : ptr) : C (Z * ptr) :=
  do! mutex_lock fuel (chan_mutex c) in
  do! wait_while fuel (chan_msgs_empty c) (chan_not_empty c) (chan_mutex c) in
  let! msg := act (chan_pop_msg c) in
  do! act (co_cond_signal (chan_not_full c)) in
  do! act (co_cond_signal (chan_not_full c)) in
  do! act (co_mutex_unlock (chan_mutex c)) in
  cret (0, msg).

Definition chan_buffer_send (fuel : nat) (c msg : ptr) : C Z :=
  do! mutex_lock fuel (chan_mutex c) in
  do! wait_while fuel (chan_msgs_full c) (chan_not_full c) (chan_mutex c) in
  do! act (chan_push_msg c msg) in
  do! act (co_cond_signal (chan_not_empty c)) in
  do! act (co_mutex_unlock (chan_mutex c)) in
  cret 0.

Definition chan_buffer_recv (fuel : nat) (c : ptr) : C (Z * ptr) :=
  do! mutex_lock fuel (chan_mutex c) in
  do! wait_while fuel (chan_msgs_empty c) (chan_not_empty c) (chan_mutex c) in
  let! msg := act (chan_pop_msg c) in
  do! act (co_cond_signal (chan_not_full c)) in
  do! act (co_mutex_unlock (chan_mutex c)) in
  cret (0, msg).

Definition chan_send (fuel : nat) (c msg : ptr) : C Z :=
  do! act (assert_chan c) in
  let! b := act (chan_buffered c) in
  if decide (b ≠ 0) then chan_buffer_send fuel c msg else chan_nobuffer_send fuel c msg.

Definition chan_recv (fuel : nat) (c : ptr) : C (Z * ptr) :=
  do! act (assert_chan c) in
  let! b := act (chan_buffered c) in
  if decide (b ≠ 0) then chan_buffer_recv fuel c else chan_nobuffer_recv fuel c.

Definition chan_size (c : ptr) : M Z := v ← rd_chan c; mret (deque_size (ch_msgs v)).

Definition chan_close (c : ptr) : M unit :=
  v ← rd_chan c;
  d ← lift (deque_clear (ch_msgs v));
  wr_chan c (Chan d (ch_nelems v) (ch_elem_size v)).

(** * co_bar.h *)

Definition rd_bar (b : ptr) : M Z := w ← get; lift (deref (o_bars (w_objs w) !! b)).
Definition wr_bar (b : ptr) (n : Z) : M unit := w ← get; set_bars (<[b := n]> (o_bars (w_objs w))).

(** The count is an [int]. *)
Definition co_bar_init (b : ptr) (cnt : Z) : M unit :=
  _ ← co_mutex_init (bar_mutex b);
  co_cond_init (bar_cond b);;
  wr_bar b (atomic_set cnt).

(** [0 == atomic_sub_and_fetch(&bar->count, 1)]. *)
Definition bar_arrive (b : ptr) : M bool :=
  n ← rd_bar b;
  let r := atomic_sub_and_fetch n 1 in
  wr_bar b r.2;;
  mret (bool_decide (0 = r.1)).

Definition bar_open (b : ptr) : M bool := n ← rd_bar b; mret (bool_decide (0 = atomic_get n)).
Definition bar_shut (b : ptr) : M bool := n ← rd_bar b; mret (bool_decide (0 < atomic_get n)).

Definition co_bar_wait (fuel : nat) (b : ptr) : C unit :=
  let! o := act (bar_open b) in
  if (o : bool) then cret () else
  do! mutex_lock fuel (bar_mutex b) in
  let! o := act (bar_open b) in
  do! (if (o : bool) then cret () else
       let! last := act (bar_arrive b) in
       if (last : bool) then act (co_cond_broadcast (bar_cond b)) else
       wait_while fuel (bar_shut b) (bar_cond b) (bar_mutex b)) in
  act (co_mutex_unlock (bar_mutex b)).

Definition co_bar_destory (fuel : nat) (b : ptr) : C unit :=
  do! mutex_lock fuel (bar_mutex b) in
  do! act (wr_bar b (atomic_set 0)) in
  do! act (co_cond_broadcast (bar_cond b)) in
  act (co_mutex_unlock (bar_mutex b)).

(** * co_await.c *)

Definition rd_await (a : ptr) : M co_await_t := w ← get; lift (deref (o_awaits (w_objs w) !! a)).
Definition wr_await (a : ptr) (v : co_await_t) : M unit :=
  w ← get; set_awaits (<[a := v]> (o_awaits (w_objs w))).

(** [func] says what the functions of the program do. *)
Section await.
Context (func : Z → ptr → M Z).

(** The body of the thread, which has no task of its own.  Detaching the thread
    changes nothing the library sees. *)
Definition _await_task (a : ptr) : M ptr :=
  if decide (a = NULL) then mret NULL else
  v ← rd_await a;
  (if decide (aw_func v ≠ 0) then
     r ← func (aw_func v) (aw_param v);
     v ← rd_await a;
     wr_await a (Await (aw_func v) (aw_param v) r (aw_task v))
   else mret ());;
  v ← rd_await a;
  (if decide (aw_task v ≠ NULL) then
     t ← rd_task (aw_task v);
     match t_sched t with
     | Some th =>
         s ← rd_sched_var th;
         RR_enqueue s (aw_task v);;
         _ ← sched_active_event s;
         mret ()
     | None => mret ()
     end
   else mret ());;
  mret NULL.

(** A new thread with thread-local variables of its own runs [_await_task] to
    its end. *)
Definition await_thread (a : ptr) : M unit := λ w,
  let th := fresh (dom (w_threads w)) in
  let* r := _await_task a (with_self (with_threads w
              (<[th := Thread NULL NULL None 0 0 0]> (w_threads w))) th) in
  Ok ((), with_self (with_threads r.2 (delete th (w_threads r.2))) (w_self w)).

(** [await] is a variable on the caller's stack, at an address not in use.  A
    caller that is no task joins the thread; a task yields, and the thread is
    among what goes on until it is scheduled again. *)
Definition async_wait (f : Z) (ip : ptr) : C Z :=
  if decide (f = 0) then cret (-1) else
  let! t := act co_self in
  let! w := act get in
  let a := fresh ({[NULL]} ∪ dom (o_awaits (w_objs w))) in
  do! act (wr_await a (Await f ip (-1) t)) in
  do! (if decide (t = NULL) then act (await_thread a)
       else do! act (set_status t SYS_BLOCK) in yield) in
  let! v := act (rd_await a) in
  let! w := act get in
  do! act (set_awaits (delete a (o_awaits (w_objs w)))) in
  cret (aw_ret v).
End await.

End chan.

(** * Examples *)

(** Task 2 waits for function 9 on argument 5, which a thread of its own runs;
    here the function adds the two. *)
Definition ex_func (f : Z) (ip : ptr) : M (K := ex_kernel) Z := mret (f + ip).

Example ex_await_run :
  (λ r, match r with
        | Ok (a, w) => Some (a, o_awaits (w_objs w), list_next (w_links w) (run_list 1))
        | _ => None
        end)
    (crun [λ w, match await_thread ex_func 1 w with Ok (_, w) => w | _ => w end] (async_wait ex_func 9 5)
       (ex_sync ex_sync_links 0 0)) =
  Some (Some 14, ∅, Ok (run_link 2)).
Proof. vm_compute. reflexivity. Qed.
