(* ===== verification/ChanObjects.v ===== *)
(** The objects of chan.c and co_bar.h: what a channel in memory holds, and what
    the operations on its queue and on the count of a barrier do to it. *)

From Stdlib Require Import ZArith Lia.
From stdpp Require Import base numbers strings sets gmap list.
From S2P Require Import Prelude IntrusiveList Links Deque SpinLock World Coroutine InnerFd Task Sched.
From S2P Require Import Event Mutex Cond Sem Blocking Chan.
Open Scope Z_scope.

Section objects.
Context {K : Kernel}.

(** * Channels *)

(** A message is a pointer the channel hands on, or the bytes it has copied. *)
Definition value : Type := ptr + list Z.

(** The pointer [p] in the queue stands for [v]. *)
Definition carries (mem : gmap Z (list Z)) (es : Z) (p : ptr) (v : value) : Prop :=
  match v with
  | inl p' => (es = 0 ∨ p = NULL) ∧ p' = p
  | inr bs => es ≠ 0 ∧ p ≠ NULL ∧ mem !! p = Some bs
  end.

(** Channel [c] with room for [n] messages of size [es] contains [q]. *)
Definition chan_holds (c n es : Z) (o : objects) (q : list value) : Prop :=
  0 ≤ n ≤ INT_MAX ∧ Z.of_nat (length q) ≤ Z.max 1 n ∧
  ∃ d ns ps, o_chans o !! c = Some (Chan d n es) ∧ deque_rep d ns ps ∧ Forall2 (carries (o_mem o) es) ps q.

(** A sender whose argument [msg] means [v]. *)
Definition sending (c n es msg : Z) (v : value) (o : objects) (q : list value) : Prop :=
  chan_holds c n es o q ∧
  match v with
  | inl p => (es = 0 ∨ msg = NULL) ∧ p = msg
  | inr bs => es ≠ 0 ∧ msg ≠ NULL ∧ 0 ≤ es ∧
      ∃ b, o_mem o !! msg = Some b ∧ es ≤ Z.of_nat (length b) ∧ bs = take (Z.to_nat es) b
  end.

Definition full (n : Z) (q : list value) : Prop := Z.of_nat (length q) = n.
#[global] Instance full_dec n q : Decision (full n q).
Proof. unfold full. apply _. Defined.

Lemma wp_rd_chan c v Q w : o_chans (w_objs w) !! c = Some v → Q v w → wp (rd_chan c) Q w.
Proof. intros Hc HQ. unfold rd_chan. wp_step. wp_step. eapply wp_lift; [by rewrite Hc|done]. Qed.

Definition with_chan (o : objects) (c : ptr) (v : chan_t) : objects :=
  Objects (<[c := v]> (o_chans o)) (o_bars o) (o_awaits o) (o_mem o) (o_logs o).

Lemma wp_wr_chan c v Q w : Q () (with_objs w (with_chan (w_objs w) c v)) → wp (wr_chan c v) Q w.
Proof. intros HQ. unfold wr_chan, set_chans. by wp_steps. Qed.

Lemma chan_size_fits c n es o q : chan_holds c n es o q → Z.of_nat (length q) ≤ INT_MAX.
Proof. intros (? & ? & _). unfold INT_MAX in *. lia. Qed.

Lemma chan_msgs_empty_wp c n es q Q w :
  chan_holds c n es (w_objs w) q → Q (bool_decide (q = [])) w → wp (chan_msgs_empty c) Q w.
Proof.
  intros (_ & _ & d & ns & ps & Hc & Hd & Hps) HQ. unfold chan_msgs_empty. wp_step.
  eapply wp_rd_chan; [done|]. wp_step. cbn. rewrite (deque_empty_rep _ _ _ Hd).
  replace (bool_decide (ps = [])) with (bool_decide (q = [])); [done|]. apply bool_decide_ext.
  destruct Hps; by split.
Qed.

Lemma chan_msgs_full_wp c n es q Q w :
  chan_holds c n es (w_objs w) q → 0 < n → Q (bool_decide (full n q)) w → wp (chan_msgs_full c) Q w.
Proof.
  intros Hh Hn HQ. pose proof (chan_size_fits _ _ _ _ _ Hh) as Hsz.
  destruct Hh as ([_ Hmax] & _ & d & ns & ps & Hc & Hd & Hps). unfold chan_msgs_full. wp_step.
  eapply wp_rd_chan; [done|]. wp_step. unfold msgs_full, deque_size. cbn. rewrite (rep_size _ _ _ Hd).
  rewrite (Forall2_length _ _ _ Hps), (bool_decide_eq_false_2 (n = 0)) by lia. cbn. rewrite orb_false_r.
  by rewrite u32_small by (unfold INT_MAX in *; lia).
Qed.

(** Nothing but channel [c] changes; memory may be allocated. *)
Record only_chan (c : ptr) (o o' : objects) : Prop := {
  oc_chans : ∀ c', c' ≠ c → o_chans o' !! c' = o_chans o !! c';
  oc_bars : o_bars o' = o_bars o;
  oc_mem : o_mem o ⊆ o_mem o'
}.

Lemma only_chan_with c v o : only_chan c o (with_chan o c v).
Proof. split; [|done|done]. intros c' Hne. cbn. by rewrite lookup_insert_ne. Qed.

Lemma carries_weaken mem mem' es p v : mem ⊆ mem' → carries mem es p v → carries mem' es p v.
Proof. intros Hm. destruct v as [p'|bs]; [done|]. intros (? & ? & Hp). split_and!; [done|done|by eapply lookup_weaken]. Qed.

Lemma chan_holds_other c c' n es o o' q : only_chan c' o o' → c ≠ c' → chan_holds c n es o q → chan_holds c n es o' q.
Proof.
  intros [Hc _ Hm] Hne (Hn & Hl & d & ns & ps & Ho & Hd & Hps). split; [done|]. split; [done|]. exists d, ns, ps.
  split; [by rewrite Hc|]. split; [done|]. eapply Forall2_impl; [exact Hps|]. intros. by eapply carries_weaken.
Qed.

(** Pushing adds the message at the end. *)
Lemma push_wp c n es msg v q Q w :
  sending c n es msg v (w_objs w) q → Z.of_nat (length q) < Z.max 1 n →
  (∀ o', sending c n es msg v o' (q ++ [v]) → only_chan c (w_objs w) o' → Q 0 (with_objs w o')) → wp (chan_push_msg c msg) Q w.
Proof.
  intros [(Hn & Hlen & d & ns & ps & Hc & Hd & Hps) Hv] Hlt HQ.
  assert (Hpush : ∀ o p, o_chans o !! c = Some (Chan d n es) → carries (o_mem o) es p v →
    Forall2 (carries (o_mem o) es) ps q →
    ∃ d', queue_push d p = Ok d' ∧ chan_holds c n es (with_chan o c (Chan d' n es)) (q ++ [v])).
  { intros o p Ho Hp Hps'. destruct (deque_push_back_rep d ns ps p Hd) as (d' & k & Hpush & Hd' & _).
    - rewrite (Forall2_length _ _ _ Hps). unfold INT_MAX in *. lia.
    - exists d'. split; [done|]. split; [done|]. split; [rewrite length_app; cbn; lia|].
      eexists d', _, _. cbn. rewrite lookup_insert_eq. split; [done|]. split; [exact Hd'|].
      apply Forall2_app; [done|]. by constructor. }
  unfold chan_push_msg. wp_step. eapply wp_rd_chan; [done|]. cbn [ch_elem_size]. wp_step.
  destruct v as [p|bs].
  - destruct Hv as [Hes ->]. rewrite decide_False by (intros [??]; by destruct Hes). wp_step. wp_step.
    eapply wp_rd_chan; [done|]. destruct (Hpush _ msg Hc) as (d' & Hd' & Hh); [done|done|].
    wp_step. eapply wp_lift; [exact Hd'|]. wp_step. apply wp_wr_chan. wp_step. apply HQ; [by split|apply only_chan_with].
  - destruct Hv as (Hes & Hm & Hes0 & b & Hb & Hlb & ->). rewrite decide_True by done.
    unfold copy_msg, set_mem. wp_step. wp_step. wp_step. eapply wp_lift; [by rewrite Hb|].
    rewrite decide_False by lia. wp_steps. cbn. set (p := fresh _).
    assert (Hp : p ≠ NULL ∧ o_mem (w_objs w) !! p = None).
    { pose proof (is_fresh ({[NULL]} ∪ dom (o_mem (w_objs w)))) as Hf. fold p in Hf.
      split; [set_solver|]. apply not_elem_of_dom. set_solver. }
    destruct Hp as [Hpn Hp]. clearbody p. eapply wp_rd_chan; [exact Hc|]. wp_step.
    set (o := Objects _ _ _ _ _).
    destruct (Hpush o p) as (d' & Hd' & Hh); [done|cbn; by rewrite lookup_insert_eq| |].
    { eapply Forall2_impl; [exact Hps|]. intros. eapply carries_weaken; [by apply insert_subseteq|done]. }
    eapply wp_lift; [exact Hd'|]. wp_step. apply wp_wr_chan. wp_step. apply (HQ (with_chan o c (Chan d' n es))).
    2:{ split; [intros c' Hne; cbn; by rewrite lookup_insert_ne|done|]. by apply insert_subseteq. }
    split; [done|]. split_and!; [done|done|done|]. exists b. split_and!; [|done|done].
    cbn. rewrite lookup_insert_ne; [done|]. intros ->. congruence.
Qed.

(** Popping takes the first message off. *)
Lemma pop_wp c n es v q Q w :
  chan_holds c n es (w_objs w) (v :: q) →
  (∀ o' p, chan_holds c n es o' q → carries (o_mem o') es p v → only_chan c (w_objs w) o' → Q p (with_objs w o')) →
  wp (chan_pop_msg c) Q w.
Proof.
  intros (Hn & Hlen & d & ns & ps & Hc & Hd & Hps) HQ.
  apply Forall2_cons_inv_r in Hps as (p & ps' & Hp & Hps & ->).
  destruct (deque_pop_front_rep _ _ _ _ Hd) as (d' & ns' & Hpop & Hd' & _).
  unfold chan_pop_msg. wp_step. eapply wp_rd_chan; [done|]. wp_step. eapply wp_lift; [exact Hpop|].
  wp_step. apply wp_wr_chan. wp_step. apply HQ; [|done|apply only_chan_with]. split; [done|].
  split; [cbn in Hlen; lia|]. exists d', ns', ps'. cbn. by rewrite lookup_insert_eq.
Qed.

Lemma buffered_wp c n es q (Q : Z → world → Prop) w :
  c ≠ NULL → chan_holds c n es (w_objs w) q → Q n w → wp (chan_buffered c) Q w.
Proof.
  intros Hc (Hn & _ & d & ns & ps & Hch & _) HQ. unfold chan_buffered, assert_chan. rewrite decide_False by done.
  wp_steps. eapply wp_rd_chan; [done|]. wp_step. cbn. by rewrite s32_small by (unfold INT_MAX in *; lia).
Qed.

(** * Barriers *)

Definition with_bar (o : objects) (b n : Z) : objects :=
  Objects (o_chans o) (<[b := n]> (o_bars o)) (o_awaits o) (o_mem o) (o_logs o).

Lemma wp_rd_bar b n Q w : o_bars (w_objs w) !! b = Some n → Q n w → wp (rd_bar b) Q w.
Proof. intros Hc HQ. unfold rd_bar. wp_step. wp_step. eapply wp_lift; [by rewrite Hc|done]. Qed.

Lemma wp_wr_bar b n Q w : Q () (with_objs w (with_bar (w_objs w) b n)) → wp (wr_bar b n) Q w.
Proof. intros HQ. unfold wr_bar, set_bars. by wp_steps. Qed.

End objects.
