(* ===== verification/Descriptors.v ===== *)
(** What the kernel promises about descriptors: the part of the manual pages of
    epoll, timerfd, close, socket, accept, pipe, fcntl and the calls that read and
    write that the runtime relies on.

    [opened] and [interest] name what the kernel keeps: the open descriptors of the
    process, and for each epoll instance the descriptors registered with it. *)

From Stdlib Require Import ZArith Lia.
From stdpp Require Import base numbers strings sets gmap list.
From S2P Require Import Prelude World InnerFd Event Hook.
Open Scope Z_scope.

Class FdView {K : Kernel} := {
  opened : kstate → gset Z;
  interest : Z → kstate → gset Z
}.

Section view.
Context {K : Kernel} `{!FdView}.

(** Nothing is opened, closed or registered. *)
Definition calm (k k' : kstate) : Prop := opened k' = opened k ∧ ∀ ep, interest ep k' ⊆ interest ep k.
Definition quiet {A} (c : kstate → A * kstate) : Prop := ∀ k, calm k (c k).2.

(** [fd] is opened: a number the table has room for. *)
Definition opens (fd : Z) (k k' : kstate) : Prop :=
  0 ≤ fd < MAX_FD_NUM ∧ (fd ∉ opened k) ∧ opened k' = ({[fd]} ∪ opened k) ∧ ∀ ep, interest ep k' ⊆ interest ep k.

#[global] Instance calm_preorder : PreOrder calm.
Proof. split; [done|]. intros k1 k2 k3 [E1 H1] [E2 H2]. split; [congruence|set_solver]. Qed.

End view.

(** A call that sends reports at most what it was given. *)
Definition sends {K : Kernel} `{!FdView} (n : nat) (c : kstate → (Z * Z) * kstate) : Prop :=
  quiet c ∧ ∀ k, -1 ≤ (c k).1.1 ≤ Z.of_nat n.

Class Descriptors `{Sk : Sockets} `{!FdView} : Prop := {
  epoll_create_opens : ∀ k fd e k', sys_epoll_create k = ((fd, e), k') → (fd < 0 ∧ calm k k') ∨ (opens fd k k' ∧ interest fd k' = ∅);
  timerfd_opens : ∀ k fd e k', sys_timerfd_create k = ((fd, e), k') → (fd < 0 ∧ calm k k') ∨ opens fd k k';
  settime_quiet : ∀ fd a b c, quiet (sys_timerfd_settime fd a b c);
  epoll_wait_calm : ∀ ep n t, quiet (sys_epoll_wait ep n t);
  epoll_wait_reports : ∀ ep n t k evs ev, (sys_epoll_wait ep n t k).1 = inr evs → ev ∈ evs → ev.1 ∈ interest ep k;
  epoll_ctl_opened : ∀ ep op fd ev k, opened (sys_epoll_ctl ep op fd ev k).2 = opened k;
  epoll_ctl_others : ∀ ep op fd ev k ep', ep' ≠ ep → interest ep' (sys_epoll_ctl ep op fd ev k).2 ⊆ interest ep' k;
  epoll_ctl_adds : ∀ ep op fd ev k, interest ep (sys_epoll_ctl ep op fd ev k).2 ⊆ {[fd]} ∪ interest ep k;
  epoll_ctl_removes : ∀ ep fd ev k, fd ∉ interest ep (sys_epoll_ctl ep EPOLL_CTL_DEL fd ev k).2;
  close_opened : ∀ fd k, opened (sys_close fd k).2 = opened k ∖ {[fd]};
  close_interest : ∀ fd k ep, interest ep (sys_close fd k).2 ⊆ interest ep k ∖ {[fd]};
  socket_opens : ∀ d t p k fd e k', sys_socket d t p k = ((fd, e), k') → (fd < 0 ∧ calm k k') ∨ opens fd k k';
  accept_opens : ∀ l k fd e k', sys_accept l k = ((fd, e), k') → (fd < 0 ∧ calm k k') ∨ opens fd k k';
  pipe_opens : ∀ k r p0 p1 k', sys_pipe k = ((r, (p0, p1)), k') →
    (r = -1 ∧ calm k k') ∨ (∃ k1, opens p0 k k1 ∧ opens p1 k1 k');
  read_quiet : ∀ fd n, quiet (sys_read fd n);
  recv_quiet : ∀ fd n fl, quiet (sys_recv fd n fl);
  recvfrom_quiet : ∀ fd n fl, quiet (sys_recvfrom fd n fl);
  recvmsg_quiet : ∀ fd fl, quiet (sys_recvmsg fd fl);
  write_sends : ∀ fd bs, sends (length bs) (sys_write fd bs);
  send_sends : ∀ fd bs fl, sends (length bs) (sys_send fd bs fl);
  sendto_sends : ∀ fd bs fl a, sends (length bs) (sys_sendto fd bs fl a);
  listen_quiet : ∀ fd n, quiet (sys_listen fd n);
  connect_quiet : ∀ fd a, quiet (sys_connect fd a);
  so_error_quiet : ∀ fd, quiet (sys_so_error fd);
  fcntl_quiet : ∀ fd cmd arg, cmd = F_GETFL ∨ cmd = F_SETFL → quiet (sys_fcntl fd cmd arg)
}.
