(* ===== verification/Runtime.v ===== *)
(** The runtime as a whole: what every task may rely on, and which of the
    library's operations keep it that way.

    A [setup] says what the program declares: its mutexes, conditions, semaphores,
    channels and barriers, and which descriptors a function takes over from the task that
    creates a task for it; and what the library has set up: the scheduler, its epoll
    object and the descriptor of its timer.  [good] is the invariant of a thread's
    scheduler; it is what holds whenever control passes between the scheduler and a
    task.  Part of it is who owns each open descriptor ([own]): only the owner uses
    a descriptor, and a task that a descriptor can wake is its owner, waiting.

    A function is safe for a task ([csafe]) when from every such state it ends
    normally, in a loss of fuel or in one of the library's own panics, never in
    undefined behaviour, and keeps the invariant and its promises to the others
    ([keeps]) at every switch, whatever the other tasks did in the meantime
    ([rely]). *)

From Stdlib Require Import ZArith Lia.
From stdpp Require Import base numbers strings sets gmap list.
From S2P Require Import Prelude IntrusiveList Links Array Heap Cid SpinLock TimeWheel HashMap World Coroutine InnerFd.
From S2P Require Import Task Sched Event Schedule Mutex Cond Sem Blocking Hook Helper Chan ChanObjects Descriptors.
Open Scope Z_scope.

(** The panics of co_mutex.c and co_cond.c for misused mutexes, that of task_sched.c
    when the kernel has no pipe left, and the end of the process when [epoll_wait]
    fails. *)
Definition deliberate (msg : string) : Prop :=
  msg = "recusive mutex lock" ∨ msg = "mutex is not locked by current task" ∨
  msg = "cond_wait mutex is not locked" ∨ msg = "dfatal" ∨ msg = "failed open pipe".

(** A result that is not undefined. *)
Definition outcome {A} (r : res A) (Q : A → Prop) : Prop :=
  match r with Ok a => Q a | Panic msg => deliberate msg | Undef => False | OutOfFuel => True end.

Lemma outcome_mono {A} (r : res A) (P Q : A → Prop) : outcome r P → (∀ a, P a → Q a) → outcome r Q.
Proof. destruct r; cbn; auto. Qed.

(** What the program declares and what the library has set up. *)
Record setup := Setup {
  su_mutexes : gset Z;
  su_conds : gset Z;
  su_sems : gset Z;
  su_chans : gset Z;                   (* channels of pointers *)
  su_bars : gset Z;
  su_needs : Z → ptr → ptr → gset Z;   (* function, ip, op: the descriptors it takes over *)
  su_sched : ptr;
  su_epoll : ptr;
  su_timer : Z                         (* the descriptor of the timer *)
}.

(** Who owns an open descriptor, and whether the descriptor may wake its owner. *)
Abbreviation own := (gmap Z (ptr * bool)).
Definition owns (g : own) (u : ptr) (fd : Z) : Prop := fst <$> g !! fd = Some u.
Definition armed (g : own) (u : ptr) (fd : Z) : Prop := g !! fd = Some (u, true).

Lemma armed_owns g u fd : armed g u fd → owns g u fd.
Proof. unfold armed, owns. by intros ->. Qed.

Section runtime.
Context `{Sk : Sockets} {Fv : FdView}.
Context (P : setup).

Local Notation s := (su_sched P).

(** * The invariant *)

(** Nobody is inside a mutex or semaphore, and tasks wait for them. *)
Record sync_ok (w : world) (R : gmap laddr (list laddr)) : Prop := {
  so_mutex : ∀ m, m ∈ su_mutexes P → ∃ o ws, w_mutexes w !! m = Some (Mutex o Raw.SPIN_RELESAED) ∧
    R !! mutex_wait m = Some (run_link <$> ws);
  so_cond : ∀ c, c ∈ su_conds P → ∃ ws, R !! cond_wait_list c = Some (run_link <$> ws);
  so_sem : ∀ p, p ∈ su_sems P → ∃ n ws, w_sems w !! p = Some (Sem n Raw.SPIN_RELESAED) ∧
    R !! sem_wait_list p = Some (run_link <$> ws)
}.

(** The channels and barriers exist, and their mutexes and conditions are declared.  A
    channel holds pointers, which it does not copy, and no more than it has room
    for. *)
Record objs_ok (o : objects) : Prop := {
  ob_chan : ∀ c, c ∈ su_chans P → (c ≠ NULL ∧ chan_mutex c ∈ su_mutexes P ∧ chan_not_full c ∈ su_conds P ∧
    chan_not_empty c ∈ su_conds P) ∧ ∃ n q, chan_holds c n 0 o q;
  ob_bar : ∀ b, b ∈ su_bars P → (bar_mutex b ∈ su_mutexes P ∧ bar_cond b ∈ su_conds P) ∧ is_Some (o_bars o !! b)
}.

(** The tasks hold different ids of the allocator, unless there are too many. *)
Definition cids_ok (al : option id_dispatch_t) (T : gmap Z task_t) : Prop :=
  ∃ live, cid_inv THREAD_MAX_TASK_SIZE al live ∧
    (THREAD_MAX_TASK_SIZE < Z.of_nat (size T) ∨
     (size live ≤ size T)%nat ∧ (∀ u v, T !! u = Some v → t_cid v ∈ live) ∧
     (∀ u v u' v', T !! u = Some v → T !! u' = Some v' → t_cid v = t_cid v' → u = u')).

Definition specs_ok (T : gmap Z task_t) : Prop :=
  ∀ u v m, T !! u = Some v → t_specs v = Some m → ∃ o, free_co_specs (Some m) = Ok o.

(** The scheduler has its epoll object, with the wheel of the timer. *)
Definition wheel_at (w : world) (e : epoll_t) (tw : time_wheel_t) : Prop :=
  (∃ sv, w_scheds w !! s = Some sv ∧ s_epoll sv = su_epoll P) ∧
  w_epolls w !! su_epoll P = Some e ∧ ep_timer e = Some tw ∧ wheel_ok tw ∧ tw_fd tw = su_timer P.

(** The descriptors: the table and its objects name each other; what is in a slot
    of the wheel or registered with epoll wakes the owner of the descriptor, who is
    alive; the table and the owners speak of open descriptors only.  The task of
    the scheduler itself is on no list, and there is one active task. *)
Record io_ok (w : world) (R : gmap laddr (list laddr)) (g : own) : Prop := {
  io_wheel : ∃ e tw, wheel_at w e tw ∧
    (∀ i, 0 ≤ i < tw_size tw → ∃ il, R !! slot tw i = Some (ifd_link <$> il)) ∧
    ∀ fd, fd ∈ interest (ep_fd e) (w_kernel w) →
      ∃ p v, w_fdtab w !! fd = Some p ∧ w_ifds w !! p = Some v ∧ armed g (i_task v) fd;
  io_tab : ∀ fd p, w_fdtab w !! fd = Some p →
    0 ≤ fd < MAX_FD_NUM ∧ p ≠ NULL ∧ is_Some (w_links w !! ifd_link p) ∧ ∃ v, w_ifds w !! p = Some v ∧ i_fd v = fd;
  io_ifds : ∀ p v, w_ifds w !! p = Some v → w_fdtab w !! i_fd v = Some p;
  io_heads : ∀ p, R !! ifd_link p = None;
  io_links : ∀ p, in_rings R (ifd_link p) → ∃ v, w_ifds w !! p = Some v ∧ armed g (i_task v) (i_fd v);
  io_armed : ∀ fd u, armed g u fd → ∃ v, w_tasks w !! u = Some v ∧ t_status v ≠ KILLED ∧ t_func v ≠ NoFunc;
  io_open : ∀ fd, is_Some (w_fdtab w !! fd) ∨ is_Some (g !! fd) → fd ∈ opened (w_kernel w);
  io_nofunc : ∀ u v, w_tasks w !! u = Some v → t_func v = NoFunc → ¬ in_rings R (run_link u);
  io_active : ∀ u v u' v', w_tasks w !! u = Some v → w_tasks w !! u' = Some v' →
    t_func v = ActiveTask → t_func v' = ActiveTask → u = u'
}.

(** The state of the scheduler; only task [k] may have exited. *)
Record good (w : world) (R : gmap laddr (list laddr)) (ts : list Z) (k : ptr) (g : own) : Prop := {
  gd_rt : rt w s R ts;
  gd_sync : sync_ok w R;
  gd_cids : ∀ th, w_threads w !! w_self w = Some th → cids_ok (g_cids th) (w_tasks w);
  gd_specs : specs_ok (w_tasks w);
  gd_killed : ∀ u v, w_tasks w !! u = Some v → t_status v = KILLED → u = k;
  gd_io : io_ok w R g;
  gd_objs : objs_ok (w_objs w)
}.

(** Task [t] has the processor. *)
Definition current (t : ptr) (w : world) : Prop :=
  ∃ th, w_threads w !! w_self w = Some th ∧ g_current th = t.

(** It has a function to run. *)
Definition alive (t : ptr) (w : world) : Prop := ∃ v, w_tasks w !! t = Some v ∧ t_func v ≠ NoFunc.

(** It runs, on no list; or it is about to switch away. *)
Definition ACT (t : ptr) (g : own) (w : world) : Prop :=
  ∃ R ts, good w R ts NULL g ∧ current t w ∧ alive t w ∧ ¬ in_rings R (run_link t).
Definition RUN (t : ptr) (g : own) (w : world) : Prop := ACT t g w ∧ ∀ fd, ¬ armed g t fd.
Definition PARKW (t : ptr) (g : own) (w : world) : Prop :=
  ∃ R ts, good w R ts t g ∧ current t w ∧ alive t w.
Definition PARK (t : ptr) (g : own) (w : world) : Prop := PARKW t g w ∧ ∀ fd, ¬ armed g t fd.

(** A task that has not started has what its function needs. *)
Definition start_ok (g : own) (u : ptr) (v : task_t) : Prop :=
  (∀ fd, ¬ armed g u fd) ∧
  match t_func v with
  | UserFunc n => ∀ fd, fd ∈ su_needs P n (t_iparam v) (t_oparam v) → owns g u fd
  | TimeoutTask => t_iparam v = su_epoll P ∧ owns g u (su_timer P)
  | ActiveTask => True
  | NoFunc => False
  end.

(** * Between two switches *)

(** What a task finds when it comes back: its descriptors are its own, registered as
    they were; none has been armed; its entry and, for the active task, the pipe of
    the scheduler are as they were. *)
Record rely (u : ptr) (g : own) (w : world) (g' : own) (w' : world) : Prop := {
  rl_own : ∀ fd, owns g' u fd ↔ owns g u fd;
  rl_armed : ∀ fd, armed g' u fd → armed g u fd;
  rl_tab : ∀ fd, owns g u fd → w_fdtab w' !! fd = w_fdtab w !! fd;
  rl_entry : entry <$> w_tasks w' !! u = entry <$> w_tasks w !! u;
  rl_active : ∀ v, w_tasks w !! u = Some v → t_func v = ActiveTask →
    sched_fixed <$> w_scheds w' !! s = sched_fixed <$> w_scheds w !! s
}.

(** What a task leaves to the others: what they rely on, and to a task it has
    created what that needs. *)
Record keeps (t : ptr) (g : own) (w : world) (g' : own) (w' : world) : Prop := {
  kp_self : w_self w' = w_self w;
  kp_live : dom (w_tasks w) ⊆ dom (w_tasks w');
  kp_rely : ∀ u, u ≠ t → is_Some (w_tasks w !! u) → rely u g w g' w';
  kp_new : ∀ u v, u ≠ t → w_tasks w !! u = None → w_tasks w' !! u = Some v → start_ok g' u v
}.

(** The descriptors and the entry of the task itself. *)
Record mine (t : ptr) (g : own) (w : world) (g' : own) (w' : world) : Prop := {
  mn_own : ∀ fd, owns g' t fd ↔ owns g t fd;
  mn_entry : entry <$> w_tasks w' !! t = entry <$> w_tasks w !! t;
  mn_active : ∀ v, w_tasks w !! t = Some v → t_func v = ActiveTask →
    sched_fixed <$> w_scheds w' !! s = sched_fixed <$> w_scheds w !! s
}.

Lemma entry_func (T T' : gmap Z task_t) u v :
  entry <$> T' !! u = entry <$> T !! u → T !! u = Some v →
  ∃ v', T' !! u = Some v' ∧ entry v' = entry v ∧ t_func v' = t_func v.
Proof.
  intros E Hv. rewrite Hv in E. destruct (T' !! u) as [v'|] eqn:Hv'; [|done]. exists v'.
  cbn in E. injection E as E1 E2 E3 E4. split_and!; [done| |done]. unfold entry. congruence.
Qed.

Lemma rely_refl u g w : rely u g w g w.
Proof. by split. Qed.

Lemma rely_trans u g1 w1 g2 w2 g3 w3 : rely u g1 w1 g2 w2 → rely u g2 w2 g3 w3 → rely u g1 w1 g3 w3.
Proof.
  intros [O1 A1 T1 E1 S1] [O2 A2 T2 E2 S2]. split.
  - intros fd. by rewrite O2.
  - auto.
  - intros fd Hfd. rewrite T2; [by apply T1|by apply O1].
  - congruence.
  - intros v Hv Hf. destruct (entry_func _ _ _ _ E1 Hv) as (v2 & Hv2 & _ & Hf2).
    rewrite (S2 v2) by congruence. by apply (S1 v).
Qed.

Lemma mine_refl t g w : mine t g w g w.
Proof. by split. Qed.

Lemma mine_trans t g1 w1 g2 w2 g3 w3 : mine t g1 w1 g2 w2 → mine t g2 w2 g3 w3 → mine t g1 w1 g3 w3.
Proof.
  intros [O1 E1 S1] [O2 E2 S2]. split.
  - intros fd. by rewrite O2.
  - congruence.
  - intros v Hv Hf. destruct (entry_func _ _ _ _ E1 Hv) as (v2 & Hv2 & _ & Hf2).
    rewrite (S2 v2) by congruence. by apply (S1 v).
Qed.

Lemma rely_mine t g w g' w' : rely t g w g' w' → mine t g w g' w'.
Proof. by intros []. Qed.

Lemma start_ok_rely g w g' w' u v v' :
  start_ok g u v → rely u g w g' w' → w_tasks w !! u = Some v → w_tasks w' !! u = Some v' → start_ok g' u v'.
Proof.
  intros [Ha Hs] [O A _ E _] Hv Hv'. rewrite Hv, Hv' in E. cbn in E. injection E as E1 E2 E3 _. split.
  - intros fd ?%A. by apply (Ha fd).
  - rewrite E1, E2, E3. destruct (t_func v); try done; [by rewrite O|].
    intros fd Hfd. apply O. by apply Hs.
Qed.

Lemma keeps_refl t g w : keeps t g w g w.
Proof. split; [done|done|intros; apply rely_refl|intros; congruence]. Qed.

Lemma keeps_trans t g1 w1 g2 w2 g3 w3 : keeps t g1 w1 g2 w2 → keeps t g2 w2 g3 w3 → keeps t g1 w1 g3 w3.
Proof.
  intros [E1 D1 R1 N1] [E2 D2 R2 N2]. split; [congruence|set_solver| |].
  - intros u Hu Hl. eapply rely_trans; [by apply R1|]. apply R2; [done|]. apply elem_of_dom, D1. by apply elem_of_dom.
  - intros u v Hu Hn Hv. destruct (w_tasks w2 !! u) as [v2|] eqn:Hv2; [|by eapply N2].
    eapply start_ok_rely; [by eapply N1|by apply R2|done|done].
Qed.

(** * Changing the state *)

Lemma cids_ok_ids al T T' :
  cids_ok al T →
  (∀ u, (λ v, (t_cid v, t_specs v)) <$> T' !! u = (λ v, (t_cid v, t_specs v)) <$> T !! u) → cids_ok al T'.
Proof.
  intros (live & Hinv & Hl) Hids. exists live. split; [done|].
  assert (Hb : ∀ u v', T' !! u = Some v' → ∃ v, T !! u = Some v ∧ t_cid v = t_cid v').
  { intros u v' Hv. specialize (Hids u). rewrite Hv in Hids. destruct (T !! u) as [v|]; [|done].
    cbn in Hids. injection Hids as ??. by exists v. }
  assert (Hsz : size T' = size T).
  { rewrite <-!size_dom. f_equal. apply set_eq. intros u. specialize (Hids u). rewrite !elem_of_dom.
    destruct (T' !! u), (T !! u); by split; eauto. }
  rewrite Hsz. destruct Hl as [?|(Hs & Hin & Hinj)]; [by left|right]. split_and!; [done| |].
  - intros u v' (v & Hv & <-)%Hb. by eapply Hin.
  - intros u v u' v' (v1 & Hv1 & <-)%Hb (v2 & Hv2 & <-)%Hb. by apply Hinj.
Qed.

Lemma specs_ok_ids T T' :
  specs_ok T →
  (∀ u, (λ v, (t_cid v, t_specs v)) <$> T' !! u = (λ v, (t_cid v, t_specs v)) <$> T !! u) → specs_ok T'.
Proof.
  intros Hsp Hids u v' m Hv Hm. specialize (Hids u). rewrite Hv in Hids.
  destruct (T !! u) as [v|] eqn:E; [|done]. cbn in Hids. injection Hids as ? Es. apply (Hsp u v); congruence.
Qed.

Lemma sync_ok_frame w w' R : sync_ok w R → w_mutexes w' = w_mutexes w → w_sems w' = w_sems w → sync_ok w' R.
Proof. intros [] E1 E2. split; by rewrite ?E1, ?E2. Qed.

(** The lists may change as long as the wait lists stay lists of tasks. *)
Lemma sync_ok_rings w R R' :
  sync_ok w R →
  (∀ h us, wait_head h → R !! h = Some (run_link <$> us) → ∃ us', R' !! h = Some (run_link <$> us')) →
  sync_ok w R'.
Proof.
  intros [Hm Hc Hs] HR. split.
  - intros m (o & ws & ? & Hw)%Hm. destruct (HR _ _ (mutex_wait_head m) Hw). eauto.
  - intros c (ws & Hw)%Hc. apply (HR _ _ (cond_wait_head c) Hw).
  - intros p (n & ws & ? & Hw)%Hs. destruct (HR _ _ (sem_wait_head p) Hw). eauto.
Qed.

(** The tasks may change their status, the lists of tasks may change. *)
Lemma io_ok_tasks w w' R R' g t :
  io_ok w R g → fd_rings t R R' → (∀ v, w_tasks w !! t = Some v → t_func v ≠ NoFunc) →
  w_fdtab w' = w_fdtab w → w_ifds w' = w_ifds w → w_epolls w' = w_epolls w → w_kernel w' = w_kernel w →
  dom (w_links w') = dom (w_links w) →
  sched_fixed <$> w_scheds w' !! s = sched_fixed <$> w_scheds w !! s →
  (∀ u, t_func <$> w_tasks w' !! u = t_func <$> w_tasks w !! u) →
  (∀ u v', w_tasks w' !! u = Some v' → t_status v' = KILLED →
     (∃ v, w_tasks w !! u = Some v ∧ t_status v = KILLED) ∨ ∀ fd, ¬ armed g u fd) → io_ok w' R' g.
Proof.
  intros [(e & tw & ((sv & Hsv & Hse) & He & Hw) & Hsl & Hint) Htb Hif Hhd Hlk Har Hop Hno Hac]
    [Fs Fh Fi Fr] Ht E1 E2 E3 E4 E5 Esc Een Hk.
  assert (Hback : ∀ u v', w_tasks w' !! u = Some v' → ∃ v, w_tasks w !! u = Some v ∧ t_func v = t_func v').
  { intros u v' Hv'. specialize (Een u). rewrite Hv' in Een. destruct (w_tasks w !! u) as [v|]; [|done].
    injection Een as ?. by exists v. }
  split; rewrite ?E1, ?E2, ?E4; try done.
  - exists e, tw. split_and!; [|by naive_solver|done]. split; [|by rewrite E3]. rewrite Hsv in Esc.
    destruct (w_scheds w' !! s) as [sv'|]; [|done]. exists sv'. split; [done|]. cbn in Esc. injection Esc as Esc _ _. congruence.
  - intros fd p Hp. destruct (Htb _ _ Hp) as (? & ? & Hl & ?). split_and!; [by lia..|done| |done].
    apply elem_of_dom. rewrite E5. by apply elem_of_dom.
  - by auto.
  - by auto.
  - intros fd u Ha. destruct (Har fd u Ha) as (v & Hv & Hnk & Hnf).
    specialize (Een u). rewrite Hv in Een. destruct (w_tasks w' !! u) as [v'|] eqn:Hv'; [|done].
    injection Een as Hf. exists v'. split_and!; [done| |congruence]. intros Hk'. destruct (Hk _ _ Hv' Hk') as [(v0 & ? & ?)|Hn]; [congruence|]. by apply (Hn fd).
  - intros u v' (v & Hv & Hf)%Hback Hnf. intros [Hr| ->]%Fr; [apply (Hno u v); [done|congruence|done]|].
    apply (Ht v); congruence.
  - intros u v u' v' (v0 & Hv & <-)%Hback (v0' & Hv' & <-)%Hback. by apply Hac.
Qed.

(** Descriptors change hands, none that could wake somebody. *)
Lemma io_ok_own w R g g' :
  io_ok w R g → (∀ u fd, armed g' u fd ↔ armed g u fd) → (∀ fd, is_Some (g' !! fd) → is_Some (g !! fd)) → io_ok w R g'.
Proof.
  intros [(e & tw & Hw & Hsl & Hint) Htb Hif Hhd Hlk Har Hop Hno Hac] Ha Hd. split; try done.
  - exists e, tw. split_and!; [done|done|]. intros fd (p & v & ? & ? & ?)%Hint. exists p, v. by rewrite Ha.
  - intros p (v & ? & ?)%Hlk. exists v. by rewrite Ha.
  - intros fd u. rewrite Ha. by apply Har.
  - intros fd [?|?%Hd]; apply Hop; by auto.
Qed.

(** A task of the program is added. *)
Lemma io_ok_new w w' R R' g u v n :
  io_ok w R g → fd_rings u R R' → w_tasks w !! u = None → w_tasks w' = <[u := v]> (w_tasks w) →
  t_func v = UserFunc n → w_fdtab w' = w_fdtab w → w_ifds w' = w_ifds w → w_epolls w' = w_epolls w →
  w_kernel w' = w_kernel w → dom (w_links w) ⊆ dom (w_links w') →
  sched_fixed <$> w_scheds w' !! s = sched_fixed <$> w_scheds w !! s → io_ok w' R' g.
Proof.
  intros [(e & tw & ((sv & Hsv & Hse) & He & Hw) & Hsl & Hint) Htb Hif Hhd Hlk Har Hop Hno Hac]
    [Fs Fh Fi Fr] Hu ET Hf E1 E2 E3 E4 E5 Esc. split; rewrite ?E1, ?E2, ?E4, ?ET; try done.
  - exists e, tw. split_and!; [|by naive_solver|done]. split; [|by rewrite E3]. rewrite Hsv in Esc.
    destruct (w_scheds w' !! s) as [sv'|]; [|done]. exists sv'. split; [done|]. cbn in Esc. injection Esc as Esc _ _. congruence.
  - intros fd p Hp. destruct (Htb _ _ Hp) as (? & ? & Hl & ?). split_and!; [by lia..|done| |done].
    apply elem_of_dom, E5. by apply elem_of_dom.
  - by auto.
  - by auto.
  - intros fd x Ha. destruct (Har fd x Ha) as (v' & Hv & ?). exists v'. by rewrite lookup_insert_ne by congruence.
  - intros x v'. rewrite lookup_insert_Some. intros [[<- <-]|[Hne Hv]] Hnf; [congruence|].
    intros [Hr| ->]%Fr; [by eapply Hno|done].
  - intros x v1 x' v2. rewrite !lookup_insert_Some.
    intros [[<- <-]|[? Hv]] [[<- <-]|[? Hv']] ??; try congruence. by eapply Hac.
Qed.

(** A step that at most wakes tasks. *)
Lemma good_wake w w' R ts R' ts' k g t :
  good w R ts k g → wake_frame w (with_sems w' (w_sems w)) → rt w' s R' ts' → sync_ok w' R' →
  fd_rings t R R' → (∀ v, w_tasks w !! t = Some v → t_func v ≠ NoFunc) → good w' R' ts' k g.
Proof.
  intros [Hrt Hsy Hc Hsp Hk Hio Hob] [Es Et _ El (E1 & E2 & E3 & E4 & E5) Esc Hids Hen Hkl] Hrt' Hsy' HR Ht.
  cbn in *. split; [done|done| | | | |by rewrite E5].
  - intros th. rewrite Et, Es. intros Hth. eapply cids_ok_ids; [by apply Hc|done].
  - by eapply specs_ok_ids.
  - intros u v' Hv Hk'. destruct (Hkl _ _ Hv Hk') as (v & ? & ?). by eapply Hk.
  - eapply io_ok_tasks; [done..| |].
    + intros u. destruct (w_tasks w !! u) as [v|] eqn:Hv.
      * destruct (entry_func _ _ _ _ (Hen u) Hv) as (v' & -> & _ & Hf). cbn. by rewrite Hf.
      * specialize (Hen u). rewrite Hv in Hen. by destruct (w_tasks w' !! u).
    + intros u v' Hv' Hk'. left. by eapply Hkl.
Qed.

Lemma wake_rely u g w w' : wake_frame w (with_sems w' (w_sems w)) → rely u g w g w'.
Proof. intros [_ _ _ _ (E1 & _) Esc _ Hen _]. cbn in *. split; try done. intros fd _. by rewrite E1. Qed.

Lemma wake_keeps t g w w' : wake_frame w (with_sems w' (w_sems w)) → keeps t g w g w'.
Proof.
  intros Hf. pose proof Hf as [Es _ _ _ _ _ _ Hen _]. cbn in *. split; [done| |intros; by apply wake_rely|].
  - intros u [v Hv]%elem_of_dom. destruct (entry_func _ _ _ _ (Hen u) Hv) as (v' & ? & _). by apply elem_of_dom.
  - intros u v' _ Hn Hv'. destruct (entry_func _ _ _ _ (eq_sym (Hen u)) Hv') as (v & ? & _). congruence.
Qed.

Lemma wake_current t w w' : wake_frame w (with_sems w' (w_sems w)) → current t w → current t w'.
Proof. intros [Es Et _ _ _ _ _ _ _] (th & Hth & Hc). cbn in *. exists th. by rewrite Et, Es. Qed.

Lemma wake_alive t w w' : wake_frame w (with_sems w' (w_sems w)) → alive t w → alive t w'.
Proof.
  intros [_ _ _ _ _ _ _ Hen _] (v & Hv & Hf). cbn in *. destruct (entry_func _ _ _ _ (Hen t) Hv) as (v' & ? & _ & ?).
  exists v'. split; [done|congruence].
Qed.

Lemma keeps_live t g w g' w' u : keeps t g w g' w' → is_Some (w_tasks w !! u) → is_Some (w_tasks w' !! u).
Proof. intros [_ Hd _ _] Hu. apply elem_of_dom. apply Hd. by apply elem_of_dom. Qed.

(** * Safety *)

Section safe.
Context (t : ptr).

Fixpoint csafe_co {A} (Q : A → own → world → Prop) (g0 : own) (w0 : world) (r : co A) (w : world) {struct r} : Prop :=
  ∃ g, keeps t g0 w0 g w ∧
  match r with
  | CRet a => Q a g w
  | CYield k => PARKW t g w ∧
      ((∀ v, w_tasks w !! t = Some v → t_status v ≠ KILLED) → ∀ g' w', ACT t g' w' → rely t g w g' w' →
       match k w' with
       | Ok (r, w2) => csafe_co Q g' w' r w2
       | Panic msg => deliberate msg
       | Undef => False
       | OutOfFuel => True
       end)
  end.

(** From [w0], where the task was given the processor, to [w] and on with [c]. *)
Definition csafe {A} (Q : A → own → world → Prop) (g0 : own) (w0 : world) (c : C A) (w : world) : Prop :=
  outcome (c w) (λ r, csafe_co Q g0 w0 r.1 r.2).

(** A function that leaves the task with the descriptors it had. *)
Definition safe {A} (c : C A) : Prop :=
  ∀ g w, RUN t g w → csafe (λ _ g' w', RUN t g' w' ∧ mine t g w g' w') g w c w.

Lemma csafe_co_start {A} (Q : A → own → world → Prop) g0 w0 g1 w1 r w :
  keeps t g0 w0 g1 w1 → csafe_co Q g1 w1 r w → csafe_co Q g0 w0 r w.
Proof. intros Hk. destruct r; cbn; intros (g & ? & ?); exists g; (split; [by eapply keeps_trans|done]). Qed.

Lemma csafe_start {A} (Q : A → own → world → Prop) g0 w0 g1 w1 (c : C A) w :
  keeps t g0 w0 g1 w1 → csafe Q g1 w1 c w → csafe Q g0 w0 c w.
Proof. intros Hk Hc. eapply outcome_mono; [exact Hc|]. intros r. by apply csafe_co_start. Qed.

Lemma csafe_co_then {A B} (P1 : A → own → world → Prop) (Q : B → own → world → Prop) (f : A → C B) r g0 w0 w :
  csafe_co P1 g0 w0 r w → (∀ a g w, P1 a g w → csafe Q g w (f a) w) → csafe Q g0 w0 (λ w, co_then f r w) w.
Proof.
  intros Hr Hf. revert r g0 w0 w Hr. fix IH 1. intros [a|k] g0 w0 w (g & Hk & H); cbn [co_then].
  - eapply csafe_start; [exact Hk|]. by apply Hf.
  - cbn in H. destruct H as [HP H]. unfold csafe. cbn. exists g. split; [done|]. split; [done|].
    intros Hnk g' w' HR Hre. specialize (H Hnk g' w' HR Hre). destruct (k w') as [[r w2]| | |]; try done.
    specialize (IH r g' w' w2 H). unfold csafe in IH. destruct (co_then f r w2) as [[r3 w3]| | |]; exact IH.
Qed.

Lemma csafe_bind {A B} (P1 : A → own → world → Prop) (Q : B → own → world → Prop) (f : A → C B) (c : C A) g0 w0 w :
  csafe P1 g0 w0 c w → (∀ a g w, P1 a g w → csafe Q g w (f a) w) → csafe Q g0 w0 (cbind f c) w.
Proof.
  intros Hc Hf. unfold csafe, cbind in *. destruct (c w) as [[r w1]| | |]; try done. cbn in *.
  by eapply csafe_co_then.
Qed.

Lemma csafe_co_mono {A} (P1 Q : A → own → world → Prop) r g0 w0 w :
  csafe_co P1 g0 w0 r w → (∀ a g w, P1 a g w → Q a g w) → csafe_co Q g0 w0 r w.
Proof.
  intros Hr HPQ. revert r g0 w0 w Hr. fix IH 1. intros [a|k] g0 w0 w (g & Hk & H); exists g; (split; [done|]); [by apply HPQ|].
  cbn in *. destruct H as [HP H]. split; [done|]. intros Hnk g' w' HR Hre. specialize (H Hnk g' w' HR Hre).
  destruct (k w') as [[r w2]| | |]; try done. by apply IH.
Qed.

Lemma csafe_mono {A} (P1 Q : A → own → world → Prop) (c : C A) g0 w0 w :
  csafe P1 g0 w0 c w → (∀ a g w, P1 a g w → Q a g w) → csafe Q g0 w0 c w.
Proof. intros Hc HPQ. eapply outcome_mono; [exact Hc|]. intros r Hr. eapply csafe_co_mono; [exact Hr|exact HPQ]. Qed.

Lemma csafe_act {A} (c : M A) (Q : A → own → world → Prop) g w :
  outcome (c w) (λ r, ∃ g', keeps t g w g' r.2 ∧ Q r.1 g' r.2) → csafe Q g w (act c) w.
Proof. unfold csafe, act. by destruct (c w) as [[a w1]| | |]. Qed.

(** Returning, sequencing, switching. *)
Lemma csafe_ret {A} (a : A) (Q : A → own → world → Prop) g w : Q a g w → csafe Q g w (cret a) w.
Proof. intros HQ. unfold csafe, cret. cbn. exists g. split; [apply keeps_refl|done]. Qed.

Lemma safe_ret {A} (a : A) : safe (cret a).
Proof. intros g w Hw. apply csafe_ret. split; [done|apply mine_refl]. Qed.

(** Sequencing from a state [g0], [w0] on, for functions that need not be safe
    everywhere. *)
Lemma csafe_seq {A B} (f : A → C B) (c : C A) g w (Q : B → own → world → Prop) :
  safe c → RUN t g w → (∀ a g' w', RUN t g' w' → mine t g w g' w' → csafe Q g' w' (f a) w') →
  csafe Q g w (cbind f c) w.
Proof. intros Hc Hw Hf. eapply csafe_bind; [by apply Hc|]. intros a g' w' [??]. by apply Hf. Qed.

Lemma safe_bind {A B} (f : A → C B) (c : C A) : safe c → (∀ a, safe (f a)) → safe (cbind f c).
Proof.
  intros Hc Hf g w Hw. eapply csafe_seq; [done..|]. intros a g' w' Hw' Hm.
  eapply csafe_mono; [by apply Hf|]. cbn. intros b g2 w2 [? ?]. split; [done|by eapply mine_trans].
Qed.

Lemma safe_act {A} (c : M A) :
  (∀ g w, RUN t g w → outcome (c w) (λ r, keeps t g w g r.2 ∧ RUN t g r.2 ∧ mine t g w g r.2)) → safe (act c).
Proof.
  intros Hc g w Hw. apply csafe_act. eapply outcome_mono; [by apply Hc|]. cbn. intros r (? & ? & ?). by exists g.
Qed.

Lemma run_park g w : RUN t g w → PARK t g w.
Proof.
  intros [(R & ts & [Hrt Hsy Hc Hsp Hk Hio Hob] & Hcur & Ht & _) Ha]. split; [|done]. exists R, ts. split; [|done].
  split; try done. intros u v Hv Hkl. destruct (rt_tasks _ _ _ _ _ _ Hrt Hv) as [[] _]. by eapply Hk.
Qed.

(** A switch, in a state in which the task may be taken off the processor. *)
Lemma csafe_yield (Q : unit → own → world → Prop) g w :
  PARK t g w → (∀ g' w', RUN t g' w' → rely t g w g' w' → Q () g' w') → csafe Q g w yield w.
Proof.
  intros [Hw Ha] HQ. exists g. split; [apply keeps_refl|]. split; [done|]. intros _ g' w' Hw' Hre.
  exists g'. split; [apply keeps_refl|]. apply HQ; [|done]. split; [done|]. intros fd ?%(rl_armed _ _ _ _ _ Hre).
  by apply (Ha fd).
Qed.

Lemma safe_yield : safe yield.
Proof.
  intros g w Hw. apply csafe_yield; [by apply run_park|]. intros g' w' Hw' Hre. split; [done|by apply rely_mine].
Qed.

(** What a step of a neutral function ends in: still running, or about to switch. *)
Definition stepped (r : bool) (g : own) (w w' : world) : Prop :=
  keeps t g w g w' ∧ (if r then PARK t g w' else RUN t g w') ∧ mine t g w g w'.

(** A loop whose turns end in a switch or go on. *)
Definition turn_ok (step : M turn) : Prop :=
  ∀ g w, RUN t g w → outcome (step w) (λ r, stepped (match r.1 with Yielded => true | _ => false end) g w r.2).

Lemma csafe_yield_then {A} (c : C A) g w :
  PARK t g w → safe c → csafe (λ _ g' w', RUN t g' w' ∧ mine t g w g' w') g w (do! yield in c) w.
Proof.
  intros Hw Hc. eapply csafe_bind.
  { apply (csafe_yield (λ _ g' w', RUN t g' w' ∧ mine t g w g' w')); [done|]. intros g' w' ? ?. split; [done|by apply rely_mine]. }
  intros [] g' w' [Hw' Hm]. eapply csafe_mono; [by apply Hc|]. cbn. intros a g2 w2 [? ?]. split; [done|by eapply mine_trans].
Qed.

Lemma safe_turn (step : M turn) (k : turn → C unit) :
  turn_ok step → (∀ r, r ≠ Yielded → safe (k r)) →
  (∀ g w, PARK t g w → csafe (λ _ g' w', RUN t g' w' ∧ mine t g w g' w') g w (k Yielded) w) →
  safe (cbind k (act step)).
Proof.
  intros Ho Hk Hy g w Hw.
  eapply (csafe_bind (λ r g' w', (match r with Yielded => PARK t g' w' | _ => RUN t g' w' end) ∧ mine t g w g' w')).
  { apply csafe_act. eapply outcome_mono; [by apply Ho|]. intros [r w1] (Hk1 & Hs & Hm). exists g.
    split; [done|]. split; [|done]. by destruct r. }
  intros r g' w' [Hw' Hm]. eapply (csafe_mono (λ _ g2 w2, RUN t g2 w2 ∧ mine t g' w' g2 w2)).
  - destruct r; [by apply Hk|by apply Hy|by apply Hk].
  - intros a g2 w2 [? ?]. split; [done|by eapply mine_trans].
Qed.

Lemma safe_turns fuel step : turn_ok step → safe (turns fuel step).
Proof.
  intros Hs. induction fuel as [|fuel IH]; cbn [turns]; [done|].
  apply safe_turn; [done| |].
  - intros [] Hne; [apply safe_ret|done|apply IH].
  - intros g w Hw. by apply csafe_yield_then.
Qed.

End safe.
End runtime.
