(* ===== verification/TaskSafety.v ===== *)
(** Which operations of the library a task can call safely: creating and ending
    tasks, mutexes, conditions and semaphores.  Each lemma is one rule for [safe]
    of Runtime.v. *)

From Stdlib Require Import ZArith Lia.
From stdpp Require Import base numbers strings sets gmap list.
From S2P Require Import Prelude IntrusiveList Links Array Heap Cid SpinLock TimeWheel HashMap World Coroutine InnerFd.
From S2P Require Import Task Sched Event Schedule Mutex Cond Sem Blocking Hook Helper Descriptors Runtime.
Open Scope Z_scope.

Section rules.
Context `{Sk : Sockets} {Fv : FdView}.
Context (P : setup) (t : ptr).

Local Notation s := (su_sched P).
Local Notation good := (good P).
Local Notation sync_ok := (sync_ok P).
Local Notation RUN := (RUN P t).
Local Notation PARK := (PARK P t).
Local Notation keeps := (keeps P t).
Local Notation mine := (mine P t).
Local Notation stepped := (stepped P t).
Local Notation safe := (safe P t).
Local Notation csafe := (csafe P t).

(** * Tools *)

Lemma outcome_wp {A} (c : M A) Q w : wp c Q w → outcome (c w) (λ r, Q r.1 r.2).
Proof. intros (a & w' & -> & HQ). exact HQ. Qed.

Lemma outcome_bind {A B} (c : M A) (k : A → M B) Q w :
  outcome (c w) (λ r, outcome (k r.1 r.2) Q) → outcome ((c ≫= k) w) Q.
Proof. unfold mbind, M_bind. by destruct (c w) as [[a w']| | |]. Qed.

Lemma safe_outcome {A} (c : M A) :
  (∀ g w, RUN g w → outcome (c w) (λ r, stepped false g w r.2)) → safe (act c).
Proof. intros Hc. by apply safe_act. Qed.

Lemma safe_wp {A} (c : M A) : (∀ g w, RUN g w → wp c (λ _ w', stepped false g w w') w) → safe (act c).
Proof.
  intros Hc. apply safe_outcome. intros g w Hw. by apply (outcome_wp c (λ _ w', stepped false g w w')), Hc.
Qed.

Lemma stepped_refl g w : RUN g w → stepped false g w w.
Proof. intros Hw. split_and!; [apply keeps_refl|done|apply mine_refl]. Qed.

(** An operation that only reads. *)
Lemma safe_read {A} (c : M A) : (∀ g w, RUN g w → wp c (λ _ w', w' = w) w) → safe (act c).
Proof.
  intros Hc. apply safe_wp. intros g w Hw. eapply wp_mono; [by eapply Hc|]. intros a w' ->. by apply stepped_refl.
Qed.

(** What a running task knows. *)
Record running (g : own) (w : world) (R : gmap laddr (list laddr)) (ts : list Z) (th : thread_t) (tv : task_t)
    : Prop := {
  rn_good : good w R ts NULL g;
  rn_thread : w_threads w !! w_self w = Some th;
  rn_current : g_current th = t;
  rn_task : w_tasks w !! t = Some tv;
  rn_func : t_func tv ≠ NoFunc;
  rn_out : ¬ in_rings R (run_link t);
  rn_armed : ∀ fd, ¬ armed g t fd;
  rn_nonnull : t ≠ NULL
}.

Lemma run_elim g w : RUN g w → ∃ R ts th tv, running g w R ts th tv.
Proof.
  intros [(R & ts & Hg & (th & Hth & Hc) & (tv & Ht & Hf) & Hni) Ha]. exists R, ts, th, tv. split; try done.
  by destruct (rt_tasks _ _ _ _ _ _ (gd_rt _ _ _ _ _ _ Hg) Ht).
Qed.

Lemma wake_mine g w w' : wake_frame w (with_sems w' (w_sems w)) → mine g w g w'.
Proof. intros Hf. by apply rely_mine, wake_rely. Qed.

(** After a step that at most wakes tasks: still running, or off to a list. *)
Lemma run_intro g w w' R ts R' ts' th tv :
  running g w R ts th tv → wake_frame w (with_sems w' (w_sems w)) → rt w' s R' ts' → sync_ok w' R' →
  fd_rings t R R' → ¬ in_rings R' (run_link t) → stepped false g w w'.
Proof.
  intros [Hg Hth Hc Ht Hf Hni Ha Hn] Hfr Hrt Hsy HR Hni'.
  assert (Hcur : current t w) by (by exists th). assert (Hal : alive t w) by (by exists tv).
  split_and!; [by apply wake_keeps| |by apply wake_mine]. split; [|done]. exists R', ts'.
  split_and!; [|by eapply wake_current|by eapply wake_alive|done].
  eapply good_wake; [done..|]. intros v Hv. congruence.
Qed.

Lemma park_intro g w w' R ts R' ts' th tv :
  running g w R ts th tv → wake_frame w (with_sems w' (w_sems w)) → rt w' s R' ts' → sync_ok w' R' →
  fd_rings t R R' → stepped true g w w'.
Proof.
  intros [Hg Hth Hc Ht Hf Hni Ha Hn] Hfr Hrt Hsy HR.
  assert (Hcur : current t w) by (by exists th). assert (Hal : alive t w) by (by exists tv).
  split_and!; [by apply wake_keeps| |by apply wake_mine]. split; [|done]. exists R', ts'.
  split_and!; [|by eapply wake_current|by eapply wake_alive].
  assert (Hg' : good w' R' ts' NULL g) by (eapply good_wake; [done..|]; intros v Hv; congruence).
  destruct Hg' as [? ? ? ? Hkl ? ?]. split; try done. intros u v Hv Hku.
  destruct (rt_tasks _ _ _ _ _ _ Hrt Hv) as [[] _]. by eapply Hkl.
Qed.

(** Wait lists lose the task that is enqueued. *)
Lemma enqueue_wait_lists x ts R h us :
  wait_head h → R !! h = Some (run_link <$> us) →
  enqueue_rings s x ts R !! h = Some (run_link <$> filter (λ y, y ≠ x) us).
Proof.
  intros [Hk _] Hh. unfold enqueue_rings. rewrite lookup_insert_ne by (intros <-; by apply Hk).
  rewrite ring_remove_lookup, Hh. cbn. by rewrite filter_run_link.
Qed.

Lemma in_rings_enqueue x ts R c :
  R !! run_list s = Some (run_link <$> ts) →
  in_rings (enqueue_rings s x ts R) c → c = run_link x ∨ in_rings R c.
Proof.
  intros Hq (h & ys & Hy & Hc). unfold enqueue_rings in Hy.
  apply lookup_insert_Some in Hy as [[<- <-]|[_ Hy]].
  - apply elem_of_cons in Hc as [->|Hc].
    + right. exists (run_list s), (run_link <$> ts). split; [done|]. by left.
    + apply list_elem_of_fmap in Hc as (y & -> & [->|[_ Hy]%list_elem_of_filter]%elem_of_cons); [by left|].
      right. exists (run_list s), (run_link <$> ts). split; [done|]. right. by apply list_elem_of_fmap_2.
  - right. apply (in_rings_remove (run_link x)). by exists h, ys.
Qed.

(** * Reading the own state *)

Lemma safe_self : safe (act co_self).
Proof. apply safe_read. intros g w (R & ts & th & tv & Hr)%run_elim. pose proof Hr as [Hg Hth Hc Ht Hnf Hni Har Hn]. unfold co_self. by wp_steps. Qed.

Lemma safe_count : safe (act task_count).
Proof. apply safe_read. intros g w (R & ts & th & tv & Hr)%run_elim. pose proof Hr as [Hg Hth Hc Ht Hnf Hni Har Hn]. unfold task_count. by wp_steps. Qed.

Lemma safe_getcid : safe (act getcid).
Proof.
  apply safe_read. intros g w (R & ts & th & tv & Hr)%run_elim. pose proof Hr as [Hg Hth Hc Ht Hnf Hni Har Hn].
  unfold getcid, co_self. wp_steps. rewrite Hc, decide_False by done. by wp_steps.
Qed.

Lemma run_not_killed g w tv : RUN g w → w_tasks w !! t = Some tv → t_status tv ≠ KILLED.
Proof.
  intros (R & ts & th & v & Hr)%run_elim Ht Hs. destruct Hr as [[? ? ? ? Hk ? ?] _ _ _ _ _ _ Hn].
  by apply Hn; eapply Hk.
Qed.

(** The running task changes its own entry; it may exit, having no descriptor that
    could wake it. *)
Lemma task_upd_good g w R ts th tv tv' k :
  running g w R ts th tv → t_cid tv' = t_cid tv → t_specs tv' = t_specs tv → t_sched tv' = t_sched tv →
  t_func tv' = t_func tv → (t_status tv' = KILLED → k = t) → (k = t ∨ k = NULL) →
  good (with_tasks w (<[t := tv']> (w_tasks w))) R ts k g ∧
  keeps g w g (with_tasks w (<[t := tv']> (w_tasks w))).
Proof.
  intros [[Hrt Hsy Hci Hsp Hk Hio Hob] Hth Hc Ht Hf Hni Ha Hn] E1 E2 E3 E4 Hst Hkt. set (w' := with_tasks _ _).
  assert (Hids : ∀ {A} (f : task_t → A), f tv' = f tv → ∀ u, f <$> w_tasks w' !! u = f <$> w_tasks w !! u).
  { intros A f E u. cbn. destruct (decide (u = t)) as [->|]; [by rewrite lookup_insert_eq, Ht; cbn; rewrite E|].
    by rewrite lookup_insert_ne. }
  split.
  - split.
    + by eapply rt_task_upd.
    + by eapply sync_ok_frame.
    + intros th' Hth'. eapply cids_ok_ids; [by apply Hci|]. apply Hids. by rewrite E1, E2.
    + eapply specs_ok_ids; [done|]. apply Hids. by rewrite E1, E2.
    + intros u v. cbn. rewrite lookup_insert_Some. intros [[<- <-]|[_ Hv]] Hku; [by symmetry; apply Hst|].
      destruct (rt_tasks _ _ _ _ _ _ Hrt Hv) as [[] _]. by eapply Hk.
    + eapply (io_ok_tasks _ w w' R R g t); try done; [by intros v Hv; congruence|by apply Hids|].
      intros u v'. cbn. rewrite lookup_insert_Some. intros [[<- _]|[_ Hv]] Hku; [by right|left; by eauto].
    + done.
  - split; [done|cbn; rewrite dom_insert_L; set_solver| |].
    + intros u Hu _. split; try done. cbn. by rewrite lookup_insert_ne.
    + intros u v Hu Hv. cbn. rewrite lookup_insert_ne by done. congruence.
Qed.

(** Switching the hooks on and off. *)
Definition with_hook (h : Z) (v : task_t) : task_t :=
  Task (t_func v) (t_iparam v) (t_oparam v) (t_stack_size v) (t_specs v) (t_cid v) h (t_errnu v) (t_status v) (t_sched v).
Definition hooked_world (h : Z) (w : world) : world := with_tasks w (alter (with_hook h) t (w_tasks w)).

Lemma run_set_hook h g w : RUN g w → RUN g (hooked_world h w) ∧ keeps g w g (hooked_world h w).
Proof.
  intros Hw. pose proof Hw as (R & ts & th & tv & Hr)%run_elim. pose proof Hr as [Hg Hth Hc Ht Hnf Hni Har Hn].
  assert (E : hooked_world h w = with_tasks w (<[t := with_hook h tv]> (w_tasks w))).
  { unfold hooked_world. f_equal. apply map_eq. intros u. rewrite lookup_alter, lookup_insert.
    case_decide; subst; [by rewrite Ht|done]. }
  rewrite E. destruct (task_upd_good g w R ts th tv (with_hook h tv) NULL Hr) as [Hg' Hk']; try done; [|by right|].
  { intros Hkl. by destruct (run_not_killed _ _ _ Hw Ht). }
  split; [|done]. split; [|done]. exists R, ts. split_and!; [done|by exists th| |done].
  eexists. cbn. by rewrite lookup_insert_eq.
Qed.

Lemma set_hook_wp h g w Q : RUN g w → Q () (hooked_world h w) → wp (t ← co_self; set_hook t h) Q w.
Proof.
  intros (R & ts & th & tv & Hr)%run_elim HQ. pose proof Hr as [Hg Hth Hc Ht Hnf Hni Har Hn].
  unfold co_self, set_hook. wp_steps. rewrite Hc. wp_steps.
  replace (with_tasks w _) with (hooked_world h w); [done|]. unfold hooked_world. f_equal.
  apply map_eq. intros u. rewrite lookup_alter, lookup_insert. case_decide; subst; [by rewrite Ht|done].
Qed.

(** [co_enable_hook], [co_disable_hook]: the descriptors stay the same. *)
Lemma csafe_hook (on : bool) g w :
  RUN g w → csafe (λ _ g' w', RUN g' w' ∧ g' = g ∧ w' = hooked_world (if on then 1 else 0) w) g w
    (act (if on then co_enable_hook else co_disable_hook)) w.
Proof.
  intros Hw. apply csafe_act. destruct (run_set_hook (if on then 1 else 0) g w Hw) as [Hw' Hk].
  eapply outcome_mono; [eapply (outcome_wp _ (λ _ w', w' = hooked_world (if on then 1 else 0) w))|].
  - destruct on; by eapply set_hook_wp.
  - intros [[] w'] E. cbn in E. subst w'. by exists g.
Qed.

(** * The end of a task *)

(** A task that has exited is not resumed: nothing is asked of what follows. *)
Lemma csafe_exit {A} (Q : A → own → world → Prop) (c : C A) g w :
  RUN g w → csafe Q g w (do! act task_exit in do! yield in c) w.
Proof.
  intros Hw. pose proof Hw as (R & ts & th & tv & Hr)%run_elim. pose proof Hr as [Hg Hth Hc Ht Hnf Hni Har Hn].
  eapply (csafe_bind _ _ (λ _ g' w', PARKW P t g' w' ∧ ∃ v, w_tasks w' !! t = Some v ∧ t_status v = KILLED)).
  - apply csafe_act. eapply outcome_mono; [eapply (outcome_wp task_exit (λ _ w', ∃ tv', w' =
      with_tasks w (<[t := tv']> (w_tasks w)) ∧ t_cid tv' = t_cid tv ∧ t_specs tv' = t_specs tv ∧
      t_sched tv' = t_sched tv ∧ t_func tv' = t_func tv ∧ t_status tv' = KILLED))|].
    + unfold task_exit, co_self. wp_steps. rewrite Hc, decide_False by done. unfold set_status. wp_steps.
      by eexists.
    + intros [[] w'] (tv' & E & E1 & E2 & E3 & E4 & E5). cbn in E. subst w'.
      destruct (task_upd_good g w R ts th tv tv' t Hr) as [Hg' Hk']; try done; [by left|]. exists g. split; [done|].
      split; [exists R, ts; split_and!; [done|by exists th|]|].
      * exists tv'. cbn. rewrite lookup_insert_eq. split; [done|congruence].
      * exists tv'. cbn. by rewrite lookup_insert_eq.
  - intros [] g' w' [Hp (v & Hv & Hk)]. unfold csafe. cbn. exists g'. split; [apply keeps_refl|]. split; [done|].
    intros Hnk. by destruct (Hnk v Hv).
Qed.

(** * Creating tasks *)

Lemma max_tasks_range : 0 < THREAD_MAX_TASK_SIZE < 2 ^ 30.
Proof. unfold THREAD_MAX_TASK_SIZE. lia. Qed.

Lemma cids_ok_alloc al T : cids_ok al T → ∀ Td, ∃ cid al', alloc_cid Td al = Ok (cid, al').
Proof.
  intros (live & Hinv & _) Td. destruct (alloc_cid_inv Td _ _ _ max_tasks_range Hinv)
    as (id & al' & Ha & _). eauto.
Qed.

(** The new task's id is taken by nobody else. *)
Lemma cids_ok_new Td al T cid al' u v :
  cids_ok al T → alloc_cid Td al = Ok (cid, al') → T !! u = None → t_cid v = cid →
  cids_ok al' (<[u := v]> T).
Proof.
  intros (live & Hinv & Hl) Ha Hu <-.
  destruct (alloc_cid_inv Td _ _ _ max_tasks_range Hinv)
    as (id & al1 & Ha' & Hc). rewrite Ha in Ha'. simplify_eq. unfold cids_ok.
  rewrite map_size_insert_None by done. destruct Hl as [Hl|(Hs & Hin & Hinj)].
  { destruct Hc as [(_ & _ & Hi)|(_ & _ & Hi)]; eexists; (split; [exact Hi|left; lia]). }
  destruct Hc as [(_ & Hfull & Hi)|(Hn & _ & Hi)]; eexists; (split; [exact Hi|]); [left; lia|right].
  split_and!.
  - rewrite size_union, size_singleton by set_solver. lia.
  - intros u' v' [[<- <-]|[_ Hv']]%lookup_insert_Some; [set_solver|]. apply Hin in Hv'. set_solver.
  - intros u1 v1 u2 v2 [[<- <-]|[_ H1]]%lookup_insert_Some [[<- <-]|[_ H2]]%lookup_insert_Some E; try done.
    + apply Hin in H2. rewrite <-E in H2. done.
    + apply Hin in H1. rewrite E in H1. done.
    + by eapply Hinj.
Qed.

(** Handing the descriptors [X] over to task [u]. *)
Definition give (u : ptr) (X : gset Z) (g : own) : own := gset_to_gmap (u, false) X ∪ g.

Lemma give_lookup u X g fd : give u X g !! fd = if decide (fd ∈ X) then Some (u, false) else g !! fd.
Proof.
  unfold give. rewrite lookup_union, lookup_gset_to_gmap. case_decide as H.
  - rewrite option_guard_True by done. by destruct (g !! fd).
  - rewrite option_guard_False by done. by destruct (g !! fd).
Qed.

Lemma give_armed u X g v fd : (∀ fd, fd ∈ X → owns g t fd) → (∀ fd, ¬ armed g t fd) → armed (give u X g) v fd ↔ armed g v fd.
Proof.
  intros HX Ha. unfold armed. rewrite give_lookup. case_decide as H; [|done]. split; [done|].
  intros E. pose proof (HX fd H) as Ho. unfold owns in Ho. rewrite E in Ho. injection Ho as ->. by destruct (Ha fd).
Qed.

Lemma give_owns u X g v fd : owns (give u X g) v fd ↔ (fd ∈ X ∧ v = u) ∨ ((fd ∉ X) ∧ owns g v fd).
Proof. unfold owns. rewrite give_lookup. case_decide; cbn; naive_solver. Qed.

(** What is left of the task's descriptors after it gave [X] away. *)
Record gave (X : gset Z) (g : own) (w : world) (g' : own) (w' : world) : Prop := {
  gv_own : ∀ fd, owns g' t fd ↔ owns g t fd ∧ (fd ∉ X);
  gv_entry : entry <$> w_tasks w' !! t = entry <$> w_tasks w !! t
}.

(** [co_create], by task [t] or, when that is NULL, outside the tasks. *)
Lemma create_good n ip op g w R ts :
  good w R ts NULL g → t = NULL ∨ is_Some (w_tasks w !! t) → (∀ fd, ¬ armed g t fd) →
  (∀ fd, fd ∈ su_needs P n ip op → owns g t fd) →
  wp (co_create (UserFunc n) ip op) (λ _ w', ∃ u v g', u ≠ t ∧ w_tasks w !! u = None ∧
    w_tasks w' = <[u := v]> (w_tasks w) ∧ keeps g w g' w' ∧
    good w' (enqueue_rings s u ts R) (u :: filter (λ x, x ≠ u) ts) NULL g' ∧ (∀ fd, ¬ armed g' t fd) ∧
    gave (su_needs P n ip op) g w g' w' ∧
    ∀ th, w_threads w !! w_self w = Some th →
      ∃ th', w_threads w' !! w_self w' = Some th' ∧ g_current th' = g_current th) w.
Proof.
  intros Hg Ht Har HX. set (X := su_needs P n ip op) in *.
  pose proof Hg as [Hrt Hsy Hci Hsp Hk Hio Hob]. pose proof Hrt as [Hnn (th & Hth & Hths) Hsch Htk Hq Hlv].
  unfold co_create. wp_step. eapply current_sched_ready; [done|by rewrite Hths|]. wp_step.
  eapply task_create_wp; [done..|intros Td; by eapply cids_ok_alloc, Hci|].
  intros u Td cid al th' Hun Hu Ha Hc' Hs' Hal _ Htk'.
  set (w1 := with_threads _ _) in *.
  assert (Hut : u ≠ t) by (intros ->; destruct Ht as [|[]]; congruence).
  assert (Hrt1 : rt w1 s R ts).
  { split; cbn; try done; [|].
    - exists th'. rewrite lookup_insert_eq. split; congruence.
    - intros u' Hu'. rewrite lookup_insert. case_decide; [by eauto|by apply Hlv]. }
  eapply (sched_rq_enqueue_wp w1); [done|cbn; by rewrite lookup_insert_eq|].
  intros sv l Hsv Hrt2 Hdom. set (w2 := enqueued _ _ _ _ _ _) in *.
  assert (HT : w_tasks w2 = <[u := enqueued_task (w_self w) (new_task (UserFunc n) ip op cid)]> (w_tasks w))
    by (cbn; by rewrite insert_insert_eq).
  assert (Hth2 : w_threads w2 !! w_self w2 = Some th') by (cbn; apply lookup_insert_eq).
  assert (Hsc : sched_fixed <$> w_scheds w2 !! s = sched_fixed <$> w_scheds w !! s) by (eapply (scheds_rq w); [exact Hsv|done]).
  assert (Hga : ∀ v fd, armed (give u X g) v fd ↔ armed g v fd) by (intros; by apply give_armed).
  exists u, (enqueued_task (w_self w) (new_task (UserFunc n) ip op cid)), (give u X g). split_and!; try done.
  - split; [done|rewrite HT, dom_insert_L; set_solver| |].
    + intros x Hx [v Hv]. assert (x ≠ u) by congruence. split.
      * intros fd. rewrite give_owns. split; [intros [[_ ?]|[_ ?]]; done|]. intros Ho. right. split; [|done].
        intros Hfd. specialize (HX fd Hfd). unfold owns in *. congruence.
      * intros fd. by rewrite Hga.
      * done.
      * by rewrite HT, lookup_insert_ne.
      * done.
    + intros x v Hx Hxn. rewrite HT, lookup_insert_Some. intros [[<- <-]|[_ Hv]]; [|congruence]. split.
      * intros fd. rewrite Hga. intros Har'. destruct (io_armed _ _ _ _ Hio _ _ Har') as (? & ? & _). congruence.
      * cbn. intros fd Hfd. apply give_owns. by left.
  - split; [exact Hrt2| | | | | |done].
    + apply (sync_ok_rings _ w2 R); [by eapply sync_ok_frame|]. intros h us Hh Hus.
      eexists. by apply enqueue_wait_lists.
    + intros th2. rewrite Hth2. intros [= <-]. rewrite Hal, HT. by eapply cids_ok_new; [apply Hci|..].
    + intros u' v' m. rewrite HT, lookup_insert_Some. intros [[<- <-]|[_ Hv']]; [done|by eapply Hsp].
    + intros u' v'. rewrite HT, lookup_insert_Some. intros [[<- <-]|[_ Hv']]; [done|by eapply Hk].
    + apply (io_ok_own _ w2 _ g); [|done|].
      * eapply (io_ok_new _ w w2 R _ g u); try done; [by apply fd_rings_enqueue; [| |right]|].
        cbn. rewrite Hdom. cbn. unfold list_init. rewrite dom_insert_L. set_solver.
      * intros fd. rewrite give_lookup. case_decide as Hfd; [|done]. intros _. specialize (HX fd Hfd).
        unfold owns in HX. destruct (g !! fd); by eauto.
  - intros fd. by rewrite Hga.
  - split; [intros fd; rewrite give_owns; naive_solver|by rewrite HT, lookup_insert_ne].
  - intros th0 Hth0. exists th'. split; congruence.
Qed.

Lemma csafe_create n ip op g w :
  RUN g w → (∀ fd, fd ∈ su_needs P n ip op → owns g t fd) →
  csafe (λ _ g' w', RUN g' w' ∧ gave (su_needs P n ip op) g w g' w') g w (act (co_create (UserFunc n) ip op)) w.
Proof.
  intros Hw HX. pose proof Hw as (R & ts & th & tv & [Hg Hth Hc Ht Hnf Hni Har Hn])%run_elim. apply csafe_act.
  apply (outcome_wp _ (λ _ w', ∃ g', keeps g w g' w' ∧ RUN g' w' ∧ gave (su_needs P n ip op) g w g' w')).
  eapply wp_mono; [eapply (create_good n ip op g w R ts); [done|right; by eauto|done|done]|].
  intros [] w' (u & v & g' & Hut & Hu & HT & Hk & Hg' & Ha' & Hgv & Hth'). exists g'. split_and!; [done| |done].
  split; [|done]. eexists _, _. split_and!; [exact Hg'| |exists tv; by rewrite HT, lookup_insert_ne|].
  - destruct (Hth' th Hth) as (th' & ? & ?). exists th'. split; congruence.
  - intros [[= E]|Hin]%in_rings_enqueue; [congruence|done|apply (gd_rt _ _ _ _ _ _ Hg)].
Qed.

(** * Mutexes *)

Lemma run_mutex g w R ts m : good w R ts NULL g → current t w → m ∈ su_mutexes P → ∃ o ws, mutex_at w R t m o ws.
Proof.
  intros [_ [Hm _ _] _ _ _ _] Hc (o & ws & Hmx & Hw)%Hm. exists o, ws. by split.
Qed.

(** The running task at the end of a wait list. *)
Lemma fd_rings_add_wait R h us :
  R !! h = Some (run_link <$> us) → lk h ≠ LWheelSlot → lk h ≠ LFdLink → lk h ≠ LRunLink →
  fd_rings t R (<[h := run_link <$> us ++ [t]]> R).
Proof.
  intros Hh ???. eapply (fd_rings_tasks _ R R _ us); try done.
  intros u. rewrite elem_of_app, list_elem_of_singleton. naive_solver.
Qed.

(** A mutex in another state, with the waiting tasks [ws]. *)
Lemma sync_ok_mutex w w' R R' m o ws :
  sync_ok w R → w_mutexes w' = <[m := Mutex o Raw.SPIN_RELESAED]> (w_mutexes w) → w_sems w' = w_sems w →
  R' !! mutex_wait m = Some (run_link <$> ws) →
  (∀ h us, h ≠ mutex_wait m → wait_head h → R !! h = Some (run_link <$> us) → R' !! h = Some (run_link <$> us)) →
  sync_ok w' R'.
Proof.
  intros [Hm Hc Hs] Em Es Hw HR. split.
  - intros m' (o' & ws' & Hm' & Hw')%Hm. rewrite Em. destruct (decide (m' = m)) as [->|Hne].
    + exists o, ws. by rewrite lookup_insert_eq.
    + exists o', ws'. rewrite lookup_insert_ne by done. split; [done|]. apply HR; [by intros [=]|done|done].
  - intros c (ws' & Hw')%Hc. exists ws'. by apply HR; [..|apply cond_wait_head|].
  - intros p (n & ws' & Hp & Hw')%Hs. exists n, ws'. rewrite Es. split; [done|]. by apply HR; [..|apply sem_wait_head|].
Qed.

Lemma sync_ok_owner w R m o o' ws :
  sync_ok w R → R !! mutex_wait m = Some (run_link <$> ws) →
  w_mutexes w !! m = Some (Mutex o Raw.SPIN_RELESAED) → sync_ok (with_mutex w m (Mutex o' Raw.SPIN_RELESAED)) R.
Proof. intros Hsy Hw Hm. by eapply sync_ok_mutex. Qed.

(** Taking a mutex that is free. *)
Lemma run_take g w R ts th tv m ws :
  running g w R ts th tv → mutex_at w R t m NULL ws →
  stepped false g w (with_mutex w m (Mutex t Raw.SPIN_RELESAED)).
Proof.
  intros Hr [_ Hm Hw]. pose proof (rn_good _ _ _ _ _ _ Hr) as Hg.
  eapply run_intro; [done|by apply wake_frame_same|by apply rt_mutexes, Hg| |reflexivity|by apply (rn_out _ _ _ _ _ _ Hr)].
  by eapply sync_ok_owner; [apply Hg|..].
Qed.

Lemma lock_turn_ok m : m ∈ su_mutexes P → turn_ok P t (lock_turn m).
Proof.
  intros Hin g w (R & ts & th & tv & Hr)%run_elim. pose proof Hr as [Hg Hth Hc Ht Hnf Hni Har Hn].
  assert (Hcur : current t w) by (by exists th).
  destruct (run_mutex _ _ _ _ _ Hg Hcur Hin) as (o & ws & Hma). pose proof Hma as [_ Hm Hw].
  apply (outcome_wp (lock_turn m) (λ r w', stepped (match r with Yielded => true | _ => false end) g w w')).
  unfold lock_turn, ATOMIC_LOCK, cas_lock, set_m_lock, co_self. wp_steps. cbn [m_lock].
  destruct (decide (o = MUTEX_UNLOCKED)) as [->|Ho].
  - wp_steps. cbn. wp_steps. rewrite Hc. by eapply run_take.
  - wp_steps. rewrite Hc. unfold task_wait_mutex, wait_spin_lock, wait_spin_unlock, co_mutex_locked, rd_owner,
      co_sync_yield, set_status, co_self.
    destruct (rt_add_wait w s R ts (mutex_wait m) ws t tv) as (l & Ha & Hrt' & Hdl); [apply Hg|done..|].
    wp_steps. cbn. rewrite bool_decide_eq_true_2 by done. cbn. wp_steps.
    eapply wp_upd_links; [exact Ha|]. wp_steps. rewrite Hc. wp_steps. cbn. wp_steps.
    eapply park_intro; [done|by eapply (wake_frame_task w _ t tv)| | |by apply fd_rings_add_wait].
    + eapply (rt_frame (with_tasks (with_links w l) (<[t := _]> (w_tasks w)))); [|reflexivity..].
      eapply (rt_task_upd (with_links w l)); [exact Hrt'|exact Ht|reflexivity].
    + eapply (sync_ok_mutex w _ R _ m o (ws ++ [t])); [apply Hg|cbn; by rewrite !insert_insert_eq|done| |].
      * by rewrite lookup_insert_eq.
      * intros h us Hne _ Hh. by rewrite lookup_insert_ne.
Qed.

Lemma co_mutex_lock_ok m : m ∈ su_mutexes P → turn_ok P t (co_mutex_lock m).
Proof.
  intros Hin g w Hw. pose proof Hw as (R & ts & th & tv & Hr)%run_elim. pose proof Hr as [Hg Hth Hc Ht Hnf Hni Har Hn].
  assert (Hcur : current t w) by (by exists th).
  destruct (run_mutex _ _ _ _ _ Hg Hcur Hin) as (o & ws & Hma).
  destruct (decide (o = t)) as [->|Ho].
  { erewrite co_mutex_lock_panics by done. by left. }
  assert (E : co_mutex_lock m w = lock_turn m w).
  { destruct Hma as [_ Hm _]. unfold co_mutex_lock, rd_owner, co_self, rd_mutex, rd_self, mbind, M_bind, lift.
    cbn. rewrite Hm. cbn. rewrite Hth. cbn. by rewrite Hc, decide_False. }
  rewrite E. by apply lock_turn_ok.
Qed.

Lemma safe_lock fuel m : m ∈ su_mutexes P → safe (mutex_lock fuel m).
Proof.
  intros Hin. unfold mutex_lock. apply safe_turn; [by apply co_mutex_lock_ok| |].
  - intros [] Hne; [apply safe_ret|done|by apply safe_turns, lock_turn_ok].
  - intros g w Hw. apply csafe_yield_then; [done|by apply safe_turns, lock_turn_ok].
Qed.

Lemma safe_try_lock m : m ∈ su_mutexes P → safe (act (co_mutex_try_lock m)).
Proof.
  intros Hin. apply safe_wp. intros g w Hw. pose proof Hw as (R & ts & th & tv & Hr)%run_elim. pose proof Hr as [Hg Hth Hc Ht Hnf Hni Har Hn].
  assert (Hcur : current t w) by (by exists th).
  destruct (run_mutex _ _ _ _ _ Hg Hcur Hin) as (o & ws & Hma). pose proof Hma as [_ Hm Hwl].
  unfold co_mutex_try_lock, rd_owner, ATOMIC_LOCK, cas_lock, set_m_lock, co_self. wp_steps. rewrite Hc. cbn [m_lock].
  destruct (decide (o = t)); [wp_steps; by apply stepped_refl|]. wp_steps. cbn [m_lock].
  destruct (decide (o = MUTEX_UNLOCKED)) as [->|Ho]; [|wp_steps; by apply stepped_refl].
  wp_steps. cbn. rewrite Hc. by eapply run_take.
Qed.

(** The running task is not on a list after others have been woken. *)
Lemma woken_not_in w R ts m o ws :
  rt w s R ts → mutex_at w R t m o ws → ¬ in_rings R (run_link t) →
  ¬ in_rings (woken_rings s ts ws R) (run_link t).
Proof.
  intros Hrt [_ _ Hw] Hni. destruct ws as [|x ws]; [done|]. cbn [woken_rings].
  destruct (waiter_live _ _ _ _ _ _ _ Hrt (mutex_wait_head m) Hw) as [_ Hx]. rewrite filter_ne_id by done.
  intros Hin. apply Hni. by eapply (proj1 (proj2 (moves_woken _ _ _ _ _ _ _ Hrt (mutex_wait_head m) Hw))).
Qed.

Lemma safe_unlock m : m ∈ su_mutexes P → safe (act (co_mutex_unlock m)).
Proof.
  intros Hin. apply safe_outcome. intros g w Hw. pose proof Hw as (R & ts & th & tv & Hr)%run_elim. pose proof Hr as [Hg Hth Hc Ht Hnf Hni Har Hn].
  assert (Hcur : current t w) by (by exists th). pose proof (gd_rt _ _ _ _ _ _ Hg) as Hrt.
  destruct (run_mutex _ _ _ _ _ Hg Hcur Hin) as (o & ws & Hma).
  destruct (decide (o = t)) as [->|Ho].
  2:{ erewrite co_mutex_unlock_panics by done. right. by left. }
  apply (outcome_wp (co_mutex_unlock m) (λ _ w', stepped false g w w')).
  eapply co_mutex_unlock_wp; [done..|]. intros w' Hrt' Hma' _ Hmx _ _ _ Hfr.
  pose proof (wf_sems _ _ Hfr) as Es.
  eapply run_intro; [done| |exact Hrt'| |by eapply woken_fd_rings; [|apply Hma]|by eapply woken_not_in].
  - destruct Hfr. by split.
  - eapply sync_ok_mutex; [apply Hg|done|done|apply Hma'|]. intros h us Hne Hh Hus.
    eapply woken_rings_other; [done|apply Hma|done..].
Qed.

(** * Conditions *)

Lemma cond_wait_begin_ok c m g w :
  c ∈ su_conds P → m ∈ su_mutexes P → RUN g w → outcome (co_cond_wait_begin c m w) (λ r, stepped true g w r.2).
Proof.
  intros Hcin Hin Hw. pose proof Hw as (R & ts & th & tv & Hr)%run_elim. pose proof Hr as [Hg Hth Hc Ht Hnf Hni Har Hn].
  assert (Hcur : current t w) by (by exists th). pose proof (gd_rt _ _ _ _ _ _ Hg) as Hrt.
  destruct (run_mutex _ _ _ _ _ Hg Hcur Hin) as (o & ws & Hma).
  destruct (so_cond _ _ _ (gd_sync _ _ _ _ _ _ Hg) c Hcin) as [cws Hcws].
  destruct (decide (o = t)) as [->|Ho].
  - apply (outcome_wp (co_cond_wait_begin c m) (λ _ w', stepped true g w w')).
    eapply co_cond_wait_begin_wp; [done..|]. intros w' R' tv' Hrt' Hc' Hma' _ _ _ Hoth Hmx Hfr Hfd.
    pose proof (wf_sems _ _ Hfr) as Es.
    eapply park_intro; [done|destruct Hfr; by split|done| |done].
    apply (sync_ok_rings _ w' (<[cond_wait_list c := run_link <$> cws]> R')).
    + eapply sync_ok_mutex; [apply Hg|done|done|rewrite lookup_insert_ne by done; apply Hma'|].
      intros h us Hne Hh Hus. destruct (decide (h = cond_wait_list c)) as [->|Hnc].
      * rewrite lookup_insert_eq. congruence.
      * rewrite lookup_insert_ne by done. by apply Hoth.
    + intros h us Hh. destruct (decide (h = cond_wait_list c)) as [->|Hnc]; [by eauto|].
      rewrite lookup_insert_ne by done. by eauto.
  - unfold co_cond_wait_begin. apply outcome_bind.
    assert (El : co_mutex_locked m w = Ok (bool_decide (o ≠ NULL), w)).
    { destruct Hma as [_ Hm _]. unfold co_mutex_locked, rd_owner, rd_mutex, mbind, M_bind, lift. cbn. by rewrite Hm. }
    rewrite El. cbn [outcome fst snd]. case_bool_decide; cbn [negb]; [|by do 2 right; left].
    destruct (rt_add_wait w s R ts (cond_wait_list c) cws t tv) as (l & Ha & _ & _); [done|apply cond_wait_head|done..|].
    assert (Ee : cond_enlist c w = Ok ((), with_links w l)).
    { unfold cond_enlist, co_self, rd_self, mbind, M_bind, lift, upd_links. cbn. rewrite Hth. cbn. by rewrite Hc, Ha. }
    apply outcome_bind. rewrite Ee. cbn [outcome fst snd]. apply outcome_bind.
    rewrite (co_mutex_unlock_panics (with_links w l) R t m o ws); [right; by left| |done].
    destruct Hma as [? ? ?]. by split.
Qed.

Lemma safe_wait fuel c m : c ∈ su_conds P → m ∈ su_mutexes P → safe (cond_wait fuel c m).
Proof.
  intros Hc Hm g w Hw. unfold cond_wait.
  apply (csafe_bind _ _ (λ _ g' w', PARK g' w' ∧ mine g w g' w')).
  - apply csafe_act. eapply outcome_mono; [by apply cond_wait_begin_ok|]. intros r (? & ? & ?). by exists g.
  - intros [] g' w' [Hw' Hm']. eapply csafe_mono; [by apply csafe_yield_then; [|apply safe_lock]|].
    cbn. intros a g2 w2 [? ?]. split; [done|by eapply mine_trans].
Qed.

Lemma signal_ok c all g w :
  c ∈ su_conds P → RUN g w → wp (_co_cond_signal_all c all) (λ _ w', stepped false g w w') w.
Proof.
  intros Hin Hw. pose proof Hw as (R & ts & th & tv & Hr)%run_elim. pose proof Hr as [Hg Hth Hc Ht Hnf Hni Har Hn].
  pose proof (gd_rt _ _ _ _ _ _ Hg) as Hrt.
  destruct (so_cond _ _ _ (gd_sync _ _ _ _ _ _ Hg) c Hin) as [ws Hws].
  eapply wp_mono; [by apply (signal_all_wp w s R ts c ws all)|].
  intros [] w' (R' & Hrt' & Hw' & _ & Hmx & _ & (Hmv1 & Hmv2 & Hmv3) & _ & _ & Hfr). pose proof (wf_sems _ _ Hfr) as Es.
  eapply run_intro; [done|destruct Hfr; by split|done| |apply Hmv3|].
  - eapply sync_ok_frame; [|done|done]. eapply sync_ok_rings; [apply Hg|]. intros h us Hh Hus.
    destruct (decide (h = cond_wait_list c)) as [->|]; [by eauto|]. exists us. by apply Hmv1.
  - intros Hi. by apply Hni, Hmv2.
Qed.

Lemma safe_signal c all : c ∈ su_conds P → safe (act (_co_cond_signal_all c all)).
Proof. intros Hin. apply safe_wp. intros g w Hw. by apply signal_ok. Qed.

(** * Semaphores *)

Lemma sync_ok_sem w w' R R' p n ws :
  sync_ok w R → w_mutexes w' = w_mutexes w → w_sems w' = <[p := Sem n Raw.SPIN_RELESAED]> (w_sems w) →
  R' !! sem_wait_list p = Some (run_link <$> ws) →
  (∀ h us, h ≠ sem_wait_list p → wait_head h → R !! h = Some (run_link <$> us) →
     ∃ us', R' !! h = Some (run_link <$> us')) →
  sync_ok w' R'.
Proof.
  intros [Hm Hc Hs] Em Es Hw HR. split.
  - intros m (o & ws' & Hm' & Hw')%Hm. rewrite Em. destruct (HR (mutex_wait m) ws'); [done..|]. eauto.
  - intros c (ws' & Hw')%Hc. by apply (HR (cond_wait_list c) ws'); [|apply cond_wait_head|].
  - intros p' (n' & ws' & Hp & Hw')%Hs. rewrite Es. destruct (decide (p' = p)) as [->|Hne].
    + exists n, ws. by rewrite lookup_insert_eq.
    + rewrite lookup_insert_ne by done. destruct (HR (sem_wait_list p') ws'); [by intros [=]|apply sem_wait_head|done|]. eauto.
Qed.

(** The count changes. *)
Lemma run_sem g w R ts th tv p n n' ws :
  running g w R ts th tv → w_sems w !! p = Some (Sem n Raw.SPIN_RELESAED) →
  R !! sem_wait_list p = Some (run_link <$> ws) →
  ∀ w', w' = with_sems w (<[p := Sem n' Raw.SPIN_RELESAED]> (w_sems w)) → stepped false g w w'.
Proof.
  intros Hr Hp Hw w' ->. pose proof (rn_good _ _ _ _ _ _ Hr) as Hg.
  eapply run_intro; [done|by apply wake_frame_same|by apply rt_sems, Hg| |reflexivity|by apply (rn_out _ _ _ _ _ _ Hr)].
  eapply sync_ok_sem; [apply Hg|done|done|done|]. by eauto.
Qed.

Lemma sem_wait_turn_ok p : p ∈ su_sems P → turn_ok P t (sem_wait_turn p).
Proof.
  intros Hin g w (R & ts & th & tv & Hr)%run_elim. pose proof Hr as [Hg Hth Hc Ht Hnf Hni Har Hn].
  assert (Hcur : current t w) by (by exists th).
  destruct (so_sem _ _ _ (gd_sync _ _ _ _ _ _ Hg) p Hin) as (n & ws & Hp & Hw).
  assert (Hpass : ∀ n' w', w' = with_sems w (<[p := Sem n' Raw.SPIN_RELESAED]> (w_sems w)) → stepped false g w w').
  { intros n'. by eapply run_sem. }
  apply (outcome_wp (sem_wait_turn p) (λ r w', stepped (match r with Yielded => true | _ => false end) g w w')).
  unfold sem_wait_turn, sem_atomic, sem_spin_lock, sem_spin_unlock, sem_get, co_sync_yield, set_status, co_self.
  wp_steps. cbn [sem_count]. destruct (atomic_dec_and_negative n) as [neg n']. cbn [fst snd].
  destruct neg; cbn [negb]; [|wp_steps; by eapply Hpass].
  wp_steps. cbn. case_decide.
  - wp_steps. eapply Hpass. cbn. by rewrite !insert_insert_eq.
  - destruct (rt_add_wait w s R ts (sem_wait_list p) ws t tv) as (l & Ha & Hrt' & Hdl); [apply Hg|apply sem_wait_head|done..|].
    wp_steps. rewrite Hc. eapply wp_upd_links; [exact Ha|]. wp_steps. rewrite Hc. wp_steps. cbn. wp_steps.
    eapply park_intro; [done|by eapply (wake_frame_task w _ t tv)| | |by apply fd_rings_add_wait].
    + eapply (rt_frame (with_tasks (with_links w l) (<[t := _]> (w_tasks w)))); [|reflexivity..].
      eapply (rt_task_upd (with_links w l)); [exact Hrt'|exact Ht|reflexivity].
    + eapply (sync_ok_sem w _ R _ p n' (ws ++ [t])); [apply Hg|done|cbn; by rewrite !insert_insert_eq| |].
      * by rewrite lookup_insert_eq.
      * intros h us Hne _ Hh. exists us. by rewrite lookup_insert_ne.
Qed.

Lemma safe_sem_wait fuel p : p ∈ su_sems P → safe (sem_wait fuel p).
Proof. intros Hin. by apply safe_turns, sem_wait_turn_ok. Qed.

Lemma safe_sem_try p : p ∈ su_sems P → safe (act (co_sem_try_wait p)).
Proof.
  intros Hin. apply safe_wp. intros g w (R & ts & th & tv & Hr)%run_elim. pose proof Hr as [Hg Hth Hc Ht Hnf Hni Har Hn].
  assert (Hcur : current t w) by (by exists th).
  destruct (so_sem _ _ _ (gd_sync _ _ _ _ _ _ Hg) p Hin) as (n & ws & Hp & Hw).
  assert (Hpass : ∀ n' w', w' = with_sems w (<[p := Sem n' Raw.SPIN_RELESAED]> (w_sems w)) → stepped false g w w').
  { intros n'. by eapply run_sem. }
  unfold co_sem_try_wait, sem_atomic, sem_spin_lock, sem_spin_unlock, sem_get.
  wp_steps. cbn [sem_count]. destruct (atomic_dec_and_negative n) as [neg n']. cbn [fst snd].
  destruct neg; cbn [negb]; [|wp_steps; by eapply Hpass].
  wp_steps. cbn. case_decide; wp_steps; eapply Hpass; cbn; by rewrite !insert_insert_eq.
Qed.

Lemma safe_sem_post p : p ∈ su_sems P → safe (act (co_sem_post p)).
Proof.
  intros Hin. apply safe_wp. intros g w (R & ts & th & tv & Hr)%run_elim. pose proof Hr as [Hg Hth Hc Ht Hnf Hni Har Hn].
  assert (Hcur : current t w) by (by exists th). pose proof (gd_rt _ _ _ _ _ _ Hg) as Hrt.
  destruct (so_sem _ _ _ (gd_sync _ _ _ _ _ _ Hg) p Hin) as (n & ws & Hp & Hw).
  assert (Hpass : ∀ n' w', w' = with_sems w (<[p := Sem n' Raw.SPIN_RELESAED]> (w_sems w)) → stepped false g w w').
  { intros n'. by eapply run_sem. }
  unfold co_sem_post, sem_atomic, sem_spin_lock, sem_spin_unlock, sem_get.
  wp_steps. cbn [sem_count]. destruct (atomic_inc_and_negative n) as [neg n']. cbn [fst snd].
  destruct neg; cbn [negb]; [|wp_steps; by eapply Hpass].
  wp_steps. cbn. case_decide; [wp_steps; eapply Hpass; cbn; by rewrite !insert_insert_eq|].
  wp_step. set (w1 := with_sems _ _).
  assert (Hrt1 : rt w1 s R ts) by (by eapply rt_frame). destruct ws as [|x ws].
  - eapply take_first_empty_wp; [exact Hrt1|exact Hw|]. wp_steps. rewrite decide_True by done.
    wp_steps. eapply Hpass. cbn. by rewrite !insert_insert_eq.
  - destruct (waiter_live _ _ _ _ _ _ _ Hrt1 (sem_wait_head p) Hw) as [[xv Hx] Hxts].
    eapply (take_first_wp w1 s R ts _ x ws); [exact Hrt1|apply sem_wait_head|exact Hw|exact Hx|].
    intros l Hrt2 Hws2 Hni2 Hdl. rewrite filter_ne_id in Hrt2 by done. wp_steps. cbn.
    destruct (rt_tasks _ _ _ _ _ _ Hrt1 Hx) as (Hxn & _). rewrite decide_False by done.
    eapply (sched_rq_enqueue_wp _ s (ring_remove (run_link x) R) ts); [|exact Hx|].
    { eapply (rt_frame (with_links w1 l)); [exact Hrt2|reflexivity..]. }
    intros sv l3 Hsv Hrt3 Hdl3.
    assert (Hxt : x ≠ t).
    { intros ->. apply Hni. exists (sem_wait_list p), (run_link <$> t :: ws). split; [done|]. set_solver. }
    eapply run_intro; [done| |exact Hrt3| | |].
    + eapply (wake_frame_task w _ x xv); try done; [cbn in *; congruence|by eapply (scheds_rq w)].
    + eapply (sync_ok_sem w _ R _ p n'); [apply Hg|done|cbn; by rewrite !insert_insert_eq| |].
      * by apply (enqueue_wait_lists x ts _ (sem_wait_list p)); [apply sem_wait_head|].
      * intros h us _ Hh Hus. eexists. apply enqueue_wait_lists; [done|].
        rewrite ring_remove_lookup, Hus. cbn. by rewrite filter_run_link.
    + eapply fd_rings_enqueue; [apply fd_rings_remove|apply Hrt2|]. left. exists (sem_wait_list p), (run_link <$> x :: ws).
      split; [done|]. set_solver.
    + intros [[= E]|Hi%in_rings_remove]%in_rings_enqueue; [congruence|done|apply Hrt2].
Qed.

(** * The function every task starts in *)

Lemma csafe_task_func body g w :
  RUN g w →
  csafe (λ _ g' w', RUN g' w') g (hooked_world 1 w) body (hooked_world 1 w) →
  csafe (λ _ _ _, False) g w (_task_func body) w.
Proof.
  intros Hw Hb. unfold _task_func.
  eapply csafe_bind; [by apply (csafe_hook true)|]. intros [] g1 w1 (Hw1 & -> & ->).
  eapply csafe_bind; [exact Hb|]. intros [] g2 w2 Hw2.
  apply (csafe_bind _ _ (λ u g w, u = t ∧ RUN g w)).
  - pose proof Hw2 as (R & ts & th & tv & Hr)%run_elim. destruct Hr as [Hg Hth Hc Ht Hnf Hni Har Hn].
    apply csafe_act. eapply outcome_mono; [eapply (outcome_wp co_self (λ u w', u = t ∧ w' = w2))|].
    + unfold co_self. by wp_steps.
    + intros r [E1 E2]. exists g2. rewrite E1, E2. split; [apply keeps_refl|done].
  - intros u g3 w3 [-> Hw3]. pose proof Hw3 as (R & ts & th & tv & Hr)%run_elim. destruct Hr as [_ _ _ _ _ _ _ Hn].
    rewrite decide_False by done.
    assert (Hy : csafe (λ _ _ _, False) g3 w3 (do! act task_exit in do! yield in cret ()) w3) by by apply csafe_exit.
    revert Hy. unfold csafe, cbind, act, yield. destruct (task_exit w3) as [[[] w4]| | |]; cbn; try done.
Qed.

End rules.
