(* ===== verification/IoSafety.v ===== *)
(** Which calls on descriptors a task can make safely: the hooked calls on the
    descriptors it owns, opening and closing them, and waiting for them.  Each
    lemma is one rule for [csafe] of Runtime.v. *)

From Stdlib Require Import ZArith Lia.
From stdpp Require Import base numbers strings sets gmap list.
From S2P Require Import Prelude IntrusiveList Links Array Heap Cid SpinLock TimeWheel HashMap World Coroutine InnerFd.
From S2P Require Import Task Sched Event Schedule Mutex Cond Sem Blocking Hook Helper Descriptors Runtime TaskSafety.
Open Scope Z_scope.

(** * System calls *)

Section calls.
Context `{Sk : Sockets} {Fv : FdView}.

(** Only the kernel and [errno] have changed. *)
Record sys_step (w w' : world) : Prop := {
  ss_self : w_self w' = w_self w;
  ss_links : w_links w' = w_links w;
  ss_tasks : w_tasks w' = w_tasks w;
  ss_scheds : w_scheds w' = w_scheds w;
  ss_epolls : w_epolls w' = w_epolls w;
  ss_ifds : w_ifds w' = w_ifds w;
  ss_fdtab : w_fdtab w' = w_fdtab w;
  ss_mutexes : w_mutexes w' = w_mutexes w;
  ss_sems : w_sems w' = w_sems w;
  ss_objs : w_objs w' = w_objs w;
  ss_thread : ∀ th, w_threads w !! w_self w = Some th → ∃ th', w_threads w' !! w_self w = Some th' ∧
    g_current th' = g_current th ∧ g_sched th' = g_sched th ∧ g_cids th' = g_cids th
}.

#[global] Instance sys_step_preorder : PreOrder sys_step.
Proof.
  split; [intros w; split; try done; by eauto|].
  intros w1 w2 w3 [A1 B1 C1 D1 E1 F1 G1 H1 I1 K1 J1] [A2 B2 C2 D2 E2 F2 G2 H2 I2 K2 J2]. split; try congruence.
  intros th Hth. destruct (J1 th Hth) as (th2 & Hth2 & ? & ? & ?). rewrite <-A1 in Hth2.
  destruct (J2 th2 Hth2) as (th3 & Hth3 & ? & ? & ?). exists th3. rewrite A1 in Hth3. split_and!; congruence.
Qed.

(** ... and the kernel has nothing new. *)
Definition calm_step (w w' : world) : Prop := sys_step w w' ∧ calm (w_kernel w) (w_kernel w').

#[global] Instance calm_step_preorder : PreOrder calm_step.
Proof.
  split; [intros w; split; reflexivity|]. intros w1 w2 w3 [? ?] [? ?]. split; by etrans.
Qed.

Lemma sys_step_errno w th e :
  w_threads w !! w_self w = Some th →
  sys_step w (with_threads w (<[w_self w := Thread (g_current th) (g_sched th) (g_cids th) (g_task_alive th) e
                                (g_cached_tid th)]> (w_threads w))).
Proof.
  intros Hth. split; try done. intros th0 Hth0. rewrite Hth in Hth0. injection Hth0 as <-.
  eexists. cbn. by rewrite lookup_insert_eq.
Qed.

Lemma set_errno_calm w th e Q :
  w_threads w !! w_self w = Some th → (∀ w', calm_step w w' → Q () w') → wp (set_errno e) Q w.
Proof.
  intros Hth HQ. unfold set_errno. eapply wp_upd_self; [done|]. apply HQ. split; [by apply sys_step_errno|done].
Qed.

Lemma syscall_step call w th Q :
  w_threads w !! w_self w = Some th →
  (∀ r e k w', call (w_kernel w) = ((r, e), k) → sys_step w w' → w_kernel w' = k → Q r w') → wp (syscall call) Q w.
Proof.
  intros Hth HQ. eapply wp_syscall; [done|]. intros r e k Hk. eapply HQ; [done| |done].
  case_decide.
  - split; try done. intros th0 Hth0. rewrite Hth in Hth0. injection Hth0 as <-. eexists. cbn. by rewrite lookup_insert_eq.
  - split; try done. by eauto.
Qed.

Lemma syscall_calm call w th Q :
  w_threads w !! w_self w = Some th → quiet call →
  (∀ w', calm_step w w' → Q (call (w_kernel w)).1.1 w') → wp (syscall call) Q w.
Proof.
  intros Hth Hq HQ. eapply syscall_step; [done|]. intros r e k w' Hk Hs Ek.
  specialize (Hq (w_kernel w)). rewrite Hk in Hq. specialize (HQ w'). rewrite Hk in HQ. apply HQ.
  split; [done|]. by rewrite Ek.
Qed.

Lemma in_syscall_calm cast call w th Q :
  w_threads w !! w_self w = Some th → quiet call → (∀ r w', calm_step w w' → Q r w') → wp (in_syscall cast call) Q w.
Proof.
  intros Hth Hq HQ. unfold in_syscall. wp_steps. specialize (Hq (w_kernel w)).
  destruct (call (w_kernel w)) as [[[r bs] e] k] eqn:Hk. cbn in Hq. wp_steps.
  assert (Hs : calm_step w (with_kernel w k)) by (split; [split; try done; by eauto|done]). case_decide.
  - eapply (set_errno_calm (with_kernel w k)); [done|]. intros w' Hs'. apply wp_ret, HQ. by etrans.
  - wp_steps. by apply HQ.
Qed.

End calls.

#[export] Hint Resolve ss_self : cask.

Section io.
Context `{Sk : Sockets} {Fv : FdView} {D : Descriptors}.
Context (P : setup) (t : ptr).

Local Notation s := (su_sched P).
Local Notation ep := (su_epoll P).
Local Notation good := (good P).
Local Notation io_ok := (io_ok P).
Local Notation RUN := (RUN P t).
Local Notation ACT := (ACT P t).
Local Notation PARKW := (PARKW P t).
Local Notation keeps := (keeps P t).
Local Notation mine := (mine P t).
Local Notation stepped := (stepped P t).
Local Notation safe := (safe P t).
Local Notation csafe := (csafe P t).
Local Notation running := (running P t).

(** * What keeps the descriptors in order *)

Lemma io_ok_sys w w' R g e tw :
  io_ok w R g → wheel_at P w e tw → sys_step w w' → opened (w_kernel w) ⊆ opened (w_kernel w') →
  (∀ fd, fd ∈ interest (ep_fd e) (w_kernel w') → fd ∈ interest (ep_fd e) (w_kernel w) ∨
     ∃ p v, w_fdtab w !! fd = Some p ∧ w_ifds w !! p = Some v ∧ armed g (i_task v) fd) → io_ok w' R g.
Proof.
  intros [(e' & tw' & Hw' & Hsl & Hint) Htb Hif Hhd Hlk Har Hop Hno Hac] Hw
    [Es El Et Ec Ee Ei Ef _ _ _ _] Ho Hi.
  assert (e' = e ∧ tw' = tw) as [-> ->].
  { destruct Hw as (_ & He & Htw & _), Hw' as (_ & He' & Htw' & _). split; congruence. }
  split; rewrite ?Et, ?Ei, ?Ef, ?El; try done.
  - exists e, tw. split_and!; [|done|].
    + destruct Hw as ((sv & ? & ?) & ? & ?). split; [by exists sv; rewrite Ec|by rewrite Ee].
    + intros fd [?|?]%Hi; [by apply Hint|done].
  - intros fd Hfd. by apply Ho, Hop.
Qed.

Lemma io_ok_calm w w' R g : io_ok w R g → calm_step w w' → io_ok w' R g.
Proof.
  intros Hio [Hs [Ho Hi]]. destruct (io_wheel _ _ _ _ Hio) as (e & tw & Hw & _). eapply io_ok_sys; [done..| |].
  - by rewrite Ho.
  - intros fd Hfd. left. by eapply Hi.
Qed.

Lemma good_sys w w' R ts k g g' : good w R ts k g → sys_step w w' → io_ok w' R g' → good w' R ts k g'.
Proof.
  intros [Hrt Hsy Hc Hsp Hk _ Hob] [Es El Et Ec Ee Ei Ef Em Ep Eo Hth] Hio.
  pose proof Hrt as [Hnn (th & Hth0 & Hs) Hsch Htk Hq Hlv]. destruct (Hth th Hth0) as (th' & Hth' & E1 & E2 & E3).
  split; [|by eapply sync_ok_frame| |by rewrite Et|by rewrite Et|done|by rewrite Eo].
  - split; rewrite ?Es, ?Ec, ?Ee, ?Et; try done.
    + exists th'. split; [done|congruence].
    + destruct Htk. split; by rewrite ?El, ?Et, ?Es.
  - intros th2. rewrite Es, Hth'. intros [= <-]. rewrite E3, Et. by apply Hc.
Qed.

Lemma good_calm w w' R ts k g : good w R ts k g → calm_step w w' → good w' R ts k g.
Proof. intros Hg [Hs Hc]. eapply good_sys; [done..|]. by eapply io_ok_calm; [apply Hg|split]. Qed.

(** The ghost may change for descriptors of the running task only. *)
Definition only_mine (g g' : own) : Prop := ∀ fd u b, u ≠ t → g' !! fd = Some (u, b) ↔ g !! fd = Some (u, b).

Lemma only_mine_owns g g' u fd : only_mine g g' → u ≠ t → owns g' u fd ↔ owns g u fd.
Proof.
  intros Ho Hu. unfold owns. split.
  - destruct (g' !! fd) as [[u' b]|] eqn:E; [|done]. intros [= ->]. apply Ho in E; [|done]. by rewrite E.
  - destruct (g !! fd) as [[u' b]|] eqn:E; [|done]. intros [= ->]. apply Ho in E; [|done]. by rewrite E.
Qed.

Lemma keeps_io g g' w w' :
  w_self w' = w_self w → w_tasks w' = w_tasks w → w_scheds w' = w_scheds w → only_mine g g' →
  (∀ fd u, u ≠ t → owns g u fd → w_fdtab w' !! fd = w_fdtab w !! fd) → keeps g w g' w'.
Proof.
  intros Es Et Ec Ho Hf. split; [done|by rewrite Et| |intros; congruence]. intros u Hu _. split.
  - intros fd. by apply only_mine_owns.
  - intros fd. by apply Ho.
  - intros fd ?. by eapply Hf.
  - by rewrite Et.
  - by rewrite Ec.
Qed.

Lemma calm_rely u g w w' : calm_step w w' → rely P u g w g w'.
Proof. intros [[]  _]. split; try done; intros; congruence. Qed.

Lemma calm_keeps g w w' : calm_step w w' → keeps g w g w'.
Proof. intros [[] _]. apply keeps_io; try done. intros. congruence. Qed.

Lemma calm_alive w w' : calm_step w w' → alive t w → alive t w'.
Proof. intros [[_ _ E _ _ _ _ _ _ _ _] _]. unfold alive. by rewrite E. Qed.

Lemma calm_current w w' : calm_step w w' → current t w → current t w'.
Proof.
  intros [[Es _ _ _ _ _ _ _ _ _ Hth] _] (th & H & Hc). destruct (Hth th H) as (th' & ? & ? & _).
  exists th'. rewrite Es. split; congruence.
Qed.

Lemma run_calm g w w' : RUN g w → calm_step w w' → stepped false g w w'.
Proof.
  intros [(R & ts & Hg & Hc & Hal & Hni) Ha] Hs. split_and!; [by apply calm_keeps| |by apply rely_mine, calm_rely].
  split; [|done]. exists R, ts. split_and!; [by eapply good_calm|by eapply calm_current|by eapply calm_alive|done].
Qed.

(** A part of a call that only talks to the kernel. *)
Lemma safe_calm {A} (c : M A) : (∀ g w, RUN g w → wp c (λ _, calm_step w) w) → safe (act c).
Proof.
  intros Hc. apply safe_wp. intros g w Hw. eapply wp_mono; [by eapply Hc|]. intros a w' Hs. by apply run_calm.
Qed.

(** ** Arming and disarming *)

(** A field of an object changes; its task may when nobody waits for it. *)
Lemma io_ok_ifd w R g p v v' :
  io_ok w R g → w_ifds w !! p = Some v → i_fd v' = i_fd v →
  (i_task v' = i_task v ∨ ∀ u, ¬ armed g u (i_fd v)) → io_ok (with_ifds w (<[p := v']> (w_ifds w))) R g.
Proof.
  intros [(e & tw & Hw & Hsl & Hint) Htb Hif Hhd Hlk Har Hop Hno Hac] Hv Ef Ht.
  assert (Hupd : ∀ q x, w_ifds w !! q = Some x → armed g (i_task x) (i_fd x) →
    ∃ x', <[p := v']> (w_ifds w) !! q = Some x' ∧ armed g (i_task x') (i_fd x') ∧ i_fd x' = i_fd x).
  { intros q x Hx Ha. destruct (decide (q = p)) as [->|]; [|exists x; by rewrite lookup_insert_ne].
    rewrite Hv in Hx. injection Hx as <-. exists v'. rewrite lookup_insert_eq, Ef. split_and!; try done.
    destruct Ht as [->|Hn]; [done|]. by destruct (Hn (i_task v)). }
  split; cbn; try done.
  - exists e, tw. split_and!; [done|done|]. intros fd (q & x & Hq & Hx & Ha)%Hint.
    destruct (Htb _ _ Hq) as (_ & _ & _ & x0 & Hx0 & E). rewrite Hx in Hx0. injection Hx0 as <-. subst fd.
    destruct (Hupd q x Hx Ha) as (x' & ? & ? & E'). exists q, x'. split_and!; [done..|congruence].
  - intros fd q Hq. destruct (Htb _ _ Hq) as (? & ? & ? & x & Hx & E). split_and!; [by lia..|done|done|].
    destruct (decide (q = p)) as [->|]; [|exists x; by rewrite lookup_insert_ne].
    exists v'. rewrite lookup_insert_eq. split; [done|congruence].
  - intros q x. rewrite lookup_insert_Some. intros [[<- <-]|[_ Hx]]; [|by apply Hif]. rewrite Ef. by apply Hif.
  - intros q (x & Hx & Ha)%Hlk. destruct (Hupd q x Hx Ha) as (x' & ? & ? & _). by exists x'.
Qed.

Lemma good_ifd w R ts k g p v v' :
  good w R ts k g → w_ifds w !! p = Some v → i_fd v' = i_fd v →
  (i_task v' = i_task v ∨ ∀ u, ¬ armed g u (i_fd v)) → good (with_ifds w (<[p := v']> (w_ifds w))) R ts k g.
Proof.
  intros Hg Hv Ef Ht. pose proof (io_ok_ifd _ _ _ _ _ _ (gd_io _ _ _ _ _ _ Hg) Hv Ef Ht) as Hio.
  destruct Hg as [Hrt Hsy Hc Hsp Hk _ Hob]. split; try done; [by eapply rt_frame|by eapply sync_ok_frame].
Qed.

(** The owner of a descriptor starts to wait for it; it has stopped. *)
Lemma io_ok_arm w R g fd b v :
  io_ok w R g → g !! fd = Some (t, b) → w_tasks w !! t = Some v → t_status v ≠ KILLED → t_func v ≠ NoFunc →
  io_ok w R (<[fd := (t, true)]> g).
Proof.
  intros [(e & tw & Hw & Hsl & Hint) Htb Hif Hhd Hlk Har Hop Hno Hac] Hg Hv Hk Hf.
  assert (Ha : ∀ u fd', armed g u fd' → armed (<[fd := (t, true)]> g) u fd').
  { intros u fd' Ha. unfold armed in *. destruct (decide (fd' = fd)) as [->|]; [|by rewrite lookup_insert_ne].
    rewrite lookup_insert_eq. congruence. }
  split; try done.
  - exists e, tw. split_and!; [done|done|]. intros fd' (q & x & ? & ? & ?)%Hint. exists q, x. by auto.
  - intros q (x & ? & ?)%Hlk. exists x. by auto.
  - intros fd' u. unfold armed. rewrite lookup_insert_Some. intros [[_ [= <-]]|[_ ?]]; [by exists v|by eapply Har].
  - intros fd' [?|Hs]; [by apply Hop; left|]. apply Hop. right. destruct (decide (fd' = fd)) as [->|]; [by eauto|].
    by rewrite lookup_insert_ne in Hs.
Qed.

Lemma io_ok_disarm w R g fd b p e tw :
  io_ok w R g → g !! fd = Some (t, b) → wheel_at P w e tw → fd ∉ interest (ep_fd e) (w_kernel w) →
  w_fdtab w !! fd = Some p → ¬ in_rings R (ifd_link p) → io_ok w R (<[fd := (t, false)]> g).
Proof.
  intros [(e' & tw' & Hw' & Hsl & Hint) Htb Hif Hhd Hlk Har Hop Hno Hac] Hg Hw Hni Hp Hr.
  assert (e' = e) as ->. { destruct Hw as (_ & He & _), Hw' as (_ & He' & _). congruence. }
  assert (Ha : ∀ u fd', fd' ≠ fd → armed g u fd' → armed (<[fd := (t, false)]> g) u fd').
  { intros u fd' Hne Ha. unfold armed in *. by rewrite lookup_insert_ne. }
  split; try done.
  - exists e, tw'. split_and!; [done|done|]. intros fd' Hi. destruct (Hint fd' Hi) as (q & x & ? & ? & ?).
    exists q, x. split_and!; try done. apply Ha; [|done]. by intros ->.
  - intros q Hq. destruct (Hlk q Hq) as (x & Hx & ?). exists x. split; [done|]. apply Ha; [|done].
    intros E. apply Hif in Hx. rewrite E, Hp in Hx. injection Hx as ->. done.
  - intros fd' u. unfold armed. rewrite lookup_insert_Some. intros [[_ [=]]|[_ ?]]. by eapply Har.
  - intros fd' [?|Hs]; [by apply Hop; left|]. apply Hop. right. destruct (decide (fd' = fd)) as [->|]; [by eauto|].
    by rewrite lookup_insert_ne in Hs.
Qed.

Lemma only_mine_insert g fd b b' : g !! fd = Some (t, b) → only_mine g (<[fd := (t, b')]> g).
Proof.
  intros Hg fd' u x Hu. destruct (decide (fd' = fd)) as [->|]; [|by rewrite lookup_insert_ne].
  rewrite lookup_insert_eq, Hg. naive_solver.
Qed.

Lemma owns_insert g fd b b' fd' : g !! fd = Some (t, b) → owns (<[fd := (t, b')]> g) t fd' ↔ owns g t fd'.
Proof.
  intros Hg. unfold owns. destruct (decide (fd' = fd)) as [->|]; [|by rewrite lookup_insert_ne].
  by rewrite lookup_insert_eq, Hg.
Qed.

(** The lists of the wheel: an object enters a slot, or leaves the one it is in. *)
Lemma sync_ok_fd w R R' :
  sync_ok P w R →
  (∀ h us, lk h ≠ LWheelSlot → R !! h = Some (run_link <$> us) → R' !! h = Some (run_link <$> us)) → sync_ok P w R'.
Proof.
  intros [Hm Hc Hs] HR. split.
  - intros m (o & ws & ? & Hw)%Hm. exists o, ws. split; [done|]. by apply HR.
  - intros c (ws & Hw)%Hc. exists ws. by apply HR.
  - intros p (n & ws & ? & Hw)%Hs. exists n, ws. split; [done|]. by apply HR.
Qed.

Lemma filter_ifd_run p (us : list Z) : filter (λ x, x ≠ ifd_link p) (run_link <$> us) = run_link <$> us.
Proof. apply filter_ne_id. intros (? & [=] & _)%list_elem_of_fmap. Qed.

Lemma filter_ifd_link p (il : list Z) :
  filter (λ x, x ≠ ifd_link p) (ifd_link <$> il) = ifd_link <$> filter (λ x, x ≠ p) il.
Proof.
  induction il as [|x il IH]; [done|]. rewrite fmap_cons, !filter_cons. destruct (decide (x ≠ p)) as [H|H].
  - rewrite decide_True by (intros [=]; done). by rewrite IH.
  - rewrite decide_False; [done|]. intros H'. apply H. by intros ->.
Qed.

Lemma good_unlink w R ts k g p l :
  good w R ts k g → lrep l (ring_remove (ifd_link p) R) → dom l = dom (w_links w) →
  good (with_links w l) (ring_remove (ifd_link p) R) ts k g.
Proof.
  intros [Hrt Hsy Hc Hsp Hk Hio Hob] Hl Hd. split; try done.
  - by apply rt_remove_ifd.
  - apply (sync_ok_fd _ R); [by eapply sync_ok_frame|]. intros h us _ Hus. rewrite ring_remove_lookup, Hus. cbn.
    by rewrite filter_ifd_run.
  - destruct Hio as [(e & tw & Hw & Hsl & Hint) Htb Hif Hhd Hlk Har Hop Hno Hac]. split; try done.
    + exists e, tw. split_and!; [done| |done]. intros i (il & Hi)%Hsl. exists (filter (λ x, x ≠ p) il).
      rewrite ring_remove_lookup, Hi. cbn. by rewrite filter_ifd_link.
    + intros fd q Hq. destruct (Htb _ _ Hq) as (? & ? & Hlv & ?). split_and!; [by lia..|done| |done].
      cbn. apply elem_of_dom. rewrite Hd. by apply elem_of_dom.
    + intros q. by rewrite ring_remove_lookup, Hhd.
    + intros q Hq%in_rings_remove. by apply Hlk.
    + intros u v Hv Hf Hr%in_rings_remove. by eapply Hno.
Qed.

Lemma good_link w R ts k g p v h il l :
  good w R ts k g → lk h = LWheelSlot → R !! h = Some (ifd_link <$> il) → w_ifds w !! p = Some v →
  armed g (i_task v) (i_fd v) → lrep l (armed_rings h p (ifd_link <$> il) R) → dom l = dom (w_links w) →
  good (with_links w l) (armed_rings h p (ifd_link <$> il) R) ts k g.
Proof.
  intros [Hrt Hsy Hc Hsp Hk Hio Hob] Hh Hil Hv Ha Hl Hd. unfold armed_rings.
  assert (Hin : ∀ c, in_rings (armed_rings h p (ifd_link <$> il) R) c → c = ifd_link p ∨ in_rings R c).
  { intros c (h' & ys & Hy & Hcy). unfold armed_rings in Hy. apply lookup_insert_Some in Hy as [[<- <-]|[_ Hy]].
    - apply elem_of_cons in Hcy as [->|[->|[_ Hcy]%list_elem_of_filter]%elem_of_cons]; [|by left|].
      + right. exists h, (ifd_link <$> il). split; [done|by left].
      + right. exists h, (ifd_link <$> il). split; [done|by right].
    - right. apply (in_rings_remove (ifd_link p)). by exists h', ys. }
  split; try done.
  - by apply rt_arm.
  - apply (sync_ok_fd _ R); [by eapply sync_ok_frame|]. intros h' us Hk' Hus. rewrite lookup_insert_ne by (by intros ->).
    rewrite ring_remove_lookup, Hus. cbn. by rewrite filter_ifd_run.
  - destruct Hio as [(e & tw & Hw & Hsl & Hint) Htb Hif Hhd Hlk Har Hop Hno Hac]. split; try done.
    + exists e, tw. split_and!; [done| |done]. intros i (il' & Hi)%Hsl. destruct (decide (slot tw i = h)) as [->|Hne].
      * exists (p :: filter (λ x, x ≠ p) il). by rewrite lookup_insert_eq, filter_ifd_link.
      * exists (filter (λ x, x ≠ p) il'). rewrite lookup_insert_ne by done. rewrite ring_remove_lookup, Hi. cbn.
        by rewrite filter_ifd_link.
    + intros fd q Hq. destruct (Htb _ _ Hq) as (? & ? & Hlv & ?). split_and!; [by lia..|done| |done].
      cbn. apply elem_of_dom. rewrite Hd. by apply elem_of_dom.
    + intros q. rewrite lookup_insert_ne by (by intros ->). by rewrite ring_remove_lookup, Hhd.
    + intros q [[= ->]|Hq]%Hin; [by exists v|by apply Hlk].
    + intros u x Hx Hf [[=]|Hr]%Hin. by eapply Hno.
Qed.

(** ** epoll *)

(** The kernel's list of descriptors grows at most by [fd]. *)
Definition adds_only (epfd fd : Z) (k k' : kstate) : Prop :=
  opened k' = opened k ∧ interest epfd k' ⊆ {[fd]} ∪ interest epfd k.

Lemma cntl_events_step op fd ev w e th Q :
  ep ≠ NULL → 0 ≤ fd < MAX_FD_NUM → w_epolls w !! ep = Some e → w_threads w !! w_self w = Some th →
  (∀ r w', sys_step w w' → adds_only (ep_fd e) fd (w_kernel w) (w_kernel w') →
     (op = EPOLL_CTL_DEL → fd ∉ interest (ep_fd e) (w_kernel w')) → Q r w') → wp (cntl_events ep op fd ev) Q w.
Proof.
  intros Hep Hfd He Hth HQ. unfold cntl_events. rewrite decide_False by done.
  rewrite is_fd_valid_spec, bool_decide_eq_true_2 by done. cbn [negb]. wp_steps.
  eapply syscall_step; [done|]. intros r er k w' Hk Hs Ek.
  assert (E : k = (sys_epoll_ctl (ep_fd e) op fd ev (w_kernel w)).2) by (by rewrite Hk).
  apply HQ; [done| |]; rewrite Ek, E.
  - split; [apply epoll_ctl_opened|apply epoll_ctl_adds].
  - intros ->. apply epoll_ctl_removes.
Qed.

Lemma sys_thread w w' th :
  sys_step w w' → w_threads w !! w_self w = Some th →
  ∃ th', w_threads w' !! w_self w' = Some th' ∧ g_current th' = g_current th ∧ g_sched th' = g_sched th.
Proof. intros [Es _ _ _ _ _ _ _ _ _ Hth] H. destruct (Hth th H) as (th' & ? & ? & ? & _). exists th'. by rewrite Es. Qed.

Lemma add_events_step fd ev w e th Q :
  ep ≠ NULL → 0 ≤ fd < MAX_FD_NUM → w_epolls w !! ep = Some e → w_threads w !! w_self w = Some th →
  (∀ r w', sys_step w w' → adds_only (ep_fd e) fd (w_kernel w) (w_kernel w') → Q r w') → wp (add_events ep fd ev) Q w.
Proof.
  intros Hep Hfd He Hth HQ. unfold add_events, rd_errno. wp_step.
  eapply cntl_events_step; [done..|]. intros r w1 Hs1 Ha1 _. destruct (sys_thread _ _ _ Hs1 Hth) as (th1 & Hth1 & _).
  wp_steps. case_decide; [|wp_steps; by apply HQ].
  eapply cntl_events_step; [done|done|by rewrite (ss_epolls _ _ Hs1)|done|]. intros r2 w2 Hs2 [Ho2 Hi2] _.
  destruct Ha1 as [Ho1 Hi1]. apply HQ; [by etrans|]. split; [congruence|set_solver].
Qed.

Lemma delete_events_step fd ev w e th Q :
  ep ≠ NULL → 0 ≤ fd < MAX_FD_NUM → w_epolls w !! ep = Some e → w_threads w !! w_self w = Some th →
  (∀ r w', sys_step w w' → opened (w_kernel w') = opened (w_kernel w) →
     interest (ep_fd e) (w_kernel w') ⊆ interest (ep_fd e) (w_kernel w) ∖ {[fd]} → Q r w') →
  wp (delete_events ep fd ev) Q w.
Proof.
  intros Hep Hfd He Hth HQ. unfold delete_events, rd_errno. wp_step.
  eapply cntl_events_step; [done..|]. intros r w1 Hs1 [Ho1 Hi1] Hd1. destruct (sys_thread _ _ _ Hs1 Hth) as (th1 & Hth1 & _).
  wp_steps. apply HQ; [done|done|]. specialize (Hd1 eq_refl). set_solver.
Qed.

(** What a running task knows of a descriptor of its own that is registered. *)
Record registered (g : own) (w : world) (fd : Z) (p : ptr) : Prop := {
  rg_own : owns g t fd;
  rg_tab : w_fdtab w !! fd = Some p
}.

Lemma good_epoll w R ts k g :
  good w R ts k g → ∃ e tw, wheel_at P w e tw ∧ ep ≠ NULL.
Proof.
  intros [Hrt _ _ _ _ Hio]. destruct (io_wheel _ _ _ _ Hio) as (e & tw & Hw & _). exists e, tw. split; [done|].
  destruct Hw as ((sv & Hsv & <-) & _). destruct (rt_sched _ _ _ _ Hrt) as (sv' & Hsv' & _ & Hne & _). congruence.
Qed.

Lemma own_unarmed g fd : owns g t fd → (∀ fd, ¬ armed g t fd) → g !! fd = Some (t, false).
Proof.
  unfold owns. intros Ho Ha. destruct (g !! fd) as [[u b]|] eqn:E; [|done]. cbn in Ho. injection Ho as ->.
  destruct b; [|done]. by destruct (Ha fd).
Qed.

(** [event_poll] before the switch. *)
Lemma event_poll_begin_ok fd p ev g w :
  RUN g w → registered g w fd p →
  wp (event_poll_begin ep fd ev) (λ r w', w_fdtab w' = w_fdtab w ∧
    match r with
    | Some z => z = -1 ∧ stepped false g w w'
    | None => PARKW (<[fd := (t, true)]> g) w' ∧ keeps g w (<[fd := (t, true)]> g) w' ∧
        mine g w (<[fd := (t, true)]> g) w'
    end) w.
Proof.
  intros Hw [Ho Htab]. pose proof Hw as (R & ts & th & tv & Hr)%run_elim. pose proof Hr as [Hg Hth Hc Ht Hnf Hni Har Hn].
  pose proof (own_unarmed _ _ Ho Har) as Hfd. pose proof (run_not_killed _ _ _ _ _ Hw Ht) as Hnk.
  destruct (io_tab _ _ _ _ (gd_io _ _ _ _ _ _ Hg) _ _ Htab) as (Hrange & Hpn & Hlv & v & Hv & Ev).
  assert (Hna : ∀ u, ¬ armed g u fd) by (intros u; unfold armed; rewrite Hfd; naive_solver).
  unfold event_poll_begin, set_i_error, set_i_task, co_self. wp_step.
  apply wp_get_inner_fd; [done|]. rewrite Htab. cbn [default]. rewrite decide_False by done. wp_steps. rewrite Hc.
  cbn. rewrite insert_insert_eq. set (v1 := InnerFd (i_fd v) _ _ t _ IENONE). set (w1 := with_ifds _ (<[p := v1]> _)).
  assert (Hg1 : good w1 R ts NULL g) by (eapply (good_ifd w); [done|done|done|right; by rewrite Ev]).
  assert (Hv1 : w_ifds w1 !! p = Some v1) by (cbn; by rewrite lookup_insert_eq).
  destruct (good_epoll _ _ _ _ _ Hg1) as (e & tw & Hwh & Hep). pose proof Hwh as (_ & He & Htw & Hok & _).
  eapply (add_events_step fd ev w1); [done..|]. intros r w2 Hs2 [Ho2 Hi2].
  destruct (sys_thread _ _ _ Hs2 Hth) as (th2 & Hth2 & Hc2 & _).
  wp_steps. case_decide as Hrz.
  - (* the kernel refuses *)
    wp_step. eapply delete_events_step; [done|done|by rewrite (ss_epolls _ _ Hs2)|done|].
    intros r3 w3 Hs3 Ho3 Hi3. wp_steps.
    assert (Hs13 : sys_step w1 w3) by (by etrans).
    assert (Hio3 : io_ok w3 R g).
    { eapply (io_ok_sys w1); [apply Hg1|done|done|by rewrite Ho3, Ho2|]. intros fd' Hf. left. set_solver. }
    pose proof (good_sys _ _ _ _ _ _ _ Hg1 Hs13 Hio3) as Hg3.
    destruct Hs13 as [E1 E2 E3 E4 E5 E6 E7 E8 E9 Eo E10]. split; [done|]. split; [done|]. split_and!.
    + apply keeps_io; try done. intros. by rewrite E7.
    + split; [|done]. exists R, ts. destruct (E10 th Hth) as (th3 & ? & ? & _). split_and!; [done| | |done].
      * exists th3. rewrite E1. split; [done|]. congruence.
      * exists tv. by rewrite E3.
    + split; [done|by rewrite E3|by rewrite E4].
  - (* it is registered *)
    wp_step. eapply wp_rd_epoll; [by rewrite (ss_epolls _ _ Hs2)|]. wp_step.
    eapply wp_rd_ifd; [by rewrite (ss_ifds _ _ Hs2)|]. rewrite Htw. cbn [i_timeout].
    set (g' := <[fd := (t, true)]> g).
    assert (Hio2 : io_ok w2 R g').
    { eapply (io_ok_sys w1); [eapply (io_ok_arm w1); [apply Hg1|done..]|done|done|by rewrite Ho2|].
      intros fd' Hf. apply Hi2 in Hf. rewrite elem_of_union, elem_of_singleton in Hf. destruct Hf as [->|?]; [right|by left].
      exists p, v1. split_and!; [done|done|]. unfold armed, g'. cbn. by rewrite lookup_insert_eq. }
    pose proof (good_sys _ _ _ _ _ _ _ Hg1 Hs2 Hio2) as Hg2.
    pose proof Hs2 as [E1 E2 E3 E4 E5 E6 E7 E8 E9 Eo E10].
    wp_step. eapply (wp_mono _ (λ _ w', ∃ R' l, w' = with_links w2 l ∧ dom l = dom (w_links w2) ∧ good w' R' ts NULL g')).
    { destruct (decide (s32 (i_timeout v) < 0)) as [Hneg|Hpos].
      - eapply wp_upd_links; [unfold wheel_update_element; by rewrite decide_True|].
        exists R, (w_links w2). split_and!; [done|done|]. by destruct w2.
      - assert (HT : 0 ≤ s32 (i_timeout v) ≤ INT_MAX) by (pose proof (s32_range (i_timeout v)); unfold INT_MAX; lia).
        destruct (io_wheel _ _ _ _ Hio2) as (e2 & tw2 & Hwh2 & Hsl & _).
        assert (tw2 = tw) as ->.
        { destruct Hwh2 as (_ & He2 & Htw2 & _). rewrite E5 in He2. congruence. }
        destruct (wheel_index_ok tw (s32 (i_timeout v)) Hok HT) as [_ Hix]. destruct (Hsl _ Hix) as [il Hil].
        destruct (wheel_update_lrep tw (w_links w2) R p (s32 (i_timeout v)) (ifd_link <$> il)) as (l & Hu & HR' & Hdom);
          [done|done|apply Hg2|apply Hio2|by rewrite E2|done|].
        eapply wp_upd_links; [exact Hu|]. exists (armed_rings (slot tw (wheel_index tw (s32 (i_timeout v)))) p (ifd_link <$> il) R), l.
        split; [done|]. split; [done|].
        eapply good_link; [done|done|done|by rewrite E6|unfold armed, g'; cbn; by rewrite Ev, lookup_insert_eq|done|done]. }
    assert (Ht2 : w_tasks w2 !! t = Some tv) by (by rewrite E3).
    intros [] w3 (R' & l & -> & Hdl & Hg3). unfold set_status. wp_steps. cbn.
    split; [done|]. set (w4 := with_tasks _ _). split_and!.
    + exists R', ts. split_and!.
      * eapply (good_wake _ (with_links w2 l) _ R' ts R' ts t g' t); [|by eapply (wake_frame_task (with_links w2 l) _ t tv)| | |reflexivity|].
        -- destruct Hg3 as [? ? ? ? Hk ? ?]. split; try done. intros u x Hx Hku. exfalso.
           pose proof (Hk u x Hx Hku) as ->. eapply (rt_tasks _ _ _ _ NULL x); done.
        -- eapply (rt_task_upd (with_links w2 l)); [apply Hg3|done..].
        -- eapply (sync_ok_frame _ (with_links w2 l)); [apply Hg3|done..].
        -- cbn. intros x Hx. congruence.
      * destruct (E10 th Hth) as (th3 & ? & ? & _). exists th3. cbn. rewrite E1. split; [done|congruence].
      * eexists. cbn. rewrite lookup_insert_eq. by split.
    + eapply (keeps_trans _ _ _ w g' w2).
      * apply keeps_io; try done; [by eapply only_mine_insert|]. intros. by rewrite E7.
      * eapply (wake_keeps _ _ _ w2). by eapply (wake_frame_task w2 _ t tv).
    + split; cbn.
      * intros fd'. by eapply owns_insert.
      * rewrite lookup_insert_eq, Ht. done.
      * by rewrite E4.
Qed.

(** [event_poll] after the switch. *)
Lemma event_poll_end_ok fd p g w :
  ACT g w → registered g w fd p → (∀ fd', armed g t fd' → fd' = fd) →
  wp (event_poll_end ep p) (λ r w', (r = 0 ∨ r = -1) ∧ w_fdtab w' = w_fdtab w ∧ ∃ g', keeps g w g' w' ∧ RUN g' w' ∧ mine g w g' w') w.
Proof.
  intros (R & ts & Hg & (th & Hth & Hc) & (tv & Ht & Hf) & Hni) [Ho Htab] Har.
  destruct (io_tab _ _ _ _ (gd_io _ _ _ _ _ _ Hg) _ _ Htab) as (Hrange & Hpn & Hlv & v & Hv & Ev).
  assert (Hfd : ∃ b, g !! fd = Some (t, b)).
  { unfold owns in Ho. destruct (g !! fd) as [[u b]|]; [|done]. cbn in Ho. injection Ho as ->. by exists b. }
  destruct Hfd as [b Hfd]. destruct (good_epoll _ _ _ _ _ Hg) as (e & tw & Hwh & Hep). pose proof Hwh as (_ & He & _).
  destruct (lrep_delete _ _ _ (rt_links _ _ _ _ (gd_rt _ _ _ _ _ _ Hg)) (io_heads _ _ _ _ (gd_io _ _ _ _ _ _ Hg) p) Hlv)
    as (l & Hd & HR & Hdom & Hnil).
  pose proof (good_unlink _ _ _ _ _ _ _ Hg HR Hdom) as Hg1. set (R1 := ring_remove (ifd_link p) R) in *.
  set (g' := <[fd := (t, false)]> g). unfold event_poll_end, wheel_delete_element.
  wp_step. eapply wp_upd_links; [exact Hd|]. wp_steps. rewrite Ev.
  eapply delete_events_step; [done..|]. intros r w2 Hs2 Ho2 Hi2.
  assert (Hio2 : io_ok w2 R1 g').
  { eapply (io_ok_disarm w2 R1 g fd b p e tw); [|done| | | |done].
    - eapply (io_ok_sys (with_links w l)); [apply Hg1|exact Hwh|done|by rewrite Ho2|]. intros fd' Hf'. left. set_solver.
    - destruct Hwh as ((sv & ? & ?) & ?). split; [exists sv; by rewrite (ss_scheds _ _ Hs2)|by rewrite (ss_epolls _ _ Hs2)].
    - set_solver.
    - by rewrite (ss_fdtab _ _ Hs2). }
  pose proof (good_sys _ _ _ _ _ _ _ Hg1 Hs2 Hio2) as Hg2.
  assert (Hend : ∀ r w', (r = 0 ∨ r = -1) → calm_step w2 w' → (λ (r : Z) w', (r = 0 ∨ r = -1) ∧ w_fdtab w' = w_fdtab w ∧
    ∃ g', keeps g w g' w' ∧ RUN g' w' ∧ mine g w g' w') r w').
  { intros z w' Hz [Hs3 Hc3]. assert (Hs : sys_step (with_links w l) w') by (by etrans).
    pose proof (good_calm _ _ _ _ _ _ Hg2 (conj Hs3 Hc3)) as Hg3. destruct Hs as [E1 E2 E3 E4 E5 E6 E7 E8 E9 Eo E10]. cbn in *.
    split; [done|]. split; [done|]. exists g'. split_and!.
    - apply keeps_io; try done; [by eapply only_mine_insert|]. intros. by rewrite E7.
    - split; [exists R1, ts; split_and!|].
      + done.
      + destruct (E10 th Hth) as (th' & ? & ? & _). exists th'. rewrite E1. split; [done|congruence].
      + exists tv. by rewrite E3.
      + intros ?%in_rings_remove. done.
      + intros fd'. unfold armed, g'. rewrite lookup_insert_Some. intros [[_ [=]]|[Hne Ha]]. by apply Hne, eq_sym, Har.
    - split; [intros fd'; by eapply owns_insert|by rewrite E3|by rewrite E4]. }
  destruct (sys_thread (with_links w l) w2 th Hs2 Hth) as (th2 & Hth2 & _).
  case_decide; [apply wp_ret; by apply Hend; [right|]|]. wp_step. eapply wp_rd_ifd; [by rewrite (ss_ifds _ _ Hs2)|].
  destruct (has (i_error v) IETIMEOUT), (has (i_error v) IEERR), (has (i_error v) IEHUP); try (apply wp_ret; by apply Hend; [left|]);
    wp_step; (eapply set_errno_calm; [done|]); intros w3 Hs3; apply wp_ret; by apply Hend; [right|].
Qed.

Lemma csafe_event_poll fd p ev g w :
  RUN g w → registered g w fd p →
  csafe (λ r g' w', (r = 0 ∨ r = -1) ∧ RUN g' w' ∧ mine g w g' w' ∧ registered g' w' fd p) g w (event_poll ep fd ev) w.
Proof.
  intros Hw Hreg. pose proof Hw as (R & ts & th & tv & Hr)%run_elim. pose proof Hr as [Hg Hth Hc Ht Hnf Hni Har Hn].
  pose proof Hreg as [Ho Htab]. destruct (io_tab _ _ _ _ (gd_io _ _ _ _ _ _ Hg) _ _ Htab) as (Hrange & _).
  unfold event_poll. eapply (csafe_bind _ _ (λ i g' w', i = p ∧ g' = g ∧ w' = w)).
  { apply csafe_act. eapply outcome_mono; [eapply (outcome_wp _ (λ i w', i = p ∧ w' = w))|].
    - apply wp_get_inner_fd; [done|]. by rewrite Htab.
    - intros r [E1 E2]. exists g. rewrite E1, E2. split; [apply keeps_refl|done]. }
  intros i g0 w0 (-> & -> & ->).
  eapply (csafe_bind _ _ (λ r g' w', w_fdtab w' = w_fdtab w ∧ mine g w g' w' ∧
    match r with Some z => z = -1 ∧ RUN g' w' | None => PARKW g' w' ∧ g' = <[fd := (t, true)]> g end)).
  { apply csafe_act. eapply outcome_mono; [by eapply (outcome_wp _ _ w), (event_poll_begin_ok fd p ev g w)|].
    intros [[z|] w'] [Hf Hx]; cbn in *.
    - destruct Hx as (? & ? & ? & ?). by exists g.
    - destruct Hx as (? & ? & ?). eexists. split; [done|]. by split_and!. }
  intros [z|] g1 w1 (Hf1 & Hm1 & Hx).
  - destruct Hx as [-> Hx]. apply csafe_ret. split_and!; [by right|done|done|]. split; [by apply Hm1|congruence].
  - destruct Hx as [Hp ->]. unfold csafe, cbind, yield. cbn. eexists. split; [apply keeps_refl|]. split; [done|].
    intros _ g2 w2 Ha2 Hre. pose proof Hre as [O2 A2 T2 E2 _].
    assert (Hreg2 : registered g2 w2 fd p).
    { split; [apply O2, Hm1, Ho|]. rewrite T2 by (apply Hm1, Ho). congruence. }
    assert (Har2 : ∀ fd', armed g2 t fd' → fd' = fd).
    { intros fd' Ha'%A2. unfold armed in Ha'. apply lookup_insert_Some in Ha' as [[<- _]|[_ Ha']]; [done|].
      by destruct (Har fd'). }
    destruct (event_poll_end_ok fd p g2 w2 Ha2 Hreg2 Har2) as (r & w3 & Hrun & Hrv & Hf3 & g3 & Hk3 & Hr3 & Hm3).
    unfold act. rewrite Hrun. cbn. exists g3. split; [done|]. split_and!; [done|done| |].
    + eapply mine_trans; [exact Hm1|]. eapply mine_trans; [by apply rely_mine|done].
    + destruct Hreg2 as [Ho2 Ht2]. split; [by apply Hm3|congruence].
Qed.

End io.
