(* ===== verification/WakeSafety.v ===== *)
(** What wakes the tasks that wait for descriptors keeps the runtime in order:
    [event_wait], which the scheduler calls, and the tick of the timer wheel, which
    [_timeout_task] makes. *)

From Stdlib Require Import ZArith Lia.
From stdpp Require Import base numbers strings sets gmap list.
From S2P Require Import Prelude IntrusiveList Links Array Heap Cid SpinLock TimeWheel HashMap World Coroutine InnerFd.
From S2P Require Import Task Sched Event Schedule Mutex Cond Sem Blocking Hook Helper Descriptors Runtime TaskSafety IoSafety.
Open Scope Z_scope.

(** [c] ends well or in a panic of the library's own. *)
Definition swp {K : Kernel} {A} (c : M A) (Q : A → world → Prop) (w : world) : Prop :=
  outcome (c w) (λ r, Q r.1 r.2).

Section swp.
Context {K : Kernel}.

Lemma swp_bind {A B} (c : M A) (k : A → M B) Q w : swp c (λ a, swp (k a) Q) w → swp (c ≫= k) Q w.
Proof. apply outcome_bind. Qed.

Lemma swp_wp {A} (c : M A) Q w : wp c Q w → swp c Q w.
Proof. apply outcome_wp. Qed.

Lemma swp_mono {A} (c : M A) (P Q : A → world → Prop) w : swp c P w → (∀ a w, P a w → Q a w) → swp c Q w.
Proof. intros Hc HPQ. eapply outcome_mono; [exact Hc|]. intros r. apply HPQ. Qed.

(** What waking leaves alone. *)
Record woke (w w' : world) : Prop := {
  wk_self : w_self w' = w_self w;
  wk_thread : ∀ th, w_threads w !! w_self w = Some th →
    ∃ th', w_threads w' !! w_self w = Some th' ∧ g_current th' = g_current th;
  wk_fdtab : w_fdtab w' = w_fdtab w;
  wk_entry : ∀ u, entry <$> w_tasks w' !! u = entry <$> w_tasks w !! u;
  wk_scheds : ∀ s, sched_fixed <$> w_scheds w' !! s = sched_fixed <$> w_scheds w !! s;
  wk_ifds : ∀ p, (λ v, (i_fd v, i_task v)) <$> w_ifds w' !! p = (λ v, (i_fd v, i_task v)) <$> w_ifds w !! p
}.

#[global] Instance woke_preorder : PreOrder woke.
Proof.
  split; [intros w; split; by eauto|].
  intros w1 w2 w3 [A1 B1 C1 D1 E1 F1] [A2 B2 C2 D2 E2 F2]. split; try congruence.
  intros th Hth. destruct (B1 th Hth) as (th2 & Hth2 & ?). rewrite <-A1 in Hth2.
  destruct (B2 th2 Hth2) as (th3 & Hth3 & ?). exists th3. rewrite A1 in Hth3. split; [done|congruence].
Qed.

Lemma woke_wake w w' : wake_frame w (with_sems w' (w_sems w)) → woke w w'.
Proof.
  intros [Es Et _ _ (E1 & E2 & _) Esc _ Hen _]. cbn in *. split; try done; [|by rewrite E2].
  intros th. rewrite Et. by eauto.
Qed.

Lemma woke_ifd w p v v' :
  w_ifds w !! p = Some v → i_fd v' = i_fd v → i_task v' = i_task v → woke w (with_ifds w (<[p := v']> (w_ifds w))).
Proof.
  intros Hv E1 E2. split; cbn; try done; [by eauto|]. intros q. destruct (decide (q = p)) as [->|].
  - rewrite lookup_insert_eq, Hv. cbn. by rewrite E1, E2.
  - by rewrite lookup_insert_ne.
Qed.

Lemma woke_links w l : woke w (with_links w l).
Proof. split; by eauto. Qed.

Lemma woke_epolls w x : woke w (with_epolls w x).
Proof. split; by eauto. Qed.

End swp.

Section wake.
Context `{Sk : Sockets} {Fv : FdView} {D : Descriptors}.
Context (P : setup).

Local Notation s := (su_sched P).
Local Notation ep := (su_epoll P).
Local Notation good := (good P).

Lemma woke_sys w w' : sys_step w w' → woke w w'.
Proof.
  intros [E1 E2 E3 E4 E5 E6 E7 E8 E9 Eo E10]. split; rewrite ?E3, ?E4, ?E6; try done.
  intros th Hth. destruct (E10 th Hth) as (th' & ? & ? & _). by exists th'.
Qed.

Lemma woke_rely u g w w' : woke w w' → rely P u g w g w'.
Proof. intros [E1 E2 E3 E4 E5 E6]. split; try done. intros fd _. by rewrite E3. Qed.

Lemma woke_keeps t g w w' : woke w w' → keeps P t g w g w'.
Proof.
  intros Hw. pose proof Hw as [E1 E2 E3 E4 E5 E6]. split; [done| |intros; by apply woke_rely|].
  - intros u [v Hv]%elem_of_dom. destruct (entry_func _ _ _ _ (E4 u) Hv) as (v' & ? & _). by apply elem_of_dom.
  - intros u v' _ Hn Hv'. destruct (entry_func _ _ _ _ (eq_sym (E4 u)) Hv') as (v & ? & _). congruence.
Qed.

Lemma woke_current t w w' : woke w w' → current t w → current t w'.
Proof.
  intros [E1 E2 _ _ _ _] (th & Hth & Hc). destruct (E2 th Hth) as (th' & ? & ?). exists th'. rewrite E1. split; congruence.
Qed.

Lemma woke_alive t w w' : woke w w' → alive t w → alive t w'.
Proof.
  intros [_ _ _ E4 _ _] (v & Hv & Hf). destruct (entry_func _ _ _ _ (E4 t) Hv) as (v' & ? & _ & ?).
  exists v'. split; congruence.
Qed.

(** A task with a function enters the run queue. *)
Lemma enqueue_good w R ts k g u v :
  good w R ts k g → w_tasks w !! u = Some v → t_func v ≠ NoFunc →
  wp (sched_rq_enqueue u) (λ _ w', good w' (enqueue_rings s u ts R) (u :: filter (λ x, x ≠ u) ts) k g ∧
    wake_frame w (with_sems w' (w_sems w)) ∧ w_ifds w' = w_ifds w ∧ w_epolls w' = w_epolls w) w.
Proof.
  intros Hg Hv Hf. pose proof (gd_rt _ _ _ _ _ _ Hg) as Hrt.
  eapply sched_rq_enqueue_wp; [done..|]. intros sv l Hsv Hrt' Hdom.
  set (w' := enqueued _ _ _ _ _ _) in *.
  assert (Hfr : wake_frame w (with_sems w' (w_sems w))) by (by apply wake_frame_enqueued).
  split_and!; [|done|done|done].
  eapply (good_wake _ _ _ _ _ _ _ _ _ u); [done|done|done| | |].
  - eapply sync_ok_rings; [by eapply sync_ok_frame; [apply Hg|..]|]. intros h us Hh Hus. eexists. by apply enqueue_wait_lists.
  - eapply fd_rings_enqueue; [reflexivity|apply Hrt|by right].
  - intros x Hx. congruence.
Qed.

(** The owner of a descriptor is woken. *)
Lemma resume_owner w R ts k g u fd :
  good w R ts k g → armed g u fd →
  wp (co_resume u) (λ _ w', good w' (enqueue_rings s u ts R) (u :: filter (λ x, x ≠ u) ts) k g ∧ woke w w' ∧
    w_ifds w' = w_ifds w ∧ w_epolls w' = w_epolls w) w.
Proof.
  intros Hg Ha. destruct (io_armed _ _ _ _ (gd_io _ _ _ _ _ _ Hg) fd u Ha) as (v & Hv & _ & Hf).
  eapply wp_mono; [by eapply enqueue_good|]. intros [] w' (? & ? & ? & ?). split_and!; [done|by apply woke_wake|done|done].
Qed.

(** * event_wait *)

(** A descriptor that wakes its owner. *)
Definition wakes (g : own) (w : world) (fd : Z) : Prop :=
  ∃ p v, w_fdtab w !! fd = Some p ∧ w_ifds w !! p = Some v ∧ armed g (i_task v) fd.

Lemma woke_wakes g w w' fd : woke w w' → wakes g w fd → wakes g w' fd.
Proof.
  intros [_ _ E3 _ _ E6] (p & v & Hp & Hv & Ha). specialize (E6 p). rewrite Hv in E6.
  destruct (w_ifds w' !! p) as [v'|] eqn:Hv'; [|done]. injection E6 as _ Et. exists p, v'.
  rewrite E3, Et. done.
Qed.

Lemma wake_fd_ok w R ts k g ev :
  good w R ts k g → wakes g w ev.1 →
  wp (wake_fd ep ev) (λ _ w', ∃ R' ts', good w' R' ts' k g ∧ woke w w') w.
Proof.
  intros Hg (p & v & Hp & Hv & Ha). destruct ev as [fd ev]. cbn [fst snd] in *.
  destruct (io_tab _ _ _ _ (gd_io _ _ _ _ _ _ Hg) _ _ Hp) as (Hr & Hn & _ & v' & Hv' & Ev).
  rewrite Hv in Hv'. injection Hv' as <-.
  unfold wake_fd, set_i_error. wp_step. apply wp_get_inner_fd; [done|]. cbn [fst snd]. rewrite Hp. cbn [default]. wp_steps. cbn.
  set (v1 := InnerFd _ _ _ _ _ _). set (w1 := with_ifds _ _). rewrite Ev.
  assert (Hg1 : good w1 R ts k g) by (eapply good_ifd; [done..|by left]).
  assert (Hw1 : woke w w1) by (by eapply woke_ifd).
  destruct (good_epoll _ _ _ _ _ _ Hg1) as (e & tw & Hwh & Hep). pose proof Hwh as (_ & He & _).
  destruct (rt_self _ _ _ _ (gd_rt _ _ _ _ _ _ Hg1)) as (th & Hth & _).
  eapply delete_events_step; [done..|]. intros r w2 Hs2 Ho2 Hi2.
  assert (Hio2 : io_ok P w2 R g).
  { eapply (io_ok_sys _ w1); [apply Hg1|exact Hwh|done|by rewrite Ho2|]. intros fd' Hf'. left. set_solver. }
  pose proof (good_sys _ _ _ _ _ _ _ _ Hg1 Hs2 Hio2) as Hg2.
  wp_step. eapply wp_rd_ifd; [rewrite (ss_ifds _ _ Hs2); cbn; by rewrite lookup_insert_eq|]. cbn [i_task v1].
  assert (Hsw : woke w w2) by (etrans; [exact Hw1|by apply woke_sys]).
  case_decide; [apply wp_ret; by exists R, ts|].
  eapply wp_mono; [by eapply resume_owner|]. intros [] w3 (? & ? & _). eexists _, _. split; [done|by etrans].
Qed.

Lemma wake_fds_ok w R ts k g evs :
  good w R ts k g → (∀ ev, ev ∈ evs → wakes g w ev.1) →
  wp (wake_fds ep evs) (λ _ w', ∃ R' ts', good w' R' ts' k g ∧ woke w w') w.
Proof.
  revert w R ts. induction evs as [|ev evs IH]; intros w R ts Hg Hev; cbn [wake_fds].
  { wp_steps. by exists R, ts. }
  wp_step. eapply wp_mono; [eapply wake_fd_ok; [done|by apply Hev; left]|]. intros [] w1 (R1 & ts1 & Hg1 & Hw1).
  eapply wp_mono; [eapply (IH w1); [done|]|].
  - intros ev' Hin. eapply woke_wakes; [done|]. apply Hev. by right.
  - intros [] w2 (R2 & ts2 & Hg2 & Hw2). exists R2, ts2. split; [done|by etrans].
Qed.

(** [event_wait] wakes owners of descriptors, or ends the process. *)
Lemma event_wait_good w R ts k g :
  good w R ts k g → swp (event_wait ep) (λ _ w', ∃ R' ts', good w' R' ts' k g ∧ woke w w') w.
Proof.
  intros Hg. destruct (io_wheel _ _ _ _ (gd_io _ _ _ _ _ _ Hg)) as (e & tw & Hwh & _ & Hint).
  destruct (good_epoll _ _ _ _ _ _ Hg) as (_ & _ & _ & Hep). pose proof Hwh as (_ & He & _).
  unfold event_wait. rewrite decide_False by done. apply swp_bind, swp_wp. eapply wp_rd_epoll; [done|].
  apply swp_bind, swp_wp. apply wp_get.
  destruct (sys_epoll_wait (ep_fd e) (ep_maxevents e) (ep_timeout e) (w_kernel w)) as [r k'] eqn:Hk.
  apply swp_bind, swp_wp. apply wp_put_kernel.
  assert (Hs : calm_step w (with_kernel w k')).
  { split; [split; try done; by eauto|]. pose proof (epoll_wait_calm (ep_fd e) (ep_maxevents e) (ep_timeout e) (w_kernel w)) as Hq.
    by rewrite Hk in Hq. }
  pose proof (good_calm _ _ _ _ _ _ _ Hg Hs) as Hg1. destruct (rt_self _ _ _ _ (gd_rt _ _ _ _ _ _ Hg)) as (th & Hth & _).
  destruct r as [err|evs].
  - apply swp_bind, swp_wp. unfold set_errno. eapply wp_upd_self; [done|]. by do 3 right; left.
  - apply swp_bind, swp_wp. eapply wp_mono; [eapply (wake_fds_ok (with_kernel w k')); [done|]|].
    + intros ev Hev. apply Hint. eapply epoll_wait_reports; [by rewrite Hk|done].
    + intros [] w2 (R2 & ts2 & Hg2 & Hw2). apply swp_wp, wp_ret. exists R2, ts2. split; [done|].
      etrans; [apply woke_sys, Hs|done].
Qed.

(** * The tick of the timer *)

(** No task in [us] is on a list that was not before. *)
Lemma in_rings_enqueue_ne R ts u t :
  R !! run_list s = Some (run_link <$> ts) → u ≠ t → in_rings (enqueue_rings s u ts R) (run_link t) → in_rings R (run_link t).
Proof. intros Hq Hne [[= ->]|?]%(in_rings_enqueue P); [done|done|done]. Qed.

(** The expired slot: everybody in it is woken; nobody is [t], who runs. *)
Lemma expire_loop_ok t fuel w R ts k g h il :
  good w R ts k g → (∀ fd, ¬ armed g t fd) → ¬ in_rings R (run_link t) → lk h = LWheelSlot →
  R !! h = Some (ifd_link <$> il) → (length il ≤ fuel)%nat →
  wp (expire_loop fuel (first_or h (ifd_link <$> il))) (λ _ w', ∃ R' ts',
    good w' R' ts' k g ∧ woke w w' ∧ ¬ in_rings R' (run_link t)) w.
Proof.
  revert w R ts il. induction fuel as [|fuel IH]; intros w R ts [|i il] Hg Ha Hni Hk Hh Hlen; try (cbn in Hlen; lia);
    pose proof (gd_rt _ _ _ _ _ _ Hg) as Hrt; destruct (rt_links _ _ _ _ Hrt) as [[HR _] _]; pose proof (HR _ _ Hh) as Hring.
  1,2: cbn [expire_loop fmap list_fmap first_or head]; wp_step; (eapply wp_rd_links; [by apply (ring_list_empty _ _ [])|]);
       rewrite bool_decide_eq_true_2 by done; wp_steps; by exists R, ts.
  assert (Hi : i ∉ il).
  { destruct Hring as [[_ Hnd]%NoDup_cons _]. apply NoDup_fmap_1 in Hnd. by apply NoDup_cons in Hnd as [? _]. }
  assert (Hhs : h ≠ run_list s) by (by intros ->).
  destruct (io_links _ _ _ _ (gd_io _ _ _ _ _ _ Hg) i) as (v & Hv & Hav).
  { exists h, (ifd_link <$> i :: il). split; [done|]. set_solver. }
  assert (Hne : i_task v ≠ t) by (intros E; rewrite E in Hav; by apply (Ha (i_fd v))).
  cbn [expire_loop fmap list_fmap first_or head default]. wp_step.
  eapply wp_rd_links; [apply (ring_list_empty_elem _ _ _ _ Hring); set_solver|]. cbn. wp_step.
  eapply wp_lift; [apply list_to_struct_member|]. unfold set_i_error. wp_steps.
  set (v1 := InnerFd _ _ _ _ _ _). set (w1 := with_ifds _ _).
  assert (Hg1 : good w1 R ts k g) by (eapply good_ifd; [done..|by left]).
  eapply wp_mono; [by eapply resume_owner|]. intros [] w2 (Hg2 & Hw2 & _ & _).
  pose proof (rt_links _ _ _ _ (gd_rt _ _ _ _ _ _ Hg2)) as HR2. wp_step.
  pose proof (enqueue_rings_slot s (i_task v) ts R h (i :: il) Hh Hhs) as Hh2.
  pose proof (proj1 (proj1 HR2) _ _ Hh2) as Hring2.
  eapply wp_rd_links; [apply (ring_next_elem _ _ [] _ _ Hring2)|]. wp_step.
  destruct (lrep_delete _ _ (ifd_link i) HR2) as (l3 & Hd & HR3 & Hdom3 & _).
  { apply (io_heads _ _ _ _ (gd_io _ _ _ _ _ _ Hg2)). }
  { apply (ring_dom _ _ _ _ Hring2). set_solver. }
  eapply wp_upd_links; [exact Hd|].
  pose proof (good_unlink _ _ _ _ _ _ _ _ Hg2 HR3 Hdom3) as Hg3.
  eapply wp_mono; [eapply (IH (with_links w2 l3)); [exact Hg3|done| |done| |]|].
  - intros Hin%in_rings_remove. apply Hni. by eapply in_rings_enqueue_ne; [apply Hrt| |].
  - rewrite ring_remove_lookup, Hh2. exact (f_equal Some (filter_ifd_cons i il Hi)).
  - cbn in Hlen. lia.
  - intros [] w4 (R4 & ts4 & Hg4 & Hw4 & Hni4). exists R4, ts4. split_and!; [done| |done].
    etrans; [by eapply (woke_ifd w i v v1)|]. etrans; [exact Hw2|]. etrans; [apply woke_links|exact Hw4].
Qed.

(** The wheel has moved on. *)
Lemma good_rotate w R ts k g e tw tw' :
  good w R ts k g → w_epolls w !! ep = Some e → ep_timer e = Some tw → wheel_ok tw' →
  tw_size tw' = tw_size tw → tw_wheel tw' = tw_wheel tw → tw_fd tw' = tw_fd tw →
  good (with_epolls w (<[ep := Epoll (ep_maxevents e) (ep_timeout e) (ep_fd e) (ep_loop e) (Some tw')]> (w_epolls w)))
    R ts k g.
Proof.
  intros [Hrt Hsy Hc Hsp Hkl Hio] He Htw Hok Es Ew Ef. split; try done.
  - eapply rt_frame; [done..|]. cbn. rewrite dom_insert_L. apply elem_of_dom_2 in He. set_solver.
  - by eapply sync_ok_frame.
  - destruct Hio as [(e' & tw0 & (Hsv & He' & Htw' & Hok0 & Hf0) & Hsl & Hint) Htb Hif Hhd Hlk Har Hop Hno Hac].
    assert (e' = e) as -> by congruence. assert (tw0 = tw) as -> by congruence. split; try done.
    eexists _, tw'. split_and!.
    + split; [done|]. split; [cbn; by rewrite lookup_insert_eq|]. split_and!; [done|done|congruence].
    + intros i. rewrite Es. unfold slot. rewrite Ew. apply Hsl.
    + exact Hint.
Qed.

Lemma timeout_tick_ok t w R ts k g :
  good w R ts k g → (∀ fd, ¬ armed g t fd) → ¬ in_rings R (run_link t) →
  wp (timeout_tick ep) (λ _ w', ∃ R' ts', good w' R' ts' k g ∧ woke w w' ∧ ¬ in_rings R' (run_link t)) w.
Proof.
  intros Hg Ha Hni. destruct (io_wheel _ _ _ _ (gd_io _ _ _ _ _ _ Hg)) as (e & tw & (Hsv & He & Htw & Hok & Hf) & Hsl & _).
  destruct (wheel_rotate_ok tw Hok) as (tw' & Hrot & Hok' & Es & Ew & El).
  assert (Ef : tw_fd tw' = tw_fd tw).
  { unfold wheel_rotate in Hrot. destruct (decide (tw_size tw = 0)); [done|]. by injection Hrot as <-. }
  unfold timeout_tick. wp_steps. rewrite Htw. wp_steps.
  set (w1 := with_epolls _ _).
  assert (Hg1 : good w1 R ts k g) by (by eapply good_rotate).
  destruct (Hsl (tw_loc tw')) as [il Hil]; [destruct Hok'; lia|].
  assert (Hil' : R !! wheel_timeout_list tw' = Some (ifd_link <$> il)).
  { unfold wheel_timeout_list, slot. rewrite Ew. exact Hil. }
  destruct (rt_links _ _ _ _ (gd_rt _ _ _ _ _ _ Hg1)) as [[HR _] _]. pose proof (HR _ _ Hil') as Hring.
  eapply wp_rd_links; [apply (ring_next_head _ _ _ Hring)|]. wp_steps.
  eapply wp_mono; [eapply (expire_loop_ok t _ w1); [done|done|done| |done|]|].
  - done.
  - apply NoDup_dom_length; [destruct Hring as [[_ Hnd]%NoDup_cons _]; by apply NoDup_fmap_1 in Hnd|]. intros i Hi.
    destruct (io_links _ _ _ _ (gd_io _ _ _ _ _ _ Hg1) i) as (v & Hv & _); [|by eauto].
    exists (wheel_timeout_list tw'), (ifd_link <$> il). split; [done|]. set_solver.
  - intros [] w2 (R2 & ts2 & Hg2 & Hw2 & Hni2). exists R2, ts2. split_and!; [done| |done].
    etrans; [apply woke_epolls|exact Hw2].
Qed.

End wake.
