(* ===== verification/HookSafety.v ===== *)
(** The hooked calls of sys_hook.c are safe on the descriptors a task owns; a socket
    that is opened or accepted becomes the task's own, one that is closed is
    nobody's.  The two service tasks of the scheduler, built from these calls, are
    safe as well. *)

From Stdlib Require Import ZArith Lia.
From stdpp Require Import base numbers strings sets gmap list.
From S2P Require Import Prelude IntrusiveList Links Array Heap Cid SpinLock TimeWheel HashMap World Coroutine InnerFd.
From S2P Require Import Task Sched Event Schedule Mutex Cond Sem Blocking Hook Helper Descriptors Runtime TaskSafety IoSafety.
From S2P Require Import WakeSafety.
Open Scope Z_scope.

Section hooks.
Context `{Sk : Sockets} {Fv : FdView} {D : Descriptors}.
Context (P : setup) (t : ptr).

Local Notation s := (su_sched P).
Local Notation ep := (su_epoll P).
Local Notation good := (good P).
Local Notation io_ok := (io_ok P).
Local Notation RUN := (RUN P t).
Local Notation keeps := (keeps P t).
Local Notation mine := (mine P t).
Local Notation stepped := (stepped P t).
Local Notation csafe := (csafe P t).
Local Notation registered := (registered t).

(** * Tools *)

(** Still running, with the descriptors it had at [g0], [w0]. *)
Definition ended {A} (g0 : own) (w0 : world) (_ : A) (g : own) (w : world) : Prop := RUN g w ∧ mine g0 w0 g w.

Lemma calm_mine g w w' : calm_step w w' → mine g w g w'.
Proof. intros Hs. by apply rely_mine, calm_rely. Qed.

Lemma calm_registered g w w' fd p : registered g w fd p → calm_step w w' → registered g w' fd p.
Proof. intros [Ho Ht] [Hs _]. split; [done|]. by rewrite (ss_fdtab _ _ Hs). Qed.

Lemma mine_owns g w g' w' fd : mine g w g' w' → owns g t fd → owns g' t fd.
Proof. intros Hm. apply Hm. Qed.

(** A part of a call that only talks to the kernel, with what it found out. *)
Lemma csafe_calm_swp {A B} (Φ : A → world → Prop) (c : M A) (f : A → C B) (Q : B → own → world → Prop) g w :
  RUN g w → swp c (λ a w', calm_step w w' ∧ Φ a w') w →
  (∀ a w', RUN g w' → calm_step w w' → Φ a w' → csafe Q g w' (f a) w') → csafe Q g w (cbind f (act c)) w.
Proof.
  intros Hw Hc Hf. eapply (csafe_bind _ _ (λ a g' w', g' = g ∧ RUN g w' ∧ calm_step w w' ∧ Φ a w')).
  - apply csafe_act. eapply outcome_mono; [exact Hc|]. intros r [Hs HΦ]. exists g.
    destruct (run_calm _ _ _ _ _ Hw Hs) as (? & ? & _). by split_and!.
  - intros a g' w' (-> & ? & ? & ?). by apply Hf.
Qed.

Lemma csafe_calm {A B} (Φ : A → world → Prop) (c : M A) (f : A → C B) (Q : B → own → world → Prop) g w :
  RUN g w → wp c (λ a w', calm_step w w' ∧ Φ a w') w →
  (∀ a w', RUN g w' → calm_step w w' → Φ a w' → csafe Q g w' (f a) w') → csafe Q g w (cbind f (act c)) w.
Proof. intros Hw Hc. by apply csafe_calm_swp, swp_wp. Qed.

Lemma csafe_calm_end {A} (c : M A) g0 w0 g w :
  RUN g w → mine g0 w0 g w → wp c (λ _ w', calm_step w w') w → csafe (ended g0 w0) g w (act c) w.
Proof.
  intros Hw Hm Hc. apply csafe_act. eapply outcome_mono; [exact (outcome_wp _ _ _ Hc)|]. intros r Hs. exists g.
  destruct (run_calm _ _ _ _ _ Hw Hs) as (? & ? & ?). split; [done|]. split; [done|by eapply mine_trans].
Qed.

Lemma csafe_end {A} (a : A) g0 w0 g w : RUN g w → mine g0 w0 g w → csafe (ended g0 w0) g w (cret a) w.
Proof. intros ? ?. by apply csafe_ret. Qed.

Lemma run_thread g w : RUN g w → ∃ th, w_threads w !! w_self w = Some th ∧ g_current th = t ∧ t ≠ NULL.
Proof. intros (R & ts & th & tv & [])%run_elim. by exists th. Qed.

(** The hook of the task. *)
Definition hook_is (h : bool) (w : world) : Prop := ∃ v, w_tasks w !! t = Some v ∧ t_hook v = Z.b2z h.

Lemma hook_mine h g w g' w' : mine g w g' w' → hook_is h w → hook_is h w'.
Proof.
  intros Hm (v & Hv & Hh). destruct (entry_func _ _ _ _ (mn_entry _ _ _ _ _ _ Hm) Hv) as (v' & ? & E & _).
  exists v'. split; [done|]. injection E as _ _ _ E. congruence.
Qed.

Lemma co_hooked_calm g w Q : RUN g w → (∀ b : bool, (b = true → hook_is true w) → Q b w) → wp co_hooked Q w.
Proof.
  intros (R & ts & th & tv & [Hg Hth Hc Ht Hnf Hni Har Hn])%run_elim HQ. unfold co_hooked, co_self. wp_steps.
  rewrite Hc, decide_False by done. wp_steps. apply HQ. intros ?%bool_decide_eq_true. by exists tv.
Qed.

Lemma co_hooked_is h g w Q : RUN g w → hook_is h w → Q h w → wp co_hooked Q w.
Proof.
  intros (R & ts & th & tv & [Hg Hth Hc Ht Hnf Hni Har Hn])%run_elim (v & Hv & Hh) HQ. unfold co_hooked, co_self. wp_steps.
  rewrite Hc, decide_False by done. wp_steps. by destruct h; rewrite Hh.
Qed.

Lemma get_inner_fd_calm g w fd Q :
  RUN g w →
  (∀ p w', calm_step w w' → (p = NULL ∧ w_fdtab w !! fd = None) ∨ (p ≠ NULL ∧ w_fdtab w !! fd = Some p) → Q p w') →
  wp (get_inner_fd fd) Q w.
Proof.
  intros (R & ts & th & tv & [Hg Hth Hc Ht Hnf Hni Har Hn])%run_elim HQ.
  pose proof (io_tab _ _ _ _ (gd_io _ _ _ _ _ _ Hg) fd) as Htab. destruct (decide (0 ≤ fd < MAX_FD_NUM)) as [Hr|Hr].
  - apply wp_get_inner_fd; [done|]. apply HQ; [done|]. destruct (w_fdtab w !! fd) as [p|]; [right|by left].
    by destruct (Htab p eq_refl) as (_ & ? & _).
  - eapply wp_get_inner_fd_bad; [done..|]. apply HQ; [split; [by apply sys_step_errno|done]|]. left. split; [done|].
    destruct (w_fdtab w !! fd) as [p|]; [|done]. by destruct (Htab p eq_refl).
Qed.

(** What [hooked_fd] tells: a registered descriptor. *)
Lemma hooked_fd_calm g w fd :
  RUN g w →
  wp (hooked_fd fd) (λ r w', calm_step w w' ∧
    match r with Some p => w_fdtab w !! fd = Some p ∧ hook_is true w | None => True end) w.
Proof.
  intros Hw. destruct (run_thread _ _ Hw) as (th & Hth & _). unfold hooked_fd, ifd_nonblock. wp_step.
  eapply co_hooked_calm; [done|]. intros [] Hb; cbn [negb]; [|by wp_steps].
  wp_step. eapply get_inner_fd_calm; [done|]. intros p w' Hs Hp. wp_step. case_decide as Hn; [by wp_steps|].
  destruct Hp as [[? _]|[_ Hp]]; [done|]. pose proof Hw as (R & ts & th' & tv & Hr)%run_elim.
  destruct (io_tab _ _ _ _ (gd_io _ _ _ _ _ _ (rn_good _ _ _ _ _ _ _ _ Hr)) _ _ Hp) as (_ & _ & _ & v & Hv & _).
  wp_step. eapply wp_rd_ifd; [by rewrite (ss_ifds _ _ (proj1 Hs))|]. wp_steps.
  destruct (has (i_flags v) O_NONBLOCK); [|done]. split_and!; [done|done|by apply Hb].
Qed.

Lemma rd_errno_calm g w : RUN g w → wp rd_errno (λ _ w', calm_step w w' ∧ True) w.
Proof. intros (th & Hth & _)%run_thread. unfold rd_errno. by wp_steps. Qed.

Lemma epoll_calm g w : RUN g w → wp current_thread_epoll (λ r w', calm_step w w' ∧ r = ep) w.
Proof.
  intros (R & ts & th & tv & [Hg Hth Hc Ht Hnf Hni Har Hn])%run_elim.
  destruct (good_epoll _ _ _ _ _ _ Hg) as (e & tw & ((sv & Hsv & Hse) & _) & _).
  destruct (rt_self _ _ _ _ (gd_rt _ _ _ _ _ _ Hg)) as (th' & Hth' & Hs). rewrite Hth in Hth'. injection Hth' as <-.
  unfold current_thread_epoll. wp_step. eapply current_sched_ready; [done|rewrite Hs; apply (gd_rt _ _ _ _ _ _ Hg)|].
  rewrite Hs. by wp_steps.
Qed.

Lemma rd_ifd_calm g w fd p : RUN g w → w_fdtab w !! fd = Some p → wp (rd_ifd p) (λ _ w', calm_step w w' ∧ True) w.
Proof.
  intros (R & ts & th & tv & Hr)%run_elim Hp.
  destruct (io_tab _ _ _ _ (gd_io _ _ _ _ _ _ (rn_good _ _ _ _ _ _ _ _ Hr)) _ _ Hp) as (_ & _ & _ & v & Hv & _).
  by eapply wp_rd_ifd.
Qed.

Lemma syscall_run call g w : RUN g w → quiet call → wp (syscall call) (λ _ w', calm_step w w' ∧ True) w.
Proof. intros (th & Hth & _)%run_thread Hq. by eapply syscall_calm. Qed.

Lemma in_syscall_run cast call g w : RUN g w → quiet call → wp (in_syscall cast call) (λ _ w', calm_step w w' ∧ True) w.
Proof. intros (th & Hth & _)%run_thread Hq. by eapply in_syscall_calm. Qed.

Lemma calm_wp {A} (c : M A) w Φ : wp c (λ a w', calm_step w w' ∧ Φ a w') w → wp c (λ _ w', calm_step w w') w.
Proof. intros Hc. eapply wp_mono; [exact Hc|]. by intros ? ? []. Qed.

(** Waiting for a registered descriptor of the task's own. *)
Lemma csafe_wait_fd {B} ev (f : Z → C B) (Q : B → own → world → Prop) g0 w0 g w fd p :
  RUN g w → mine g0 w0 g w → registered g w fd p →
  (∀ r g' w', r = 0 ∨ r = -1 → RUN g' w' → mine g0 w0 g' w' → registered g' w' fd p → csafe Q g' w' (f r) w') →
  csafe Q g w (let! ep := act current_thread_epoll in cbind f (event_poll ep fd ev)) w.
Proof.
  intros Hw Hm Hreg Hf. eapply csafe_calm; [done|by eapply epoll_calm|]. intros ? w1 Hw1 Hs1 ->.
  eapply csafe_bind; [eapply (csafe_event_poll _ _ fd p); [done|by eapply calm_registered]|].
  intros r g2 w2 (Hr2 & Hw2 & Hm2 & Hreg2). apply Hf; [done|done| |done]. eapply mine_trans; [|exact Hm2].
  eapply mine_trans; [exact Hm|by apply calm_mine].
Qed.

(** * Receiving *)

Lemma csafe_in direct fd call g w :
  RUN g w → owns g t fd → quiet call → csafe (ended g w) g w (hooked_in direct fd call) w.
Proof.
  intros Hw Ho Hq. unfold hooked_in. eapply csafe_calm; [done|by eapply hooked_fd_calm|].
  intros [p|] w1 Hw1 Hs1 Hp.
  2:{ apply csafe_calm_end; [done|by apply calm_mine|]. by eapply calm_wp, in_syscall_run. }
  destruct Hp as [Hp _]. eapply csafe_calm; [done|by eapply in_syscall_run|]. intros r w2 Hw2 Hs2 _.
  eapply csafe_calm; [done|by eapply rd_errno_calm|]. intros en w3 Hw3 Hs3 _.
  assert (Hs : calm_step w w3) by (etrans; [exact Hs1|by etrans]).
  assert (Hreg : registered g w3 fd p) by (eapply calm_registered; [by split|done]).
  case_bool_decide; cbn [negb]; [|by apply csafe_end; [|apply calm_mine]].
  eapply csafe_wait_fd; [done|by apply calm_mine|done|]. intros z g4 w4 Hz4 Hw4 Hm4 Hreg4.
  case_decide; [by apply csafe_end|].
  eapply csafe_calm; [done|by eapply in_syscall_run|]. intros r2 w5 Hw5 Hs5 _.
  assert (Hm5 : mine g w g4 w5) by (eapply mine_trans; [exact Hm4|by apply calm_mine]).
  case_decide; [|by apply csafe_end]. pose proof (calm_registered _ _ _ _ _ Hreg4 Hs5) as [_ Hp5].
  eapply csafe_calm; [done|by eapply rd_ifd_calm|]. intros v w6 Hw6 Hs6 _.
  apply csafe_end; [done|]. eapply mine_trans; [exact Hm5|by apply calm_mine].
Qed.

(** * Sending *)

Lemma s32_sent r n : -1 ≤ r ≤ Z.of_nat n → Z.of_nat n ≤ INT_MAX → s32 r = r.
Proof. intros Hr Hn. apply s32_small. unfold INT_MAX in Hn. lia. Qed.

(** [call len] sends some of what is left of [n] bytes. *)
Definition sends_rest (n : Z) (call : Z → kstate → (Z * Z) * kstate) : Prop :=
  ∀ len, 0 ≤ len ≤ n → sends (Z.to_nat (n - len)) (call len).

Lemma out_loop_ok fuel n call g w len :
  RUN g w → n ≤ INT_MAX → 0 ≤ len ≤ n → sends_rest n call →
  out_loop fuel (to_kernel call) n len w = OutOfFuel ∨
  wp (out_loop fuel (to_kernel call) n len) (λ r w', calm_step w w' ∧
    match r with inr len' => 0 ≤ len' ≤ n | inl _ => True end) w.
Proof.
  intros Hw Hn Hlen Hc. revert w len Hw Hlen. induction fuel as [|fuel IH]; intros w len Hw Hlen; cbn [out_loop].
  { case_decide; [right; by wp_steps|by left]. }
  case_decide; [right; by wp_steps|]. destruct (run_thread _ _ Hw) as (th & Hth & _).
  destruct (Hc len Hlen) as [Hq Hr]. specialize (Hr (w_kernel w)). rewrite Z2Nat.id in Hr by lia.
  assert (Hwp : wp (to_kernel call len) (λ r w', r = (call len (w_kernel w)).1.1 ∧ calm_step w w') w).
  { eapply syscall_calm; [done|done|]. by auto. }
  destruct Hwp as (r & w1 & Hrun & -> & Hs1). set (r := (call len (w_kernel w)).1.1) in *.
  pose proof (run_calm _ _ _ _ _ Hw Hs1) as (_ & Hw1 & _).
  assert (Hb : ∀ {B} (k : Z → M B), (to_kernel call len ≫= k) w = k r w1).
  { intros B k. unfold mbind, M_bind. by rewrite Hrun. }
  unfold wp. rewrite Hb. rewrite (s32_sent r (Z.to_nat (n - len))) by lia. destruct (decide (r < 0)) as [Hneg|Hpos].
  { right. destruct (rd_errno_calm _ _ Hw1) as (en & w2 & He & Hs2 & _). unfold mbind, M_bind. rewrite He.
    eexists _, _. split; [reflexivity|]. cbn. split; [by etrans|]. by case_decide. }
  rewrite decide_True by lia. destruct (IH w1 (len + r)) as [Hf|(a & w2 & Hrun2 & Hs2 & Ha)]; [done|lia|by left|right].
  exists a, w2. split; [exact Hrun2|]. split; [by etrans|done].
Qed.

Lemma csafe_out_turns fuel fd p n call g0 w0 g w len :
  RUN g w → mine g0 w0 g w → registered g w fd p → n ≤ INT_MAX → 0 ≤ len ≤ n → sends_rest n call →
  csafe (ended g0 w0) g w (out_turns fuel fd (to_kernel call) n len) w.
Proof.
  intros Hw Hm Hreg Hn Hlen Hc. revert g w len Hw Hm Hreg Hlen. induction fuel as [|fuel IH]; intros g w len Hw Hm Hreg Hlen;
    [done|]. cbn [out_turns]. set (fuel' := Datatypes.S fuel).
  eapply (csafe_calm_swp (λ r _, match r with inr len' => 0 ≤ len' ≤ n | inl _ => True end)); [done| |].
  { destruct (out_loop_ok fuel' n call g w len) as [Hf|Hwp]; [done..|unfold swp; by rewrite Hf|by apply swp_wp]. }
  intros r w1 Hw1 Hs1 Hr. assert (Hm1 : mine g0 w0 g w1) by (eapply mine_trans; [exact Hm|by apply calm_mine]).
  destruct r as [ret|len']; [by apply csafe_end|]. case_decide; [by apply csafe_end|].
  eapply csafe_wait_fd; [done|done|by eapply calm_registered|]. intros z g2 w2 Hz2 Hw2 Hm2 Hreg2.
  case_decide; [by apply csafe_end|]. by apply IH.
Qed.

Lemma csafe_out direct fuel fd n call g w :
  RUN g w → owns g t fd → 0 ≤ n ≤ INT_MAX → sends_rest n call →
  csafe (ended g w) g w (hooked_out direct fuel fd (to_kernel call) n) w.
Proof.
  intros Hw Ho Hn Hc. unfold hooked_out. eapply csafe_calm; [done|by eapply hooked_fd_calm|].
  intros [p|] w1 Hw1 Hs1 Hp.
  - destruct Hp as [Hp _]. eapply csafe_out_turns; [done|by apply calm_mine| |lia|lia|done].
    eapply calm_registered; [by split|done].
  - apply csafe_calm_end; [done|by apply calm_mine|]. wp_step.
    eapply wp_mono; [eapply syscall_run; [done|apply (Hc 0); lia]|]. intros a w2 [Hs2 _]. by wp_steps.
Qed.

Lemma rest_sends (call : list Z → kstate → (Z * Z) * kstate) buf :
  (∀ bs, sends (length bs) (call bs)) → sends_rest (Z.of_nat (length buf)) (λ len, call (rest buf len)).
Proof.
  intros Hc len Hlen. specialize (Hc (rest buf len)). unfold rest in Hc at 1. rewrite length_drop in Hc.
  by replace (Z.to_nat (Z.of_nat (length buf) - len)) with (length buf - Z.to_nat len)%nat by lia.
Qed.

Lemma csafe_read fd n g w : RUN g w → owns g t fd → csafe (ended g w) g w (read fd n) w.
Proof. intros. apply csafe_in; [done|done|apply read_quiet]. Qed.
Lemma csafe_recv fd n fl g w : RUN g w → owns g t fd → csafe (ended g w) g w (recv fd n fl) w.
Proof. intros. apply csafe_in; [done|done|apply recv_quiet]. Qed.
Lemma csafe_recvfrom fd n fl g w : RUN g w → owns g t fd → csafe (ended g w) g w (recvfrom fd n fl) w.
Proof. intros. apply csafe_in; [done|done|apply recvfrom_quiet]. Qed.
Lemma csafe_recvmsg fd fl g w : RUN g w → owns g t fd → csafe (ended g w) g w (recvmsg fd fl) w.
Proof. intros. apply csafe_in; [done|done|apply recvmsg_quiet]. Qed.

Lemma csafe_write fuel fd buf g w :
  RUN g w → owns g t fd → Z.of_nat (length buf) ≤ INT_MAX → csafe (ended g w) g w (write fuel fd buf) w.
Proof. intros. apply csafe_out; [done|done|lia|]. apply (rest_sends (sys_write fd)), write_sends. Qed.
Lemma csafe_send fuel fd buf fl g w :
  RUN g w → owns g t fd → Z.of_nat (length buf) ≤ INT_MAX → csafe (ended g w) g w (send fuel fd buf fl) w.
Proof.
  intros. apply csafe_out; [done|done|lia|]. apply (rest_sends (λ bs, sys_send fd bs fl)). intros bs. apply send_sends.
Qed.
Lemma csafe_sendto fuel fd buf fl a g w :
  RUN g w → owns g t fd → Z.of_nat (length buf) ≤ INT_MAX → csafe (ended g w) g w (sendto fuel fd buf fl a) w.
Proof.
  intros. apply csafe_out; [done|done|lia|]. apply (rest_sends (λ bs, sys_sendto fd bs fl a)). intros bs. apply sendto_sends.
Qed.

(** * Sockets *)

(** A field of an object of the task's own changes, neither its descriptor nor its
    task. *)
Lemma run_ifd g w p v v' :
  RUN g w → w_ifds w !! p = Some v → i_fd v' = i_fd v → i_task v' = i_task v →
  stepped false g w (with_ifds w (<[p := v']> (w_ifds w))).
Proof.
  intros [(R & ts & Hg & Hc & Hal & Hni) Ha] Hv E1 E2. split_and!; [by apply keeps_io| |by split].
  split; [|done]. exists R, ts. split_and!; [by eapply good_ifd; [..|left]|done|done|done].
Qed.

Lemma stepped_trans g w w1 w2 : stepped false g w w1 → stepped false g w1 w2 → stepped false g w w2.
Proof. intros (? & ? & ?) (? & ? & ?). split_and!; [by eapply keeps_trans|done|by eapply mine_trans]. Qed.

(** A step that keeps the task running. *)
Lemma csafe_stepped {A B} (Φ : A → world → Prop) (c : M A) (f : A → C B) (Q : B → own → world → Prop) g w :
  RUN g w → wp c (λ a w', stepped false g w w' ∧ Φ a w') w →
  (∀ a w', RUN g w' → mine g w g w' → Φ a w' → csafe Q g w' (f a) w') → csafe Q g w (cbind f (act c)) w.
Proof.
  intros Hw Hc Hf. eapply (csafe_bind _ _ (λ a g' w', g' = g ∧ RUN g w' ∧ mine g w g w' ∧ Φ a w')).
  - apply csafe_act. eapply outcome_mono; [exact (outcome_wp _ _ _ Hc)|]. intros r [(? & ? & ?) HΦ]. exists g. by split_and!.
  - intros a g' w' (-> & ? & ? & ?). by apply Hf.
Qed.

Lemma csafe_listen fd n g w : RUN g w → csafe (ended g w) g w (act (listen fd n)) w.
Proof.
  intros Hw. apply csafe_act. apply (outcome_wp _ (λ _ w', ∃ g', keeps g w g' w' ∧ ended g w () g' w')).
  destruct (run_thread _ _ Hw) as (th & Hth & _). unfold listen. wp_step.
  eapply get_inner_fd_calm; [done|]. intros p w1 Hs1 Hp. pose proof (run_calm _ _ _ _ _ Hw Hs1) as Hst1.
  pose proof Hst1 as (_ & Hw1 & _). wp_step. eapply co_hooked_calm; [done|]. intros b _.
  assert (Hend : ∀ w2, stepped false g w w2 → wp (syscall (sys_listen fd n)) (λ _ w', ∃ g', keeps g w g' w' ∧ ended g w () g' w') w2).
  { intros w2 Hst2. pose proof Hst2 as (_ & Hw2 & _). eapply wp_mono; [eapply syscall_run; [done|apply listen_quiet]|].
    intros r w3 [Hs3 _]. pose proof (stepped_trans _ _ _ _ Hst2 (run_calm _ _ _ _ _ Hw2 Hs3)) as (? & ? & ?). by exists g. }
  wp_step. destruct b; [|apply wp_ret; by apply Hend]. case_decide as Hn; [apply wp_ret; by apply Hend|].
  destruct Hp as [[? _]|[_ Hp]]; [done|]. rewrite <-(ss_fdtab _ _ (proj1 Hs1)) in Hp.
  pose proof Hw1 as (R & ts & th' & tv & Hr)%run_elim.
  destruct (io_tab _ _ _ _ (gd_io _ _ _ _ _ _ (rn_good _ _ _ _ _ _ _ _ Hr)) _ _ Hp) as (_ & _ & _ & v & Hv & _).
  unfold set_i_timeout. eapply wp_upd_ifd; [done|]. apply Hend. eapply stepped_trans; [done|]. by eapply run_ifd.
Qed.

Lemma so_error_calm g w fd : RUN g w → wp (get_connect_error fd) (λ _ w', calm_step w w' ∧ True) w.
Proof.
  intros Hw. unfold get_connect_error. wp_steps. pose proof (so_error_quiet fd (w_kernel w)) as Hq.
  destruct (sys_so_error fd (w_kernel w)) as [e k]. wp_steps. split; [|done]. split; [split; try done; by eauto|done].
Qed.

Lemma csafe_connect fd a g w : RUN g w → owns g t fd → csafe (ended g w) g w (connect fd a) w.
Proof.
  intros Hw Ho. unfold connect. eapply csafe_calm; [done|by eapply hooked_fd_calm|]. intros isfd w1 Hw1 Hs1 Hp.
  eapply csafe_calm; [done|eapply syscall_run; [done|apply connect_quiet]|]. intros r w2 Hw2 Hs2 _.
  assert (Hs : calm_step w w2) by (by etrans).
  destruct isfd as [p|]; [|by apply csafe_end; [|apply calm_mine]]. destruct Hp as [Hp _].
  eapply csafe_calm; [done|by eapply rd_errno_calm|]. intros en w3 Hw3 Hs3 _.
  assert (Hs' : calm_step w w3) by (by etrans).
  case_bool_decide; cbn [negb]; [|by apply csafe_end; [|apply calm_mine]].
  eapply csafe_wait_fd; [done|by apply calm_mine|eapply calm_registered; [by split|done]|]. intros z g4 w4 Hz4 Hw4 Hm4 Hreg4.
  case_decide; [by apply csafe_end|]. eapply csafe_calm; [done|eapply rd_ifd_calm; [done|apply Hreg4]|].
  intros v w5 Hw5 Hs5 _. assert (Hm5 : mine g w g4 w5) by (eapply mine_trans; [exact Hm4|by apply calm_mine]).
  case_match; [|by apply csafe_end]. eapply csafe_calm; [done|by eapply so_error_calm|]. intros e w6 Hw6 Hs6 _.
  destruct (run_thread _ _ Hw6) as (th & Hth & _).
  eapply (csafe_calm (λ _ _, True)); [done|by eapply set_errno_calm|]. intros [] w7 Hw7 Hs7 _. apply csafe_end; [done|].
  eapply mine_trans; [exact Hm5|]. apply calm_mine. by etrans.
Qed.

(** ** Opening *)

(** The task has [fd] now, too. *)
Record acquired (fd : Z) (g : own) (w : world) (g' : own) (w' : world) : Prop := {
  aq_new : ¬ owns g t fd;
  aq_own : ∀ fd', owns g' t fd' ↔ fd' = fd ∨ owns g t fd';
  aq_entry : entry <$> w_tasks w' !! t = entry <$> w_tasks w !! t
}.

Lemma acquired_mine fd g w g' w' g2 w2 : acquired fd g w g' w' → mine g' w' g2 w2 → acquired fd g w g2 w2.
Proof. intros [N1 O1 E1] [O2 E2 _]. split; [done|intros fd'; by rewrite O2|congruence]. Qed.

Lemma mine_acquired fd g w g' w' g2 w2 : mine g w g' w' → acquired fd g' w' g2 w2 → acquired fd g w g2 w2.
Proof. intros [O1 E1 _] [N2 O2 E2]. split; [by rewrite <-O1|intros fd'; by rewrite O2, O1|congruence]. Qed.

Lemma owns_new g fd fd' : owns (<[fd := (t, false)]> g) t fd' ↔ fd' = fd ∨ owns g t fd'.
Proof.
  unfold owns. destruct (decide (fd' = fd)) as [->|]; [rewrite lookup_insert_eq; naive_solver|].
  rewrite lookup_insert_ne by done. naive_solver.
Qed.

Lemma io_ok_acquire w R g fd :
  io_ok w R g → g !! fd = None → fd ∈ opened (w_kernel w) → io_ok w R (<[fd := (t, false)]> g).
Proof.
  intros [(e & tw & Hw & Hsl & Hint) Htb Hif Hhd Hlk Har Hop Hno Hac] Hg Hfd.
  assert (Ha : ∀ u fd', armed g u fd' → armed (<[fd := (t, false)]> g) u fd').
  { intros u fd' Ha. unfold armed in *. rewrite lookup_insert_ne by congruence. done. }
  split; try done.
  - exists e, tw. split_and!; [done|done|]. intros fd' (q & x & ? & ? & ?)%Hint. exists q, x. by auto.
  - intros q (x & ? & ?)%Hlk. exists x. by auto.
  - intros fd' u. unfold armed. rewrite lookup_insert_Some. intros [[_ [=]]|[_ ?]]. by eapply Har.
  - intros fd'. destruct (decide (fd' = fd)) as [->|]; [done|]. rewrite lookup_insert_ne by done. by apply Hop.
Qed.

Lemma only_mine_new g fd : g !! fd = None → only_mine t g (<[fd := (t, false)]> g).
Proof.
  intros Hg fd' u x Hu. destruct (decide (fd' = fd)) as [->|]; [|by rewrite lookup_insert_ne].
  rewrite lookup_insert_eq, Hg. naive_solver.
Qed.

(** The kernel has opened [fd]. *)
Lemma run_open g w w' fd :
  RUN g w → sys_step w w' → opens fd (w_kernel w) (w_kernel w') →
  w_fdtab w' !! fd = None ∧ keeps g w (<[fd := (t, false)]> g) w' ∧ RUN (<[fd := (t, false)]> g) w' ∧
  acquired fd g w (<[fd := (t, false)]> g) w'.
Proof.
  intros [(R & ts & Hg & (th & Hth & Hc) & (tv & Ht & Hf) & Hni) Ha] Hs (Hr & Hno & Ho & Hi).
  pose proof (gd_io _ _ _ _ _ _ Hg) as Hio.
  assert (Hgn : g !! fd = None).
  { apply eq_None_not_Some. intros Hx. apply Hno. by apply (io_open _ _ _ _ Hio); right. }
  assert (Hfn : w_fdtab w !! fd = None).
  { apply eq_None_not_Some. intros Hx. apply Hno. by apply (io_open _ _ _ _ Hio); left. }
  destruct (io_wheel _ _ _ _ Hio) as (e & tw & Hwh & _).
  assert (Hio' : io_ok w' R (<[fd := (t, false)]> g)).
  { apply io_ok_acquire; [|done|rewrite Ho; set_solver]. eapply (io_ok_sys _ w); [done|done|done|rewrite Ho; set_solver|].
    intros fd' Hfd'. left. by eapply Hi. }
  pose proof (good_sys _ _ _ _ _ _ _ _ Hg Hs Hio') as Hg'. pose proof Hs as [E1 E2 E3 E4 E5 E6 E7 E8 E9 Eo E10].
  destruct (E10 th Hth) as (th' & Hth' & Ec & _). split_and!.
  - by rewrite E7.
  - apply keeps_io; try done; [by apply only_mine_new|]. intros. by rewrite E7.
  - split.
    + exists R, ts. split_and!; [done|exists th'; rewrite E1; split; [done|congruence]|exists tv; by rewrite E3|done].
    + intros fd'. unfold armed. rewrite lookup_insert_Some. intros [[_ [=]]|[_ ?]]. by apply (Ha fd').
  - split; [unfold owns; by rewrite Hgn|apply owns_new|by rewrite E3].
Qed.

(** ** The table *)

Lemma good_register w R ts k g fd i v :
  good w R ts k g → 0 ≤ fd < MAX_FD_NUM → i ≠ NULL → w_ifds w !! i = None → w_fdtab w !! fd = None → i_fd v = fd →
  fd ∈ opened (w_kernel w) →
  good (with_fdtab (with_links (with_ifds w (<[i := v]> (w_ifds w))) (list_init (w_links w) (ifd_link i)))
    (<[fd := i]> (w_fdtab w))) R ts k g.
Proof.
  intros [Hrt Hsy Hc Hsp Hk Hio Hob] Hr Hin Hi Hfd Hv Hop.
  assert (Hni : ¬ in_rings R (ifd_link i)) by (intros (x & ? & _)%(io_links _ _ _ _ Hio); congruence).
  split; try done.
  - destruct Hrt as [Hnn Hself Hsch Htk Hq Hlv]. split; try done.
    eapply (tasks_ok_frame (with_links w (list_init (w_links w) (ifd_link i)))); [by apply tasks_ok_node|done..].
  - by eapply sync_ok_frame.
  - destruct Hio as [(e & tw & Hw & Hsl & Hint) Htb Hif Hhd Hlk Har Hopn Hno Hac]. split; cbn; try done.
    + exists e, tw. split_and!; [done|done|]. intros fd' (q & x & Hq & Hx & ?)%Hint. exists q, x. split_and!; [|by rewrite lookup_insert_ne by congruence|done].
      by rewrite lookup_insert_ne by congruence.
    + intros fd' q. rewrite lookup_insert_Some. intros [[<- <-]|[Hne Hq]].
      * split_and!; [lia|lia|done|unfold list_init; rewrite lookup_insert_eq; by eauto|]. exists v. by rewrite lookup_insert_eq.
      * destruct (Htb _ _ Hq) as (? & ? & Hl & x & Hx & ?). split_and!; [lia|lia|done| |].
        -- unfold list_init. rewrite lookup_insert. case_decide; [by eauto|done].
        -- exists x. by rewrite lookup_insert_ne by congruence.
    + intros q x. rewrite lookup_insert_Some. intros [[<- <-]|[Hne Hx]]; [by rewrite Hv, lookup_insert_eq|].
      pose proof (Hif _ _ Hx) as Hq. rewrite lookup_insert_ne; [done|]. intros E. rewrite <-E, Hfd in Hq. done.
    + intros q (x & Hx & ?)%Hlk. exists x. by rewrite lookup_insert_ne by congruence.
    + intros fd'. destruct (decide (fd' = fd)) as [->|]; [done|]. rewrite lookup_insert_ne by done. by apply Hopn.
Qed.

Lemma good_free w R ts k g fd p :
  good w R ts k g → w_fdtab w !! fd = Some p → ¬ in_rings R (ifd_link p) → (∀ u, ¬ armed g u fd) →
  good (with_fdtab (with_links (with_ifds w (delete p (w_ifds w))) (delete (ifd_link p) (w_links w)))
    (delete fd (w_fdtab w))) R ts k g.
Proof.
  intros [Hrt Hsy Hc Hsp Hk Hio Hob] Hp Hni Ha. split; try done.
  - destruct Hrt as [Hnn Hself Hsch [HR Hh Htk Hdd] Hq Hlv]. split; try done. split; cbn; try done; [by apply lrep_free|].
    intros u x Hx. destruct (Htk _ _ Hx) as (? & ? & ?). by rewrite lookup_delete_ne by done.
  - by eapply sync_ok_frame.
  - destruct Hio as [(e & tw & Hw & Hsl & Hint) Htb Hif Hhd Hlk Har Hopn Hno Hac].
    assert (Hinj : ∀ fd' q, w_fdtab w !! fd' = Some q → fd' ≠ fd → q ≠ p).
    { intros fd' q Hq Hne ->. destruct (Htb _ _ Hq) as (_ & _ & _ & x & Hx & <-).
      destruct (Htb _ _ Hp) as (_ & _ & _ & x' & Hx' & <-). congruence. }
    split; cbn; try done.
    + exists e, tw. split_and!; [done|done|]. intros fd' (q & x & Hq & Hx & Har')%Hint. exists q, x.
      assert (Hne : fd' ≠ fd) by (intros ->; by eapply Ha). rewrite !lookup_delete_ne; [done| |done]. intros E. by eapply Hinj.
    + intros fd' q [Hne Hq]%lookup_delete_Some. destruct (Htb _ _ Hq) as (? & ? & Hl & x & Hx & ?).
      assert (p ≠ q) by (intros E; by eapply Hinj). rewrite !lookup_delete_ne; [|by (intros [=] || done)..]. split_and!; [lia|lia|done|done|by eauto].
    + intros q x [Hne Hx]%lookup_delete_Some. pose proof (Hif _ _ Hx) as Hq. rewrite lookup_delete_ne; [done|]. intros E.
      rewrite <-E, Hp in Hq. congruence.
    + intros q Hq. destruct (Hlk q Hq) as (x & Hx & ?). exists x. by rewrite lookup_delete_ne by (by intros ->).
    + intros fd' [[x [_ Hx]%lookup_delete_Some]|?]; apply Hopn; [left; by eauto|by right].
Qed.

(** ** Closing *)

Lemma good_closed w w' R ts k g fd :
  good w R ts k g → w_fdtab w !! fd = None → (∀ u, ¬ armed g u fd) → sys_step w w' →
  w_kernel w' = (sys_close fd (w_kernel w)).2 → good w' R ts k (delete fd g).
Proof.
  intros Hg Hfd Ha Hs Ek. eapply good_sys; [done..|].
  pose proof (gd_io _ _ _ _ _ _ Hg) as [(e & tw & Hw & Hsl & Hint) Htb Hif Hhd Hlk Har Hop Hno Hac].
  pose proof Hs as [E1 E2 E3 E4 E5 E6 E7 E8 E9 Eo E10].
  assert (Hd : ∀ u fd', armed (delete fd g) u fd' ↔ armed g u fd').
  { intros u fd'. unfold armed. rewrite lookup_delete_Some. split; [by intros []|]. intros H. split; [|done].
    intros <-. by apply (Ha u). }
  split; rewrite ?E2, ?E3, ?E6, ?E7; try done.
  - exists e, tw. split_and!; [|done|].
    + destruct Hw as ((sv & ? & ?) & ? & ?). split; [exists sv; by rewrite E4|by rewrite E5].
    + intros fd'. rewrite Ek. intros Hi%close_interest. destruct (Hint fd') as (q & x & ? & ? & ?); [set_solver|].
      exists q, x. by rewrite Hd.
  - intros q (x & ? & ?)%Hlk. exists x. by rewrite Hd.
  - intros fd' u. rewrite Hd. apply Har.
  - intros fd' Hx. rewrite Ek, close_opened. apply elem_of_difference. split.
    + apply Hop. destruct Hx as [?|[x [_ ?]%lookup_delete_Some]]; [by left|right; by eauto].
    + intros ->%elem_of_singleton. rewrite Hfd, lookup_delete_eq in Hx. by destruct Hx as [[]|[]].
Qed.

Lemma only_mine_delete g fd b : g !! fd = Some (t, b) → only_mine t g (delete fd g).
Proof.
  intros Hg fd' u x Hu. rewrite lookup_delete_Some. split; [by intros []|]. intros H. split; [|done].
  intros <-. congruence.
Qed.

Lemma owns_delete g fd fd' : owns (delete fd g) t fd' ↔ owns g t fd' ∧ fd' ∉ ({[fd]} : gset Z).
Proof.
  unfold owns. rewrite not_elem_of_singleton. destruct (decide (fd' = fd)) as [->|]; [rewrite lookup_delete_eq; naive_solver|].
  rewrite lookup_delete_ne by done. naive_solver.
Qed.

(** [close], with the hook on: the descriptor leaves the table and is nobody's. *)
Lemma close_ok fd g w :
  RUN g w → owns g t fd → hook_is true w →
  wp (close fd) (λ _ w', ∃ g', keeps g w g' w' ∧ RUN g' w' ∧ gave t {[fd]} g w g' w' ∧ w_scheds w' = w_scheds w) w.
Proof.
  intros Hw Ho Hh. pose proof Hw as (R & ts & th & tv & Hr)%run_elim. pose proof Hr as [Hg Hth Hc Ht Hnf Hni Har Hn].
  pose proof (own_unarmed _ _ _ Ho Har) as Hfd.
  assert (Hna : ∀ u, ¬ armed g u fd) by (intros u; unfold armed; rewrite Hfd; naive_solver).
  assert (Hfin : ∀ w1 R1, good w1 R1 ts NULL g → ¬ in_rings R1 (run_link t) → current t w1 → w_self w1 = w_self w →
    w_tasks w1 = w_tasks w → w_scheds w1 = w_scheds w →
    w_fdtab w1 !! fd = None → (∀ fd', fd' ≠ fd → w_fdtab w1 !! fd' = w_fdtab w !! fd') →
    wp (syscall (sys_close fd)) (λ _ w', ∃ g', keeps g w g' w' ∧ RUN g' w' ∧ gave t {[fd]} g w g' w' ∧ w_scheds w' = w_scheds w) w1).
  { intros w1 R1 Hg1 Hni1 (th1 & Hth1 & Hc1) Es1 Et1 Ec1 Hf1 Ho1. eapply syscall_step; [exact Hth1|]. intros r er k w2 Hk Hs2 Ek.
    assert (Hg2 : good w2 R1 ts NULL (delete fd g)) by (eapply good_closed; [done..|by rewrite Ek, Hk]).
    pose proof Hs2 as [E1 E2 E3 E4 E5 E6 E7 E8 E9 Eo E10]. destruct (E10 th1 Hth1) as (th2 & Hth2 & Ec & _).
    exists (delete fd g). split_and!; [| | |congruence].
    - apply keeps_io; [congruence..|by eapply only_mine_delete|]. intros fd' u Hu Hou. rewrite E7. apply Ho1. intros ->.
      unfold owns in Hou. rewrite Hfd in Hou. by injection Hou as ->.
    - split.
      + exists R1, ts. split_and!; [done|exists th2; rewrite E1; split; [done|congruence]| |done].
        exists tv. split; [congruence|done].
      + intros fd'. unfold armed. intros [_ ?]%lookup_delete_Some. by apply (Har fd').
    - split; [apply owns_delete|congruence]. }
  unfold close. wp_step. eapply co_hooked_is; [done|done|]. cbn [negb]. wp_step. eapply get_inner_fd_calm; [done|].
  intros p w1 Hs1 Hp. pose proof (good_calm _ _ _ _ _ _ _ Hg Hs1) as Hg1.
  assert (Hc1 : current t w1) by (eapply calm_current; [done|by exists th]).
  pose proof (proj1 Hs1) as [E1 E2 E3 E4 E5 E6 E7 E8 E9 Eo E10]. wp_step.
  destruct Hp as [[-> Hp]|[Hpn Hp]].
  { rewrite decide_True by done. wp_step. apply (Hfin w1 R); try done; [by rewrite E7|]. intros. by rewrite E7. }
  rewrite decide_False by done. rewrite <-E7 in Hp.
  destruct (io_tab _ _ _ _ (gd_io _ _ _ _ _ _ Hg1) _ _ Hp) as (Hrg & _ & Hlv & v & Hv & Ev).
  unfold delete_inner_fd. rewrite is_fd_valid_spec, bool_decide_eq_true_2 by done. cbn [negb]. wp_step.
  apply wp_rd_fdtab; [done|]. rewrite Hp. cbn [default]. rewrite decide_False by done.
  destruct (lrep_delete _ _ _ (rt_links _ _ _ _ (gd_rt _ _ _ _ _ _ Hg1)) (io_heads _ _ _ _ (gd_io _ _ _ _ _ _ Hg1) p) Hlv)
    as (l & Hd & HR & Hdom & Hnil).
  pose proof (good_unlink _ _ _ _ _ _ _ _ Hg1 HR Hdom) as Hg2. wp_step. eapply wp_upd_links; [exact Hd|].
  unfold free_ifd. wp_steps. eapply wp_upd_links; [done|]. apply wp_wr_fdtab; [done|]. rewrite decide_True by done.
  eapply Hfin; [exact (good_free _ _ _ _ _ fd p Hg2 Hp Hnil Hna)| |exact Hc1|done|done|done| |].
  - by intros ?%in_rings_remove.
  - cbn. by rewrite lookup_delete_eq.
  - intros fd' Hne. cbn. rewrite lookup_delete_ne by done. by rewrite E7.
Qed.

Lemma csafe_close fd g w :
  RUN g w → owns g t fd → hook_is true w →
  csafe (λ _ g' w', RUN g' w' ∧ gave t {[fd]} g w g' w') g w (act (close fd)) w.
Proof.
  intros Hw Ho Hh. apply csafe_act. eapply outcome_mono; [exact (outcome_wp _ _ _ (close_ok fd g w Hw Ho Hh))|].
  intros r (g' & ? & ? & ? & _). by exists g'.
Qed.

(** ** fcntl *)

Lemma hook_stepped h g w w' : stepped false g w w' → hook_is h w → hook_is h w'.
Proof. intros (_ & _ & Hm). by eapply hook_mine. Qed.

Lemma register_ok fd g w :
  RUN g w → owns g t fd → w_fdtab w !! fd = None → 0 ≤ fd < MAX_FD_NUM →
  wp (new_inner_fd fd) (λ i w', stepped false g w w' ∧ w_fdtab w' !! fd = Some i) w.
Proof.
  intros Hw Ho Hn Hr. pose proof Hw as [(R & ts & Hg & Hc & Hal & Hni) Ha]. destruct (fresh_ifd_spec w) as [Hne Hfr].
  assert (Hop : fd ∈ opened (w_kernel w)).
  { apply (io_open _ _ _ _ (gd_io _ _ _ _ _ _ Hg)). right. unfold owns in Ho. destruct (g !! fd); [by eauto|done]. }
  apply new_inner_fd_wp; [done|].
  pose proof (good_register _ _ _ _ _ fd (fresh_ifd w) (InnerFd fd 0 0 NULL FD_TIMEOUT IENONE) Hg Hr Hne Hfr Hn eq_refl Hop) as Hg'.
  split; [split_and!|cbn; by rewrite lookup_insert_eq].
  - apply keeps_io; try done. intros fd' u Hu Hou. cbn. rewrite lookup_insert_ne; [done|]. intros <-.
    unfold owns in *. rewrite Ho in Hou. by injection Hou as ->.
  - split; [|done]. by exists R, ts.
  - by split.
Qed.

(** Writing the flags of a registered descriptor. *)
Lemma set_ifd_ok fd p g w f :
  RUN g w → w_fdtab w !! fd = Some p → (∀ v, i_fd (f v) = i_fd v) → (∀ v, i_task (f v) = i_task v) →
  wp (upd_ifd p f) (λ _ w', stepped false g w w' ∧ w_fdtab w' !! fd = Some p) w.
Proof.
  intros Hw Hp E1 E2. pose proof Hw as (R & ts & th & tv & Hr)%run_elim.
  destruct (io_tab _ _ _ _ (gd_io _ _ _ _ _ _ (rn_good _ _ _ _ _ _ _ _ Hr)) _ _ Hp) as (_ & _ & _ & v & Hv & _).
  eapply wp_upd_ifd; [done|]. split; [|done]. by eapply run_ifd.
Qed.

Lemma getfl_calm fd g w : RUN g w → wp (fcntl fd F_GETFL 0) (λ _ w', calm_step w w') w.
Proof.
  intros Hw. destruct (run_thread _ _ Hw) as (th & Hth & _). unfold fcntl. case_decide.
  { wp_step. eapply set_errno_calm; [done|]. intros w1 Hs1. by wp_steps. }
  wp_step. eapply get_inner_fd_calm; [done|]. intros p w1 Hs1 Hp.
  pose proof (run_calm _ _ _ _ _ Hw Hs1) as (_ & Hw1 & _).
  rewrite decide_False by (by intros [|]). rewrite decide_False by (by intros [|]). rewrite decide_True by done.
  assert (Hsys : wp (syscall (sys_fcntl fd F_GETFL 0)) (λ _ w', calm_step w w') w1).
  { eapply wp_mono; [eapply syscall_run; [done|apply fcntl_quiet; by left]|]. intros a w2 [Hs2 _]. by etrans. }
  wp_step. eapply co_hooked_calm; [done|]. intros [] _; cbn [negb]; [|done].
  case_decide as Hn; [done|]. destruct Hp as [[? _]|[_ Hp]]; [done|].
  wp_step. eapply wp_mono; [eapply rd_ifd_calm; [done|by rewrite (ss_fdtab _ _ (proj1 Hs1))]|]. intros v w2 [Hs2 _].
  wp_steps. by etrans.
Qed.

Lemma setfl_ok fd flags g w :
  RUN g w → owns g t fd → hook_is true w → 0 ≤ fd < MAX_FD_NUM → has flags O_NONBLOCK = true →
  wp (fcntl fd F_SETFL flags) (λ _ w', stepped false g w w' ∧ is_Some (w_fdtab w' !! fd)) w.
Proof.
  intros Hw Ho Hh Hr Hf. unfold fcntl. rewrite decide_False by lia. wp_step. eapply get_inner_fd_calm; [done|].
  intros p w1 Hs1 Hp. pose proof (run_calm _ _ _ _ _ Hw Hs1) as Hst1. pose proof Hst1 as (_ & Hw1 & _).
  do 2 rewrite decide_False by (by intros [|]). rewrite decide_False by done. rewrite decide_True by done. unfold fcntl_setfl. wp_step.
  eapply co_hooked_is; [done|by eapply hook_stepped|]. cbn [negb]. wp_step. rewrite Hf.
  rewrite <-(ss_fdtab _ _ (proj1 Hs1)) in Hp.
  apply (wp_mono _ (λ i w', stepped false g w w' ∧ w_fdtab w' !! fd = Some i)).
  { destruct Hp as [[-> Hp]|[Hn Hp]].
    - rewrite decide_True by done. eapply wp_mono; [by apply register_ok|]. intros i w2 [? ?]. split; [by eapply stepped_trans|done].
    - rewrite decide_False by done. by wp_steps. }
  intros i w2 [Hst2 Hi]. cbn [negb]. pose proof Hst2 as (_ & Hw2 & _). wp_step.
  eapply wp_mono; [by eapply rd_ifd_calm|]. intros v w3 [Hs3 _].
  pose proof (stepped_trans _ _ _ _ Hst2 (run_calm _ _ _ _ _ Hw2 Hs3)) as Hst3. pose proof Hst3 as (_ & Hw3 & _).
  rewrite <-(ss_fdtab _ _ (proj1 Hs3)) in Hi.
  assert (Hend : ∀ w4, stepped false g w w4 → w_fdtab w4 !! fd = Some i → stepped false g w w4 ∧ is_Some (w_fdtab w4 !! fd))
    by (by eauto). case_decide; [wp_steps; by apply Hend|]. case_decide.
  { wp_step. unfold set_i_user_flags. eapply wp_mono; [by eapply (set_ifd_ok fd)|]. intros [] w4 [Hst4 Hi4]. wp_steps.
    apply Hend; [by eapply stepped_trans|done]. }
  wp_step. eapply wp_mono; [eapply syscall_run; [done|apply fcntl_quiet; by right]|]. intros r w4 [Hs4 _].
  pose proof (stepped_trans _ _ _ _ Hst3 (run_calm _ _ _ _ _ Hw3 Hs4)) as Hst4. pose proof Hst4 as (_ & Hw4 & _).
  rewrite <-(ss_fdtab _ _ (proj1 Hs4)) in Hi. wp_step. case_decide; [|wp_steps; by apply Hend].
  wp_step. unfold set_i_user_flags, set_i_flags. eapply wp_mono; [by eapply (set_ifd_ok fd)|]. intros [] w5 [Hst5 Hi5].
  pose proof Hst5 as (_ & Hw5 & _). eapply wp_mono; [by eapply (set_ifd_ok fd)|]. intros [] w6 [Hst6 Hi6]. wp_steps.
  apply Hend; [|done]. eapply stepped_trans; [done|by eapply stepped_trans].
Qed.

Lemma nonblock_has f : has (Z.lor f O_NONBLOCK) O_NONBLOCK = true.
Proof.
  unfold has. rewrite bool_decide_eq_false_2; [done|]. intros E%(f_equal (λ z, Z.testbit z 11)).
  rewrite Z.land_spec, Z.lor_spec, Z.bits_0 in E. by destruct (Z.testbit f 11).
Qed.

(** The hook is off for a moment and on again. *)
Lemma rehook_stepped g w w1 :
  RUN g w → hook_is true w → calm_step (hooked_world t 0 w) w1 → stepped false g w (hooked_world t 1 w1).
Proof.
  intros Hw (v & Hv & Hh) Hs1. destruct (run_set_hook P t 0 g w Hw) as [Hw0 Hk0].
  destruct (run_calm _ _ _ _ _ Hw0 Hs1) as (Hk1 & Hw1 & _). destruct (run_set_hook P t 1 g w1 Hw1) as [Hw2 Hk2].
  split_and!; [eapply keeps_trans; [exact Hk0|by eapply keeps_trans]|done|].
  pose proof (proj1 Hs1) as [_ _ E3 E4 _ _ _ _ _ _]. split; [done| |cbn; by rewrite E4].
  cbn. rewrite E3. cbn. rewrite !lookup_alter_eq, Hv. cbn. unfold entry. cbn. by rewrite Hh.
Qed.

Lemma in_set_nonblock_ok fd g w :
  RUN g w → owns g t fd → hook_is true w → 0 ≤ fd < MAX_FD_NUM →
  wp (in_set_nonblock fd) (λ _ w', stepped false g w w') w.
Proof.
  intros Hw Ho Hh Hr. unfold in_set_nonblock. wp_step. eapply (set_hook_wp P t 0 g w); [done|].
  destruct (run_set_hook P t 0 g w Hw) as [Hw0 _]. wp_step. eapply wp_mono; [by eapply getfl_calm|]. intros f w1 Hs1.
  pose proof (run_calm _ _ _ _ _ Hw0 Hs1) as (_ & Hw1 & _). wp_step. eapply (set_hook_wp P t 1 g w1); [done|].
  pose proof (rehook_stepped _ _ _ Hw Hh Hs1) as Hst2. pose proof Hst2 as (_ & Hw2 & _).
  wp_step. eapply wp_mono; [eapply setfl_ok; [done|done|by eapply hook_stepped|done|apply nonblock_has]|].
  intros r w3 [Hst3 Hf3]. pose proof (stepped_trans _ _ _ _ Hst2 Hst3) as Hst. pose proof Hst3 as (_ & Hw3 & _).
  case_decide; [by wp_steps|]. wp_step. eapply get_inner_fd_calm; [done|]. intros p w4 Hs4 Hp.
  destruct Hp as [[_ Hp]|[_ Hp]]; [rewrite Hp in Hf3; by destruct Hf3|]. pose proof (run_calm _ _ _ _ _ Hw3 Hs4) as Hst4.
  pose proof Hst4 as (_ & Hw4 & _). rewrite <-(ss_fdtab _ _ (proj1 Hs4)) in Hp. wp_step. unfold set_i_user_flags.
  eapply wp_mono; [by eapply (set_ifd_ok fd)|]. intros [] w5 [Hst5 _]. wp_steps.
  eapply stepped_trans; [exact Hst|by eapply stepped_trans].
Qed.

(** ** socket and accept *)

(** A call that opens a descriptor or fails. *)
Definition opening (call : kstate → (Z * Z) * kstate) : Prop :=
  ∀ k fd e k', call k = ((fd, e), k') → (fd < 0 ∧ calm k k') ∨ opens fd k k'.

(** What a call that returns a descriptor leaves the task with. *)
Definition got (r : Z) (g : own) (w : world) (g' : own) (w' : world) : Prop :=
  if decide (r < 0) then mine g w g' w' else acquired r g w g' w'.

Lemma mine_got r g w g' w' g2 w2 : mine g w g' w' → got r g' w' g2 w2 → got r g w g2 w2.
Proof. unfold got. intros Hm. case_decide; [by eapply mine_trans|by eapply mine_acquired]. Qed.

Lemma opening_ok call g w :
  opening call → RUN g w →
  wp (syscall call) (λ r w', (r < 0 ∧ calm_step w w') ∨
    (0 ≤ r < MAX_FD_NUM ∧ keeps g w (<[r := (t, false)]> g) w' ∧ RUN (<[r := (t, false)]> g) w' ∧
     acquired r g w (<[r := (t, false)]> g) w')) w.
Proof.
  intros Hc Hw. destruct (run_thread _ _ Hw) as (th & Hth & _). eapply syscall_step; [done|].
  intros r e k w' Hk Hs Ek. destruct (Hc _ _ _ _ Hk) as [[Hr Hq]|Ho].
  - left. split; [done|]. split; [done|by rewrite Ek].
  - right. split; [apply Ho|]. rewrite <-Ek in Ho. by destruct (run_open _ _ _ _ Hw Hs Ho) as (_ & ? & ? & ?).
Qed.

(** The new descriptor is made non-blocking. *)
Lemma fresh_nonblock_ok fd g0 w0 g w :
  RUN g w → acquired fd g0 w0 g w → hook_is true w → 0 ≤ fd < MAX_FD_NUM →
  wp (in_set_nonblock fd) (λ _ w', keeps g w g w' ∧ RUN g w' ∧ got fd g0 w0 g w') w.
Proof.
  intros Hw Ha Hh Hr. eapply wp_mono; [apply (in_set_nonblock_ok fd g w); [done|by apply Ha; left|done|done]|].
  intros r w' (? & ? & ?). split_and!; [done|done|]. unfold got. rewrite decide_False by lia. by eapply acquired_mine.
Qed.

Lemma csafe_socket d ty pr g w :
  RUN g w → csafe (λ r g' w', RUN g' w' ∧ got r g w g' w') g w (act (socket d ty pr)) w.
Proof.
  intros Hw. apply csafe_act. apply (outcome_wp _ (λ r w', ∃ g', keeps g w g' w' ∧ RUN g' w' ∧ got r g w g' w')).
  unfold socket. wp_step. eapply wp_mono; [eapply opening_ok; [intros k fd e k'; apply socket_opens|done]|].
  intros r w1 [[Hr Hs1]|(Hr & Hk1 & Hw1 & Ha1)].
  { rewrite decide_True by done. wp_steps. destruct (run_calm _ _ _ _ _ Hw Hs1) as (? & ? & ?). exists g.
    split_and!; [done|done|]. unfold got. by rewrite decide_True. }
  rewrite decide_False by lia. wp_step. eapply co_hooked_calm; [done|]. intros [] Hh; cbn [negb].
  - wp_step. eapply wp_mono; [eapply fresh_nonblock_ok; [done|done|by apply Hh|done]|]. intros z w2 (Hk2 & ? & ?). wp_steps.
    eexists. split_and!; [by eapply keeps_trans|done|done].
  - wp_steps. eexists. split_and!; [done|done|]. unfold got. by rewrite decide_False by lia.
Qed.

(** The second half of [accept]: the call succeeded or failed. *)
Lemma csafe_accepted {B} (f : Z → C B) (Q : B → own → world → Prop) fd g w :
  RUN g w → (∀ r w', r < 0 → RUN g w' → calm_step w w' → csafe Q g w' (f r) w') →
  (∀ r g' w', 0 ≤ r < MAX_FD_NUM → RUN g' w' → acquired r g w g' w' → csafe Q g' w' (f r) w') →
  csafe Q g w (cbind f (act (syscall (sys_accept fd)))) w.
Proof.
  intros Hw Hf1 Hf2. eapply (csafe_bind _ _ (λ r g' w', RUN g' w' ∧
    ((r < 0 ∧ g' = g ∧ calm_step w w') ∨ (0 ≤ r < MAX_FD_NUM ∧ acquired r g w g' w')))).
  - apply csafe_act. eapply outcome_mono; [exact (outcome_wp _ _ _ (opening_ok _ g w (λ k fd e k', accept_opens _ k fd e k') Hw))|].
    intros [r w'] [[Hr Hs]|(Hr & ? & ? & ?)]; cbn in *.
    + exists g. destruct (run_calm _ _ _ _ _ Hw Hs) as (? & ? & _). split; [done|]. split; [done|by left].
    + eexists. split; [done|]. split; [done|by right].
  - intros r g' w' (Hw' & [(Hr & -> & Hs)|[Hr Ha]]); [by apply Hf1|by apply Hf2].
Qed.

Lemma csafe_finish fd g0 w0 g w :
  RUN g w → acquired fd g0 w0 g w → hook_is true w0 → 0 ≤ fd < MAX_FD_NUM →
  csafe (λ r g' w', RUN g' w' ∧ got r g0 w0 g' w') g w (do! act (in_set_nonblock fd) in cret fd) w.
Proof.
  intros Hw Ha Hh Hr. assert (Hh' : hook_is true w).
  { destruct Hh as (v & Hv & Hv1). destruct (entry_func _ _ _ _ (aq_entry _ _ _ _ _ Ha) Hv) as (v' & ? & E & _).
    exists v'. split; [done|]. injection E as _ _ _ E. congruence. }
  eapply (csafe_bind _ _ (λ _ g' w', RUN g' w' ∧ got fd g0 w0 g' w')).
  - apply csafe_act. eapply outcome_mono; [exact (outcome_wp _ _ _ (fresh_nonblock_ok fd g0 w0 g w Hw Ha Hh' Hr))|].
    intros [z w'] (? & ? & ?). by exists g.
  - intros z g' w' ?. by apply csafe_ret.
Qed.

Lemma csafe_accept fd g w :
  RUN g w → owns g t fd → csafe (λ r g' w', RUN g' w' ∧ got r g w g' w') g w (accept fd) w.
Proof.
  intros Hw Ho. unfold accept. eapply csafe_calm; [done|by eapply hooked_fd_calm|]. intros isfd w1 Hw1 Hs1 Hp.
  pose proof (calm_mine g _ _ Hs1) as Hm1.
  apply csafe_accepted; [done|intros r w2 Hr Hw2 Hs2|intros r g2 w2 Hr Hw2 Ha2].
  - assert (Hs : calm_step w w2) by (by etrans).
    assert (Hlow : ∀ r' w', r' < 0 → RUN g w' → calm_step w w' → csafe (λ r g' w', RUN g' w' ∧ got r g w g' w') g w' (cret r') w').
    { intros r' w' Hr' Hw' Hs'. apply csafe_ret. split; [done|]. unfold got. rewrite decide_True by done. by apply calm_mine. }
    destruct isfd as [p|]; [|by apply Hlow]. destruct Hp as [Hp Hh]. rewrite decide_False by lia.
    eapply csafe_calm; [done|by eapply rd_errno_calm|]. intros en w3 Hw3 Hs3 _.
    case_decide; [apply Hlow; [done|done|by etrans]|].
    eapply (csafe_wait_fd _ _ _ g w); [done|apply calm_mine; by etrans|eapply calm_registered; [by split|by etrans]|].
    intros z g4 w4 Hz4 Hw4 Hm4 Hreg4. case_decide as Hz.
    { apply csafe_ret. split; [done|]. unfold got. rewrite decide_True by (destruct Hz4; lia). done. }
    apply csafe_accepted; [done|intros r' w5 Hr' Hw5 Hs5|intros r' g5 w5 Hr' Hw5 Ha5].
    + rewrite decide_True by done. apply csafe_ret. split; [done|]. unfold got. rewrite decide_True by done.
      eapply mine_trans; [exact Hm4|by apply calm_mine].
    + rewrite decide_False by lia. apply csafe_finish; [done|by eapply mine_acquired|done|done].
  - pose proof (mine_acquired _ _ _ _ _ _ _ Hm1 Ha2) as Ha. destruct isfd as [p|].
    + rewrite decide_True by lia. apply csafe_finish; [done|done|apply Hp|done].
    + apply csafe_ret. split; [done|]. unfold got. by rewrite decide_False by lia.
Qed.

(** * The timer task *)

Lemma gave_entry_hook h X g w g' w' : gave t X g w g' w' → hook_is h w → hook_is h w'.
Proof.
  intros [_ E] (v & Hv & Hh). destruct (entry_func _ _ _ _ E Hv) as (v' & ? & E' & _). exists v'. split; [done|].
  injection E' as _ _ _ E'. congruence.
Qed.

Lemma timer_calm g w :
  RUN g w → wp (rd_epoll ep) (λ e w', calm_step w w' ∧ ∃ tw, ep_timer e = Some tw ∧ tw_fd tw = su_timer P) w.
Proof.
  intros (R & ts & th & tv & Hr)%run_elim. destruct (good_epoll _ _ _ _ _ _ (rn_good _ _ _ _ _ _ _ _ Hr)) as (e & tw & (_ & He & Htw & _ & Hf) & _).
  eapply wp_rd_epoll; [done|]. split; [done|]. by exists tw.
Qed.

Lemma timeout_turn_ok r g w :
  RUN g w → owns g t (su_timer P) → hook_is true w →
  wp (timeout_turn ep r) (λ b w', ∃ g', keeps g w g' w' ∧ RUN g' w' ∧ (b = true → mine g w g' w')) w.
Proof.
  intros Hw Ho Hh. unfold timeout_turn. case_decide.
  - wp_step. eapply wp_mono; [by eapply timer_calm|]. intros e w1 [Hs1 (tw & Htw & Hf)].
    pose proof (run_calm _ _ _ _ _ Hw Hs1) as Hst1. pose proof Hst1 as (Hk1 & Hw1 & _). rewrite Htw. wp_steps. rewrite Hf.
    eapply wp_mono; [eapply (close_ok _ g w1); [done|done|by eapply hook_stepped]|]. intros z w2 (g' & Hk2 & ? & _).
    wp_steps. exists g'. split_and!; [by eapply keeps_trans|done|done].
  - pose proof Hw as [(R & ts & Hg & Hc & Hal & Hni) Ha]. wp_step. eapply wp_mono; [by eapply (timeout_tick_ok P t)|].
    intros [] w1 (R1 & ts1 & Hg1 & Hwk & Hni1). wp_steps. exists g. split_and!; [by apply woke_keeps| |].
    + split; [|done]. exists R1, ts1. split_and!; [done|by eapply woke_current|by eapply woke_alive|done].
    + intros _. by apply rely_mine, woke_rely.
Qed.

Lemma csafe_timeout_loop fuel g w :
  RUN g w → owns g t (su_timer P) → hook_is true w → csafe (λ _ g' w', RUN g' w') g w (timeout_loop fuel ep) w.
Proof.
  revert g w. induction fuel as [|fuel IH]; intros g w Hw Ho Hh; [done|]. cbn [timeout_loop].
  eapply csafe_calm; [done|by eapply timer_calm|]. intros e w1 Hw1 Hs1 (tw & Htw & Hf). rewrite Htw.
  eapply (csafe_calm (λ a _, a = tw)); [done|by wp_steps|]. intros ? w2 Hw2 Hs2 ->. rewrite Hf.
  eapply csafe_bind; [by apply csafe_read|]. intros r g3 w3 [Hw3 Hm3].
  assert (Hm : mine g w g3 w3) by (eapply mine_trans; [apply calm_mine; by etrans|exact Hm3]).
  eapply (csafe_bind _ _ (λ b g' w', RUN g' w' ∧ (b = true → mine g3 w3 g' w'))).
  { apply csafe_act. eapply outcome_mono; [exact (outcome_wp _ _ _ (timeout_turn_ok r.1 g3 w3 Hw3 (mine_owns _ _ _ _ _ Hm Ho) (hook_mine _ _ _ _ _ Hm Hh)))|].
    intros [b w'] (g' & ? & ? & ?). by exists g'. }
  intros [] g4 w4 [Hw4 Hm4]; [|by apply csafe_ret]. pose proof (mine_trans _ _ _ _ _ _ _ _ Hm (Hm4 eq_refl)) as Hm'.
  apply IH; [done|by eapply mine_owns|by eapply hook_mine].
Qed.

Lemma hooked_world_is h g w : RUN g w → hook_is h (hooked_world t (if h then 1 else 0) w).
Proof.
  intros (R & ts & th & tv & Hr)%run_elim. eexists. cbn. rewrite lookup_alter_eq, (rn_task _ _ _ _ _ _ _ _ Hr). cbn.
  split; [done|]. by destruct h.
Qed.

(** [_timeout_task] is safe for the owner of the timer. *)
Lemma csafe_timeout_task fuel g w :
  RUN g w → owns g t (su_timer P) → csafe (λ _ g' w', RUN g' w') g w (_timeout_task fuel ep) w.
Proof.
  intros Hw Ho. unfold _timeout_task. eapply csafe_bind; [by apply (csafe_hook P t true)|].
  intros [] g1 w1 (Hw1 & -> & ->). apply csafe_timeout_loop; [done|done|]. by eapply (hooked_world_is true).
Qed.

(** * The active task *)

(** The pipe of the scheduler, as the active task keeps it. *)
Definition pipe_is (a0 a1 : Z) (w : world) : Prop :=
  (∃ v, w_tasks w !! t = Some v ∧ t_func v = ActiveTask) ∧
  ∃ sv, w_scheds w !! s = Some sv ∧ s_active0 sv = a0 ∧ s_active1 sv = a1.

Lemma pipe_mine a0 a1 g w g' w' : mine g w g' w' → pipe_is a0 a1 w → pipe_is a0 a1 w'.
Proof.
  intros [_ E S] [(v & Hv & Hf) (sv & Hsv & <- & <-)]. destruct (entry_func _ _ _ _ E Hv) as (v' & ? & _ & ?).
  specialize (S v Hv Hf). rewrite Hsv in S. destruct (w_scheds w' !! s) as [sv'|] eqn:Hsv'; [|done].
  cbn in S. injection S as _ E0 E1. split; [exists v'; split; congruence|]. by exists sv'.
Qed.

Lemma current_sched_calm g w Q : RUN g w → Q s w → wp current_sched Q w.
Proof.
  intros (R & ts & th & tv & [Hg Hth Hc Ht Hnf Hni Har Hn])%run_elim HQ.
  destruct (rt_self _ _ _ _ (gd_rt _ _ _ _ _ _ Hg)) as (th' & Hth' & Hs). rewrite Hth in Hth'. injection Hth' as <-.
  eapply current_sched_ready; [done|rewrite Hs; apply (gd_rt _ _ _ _ _ _ Hg)|]. by rewrite Hs.
Qed.

Lemma active_fd_calm (i : bool) a0 a1 g w :
  RUN g w → pipe_is a0 a1 w → wp (active_fd i) (λ fd w', calm_step w w' ∧ fd = if i then a1 else a0) w.
Proof.
  intros Hw [_ (sv & Hsv & <- & <-)]. unfold active_fd. wp_step. eapply current_sched_calm; [done|]. wp_steps.
  by destruct i.
Qed.

(** Only the active task writes the pipe's descriptors. *)
Lemma set_active_ok a0 a1 g w b0 b1 :
  RUN g w → pipe_is b0 b1 w →
  wp (set_active s a0 a1) (λ _ w', keeps g w g w' ∧ RUN g w' ∧ pipe_is a0 a1 w' ∧ w_tasks w' = w_tasks w) w.
Proof.
  intros [(R & ts & Hg & Hc & Hal & Hni) Ha] [(v & Hv & Hf) (sv & Hsv & _)]. unfold set_active.
  eapply wp_upd_sched; [done|]. set (sv' := World.Sched _ _ _ _ _ _ _ _ _). split_and!; [| |split|done].
  - split; [done|done| |cbn; intros; congruence]. intros u Hu _. split; try done. intros x Hx Hfx. destruct Hu.
    by eapply (io_active _ _ _ _ (gd_io _ _ _ _ _ _ Hg)).
  - split; [|done]. exists R, ts. split_and!; [|done|done|done]. destruct Hg as [Hrt Hsy Hci Hsp Hk Hio Hob]. split; try done.
    + by eapply rt_scheds.
    + by eapply sync_ok_frame.
    + destruct Hio as [(e & tw & ((sv0 & Hsv0 & Hse) & Hw) & Hsl & Hint) Htb Hif Hhd Hlk Har Hop Hno Hac]. split; try done.
      exists e, tw. split_and!; [|done|done]. split; [|done]. exists sv'. cbn. rewrite lookup_insert_eq. split; [done|]. rewrite Hsv in Hsv0. by injection Hsv0 as ->.
  - by exists v.
  - exists sv'. cbn. by rewrite lookup_insert_eq.
Qed.

(** The kernel opens both ends or the process stops. *)
Lemma active_pipe_ok g w b0 b1 :
  RUN g w → pipe_is b0 b1 w → hook_is true w →
  swp active_pipe (λ _ w', ∃ g' a0 a1, keeps g w g' w' ∧ RUN g' w' ∧ pipe_is a0 a1 w' ∧ hook_is true w' ∧
    owns g' t a0 ∧ owns g' t a1 ∧ a0 ≠ a1 ∧ 0 ≤ a0 < MAX_FD_NUM ∧ 0 ≤ a1 < MAX_FD_NUM) w.
Proof.
  intros Hw Hp Hh. unfold active_pipe. apply swp_bind, swp_wp. eapply current_sched_calm; [done|].
  apply swp_bind, swp_wp, wp_get. destruct (sys_pipe (w_kernel w)) as [[r [p0 p1]] k] eqn:Hk.
  apply swp_bind, swp_wp, wp_put_kernel. case_decide as Hr; [by do 4 right|].
  destruct (pipe_opens _ _ _ _ _ Hk) as [[? _]|(k1 & Ho0 & Ho1)]; [done|].
  assert (Hstep : ∀ w k, sys_step w (with_kernel w k)) by (intros; split; try done; by eauto).
  destruct (run_open _ _ _ p0 Hw (Hstep w k1) Ho0) as (_ & Hk1 & Hw1 & Ha1).
  destruct (run_open _ _ _ p1 Hw1 (Hstep (with_kernel w k1) k) Ho1) as (_ & Hk2 & Hw2 & Ha2).
  change (with_kernel (with_kernel w k1) k) with (with_kernel w k) in *. set (g2 := <[p1 := (t, false)]> (<[p0 := (t, false)]> g)) in *.
  apply swp_wp. eapply wp_mono; [by eapply (set_active_ok p0 p1 g2 (with_kernel w k) b0 b1)|].
  intros [] w3 (Hk3 & Hw3 & Hp3 & Et). exists g2, p0, p1. split_and!; try done.
  - eapply keeps_trans; [exact Hk1|]. by eapply keeps_trans.
  - destruct Hh as (v & ? & ?). exists v. by rewrite Et.
  - apply Ha2. right. apply Ha1. by left.
  - apply Ha2. by left.
  - intros <-. destruct Ho0 as (_ & _ & E & _), Ho1 as (_ & Hn & _). apply Hn. rewrite E. set_solver.
  - apply Ho0.
  - apply Ho0.
  - apply Ho1.
  - apply Ho1.
Qed.

Lemma active_setup_ok (i : bool) a0 a1 g w :
  RUN g w → pipe_is a0 a1 w → hook_is true w → owns g t (if i then a1 else a0) →
  0 ≤ (if i then a1 else a0) < MAX_FD_NUM → wp (active_setup i) (λ _ w', stepped false g w w') w.
Proof.
  intros Hw Hp Hh Ho Hr. unfold active_setup. wp_step. eapply wp_mono; [by eapply active_fd_calm|].
  intros ? w1 [Hs1 ->]. pose proof (run_calm _ _ _ _ _ Hw Hs1) as Hst1. pose proof Hst1 as (_ & Hw1 & _). wp_step.
  set (fd := if i then a1 else a0) in *.
  eapply wp_mono; [by eapply getfl_calm|]. intros f w2 Hs2. pose proof (stepped_trans _ _ _ _ Hst1 (run_calm _ _ _ _ _ Hw1 Hs2)) as Hst2.
  pose proof Hst2 as (_ & Hw2 & _). wp_step.
  eapply wp_mono; [eapply (setfl_ok fd); [done|done|by eapply hook_stepped|done|apply nonblock_has]|].
  intros r w3 [Hst3 Hf3]. pose proof (stepped_trans _ _ _ _ Hst2 Hst3) as Hst. pose proof Hst3 as (_ & Hw3 & _).
  wp_step. eapply get_inner_fd_calm; [done|]. intros p w4 Hs4 Hp4.
  destruct Hp4 as [[_ Hp4]|[_ Hp4]]; [rewrite Hp4 in Hf3; by destruct Hf3|]. pose proof (run_calm _ _ _ _ _ Hw3 Hs4) as Hst4.
  pose proof Hst4 as (_ & Hw4 & _). rewrite <-(ss_fdtab _ _ (proj1 Hs4)) in Hp4. unfold set_i_timeout.
  eapply wp_mono; [by eapply (set_ifd_ok fd)|]. intros [] w5 [Hst5 _].
  eapply stepped_trans; [exact Hst|by eapply stepped_trans].
Qed.

Lemma csafe_active_loop fuel a0 a1 g0 w0 g w :
  RUN g w → mine g0 w0 g w → pipe_is a0 a1 w → owns g t a0 → csafe (ended g0 w0) g w (active_loop fuel) w.
Proof.
  revert g w. induction fuel as [|fuel IH]; intros g w Hw Hm Hp Ho; [done|]. cbn [active_loop].
  eapply csafe_calm; [done|by eapply (active_fd_calm false)|]. intros ? w1 Hw1 Hs1 ->.
  eapply csafe_bind; [by apply csafe_read|]. intros r g2 w2 [Hw2 Hm2].
  assert (Hm2' : mine g w g2 w2) by (eapply mine_trans; [by apply calm_mine|exact Hm2]).
  assert (Hm0 : mine g0 w0 g2 w2) by (by eapply mine_trans).
  case_decide; [|by apply csafe_end]. apply IH; [done|done|exact (pipe_mine _ _ _ _ _ _ Hm2' Hp)|exact (mine_owns _ _ _ _ _ Hm2' Ho)].
Qed.

Lemma active_close_ok (i : bool) a0 a1 g w :
  RUN g w → pipe_is a0 a1 w → hook_is true w → owns g t (if i then a1 else a0) →
  wp (active_close i) (λ _ w', ∃ g', keeps g w g' w' ∧ RUN g' w' ∧ hook_is true w' ∧
    pipe_is (if i then a0 else -1) (if i then -1 else a1) w' ∧
    ∀ fd, owns g t fd → fd ≠ (if i then a1 else a0) → owns g' t fd) w.
Proof.
  intros Hw Hp Hh Ho. unfold active_close. wp_step. eapply wp_mono; [by eapply active_fd_calm|]. intros ? w1 [Hs1 ->].
  pose proof (run_calm _ _ _ _ _ Hw Hs1) as Hst1. pose proof Hst1 as (Hk1 & Hw1 & Hm1).
  pose proof (pipe_mine _ _ _ _ _ _ Hm1 Hp) as Hp1. wp_step.
  set (fd := if i then a1 else a0) in *.
  eapply wp_mono; [by eapply (close_ok fd g w1); [| |eapply hook_stepped]|]. intros z w2 (g2 & Hk2 & Hw2 & Hg2 & Es2).
  destruct Hp1 as [(v & Hv & Hf) (sv & Hsv & E0 & E1)].
  assert (Hp2 : pipe_is a0 a1 w2).
  { destruct (entry_func _ _ _ _ (gv_entry _ _ _ _ _ _ Hg2) Hv) as (v' & ? & _ & ?).
    split; [exists v'; split; congruence|]. exists sv. by rewrite Es2. }
  wp_step. eapply current_sched_calm; [done|]. wp_step. eapply wp_rd_sched; [by rewrite Es2|]. rewrite E0, E1.
  apply (wp_mono _ (λ _ w', keeps g2 w2 g2 w' ∧ RUN g2 w' ∧ pipe_is (if i then a0 else -1) (if i then -1 else a1) w' ∧
    w_tasks w' = w_tasks w2)).
  { destruct i; by eapply set_active_ok. }
  intros [] w3 (Hk3 & Hw3 & Hp3 & Et3). exists g2. split_and!; [|done| |done|].
  - eapply keeps_trans; [exact Hk1|]. by eapply keeps_trans.
  - destruct (gave_entry_hook true _ _ _ _ _ Hg2) as (v' & ? & ?); [by eapply hook_stepped|]. exists v'. by rewrite Et3.
  - intros fd' Ho' Hne. apply Hg2. split; [done|set_solver].
Qed.

(** [_active_task] is safe for the one active task. *)
Lemma csafe_active_task fuel g w :
  RUN g w → hook_is true w → (∃ v, w_tasks w !! t = Some v ∧ t_func v = ActiveTask) →
  csafe (λ _ g' w', RUN g' w') g w (_active_task fuel) w.
Proof.
  intros Hw Hh Hf. assert (Hp : ∃ b0 b1, pipe_is b0 b1 w).
  { pose proof Hw as (R & ts & th & tv & Hr)%run_elim.
    destruct (rt_sched _ _ _ _ (gd_rt _ _ _ _ _ _ (rn_good _ _ _ _ _ _ _ _ Hr))) as (sv & Hsv & _).
    exists (s_active0 sv), (s_active1 sv). split; [done|by exists sv]. }
  destruct Hp as (b0 & b1 & Hp). unfold _active_task.
  eapply (csafe_bind _ _ (λ _ g' w', ∃ a0 a1, RUN g' w' ∧ pipe_is a0 a1 w' ∧ hook_is true w' ∧
    owns g' t a0 ∧ owns g' t a1 ∧ a0 ≠ a1 ∧ 0 ≤ a0 < MAX_FD_NUM ∧ 0 ≤ a1 < MAX_FD_NUM)).
  { apply csafe_act. eapply outcome_mono; [by eapply active_pipe_ok|]. intros r (g' & a0 & a1 & ? & ?). exists g'.
    split; [done|]. by exists a0, a1. }
  intros [] g1 w1 (a0 & a1 & Hw1 & Hp1 & Hh1 & Ho0 & Ho1 & Hne & Hr0 & Hr1).
  eapply (csafe_stepped (λ _ _, True)); [done| |].
  { wp_step. eapply wp_mono; [by eapply (active_setup_ok false)|]. intros [] w2 Hst2. pose proof Hst2 as (_ & Hw2 & Hm2).
    eapply wp_mono; [eapply (active_setup_ok true); [done|by eapply pipe_mine|by eapply hook_mine|done|done]|].
    intros [] w3 Hst3. split; [|done]. by eapply stepped_trans. }
  intros [] w2 Hw2 Hm2 _.
  eapply csafe_bind; [eapply (csafe_active_loop _ a0 a1); [done|apply mine_refl|by eapply pipe_mine|done]|]. intros [] g3 w3 [Hw3 Hm3].
  pose proof (mine_trans _ _ _ _ _ _ _ _ Hm2 Hm3) as Hm. apply csafe_act.
  apply (outcome_wp _ (λ _ w', ∃ g', keeps g3 w3 g' w' ∧ RUN g' w')). wp_step.
  eapply wp_mono; [eapply (active_close_ok false a0 a1); [done|by eapply pipe_mine|by eapply hook_mine|by eapply mine_owns]|].
  intros [] w4 (g4 & Hk4 & Hw4 & Hh4 & Hp4 & Ho4).
  eapply wp_mono; [eapply (active_close_ok true (-1) a1); [done|done|done|by apply Ho4; [eapply mine_owns|]]|].
  intros [] w5 (g5 & Hk5 & Hw5 & _). exists g5. split; [by eapply keeps_trans|done].
Qed.

End hooks.
