(* ===== verification/ChanSafety.v ===== *)
(** Rules for channels and barriers: a declared channel of pointers and a declared
    barrier can be used by every task.

    The state of a channel is in order at every switch, not only while its mutex is
    free: nothing happens between the test that ends a wait and the operation it
    guards. *)

From Stdlib Require Import ZArith Lia.
From stdpp Require Import base numbers strings sets gmap list.
From S2P Require Import Prelude IntrusiveList Links Deque Array Heap Cid SpinLock TimeWheel HashMap World Coroutine InnerFd.
From S2P Require Import Task Sched Event Schedule Mutex Cond Sem Blocking Hook Helper Chan ChanObjects Descriptors Runtime.
From S2P Require Import TaskSafety IoSafety WakeSafety HookSafety.
Open Scope Z_scope.

Section chans.
Context `{Sk : Sockets} {Fv : FdView} {D : Descriptors}.
Context (P : setup) (t : ptr).

Local Notation good := (good P).
Local Notation objs_ok := (objs_ok P).
Local Notation RUN := (RUN P t).
Local Notation mine := (mine P t).
Local Notation stepped := (stepped P t).
Local Notation safe := (safe P t).
Local Notation csafe := (csafe P t).

(** * The objects of a running task *)

Lemma good_objs w R ts k g o : good w R ts k g → objs_ok o → good (with_objs w o) R ts k g.
Proof.
  intros [Hrt Hsy Hc Hsp Hk Hio _] Ho. split; try done; [by eapply rt_frame|by eapply sync_ok_frame|].
  destruct Hio. by split.
Qed.

Lemma run_objs g w o : RUN g w → objs_ok o → stepped false g w (with_objs w o).
Proof.
  intros [(R & ts & Hg & Hc & Ht & Hni) Ha] Ho. split_and!; [split; try done; cbn; congruence| |done].
  split; [|done]. exists R, ts. split; [by apply good_objs|done].
Qed.

Lemma run_objs_ok g w : RUN g w → objs_ok (w_objs w).
Proof. intros [(R & ts & Hg & _) _]. apply Hg. Qed.

(** What a channel holds at a switch. *)
Definition chan_ok (c : ptr) (w : world) : Prop := ∃ n q, chan_holds c n 0 (w_objs w) q.

Lemma objs_ok_chan c n q o o' : objs_ok o → only_chan c o o' → chan_holds c n 0 o' q → objs_ok o'.
Proof.
  intros [Hch Hb] Hoc Hc. split; [|by rewrite (oc_bars _ _ _ Hoc)]. intros c' [Hd (n' & q' & Hc')]%Hch. split; [done|].
  destruct (decide (c' = c)) as [->|Hne]; [by eauto|]. exists n', q'. by eapply chan_holds_other.
Qed.

Lemma run_chan g w c n q o : RUN g w → only_chan c (w_objs w) o → chan_holds c n 0 o q → stepped false g w (with_objs w o).
Proof. intros Hw Hoc Hc. apply run_objs; [done|]. eapply objs_ok_chan; [by eapply run_objs_ok|done..]. Qed.

(** * Waiting for an object *)

(** A test that reads; when it fails, [T] holds. *)
Definition tests (T : world → Prop) (test : M bool) : Prop :=
  ∀ g w, RUN g w → wp test (λ b w', w' = w ∧ (b = false → T w)) w.

Lemma csafe_test {B} T (test : M bool) (f : bool → C B) (Q : B → own → world → Prop) g w :
  tests T test → RUN g w → (∀ b : bool, (b = false → T w) → csafe Q g w (f b) w) → csafe Q g w (cbind f (act test)) w.
Proof.
  intros Ht Hw Hf. eapply (csafe_stepped _ _ (λ b w', w' = w ∧ (b = false → T w))); [done| |].
  - eapply wp_mono; [by eapply Ht|]. intros b w' [-> ?]. split; [by apply stepped_refl|done].
  - intros b w' _ _ [-> ?]. by apply Hf.
Qed.

Lemma csafe_wait_while T test cond m fuel g w :
  tests T test → cond ∈ su_conds P → m ∈ su_mutexes P → RUN g w →
  csafe (λ _ g' w', RUN g' w' ∧ mine g w g' w' ∧ T w') g w (wait_while fuel test cond m) w.
Proof.
  intros Ht Hc Hm. revert g w. induction fuel as [|fuel IH]; intros g w Hw; cbn [wait_while];
    (eapply csafe_test; [done..|]); intros [] HT; cbn [negb].
  - done.
  - apply csafe_ret. split_and!; [done|apply mine_refl|by apply HT].
  - eapply csafe_seq; [by apply safe_wait|done|]. intros [] g' w' Hw' Hm'.
    eapply csafe_mono; [by apply IH|]. cbn. intros _ g2 w2 (? & ? & ?). split_and!; [done|by eapply mine_trans|done].
  - apply csafe_ret. split_and!; [done|apply mine_refl|by apply HT].
Qed.

(** * Channels *)

Section channel.
Context (c : ptr) (Hin : c ∈ su_chans P).

Lemma chan_declared g w :
  RUN g w → (c ≠ NULL ∧ chan_mutex c ∈ su_mutexes P ∧ chan_not_full c ∈ su_conds P ∧ chan_not_empty c ∈ su_conds P) ∧
  chan_ok c w.
Proof. intros Hw. exact (ob_chan _ _ (run_objs_ok _ _ Hw) c Hin). Qed.

(** There is room for a message, or a message. *)
Definition has_room (w : world) : Prop := ∃ n q, chan_holds c n 0 (w_objs w) q ∧ Z.of_nat (length q) < Z.max 1 n.
Definition has_msg (w : world) : Prop := ∃ n p q, chan_holds c n 0 (w_objs w) (p :: q).

Lemma full_tests : tests has_room (chan_msgs_full c).
Proof.
  intros g w Hw. destruct (chan_declared g w Hw) as [_ (n & q & Hc)]. pose proof Hc as (Hn & Hl & _).
  destruct (decide (n = 0)) as [->|Hne].
  - pose proof Hc as (_ & _ & d & ns & ps & Ho & Hd & Hps). unfold chan_msgs_full. wp_step. eapply wp_rd_chan; [done|]. wp_step.
    split; [done|]. intros Hf. exists 0, q. split; [done|]. revert Hf. unfold msgs_full, deque_size. cbn.
    rewrite (rep_size _ _ _ Hd), (Forall2_length _ _ _ Hps).
    rewrite (bool_decide_eq_true_2 (0 = 0)), orb_false_iff, andb_true_l, !bool_decide_eq_false by done. intros [_ ?]. lia.
  - eapply chan_msgs_full_wp; [done|lia|]. split; [done|]. rewrite bool_decide_eq_false. unfold full. intros ?.
    exists n, q. split; [done|]. lia.
Qed.

Lemma empty_tests : tests has_msg (chan_msgs_empty c).
Proof.
  intros g w Hw. destruct (chan_declared g w Hw) as [_ (n & q & Hc)]. eapply chan_msgs_empty_wp; [done|].
  split; [done|]. rewrite bool_decide_eq_false. destruct q as [|p q]; [done|]. intros _. by exists n, p, q.
Qed.

Lemma push_ok msg g w : RUN g w → has_room w → wp (chan_push_msg c msg) (λ _ w', stepped false g w w') w.
Proof.
  intros Hw (n & q & Hc & Hl). eapply (push_wp c n 0 msg (inl msg) q); [|done|].
  - split; [done|]. split; [by left|done].
  - intros o' [Hc' _] Hoc. by eapply run_chan.
Qed.

Lemma pop_ok g w : RUN g w → has_msg w → wp (chan_pop_msg c) (λ _ w', stepped false g w w') w.
Proof. intros Hw (n & p & q & Hc). eapply pop_wp; [done|]. intros o' x Hc' _ Hoc. by eapply run_chan. Qed.

Lemma nobuffer_push_ok msg g w : RUN g w → wp (nobuffer_push c msg) (λ _ w', stepped false g w w') w.
Proof.
  intros Hw. destruct (chan_declared g w Hw) as [(_ & _ & _ & Hne) (n & q & Hc)]. unfold nobuffer_push. wp_step.
  eapply chan_msgs_empty_wp; [done|]. case_bool_decide as Hq; [|wp_steps; by apply stepped_refl].
  wp_step. eapply wp_mono; [apply (push_ok msg g w Hw); exists n, q; split; [done|]; rewrite Hq; cbn; lia|].
  intros r w1 Hs1. wp_step. eapply wp_mono; [by apply signal_ok; [|apply Hs1]|]. intros [] w2 Hs2. wp_steps.
  exact (stepped_trans _ _ _ _ _ _ Hs1 Hs2).
Qed.

Lemma safe_at_chan {A} (x : C A) :
  (c ≠ NULL → chan_mutex c ∈ su_mutexes P → chan_not_full c ∈ su_conds P → chan_not_empty c ∈ su_conds P → safe x) → safe x.
Proof. intros Hx g w Hw. destruct (chan_declared g w Hw) as [(? & ? & ? & ?) _]. by apply Hx. Qed.

Lemma safe_nobuffer_wait fuel sent : safe (nobuffer_wait fuel c sent).
Proof.
  apply safe_at_chan. intros _ Hm Hf _. induction fuel as [|fuel IH]; intros g w Hw; cbn [nobuffer_wait];
    (eapply csafe_test; [apply empty_tests|done|]); intros [] _; try (by apply safe_ret); [done|].
  eapply safe_bind; [by apply safe_wait| |done]. intros _. destruct sent; [apply safe_ret|done].
Qed.

Lemma safe_nobuffer_turns fuel msg : safe (nobuffer_turns fuel c msg).
Proof.
  induction fuel as [|fuel IH]; cbn [nobuffer_turns]; [done|].
  apply safe_bind; [apply safe_wp; intros; by apply nobuffer_push_ok|]. intros sent.
  apply safe_bind; [apply safe_nobuffer_wait|]. intros _. destruct sent; [apply safe_ret|done].
Qed.

(** A lock, a wait, one step and the end of an operation. *)
Lemma safe_guarded {A B} T test cond fuel (x : M A) (f : A → C B) :
  tests T test → cond ∈ su_conds P → chan_mutex c ∈ su_mutexes P →
  (∀ g w, RUN g w → T w → wp x (λ _ w', stepped false g w w') w) → (∀ a, safe (f a)) →
  safe (do! mutex_lock fuel (chan_mutex c) in do! wait_while fuel test cond (chan_mutex c) in let! a := act x in f a).
Proof.
  intros Ht Hc Hm Hx Hf. apply safe_bind; [by apply safe_lock|]. intros _ g w Hw.
  eapply csafe_bind; [by apply (csafe_wait_while T)|]. cbn. intros _ g1 w1 (Hw1 & Hm1 & HT).
  eapply (csafe_stepped _ _ (λ _ _, True)); [done|eapply wp_mono; [by apply Hx|done]|]. intros a w2 Hw2 Hm2 _.
  eapply csafe_mono; [by apply Hf|]. cbn. intros b g3 w3 [? ?]. split; [done|].
  eapply mine_trans; [exact Hm1|]. by eapply mine_trans.
Qed.

Lemma safe_end_op {A} (a : A) (cs : list ptr) :
  (∀ x, x ∈ cs → x ∈ su_conds P) → chan_mutex c ∈ su_mutexes P →
  safe (foldr (λ x k, do! act (co_cond_signal x) in k) (do! act (co_mutex_unlock (chan_mutex c)) in cret a) cs).
Proof.
  intros Hcs Hm. induction cs as [|x cs IH]; cbn.
  - apply safe_bind; [by apply safe_unlock|]. intros _. apply safe_ret.
  - apply safe_bind; [apply safe_signal, Hcs; by left|]. intros _. apply IH. intros y Hy. apply Hcs. by right.
Qed.

Lemma safe_chan_send fuel msg : safe (chan_send fuel c msg).
Proof.
  apply safe_at_chan. intros Hc Hm Hf He. unfold chan_send.
  apply safe_bind; [apply safe_read; intros g w Hw; unfold assert_chan; rewrite decide_False by done; by wp_steps|]. intros _.
  apply safe_bind; [apply safe_read; intros g w Hw; destruct (chan_declared g w Hw) as [_ (n & q & Hh)]; by eapply buffered_wp|].
  intros b. case_decide.
  - unfold chan_buffer_send. apply (safe_guarded has_room); [apply full_tests|done|done|intros; by apply push_ok|].
    intros _. apply (safe_end_op 0 [chan_not_empty c]); [|done]. by intros x ->%list_elem_of_singleton.
  - unfold chan_nobuffer_send. apply safe_bind; [by apply safe_lock|]. intros _.
    apply safe_bind; [apply safe_nobuffer_turns|]. intros _. apply (safe_end_op 0 []); [by intros ? ?%not_elem_of_nil|done].
Qed.

Lemma safe_chan_recv fuel : safe (chan_recv fuel c).
Proof.
  apply safe_at_chan. intros Hc Hm Hf He. unfold chan_recv.
  apply safe_bind; [apply safe_read; intros g w Hw; unfold assert_chan; rewrite decide_False by done; by wp_steps|]. intros _.
  apply safe_bind; [apply safe_read; intros g w Hw; destruct (chan_declared g w Hw) as [_ (n & q & Hh)]; by eapply buffered_wp|].
  intros b. case_decide; unfold chan_buffer_recv, chan_nobuffer_recv;
    (apply (safe_guarded has_msg); [apply empty_tests|done|done|intros; by apply pop_ok|]); intros msg.
  - apply (safe_end_op (0, msg) [chan_not_full c]); [|done]. by intros x ->%list_elem_of_singleton.
  - apply (safe_end_op (0, msg) [chan_not_full c; chan_not_full c]); [|done]. intros x. set_solver.
Qed.

Lemma safe_chan_size : safe (act (chan_size c)).
Proof.
  apply safe_read. intros g w Hw. destruct (chan_declared g w Hw) as [_ (n & q & _ & _ & d & ns & ps & Ho & _)].
  unfold chan_size. wp_step. eapply wp_rd_chan; [done|]. by wp_step.
Qed.

Lemma safe_chan_close : safe (act (chan_close c)).
Proof.
  apply safe_wp. intros g w Hw. destruct (chan_declared g w Hw) as [_ (n & q & Hn & _ & d & ns & ps & Ho & Hd & _)].
  destruct (deque_clear_rep _ _ _ Hd) as (d' & Hcl & Hd' & _). unfold chan_close. wp_step. eapply wp_rd_chan; [done|]. wp_step.
  eapply wp_lift; [exact Hcl|]. apply wp_wr_chan. eapply (run_chan _ _ c n []); [done|apply only_chan_with|].
  split; [done|]. split; [cbn; lia|]. exists d', [], []. cbn. by rewrite lookup_insert_eq.
Qed.

End channel.

(** * Barriers *)

Section barrier.
Context (b : ptr) (Hin : b ∈ su_bars P).

Lemma bar_declared g w :
  RUN g w → (bar_mutex b ∈ su_mutexes P ∧ bar_cond b ∈ su_conds P) ∧ ∃ n, o_bars (w_objs w) !! b = Some n.
Proof. intros Hw. exact (ob_bar _ _ (run_objs_ok _ _ Hw) b Hin). Qed.

Lemma wr_bar_ok n g w : RUN g w → wp (wr_bar b n) (λ _ w', stepped false g w w') w.
Proof.
  intros Hw. apply wp_wr_bar. apply run_objs; [done|]. destruct (run_objs_ok g w Hw) as [Hc Hb]. split; cbn; [exact Hc|].
  intros b' [? ?]%Hb. split; [done|]. rewrite lookup_insert. case_decide; by eauto.
Qed.

Lemma arrive_ok g w : RUN g w → wp (bar_arrive b) (λ _ w', stepped false g w w') w.
Proof.
  intros Hw. destruct (bar_declared g w Hw) as [_ [n Hn]]. unfold bar_arrive. wp_step. eapply wp_rd_bar; [done|].
  wp_step. eapply wp_mono; [by apply wr_bar_ok|]. intros [] w' Hs. by wp_steps.
Qed.

Lemma safe_at_bar {A} (x : C A) : (bar_mutex b ∈ su_mutexes P → bar_cond b ∈ su_conds P → safe x) → safe x.
Proof. intros Hx g w Hw. destruct (bar_declared g w Hw) as [[? ?] _]. by apply Hx. Qed.

Lemma safe_bar_wait fuel : safe (co_bar_wait fuel b).
Proof.
  apply safe_at_bar. intros Hm Hc.
  assert (Ho : safe (act (bar_open b))).
  { apply safe_read. intros g w Hw. destruct (bar_declared g w Hw) as [_ [n Hn]]. unfold bar_open. wp_step.
    eapply wp_rd_bar; [done|]. by wp_step. }
  assert (Hs : tests (λ _, True) (bar_shut b)).
  { intros g w Hw. destruct (bar_declared g w Hw) as [_ [n Hn]]. unfold bar_shut. wp_step. eapply wp_rd_bar; [done|]. by wp_step. }
  unfold co_bar_wait. apply safe_bind; [done|]. intros [|]; [apply safe_ret|].
  apply safe_bind; [by apply safe_lock|]. intros _. apply safe_bind; [done|]. intros o.
  apply safe_bind; [|intros _; by apply safe_unlock]. destruct o; [apply safe_ret|].
  apply safe_bind; [apply safe_wp; intros; by apply arrive_ok|]. intros [|]; [by apply safe_signal|].
  intros g w Hw. eapply csafe_mono; [by apply (csafe_wait_while (λ _, True))|]. by intros _ g' w' (? & ? & _).
Qed.

Lemma safe_bar_destory fuel : safe (co_bar_destory fuel b).
Proof.
  apply safe_at_bar. intros Hm Hc. unfold co_bar_destory. apply safe_bind; [by apply safe_lock|]. intros _.
  apply safe_bind; [apply safe_wp; intros; by apply wr_bar_ok|]. intros _.
  apply safe_bind; [by apply safe_signal|]. intros _. by apply safe_unlock.
Qed.

End barrier.
End chans.
