(* ===== verification/Scripts.v ===== *)
(** Task functions, as programs against the library: the calls a function makes and
    how it goes on depending on their results, with the typing discipline under
    which they are safe.

    A function is typed in a context: whether its calls are hooked, and which
    descriptors it owns.  It may use the declared mutexes, conditions, semaphores,
    channels and barriers, and its own descriptors; what it opens or accepts becomes
    its own, what it closes or hands to a new task is so no longer. *)

From Stdlib Require Import ZArith Lia.
From stdpp Require Import base numbers strings sets gmap list.
From S2P Require Import Prelude IntrusiveList Links Array Heap Cid SpinLock TimeWheel HashMap World Coroutine InnerFd.
From S2P Require Import Task Sched Event Schedule Mutex Cond Sem Blocking Hook Helper Chan Descriptors Runtime TaskSafety IoSafety.
From S2P Require Import WakeSafety HookSafety ChanSafety.
Open Scope Z_scope.

(** The calls a task function makes. *)
Inductive action :=
| ACreate (n : Z) (ip op : ptr)
| AYield
| AExit
| ASelf
| AGetCid
| ACount
| AHook (on : bool)
| ALock (m : ptr)
| ATryLock (m : ptr)
| AUnlock (m : ptr)
| AWait (c m : ptr)
| ASignal (c : ptr)
| ABroadcast (c : ptr)
| ASemWait (p : ptr)
| ASemTry (p : ptr)
| ASemPost (p : ptr)
| AChanSend (c msg : ptr)
| AChanRecv (c : ptr)
| AChanSize (c : ptr)
| AChanClose (c : ptr)
| ABarWait (b : ptr)
| ABarDestory (b : ptr)
| ASocket (domain type protocol : Z)
| AListen (fd backlog : Z)
| AConnect (fd address : Z)
| AAccept (fd : Z)
| AClose (fd : Z)
| ARead (fd n : Z)
| ARecv (fd n flags : Z)
| ARecvfrom (fd n flags : Z)
| ARecvmsg (fd flags : Z)
| AWrite (fd : Z) (buf : list Z)
| ASend (fd : Z) (buf : list Z) (flags : Z)
| ASendto (fd : Z) (buf : list Z) (flags dest : Z).

(** What a call returns: a number and, when it receives, the bytes; from a channel
    comes a pointer. *)
Abbreviation reply := (Z * list Z)%type.

(** A function: what it does next may depend on all results so far. *)
Inductive script := Done | Do (a : action) (k : reply → script).

Section scripts.
Context `{Sk : Sockets}.

(** A result that is a number, or none. *)
Definition num (c : C Z) : C reply := let! r := c in cret (r, []).
Definition none (c : C unit) : C reply := do! c in cret (0, []).

Definition perform (fuel : nat) (a : action) : C reply :=
  match a with
  | ACreate n ip op => none (act (co_create (UserFunc n) ip op))
  | AYield => none yield
  | AExit => do! act task_exit in do! yield in cret (0, [])
  | ASelf => num (act co_self)
  | AGetCid => num (act getcid)
  | ACount => num (act task_count)
  | AHook on => none (act (if on then co_enable_hook else co_disable_hook))
  | ALock m => none (mutex_lock fuel m)
  | ATryLock m => let! r := act (co_mutex_try_lock m) in cret (Z.b2z r, [])
  | AUnlock m => none (act (co_mutex_unlock m))
  | AWait c m => none (cond_wait fuel c m)
  | ASignal c => none (act (co_cond_signal c))
  | ABroadcast c => none (act (co_cond_broadcast c))
  | ASemWait p => none (sem_wait fuel p)
  | ASemTry p => num (act (co_sem_try_wait p))
  | ASemPost p => none (act (co_sem_post p))
  | AChanSend c msg => num (chan_send fuel c msg)
  | AChanRecv c => let! r := chan_recv fuel c in cret (r.1, [r.2])
  | AChanSize c => num (act (chan_size c))
  | AChanClose c => none (act (chan_close c))
  | ABarWait b => none (co_bar_wait fuel b)
  | ABarDestory b => none (co_bar_destory fuel b)
  | ASocket d ty pr => num (act (socket d ty pr))
  | AListen fd n => num (act (listen fd n))
  | AConnect fd a => num (connect fd a)
  | AAccept fd => num (accept fd)
  | AClose fd => num (act (close fd))
  | ARead fd n => read fd n
  | ARecv fd n fl => recv fd n fl
  | ARecvfrom fd n fl => recvfrom fd n fl
  | ARecvmsg fd fl => recvmsg fd fl
  | AWrite fd buf => num (write fuel fd buf)
  | ASend fd buf fl => num (send fuel fd buf fl)
  | ASendto fd buf fl a => num (sendto fuel fd buf fl a)
  end.

Fixpoint exec (fuel : nat) (sc : script) : C unit :=
  match sc with
  | Done => cret ()
  | Do a k => let! r := perform fuel a in exec fuel (k r)
  end.

End scripts.

(** * Typing *)

Section typing.
Context (P : setup).

(** Whether the calls are hooked, and the descriptors the function owns. *)
Record ctx := Ctx { hooked : bool; fds : gset Z }.

Definition fits (buf : list Z) : Prop := Z.of_nat (length buf) ≤ INT_MAX.

(** When a call may be made. *)
Definition allowed (c : ctx) (a : action) : Prop :=
  match a with
  | ALock m | ATryLock m | AUnlock m => m ∈ su_mutexes P
  | AWait cv m => cv ∈ su_conds P ∧ m ∈ su_mutexes P
  | ASignal cv | ABroadcast cv => cv ∈ su_conds P
  | ASemWait p | ASemTry p | ASemPost p => p ∈ su_sems P
  | AChanSend c _ | AChanRecv c | AChanSize c | AChanClose c => c ∈ su_chans P
  | ABarWait b | ABarDestory b => b ∈ su_bars P
  | ACreate n ip op => su_needs P n ip op ⊆ fds c
  | AListen fd _ | AConnect fd _ | AAccept fd => fd ∈ fds c
  | AClose fd => hooked c = true ∧ fd ∈ fds c
  | ARead fd _ | ARecv fd _ _ | ARecvfrom fd _ _ | ARecvmsg fd _ => fd ∈ fds c
  | AWrite fd buf | ASend fd buf _ | ASendto fd buf _ _ => fd ∈ fds c ∧ fits buf
  | _ => True
  end.

(** The context after the call returned [r]. *)
Definition after (c : ctx) (a : action) (r : Z) : ctx :=
  match a with
  | AHook on => Ctx on (fds c)
  | ACreate n ip op => Ctx (hooked c) (fds c ∖ su_needs P n ip op)
  | ASocket _ _ _ | AAccept _ => if decide (r < 0) then c else Ctx (hooked c) ({[r]} ∪ fds c)
  | AClose fd => Ctx (hooked c) (fds c ∖ {[fd]})
  | _ => c
  end.

(** A descriptor that is opened is none of the function's own. *)
Definition possible (c : ctx) (a : action) (r : Z) : Prop :=
  match a with ASocket _ _ _ | AAccept _ => 0 ≤ r → r ∉ fds c | _ => True end.

Inductive typed : ctx → script → Prop :=
| typed_done c : typed c Done
| typed_do c a k : allowed c a → (∀ r, possible c a r.1 → typed (after c a r.1) (k r)) → typed c (Do a k).

(** Every function of the program starts with the descriptors it needs. *)
Definition typed_program (prog : Z → ptr → ptr → script) : Prop :=
  ∀ n ip op, typed (Ctx true (su_needs P n ip op)) (prog n ip op).

End typing.

(** * Soundness *)

Section sound.
Context `{Sk : Sockets} {Fv : FdView} {D : Descriptors}.
Context (P : setup) (t : ptr).

Local Notation RUN := (RUN P t).
Local Notation mine := (mine P t).
Local Notation csafe := (csafe P t).
Local Notation safe := (safe P t).

Definition ctx_ok (c : ctx) (g : own) (w : world) : Prop :=
  hook_is t (hooked c) w ∧ ∀ fd, fd ∈ fds c → owns g t fd.

Lemma ctx_mine c g w g' w' : mine g w g' w' → ctx_ok c g w → ctx_ok c g' w'.
Proof. intros Hm [Hh Ho]. split; [by eapply hook_mine|]. intros fd ?%Ho. by eapply mine_owns. Qed.

(** A neutral call. *)
Lemma neutral_ok {A} (c : C A) (f : A → reply) x g w :
  safe c → RUN g w → ctx_ok x g w →
  csafe (λ _ g' w', RUN g' w' ∧ ctx_ok x g' w') g w (let! r := c in cret (f r)) w.
Proof.
  intros Hc Hw Hx. eapply csafe_seq; [done..|]. intros a g' w' Hw' Hm. apply csafe_ret. split; [done|by eapply ctx_mine].
Qed.

(** A call on a descriptor that leaves the task with what it had. *)
Lemma ended_ok {A} (c : C A) (f : A → reply) x g w :
  csafe (ended P t g w) g w c w → ctx_ok x g w →
  csafe (λ _ g' w', RUN g' w' ∧ ctx_ok x g' w') g w (let! r := c in cret (f r)) w.
Proof.
  intros Hc Hx. eapply csafe_bind; [exact Hc|]. intros a g' w' [Hw' Hm]. apply csafe_ret. split; [done|by eapply ctx_mine].
Qed.

Lemma received_ok (c : C reply) x g w :
  csafe (ended P t g w) g w c w → ctx_ok x g w → csafe (λ _ g' w', RUN g' w' ∧ ctx_ok x g' w') g w c w.
Proof. intros Hc Hx. eapply csafe_mono; [exact Hc|]. intros a g' w' [Hw' Hm]. split; [done|by eapply ctx_mine]. Qed.

(** A call that opens a descriptor. *)
Lemma got_ok (c : C Z) x g w :
  csafe (λ r g' w', RUN g' w' ∧ got P t r g w g' w') g w c w → ctx_ok x g w →
  csafe (λ r g' w', RUN g' w' ∧ (0 ≤ r.1 → r.1 ∉ fds x) ∧
    ctx_ok (if decide (r.1 < 0) then x else Ctx (hooked x) ({[r.1]} ∪ fds x)) g' w') g w (num c) w.
Proof.
  intros Hc [Hh Ho]. unfold num. eapply csafe_bind; [exact Hc|]. intros r g' w' [Hw' Hg]. apply csafe_ret. split; [done|].
  cbn [fst]. unfold got in Hg. destruct (decide (r < 0)); [split; [lia|by eapply ctx_mine]|]. destruct Hg as [Hn Hg E].
  split; [intros _ ?; by apply Hn, Ho|]. split; cbn.
  - destruct Hh as (v & Hv & Hh). destruct (entry_func _ _ _ _ E Hv) as (v' & ? & E' & _). exists v'. split; [done|].
    injection E' as _ _ _ E'. congruence.
  - intros fd [->%elem_of_singleton|?%Ho]%elem_of_union; apply Hg; by auto.
Qed.

Lemma gave_ok x X g w g' w' : gave t X g w g' w' → ctx_ok x g w → ctx_ok (Ctx (hooked x) (fds x ∖ X)) g' w'.
Proof.
  intros Hg [Hh Ho]. split; [by eapply gave_entry_hook|]. cbn. intros fd [?%Ho ?]%elem_of_difference. by apply Hg.
Qed.

(** An allowed call is safe and leaves the task in the context it should be in. *)
Lemma perform_ok fuel a c g w :
  RUN g w → ctx_ok c g w → allowed P c a →
  csafe (λ r g' w', RUN g' w' ∧ possible c a r.1 ∧ ctx_ok (after P c a r.1) g' w') g w (perform fuel a) w.
Proof.
  intros Hw Hx Ha. assert (Hany : ∀ (c : C reply) (Q : reply → own → world → Prop),
    csafe (λ r g' w', RUN g' w' ∧ Q r g' w') g w c w → csafe (λ r g' w', RUN g' w' ∧ True ∧ Q r g' w') g w c w).
  { intros c' Q Hc. eapply csafe_mono; [exact Hc|]. naive_solver. }
  pose proof Hx as [Hh Ho]. destruct a; cbn [perform allowed possible after] in *; try (apply Hany); clear Hany.
  - unfold none. eapply csafe_bind; [apply csafe_create; [done|by auto]|]. intros [] g' w' [Hw' Hg]. apply csafe_ret.
    split; [done|by eapply gave_ok].
  - apply (neutral_ok _ (λ _, (0, []))); [apply safe_yield|done|done].
  - by apply csafe_exit.
  - apply (neutral_ok _ (λ r, (r, []))); [apply safe_self|done|done].
  - apply (neutral_ok _ (λ r, (r, []))); [apply safe_getcid|done|done].
  - apply (neutral_ok _ (λ r, (r, []))); [apply safe_count|done|done].
  - unfold none. eapply csafe_bind; [by apply csafe_hook|]. intros [] g' w' (Hw' & -> & ->). apply csafe_ret.
    split; [done|]. split; [by eapply hooked_world_is|done].
  - apply (neutral_ok _ (λ _, (0, []))); [by apply safe_lock|done|done].
  - apply (neutral_ok _ (λ r, (Z.b2z r, []))); [by apply safe_try_lock|done|done].
  - apply (neutral_ok _ (λ _, (0, []))); [by apply safe_unlock|done|done].
  - destruct Ha. apply (neutral_ok _ (λ _, (0, []))); [by apply safe_wait|done|done].
  - apply (neutral_ok _ (λ _, (0, []))); [by apply (safe_signal _ _ c0 false)|done|done].
  - apply (neutral_ok _ (λ _, (0, []))); [by apply (safe_signal _ _ c0 true)|done|done].
  - apply (neutral_ok _ (λ _, (0, []))); [by apply safe_sem_wait|done|done].
  - apply (neutral_ok _ (λ r, (r, []))); [by apply safe_sem_try|done|done].
  - apply (neutral_ok _ (λ _, (0, []))); [by apply safe_sem_post|done|done].
  - apply (neutral_ok _ (λ r, (r, []))); [by apply safe_chan_send|done|done].
  - apply (neutral_ok _ (λ r, (r.1, [r.2]))); [by apply safe_chan_recv|done|done].
  - apply (neutral_ok _ (λ r, (r, []))); [by apply safe_chan_size|done|done].
  - apply (neutral_ok _ (λ _, (0, []))); [by apply safe_chan_close|done|done].
  - apply (neutral_ok _ (λ _, (0, []))); [by apply safe_bar_wait|done|done].
  - apply (neutral_ok _ (λ _, (0, []))); [by apply safe_bar_destory|done|done].
  - apply got_ok; [by apply csafe_socket|done].
  - apply (ended_ok _ (λ r, (r, []))); [by apply csafe_listen|done].
  - apply (ended_ok _ (λ r, (r, []))); [apply csafe_connect; by auto|done].
  - apply got_ok; [apply csafe_accept; by auto|done].
  - destruct Ha as [Hon Hfd]. rewrite Hon in Hh. unfold num.
    eapply csafe_bind; [apply csafe_close; by auto|]. intros r g' w' [Hw' Hg]. apply csafe_ret. split; [done|by eapply gave_ok].
  - apply received_ok; [apply csafe_read; by auto|done].
  - apply received_ok; [apply csafe_recv; by auto|done].
  - apply received_ok; [apply csafe_recvfrom; by auto|done].
  - apply received_ok; [apply csafe_recvmsg; by auto|done].
  - destruct Ha. apply (ended_ok _ (λ r, (r, []))); [apply csafe_write; by auto|done].
  - destruct Ha. apply (ended_ok _ (λ r, (r, []))); [apply csafe_send; by auto|done].
  - destruct Ha. apply (ended_ok _ (λ r, (r, []))); [apply csafe_sendto; by auto|done].
Qed.

Lemma exec_ok fuel c sc g w :
  typed P c sc → RUN g w → ctx_ok c g w → csafe (λ _ g' w', RUN g' w') g w (exec fuel sc) w.
Proof.
  intros Ht. revert g w. induction Ht as [c|c a k Ha _ IH]; intros g w Hw Hx; cbn [exec]; [by apply csafe_ret|].
  eapply csafe_bind; [by apply perform_ok|]. intros r g' w' (Hw' & Hp & Hx'). by apply IH.
Qed.

End sound.
