(* ===== verification/Machine.v ===== *)
(** A thread with its tasks: the loop of [schedule] (task_sched.c) gives the
    processor to task functions written against the library, and takes it back at
    their switches.

    A task's saved context is the rest of its function, a computation [C unit]; a
    task that has not run yet starts in [_task_func].  [machine_turn] is one turn of
    the loop.  The lemmas here say which steps of the scheduler keep the runtime in
    order; together with the typing of Scripts.v, that no number of turns leads a
    thread into undefined behaviour. *)

From Stdlib Require Import ZArith Lia.
From stdpp Require Import base numbers strings sets gmap list.
From S2P Require Import Prelude IntrusiveList Links Array Heap Cid SpinLock TimeWheel HashMap World Coroutine InnerFd.
From S2P Require Import Task Sched Event Schedule Mutex Cond Sem Blocking Hook Helper Descriptors Runtime TaskSafety IoSafety.
From S2P Require Import WakeSafety HookSafety Scripts.
Open Scope Z_scope.

(** * The machine *)

Section machine.
Context {K : Kernel}.

(** The code of the functions tasks are created with. *)
Context (body : cofunc_t → ptr → ptr → C unit).

Record machine := Machine {
  mc_world : world;
  mc_conts : gmap Z (C unit);    (* saved contexts *)
  mc_prev : ptr                  (* the local variable prev_task *)
}.

(** [swapcontext] to task [t]. *)
Definition resume (cs : gmap Z (C unit)) (t : ptr) : C unit :=
  match cs !! t with
  | Some k => k
  | None => λ w, match w_tasks w !! t with
                 | Some v => _task_func (body (t_func v) (t_iparam v) (t_oparam v)) w
                 | None => Undef
                 end
  end.

(** The saved contexts after task [p] came back with [r]; a task that has exited
    is not resumed. *)
Definition save (w : world) (p : ptr) (r : option (co unit)) (cs : gmap Z (C unit)) : gmap Z (C unit) :=
  match r with
  | Some (CYield k) =>
      if decide (t_status <$> w_tasks w !! p = Some KILLED) then delete p cs else <[p := k]> cs
  | Some (CRet _) => delete p cs
  | None => cs
  end.

Definition machine_turn (fuel : nat) (st : machine) : res machine :=
  let* r := schedule_turn_with fuel (resume (mc_conts st)) (mc_prev st) (mc_world st) in
  let '((p, c), w) := r in
  Ok (Machine w (save w p c (mc_conts st)) p).

Fixpoint machine_turns (n fuel : nat) (st : machine) : res machine :=
  match n with
  | O => Ok st
  | S n => let* st := machine_turn fuel st in machine_turns n fuel st
  end.

(** The ids suffice: at the start of each turn there are at most as many tasks. *)
Fixpoint within_limit (n fuel : nat) (st : machine) : Prop :=
  match n with
  | O => True
  | S n => Z.of_nat (size (w_tasks (mc_world st))) ≤ THREAD_MAX_TASK_SIZE ∧
      match machine_turn fuel st with Ok st => within_limit n fuel st | _ => True end
  end.

End machine.

Arguments Machine {K} mc_world mc_conts mc_prev.
Arguments mc_world {K} _.
Arguments mc_conts {K} _.
Arguments mc_prev {K} _.

(** The functions of the program, and those of the library's service tasks; [_task_func]
    of a task without function calls through NULL. *)
Definition task_body `{Sk : Sockets} (fuel : nat) (prog : Z → ptr → ptr → script) (f : cofunc_t) (ip op : ptr) : C unit :=
  match f with
  | UserFunc n => exec fuel (prog n ip op)
  | TimeoutTask => _timeout_task fuel ip
  | ActiveTask => _active_task fuel
  | NoFunc => λ _, Undef
  end.

Section soundness.
Context `{Sk : Sockets} {Fv : FdView} {D : Descriptors}.
Context (P : setup).

Local Notation s := (su_sched P).
Local Notation ep := (su_epoll P).
Local Notation good := (good P).
Local Notation ACT := (ACT P).
Local Notation RUN := (RUN P).
Local Notation csafe := (csafe P).
Local Notation rely := (rely P).
Local Notation keeps := (keeps P).

(** * Recycling the task that ran last *)

Lemma good_cids_delete al T u v :
  cids_ok al T → T !! u = Some v → Z.of_nat (size T) ≤ THREAD_MAX_TASK_SIZE →
  ∃ al', free_cid al (t_cid v) = Ok al' ∧ cids_ok al' (delete u T).
Proof.
  intros (live & Hinv & [?|(Hs & Hin & Hinj)]) Hu Hsz; [lia|].
  destruct (free_cid_inv _ _ _ (t_cid v) max_tasks_range Hinv (Hin _ _ Hu)) as (al' & Hf & Hinv').
  exists al'. split; [done|]. eexists. split; [exact Hinv'|right].
  assert (Hsd : size T = S (size (delete u T))).
  { rewrite <-(insert_delete_id T u v Hu) at 1. apply map_size_insert_None, lookup_delete_eq. }
  split_and!.
  - rewrite size_difference by (apply singleton_subseteq_l; by eapply Hin). rewrite size_singleton. lia.
  - intros u' v' [Hne Hv']%lookup_delete_Some. apply elem_of_difference. split; [by eapply Hin|].
    intros E%elem_of_singleton. apply Hne. by eapply Hinj.
  - intros u1 v1 u2 v2 [_ H1]%lookup_delete_Some [_ H2]%lookup_delete_Some. by apply Hinj.
Qed.

Lemma rt_nonnull_task w R ts u v : rt w s R ts → w_tasks w !! u = Some v → u ≠ NULL.
Proof. intros Hrt Hv. by destruct (rt_tasks _ _ _ _ _ _ Hrt Hv). Qed.

(** The descriptors when a task that has exited is gone: it waited for none. *)
Lemma io_ok_gone w w' R g t v :
  io_ok P w R g → w_tasks w !! t = Some v → t_status v = KILLED → w_tasks w' = delete t (w_tasks w) →
  w_fdtab w' = w_fdtab w → w_ifds w' = w_ifds w → w_epolls w' = w_epolls w → w_kernel w' = w_kernel w →
  w_scheds w' = w_scheds w → dom (w_links w') = dom (w_links w) ∖ {[run_link t]} →
  io_ok P w' (ring_remove (run_link t) R) g.
Proof.
  intros [(e & tw & Hw & Hsl & Hint) Htb Hif Hhd Hlk Har Hop Hno Hac] Hv Hk ET E1 E2 E3 E4 E5 El.
  destruct (fd_rings_remove t t R) as [Fs Fh Fi Fr]. split; rewrite ?E1, ?E2, ?E4, ?ET; try done.
  - exists e, tw. split_and!; [|by naive_solver|done]. destruct Hw as ((sv & ? & ?) & ? & ?).
    split; [exists sv; by rewrite E5|by rewrite E3].
  - intros fd p Hp. destruct (Htb _ _ Hp) as (? & ? & Hl & ?). split_and!; [by lia..|done| |done].
    apply elem_of_dom. rewrite El. apply elem_of_difference. split; [by apply elem_of_dom|]. by intros [=]%elem_of_singleton.
  - by auto.
  - by auto.
  - intros fd u Ha. destruct (Har fd u Ha) as (x & Hx & Hnk & ?). exists x.
    rewrite lookup_delete_ne; [done|]. intros <-. congruence.
  - intros u x [_ Hx]%lookup_delete_Some Hf Hr%in_rings_remove. by eapply Hno.
  - intros u x u' x' [_ Hx]%lookup_delete_Some [_ Hx']%lookup_delete_Some. by eapply Hac.
Qed.

(** What recycling leaves: the tasks that have not exited, as they were. *)
Record recycled (g : own) (w w' : world) : Prop := {
  rc_self : w_self w' = w_self w;
  rc_back : ∀ u v', w_tasks w' !! u = Some v' → ∃ v, w_tasks w !! u = Some v ∧ t_status v ≠ KILLED ∧ rely u g w g w';
  rc_live : ∀ u v, w_tasks w !! u = Some v → t_status v ≠ KILLED → is_Some (w_tasks w' !! u)
}.

Lemma destroy_good w R ts t v k th g :
  good w R ts k g → w_tasks w !! t = Some v → t_status v = KILLED →
  Z.of_nat (size (w_tasks w)) ≤ THREAD_MAX_TASK_SIZE → w_threads w !! w_self w = Some th →
  wp (task_destory t) (λ _ w', ∃ R' ts', good w' R' ts' NULL g ∧ recycled g w w') w.
Proof.
  intros Hg Hv Hst Hsz Hth. pose proof Hg as [Hrt Hsy Hci Hsp Hk Hio Hob]. pose proof (Hk t v Hv Hst) as <-.
  destruct (good_cids_delete _ _ _ _ (Hci th Hth) Hv Hsz) as (al & Hf & Hc').
  eapply task_destory_wp; [done|done|done|exact Hf| |].
  { destruct (t_specs v) as [m|] eqn:Em; [|done]. by eapply Hsp. }
  intros l Hdom Hrt'. eexists _, _. split; [split; [exact Hrt'|..]|].
  - apply (sync_ok_rings _ _ R); [by eapply sync_ok_frame|]. intros h us Hh Hus. eexists.
    rewrite ring_remove_lookup, Hus. cbn. by rewrite filter_run_link.
  - intros th'. cbn. rewrite lookup_insert_eq. by intros [= <-].
  - intros u x m. cbn. intros [_ Hx]%lookup_delete_Some. by eapply Hsp.
  - intros u x. cbn. intros [Hne Hx]%lookup_delete_Some Hkx. by destruct Hne; rewrite (Hk u x Hx Hkx).
  - eapply io_ok_gone; try done. cbn. by rewrite dom_delete_L, Hdom.
  - done.
  - split; cbn; [done| |].
    + intros u x [Hne Hx]%lookup_delete_Some. exists x. split; [done|]. split; [intros Hkx; by destruct Hne; rewrite (Hk u x Hx Hkx)|].
      split; cbn; try done. by rewrite lookup_delete_ne.
    + intros u x Hx Hkx. rewrite lookup_delete_ne by (intros <-; congruence). by eauto.
Qed.

Lemma woke_recycled g w w' : woke w w' → (∀ u v, w_tasks w !! u = Some v → t_status v ≠ KILLED) → recycled g w w'.
Proof.
  intros Hw Hnk. split; [apply Hw| |].
  - intros u v' Hv'. destruct (entry_func _ _ _ _ (eq_sym (wk_entry _ _ Hw u)) Hv') as (v & Hv & _). exists v.
    split_and!; [done|by eapply Hnk|by apply woke_rely].
  - intros u v Hv _. destruct (entry_func _ _ _ _ (wk_entry _ _ Hw u) Hv) as (v' & ? & _). by eauto.
Qed.

Lemma recycle_good w R ts p g :
  good w R ts p g → (p = NULL ∨ alive p w) → Z.of_nat (size (w_tasks w)) ≤ THREAD_MAX_TASK_SIZE →
  wp (recycle_prev p) (λ _ w', ∃ R' ts', good w' R' ts' NULL g ∧ recycled g w w') w.
Proof.
  intros Hg Hp Hsz. pose proof Hg as [Hrt Hsy Hci Hsp Hk Hio Hob]. unfold recycle_prev.
  assert (Hkeep : (∀ u v, w_tasks w !! u = Some v → t_status v ≠ KILLED) → good w R ts NULL g).
  { intros Hnk. split; try done. intros u x Hx Hkx. by destruct (Hnk u x). }
  assert (Hstay : (∀ u v, w_tasks w !! u = Some v → t_status v ≠ KILLED) →
    wp (mret ()) (λ _ w', ∃ R' ts', good w' R' ts' NULL g ∧ recycled g w w') w).
  { intros Hnk. wp_steps. exists R, ts. split; [by apply Hkeep|]. by apply woke_recycled. }
  destruct (decide (p = NULL)) as [->|Hn].
  { apply Hstay. intros u x Hx Hkx. pose proof (Hk u x Hx Hkx). by eapply rt_nonnull_task. }
  destruct Hp as [?|(v & Hv & Hf)]; [done|]. wp_steps.
  assert (Hnk : t_status v ≠ KILLED → ∀ u v, w_tasks w !! u = Some v → t_status v ≠ KILLED).
  { intros Hst u x Hx Hkx. pose proof (Hk u x Hx Hkx). subst. congruence. }
  destruct (t_status v) eqn:Est; try (by apply Hstay, Hnk).
  - eapply wp_mono; [eapply (enqueue_good P); [by apply Hkeep, Hnk|done|done]|]. intros [] w' (? & ? & _). eexists _, _.
    split; [done|]. apply woke_recycled; [by apply woke_wake|by apply Hnk].
  - destruct (rt_self _ _ _ _ Hrt) as (th & Hth & _). by eapply destroy_good.
Qed.

(** * Choosing the next task *)

(** A link the loop may look at: the head of the queue or a task's. *)
Definition link_ok (w : world) (ls : laddr) : Prop :=
  ls = run_list s ∨ ∃ x, ls = run_link x ∧ is_Some (w_tasks w !! x).

Lemma link_ok_empty w R ts ls : rt w s R ts → link_ok w ls → ∃ b, list_empty (w_links w) ls = Ok b.
Proof.
  intros Hrt Hls. assert (Hl : is_Some (w_links w !! ls)).
  { destruct Hls as [->|(x & -> & [v Hv])].
    - destruct (rt_links _ _ _ _ Hrt) as [[HR _] _]. pose proof (HR _ _ (rt_queue _ _ _ _ Hrt)) as Hring.
      pose proof (ring_next_head _ _ _ Hring) as Hn. unfold list_next, rd_next in Hn.
      destruct (w_links w !! run_list s); [by eauto|done].
    - by apply (rt_tasks _ _ _ _ _ _ Hrt Hv). }
  destruct Hl as [nd Hl]. unfold list_empty, rd_prev, rd_next. rewrite Hl. cbn. by eauto.
Qed.

Lemma woke_live w w' u : woke w w' → is_Some (w_tasks w !! u) → is_Some (w_tasks w' !! u).
Proof. intros Hw [v Hv]. destruct (entry_func _ _ _ _ (wk_entry _ _ Hw u) Hv) as (v' & ? & _). by eauto. Qed.

Lemma woke_link_ok w w' ls : woke w w' → link_ok w ls → link_ok w' ls.
Proof. intros Hw [->|(x & -> & Hx)]; [by left|right]. exists x. split; [done|by eapply woke_live]. Qed.

Lemma delay_event_good w R ts k g n :
  good w R ts k g → wp (delay_event n) (λ _ w', good w' R ts k g ∧ woke w w') w.
Proof.
  intros Hg. pose proof (gd_rt _ _ _ _ _ _ Hg) as Hrt. pose proof Hrt as [Hnn (th & Hth & Hths) _ _ _ _].
  pose proof (io_wheel _ _ _ _ (gd_io _ _ _ _ _ _ Hg)) as (e & tw & ((sv & Hsv & Hse) & He & Htw & Hok & Hf) & Hsl & Hint).
  unfold delay_event. wp_step. eapply current_sched_ready; [done|congruence|]. rewrite Hths. wp_step.
  eapply wp_rd_sched; [done|]. rewrite Hse. eapply wp_upd_epoll; [done|]. split; [|apply woke_epolls].
  destruct Hg as [_ Hsy Hc Hsp Hk Hio Hob]. split; try done.
  - eapply rt_frame; [done..|]. cbn. rewrite dom_insert_L. apply elem_of_dom_2 in He. set_solver.
  - by eapply sync_ok_frame.
  - destruct Hio as [_ Htb Hif Hhd Hlk Har Hop Hno Hac]. split; try done. exists (Epoll (ep_maxevents e) n (ep_fd e) (ep_loop e) (ep_timer e)), tw.
    split_and!; [|done|exact Hint]. split; [by exists sv|]. split; [cbn; by rewrite lookup_insert_eq|done].
Qed.

Lemma picknext_loop_good fuel w R ts k g ls :
  good w R ts k g → link_ok w ls →
  swp (picknext_loop fuel s ls) (λ ls' w', ∃ R' ts' x, good w' R' ts' k g ∧ woke w w' ∧
    ls' = run_link x ∧ x ∈ ts') w.
Proof.
  revert w R ts ls. induction fuel as [|fuel IH]; intros w R ts ls Hg Hls; cbn [picknext_loop]; [done|].
  pose proof (gd_rt _ _ _ _ _ _ Hg) as Hrt. pose proof Hrt as [Hnn (th & Hth & Hths) _ _ _ _].
  pose proof (io_wheel _ _ _ _ (gd_io _ _ _ _ _ _ Hg)) as (_ & _ & ((sv & Hsv & Hse) & _) & _).
  apply swp_bind, swp_wp. eapply current_sched_ready; [done|congruence|]. rewrite Hths.
  apply swp_bind, swp_wp. eapply wp_rd_sched; [done|]. rewrite Hse. apply swp_bind.
  eapply swp_mono; [by eapply (event_wait_good P)|]. intros n w1 (R1 & ts1 & Hg1 & Hk1).
  pose proof (gd_rt _ _ _ _ _ _ Hg1) as Hrt1. pose proof (woke_link_ok _ _ _ Hk1 Hls) as Hls1.
  destruct (link_ok_empty _ _ _ _ Hrt1 Hls1) as [b Hb].
  apply swp_bind, swp_wp. apply (wp_mono _ (λ _ w', w' = w1)).
  { case_decide; [by eapply wp_rd_links; [exact Hb|]|by wp_step]. }
  intros idle w1' ->. apply swp_bind, swp_wp.
  apply (wp_mono _ (λ _ w', good w' R1 ts1 k g ∧ woke w1 w')).
  { destruct idle; by apply delay_event_good. }
  intros [] w2 [Hg2 Hk2]. pose proof (gd_rt _ _ _ _ _ _ Hg2) as Hrt2.
  assert (Hk : woke w w2) by (by etrans).
  destruct (rt_links _ _ _ _ Hrt2) as [[HR _] _]. pose proof (HR _ _ (rt_queue _ _ _ _ Hrt2)) as Hring.
  destruct ts1 as [|y ts1 _] using rev_ind.
  - apply swp_bind, swp_wp. eapply wp_rd_links; [apply (ring_prev_head _ _ _ Hring)|]. cbn.
    apply swp_bind, swp_wp. eapply wp_rd_links; [apply (ring_list_empty _ _ _ Hring)|]. cbn.
    eapply swp_mono; [by eapply (IH w2 R1 []); [|left]|].
    intros ls' w3 (R3 & ts3 & x & Hg3 & Hk3 & ?). exists R3, ts3, x. split_and!; [done|by etrans|naive_solver..].
  - destruct (rt_oldest _ _ _ _ _ Hrt2) as [Hp He].
    apply swp_bind, swp_wp. eapply wp_rd_links; [exact Hp|]. cbn.
    apply swp_bind, swp_wp. eapply wp_rd_links; [exact He|]. apply swp_wp, wp_ret.
    exists R1, (ts1 ++ [y]), y. split_and!; [done|done|done|set_solver].
Qed.

Lemma picknext_good fuel w R ts k g :
  good w R ts k g →
  swp (sched_rq_picknext fuel) (λ t w', ∃ R' ts', good w' R' ts' k g ∧ woke w w' ∧ t ∈ ts') w.
Proof.
  intros Hg. pose proof (gd_rt _ _ _ _ _ _ Hg) as Hrt. pose proof Hrt as [Hnn (th & Hth & Hths) _ _ _ _].
  unfold sched_rq_picknext, RR_picknext.
  apply swp_bind, swp_wp. eapply current_sched_ready; [done|congruence|]. rewrite Hths.
  apply swp_bind, swp_wp. eapply current_sched_ready; [done|congruence|].
  destruct (rt_links _ _ _ _ Hrt) as [[HR _] _]. pose proof (HR _ _ (rt_queue _ _ _ _ Hrt)) as Hring.
  apply swp_bind, swp_wp. eapply wp_rd_links; [apply (ring_prev_head _ _ _ Hring)|].
  assert (Hls : link_ok w (last_or (run_list s) (run_link <$> ts))).
  { destruct ts as [|y ts _] using rev_ind; [by left|right]. exists y. rewrite last_or_run_link. split; [done|].
    apply Hrt. set_solver. }
  apply swp_bind. eapply swp_mono; [by eapply picknext_loop_good|].
  intros ls' w' (R' & ts' & x & Hg' & Hk & -> & Hx). apply swp_wp. eapply wp_lift; [apply list_to_struct_member|].
  by exists R', ts'.
Qed.

(** * Handing over the processor *)

(** Steps of the scheduler that no task notices. *)
Record steady (w w' : world) : Prop := {
  sd_self : w_self w' = w_self w;
  sd_fdtab : w_fdtab w' = w_fdtab w;
  sd_entry : ∀ u, entry <$> w_tasks w' !! u = entry <$> w_tasks w !! u;
  sd_scheds : ∀ s, sched_fixed <$> w_scheds w' !! s = sched_fixed <$> w_scheds w !! s
}.

#[local] Instance steady_preorder : PreOrder steady.
Proof.
  split; [by split|]. intros w1 w2 w3 [A1 B1 C1 D1] [A2 B2 C2 D2]. split; [congruence|congruence|intros u; by rewrite C2|intros x; by rewrite D2].
Qed.

Lemma steady_rely u g w w' : steady w w' → rely u g w g w'.
Proof. intros [E1 E2 E3 E4]. split; try done. intros fd _. by rewrite E2. Qed.

Lemma woke_steady w w' : woke w w' → steady w w'.
Proof. by intros []. Qed.

Lemma steady_back w w' u v' :
  steady w w' → w_tasks w' !! u = Some v' → ∃ v, w_tasks w !! u = Some v ∧ t_func v = t_func v'.
Proof. intros Hs Hv'. destruct (entry_func _ _ _ _ (eq_sym (sd_entry _ _ Hs u)) Hv') as (v & ? & _ & ?). by eauto. Qed.

Lemma steady_live w w' u : steady w w' → is_Some (w_tasks w !! u) → is_Some (w_tasks w' !! u).
Proof. intros Hs [v Hv]. destruct (entry_func _ _ _ _ (sd_entry _ _ Hs u) Hv) as (v' & ? & _). by eauto. Qed.

Lemma good_threads w R ts k g th th' :
  good w R ts k g → w_threads w !! w_self w = Some th → g_sched th' = g_sched th → g_cids th' = g_cids th →
  good (with_threads w (<[w_self w := th']> (w_threads w))) R ts k g.
Proof.
  intros [Hrt Hsy Hci Hsp Hk Hio Hob] Hth Es Ec. split; try done.
  - apply rt_threads; [done|]. destruct (rt_self _ _ _ _ Hrt) as (th0 & Hth0 & Hs). congruence.
  - by eapply sync_ok_frame.
  - intros th1. cbn. rewrite lookup_insert_eq. intros [= <-]. rewrite Ec. by apply Hci.
  - by destruct Hio.
Qed.

Lemma set_in_sched_good w R ts k g b :
  good w R ts k g →
  wp (set_in_sched b) (λ _ w', good w' R ts k g ∧ steady w w' ∧ w_threads w' = w_threads w ∧
    w_tasks w' = w_tasks w) w.
Proof.
  intros Hg. pose proof (gd_rt _ _ _ _ _ _ Hg) as [_ (th & Hth & Hths) (sv & Hsv & _) _ _ _].
  unfold set_in_sched. wp_steps. rewrite Hths. wp_steps.
  assert (Hsc : ∀ s', sched_fixed <$> <[s := _]> (w_scheds w) !! s' = sched_fixed <$> w_scheds w !! s')
    by (by eapply (scheds_rq w s sv (World.Sched (rq_lock sv) (rq_task_num sv) (s_sched_task sv) (s_epoll sv) b
          (s_force_sched sv) (s_tid sv) (s_active0 sv) (s_active1 sv)))).
  split; [|by split]. eapply (good_wake _ _ _ _ _ _ _ _ _ NULL); [done|by apply wake_frame_same|by eapply rt_scheds; [apply Hg|..]| |reflexivity|].
  - by eapply sync_ok_frame; [apply Hg|..].
  - intros v Hv. by eapply rt_nonnull_task in Hv; [|apply Hg].
Qed.

Lemma set_current_good w R ts k g c :
  good w R ts k g →
  wp (set_current c) (λ _ w', good w' R ts k g ∧ steady w w' ∧ w_tasks w' = w_tasks w ∧ current c w') w.
Proof.
  intros Hg. pose proof (gd_rt _ _ _ _ _ _ Hg) as [_ (th & Hth & Hths) _ _ _ _].
  unfold set_current. wp_steps. split_and!; [by eapply good_threads|by split|done|].
  eexists. cbn. by rewrite lookup_insert_eq.
Qed.

(** Taking the chosen task off the queue and making it the running one. *)
Lemma dispatch_good {A} w R ts t (c : M A) Q g :
  good w R ts NULL g → t ∈ ts →
  (∀ w', ACT t g w' → steady w w' → swp c Q w') →
  swp (sched_rq_dequeue t;; set_current t;; set_in_sched 0;; set_status t RUNNABLE;; c) Q w.
Proof.
  intros Hg Ht HQ. pose proof (gd_rt _ _ _ _ _ _ Hg) as Hrt. destruct (rt_live _ _ _ _ Hrt t Ht) as [v Hv].
  assert (Hf : t_func v ≠ NoFunc).
  { intros Hnf. apply (io_nofunc _ _ _ _ (gd_io _ _ _ _ _ _ Hg) t v Hv Hnf). exists (run_list s), (run_link <$> ts).
    split; [apply Hrt|]. right. by apply list_elem_of_fmap_2. }
  apply swp_bind, swp_wp. eapply sched_rq_dequeue_wp; [done..|]. intros sv l Hsv Hrt1 Hdl Hni.
  set (w1 := dequeued _ _ _ _) in *.
  assert (Hf1 : wake_frame w (with_sems w1 (w_sems w))).
  { apply wake_frame_same; try done. by eapply scheds_rq. }
  assert (Hg1 : good w1 (ring_remove (run_link t) R) (filter (λ x, x ≠ t) ts) NULL g).
  { eapply (good_wake _ _ _ _ _ _ _ _ _ t); [done|done|done| |apply fd_rings_remove|intros; congruence].
    apply (sync_ok_rings _ w1 R); [by eapply sync_ok_frame; [apply Hg|..]|]. intros h us Hh Hus. eexists.
    rewrite ring_remove_lookup, Hus. cbn. by rewrite filter_run_link. }
  apply swp_bind, swp_wp. eapply wp_mono; [by apply set_current_good|].
  intros [] w2 (Hg2 & Hs2 & Et2 & Hc2). apply swp_bind, swp_wp. eapply wp_mono; [by apply set_in_sched_good|].
  intros [] w3 (Hg3 & Hs3 & Eth3 & Et3).
  assert (Hv3 : w_tasks w3 !! t = Some v) by (by rewrite Et3, Et2).
  apply swp_bind, swp_wp. unfold set_status. wp_steps. set (w4 := with_tasks _ _).
  assert (Hf4 : wake_frame w3 (with_sems w4 (w_sems w3))) by (by eapply (wake_frame_task w3 _ t v)).
  apply HQ.
  - exists (ring_remove (run_link t) R), (filter (λ x, x ≠ t) ts). split_and!.
    + eapply (good_wake _ _ _ _ _ _ _ _ _ t); [done|done|by eapply rt_task_upd; [apply Hg3|..]| |reflexivity|intros; congruence].
      by eapply sync_ok_frame; [apply Hg3|..].
    + destruct Hc2 as (th & Hth & Hc). exists th. cbn. by rewrite Eth3, (sd_self _ _ Hs3).
    + eexists. cbn. by rewrite lookup_insert_eq.
    + done.
  - etrans; [by apply woke_steady, woke_wake|]. etrans; [exact Hs2|]. etrans; [exact Hs3|]. by apply woke_steady, woke_wake.
Qed.

(** * The machine *)

(** A saved context that the task can go on with when it comes back. *)
Definition cont_ok (t : ptr) (g : own) (w : world) (k : C unit) : Prop :=
  ∀ g' w', ACT t g' w' → rely t g w g' w' → csafe t (λ _ _ _, False) g' w' k w'.

(** What is known of a task that does not run: it has a context, or it has not
    started. *)
Definition ready_ok (cs : gmap Z (C unit)) (g : own) (w : world) (t : ptr) (v : task_t) : Prop :=
  match cs !! t with Some k => cont_ok t g w k | None => start_ok P g t v end.

Lemma cont_ok_rely t g w g' w' k : cont_ok t g w k → rely t g w g' w' → cont_ok t g' w' k.
Proof. intros Hk Hr g2 w2 Ha Hr2. apply Hk; [done|]. by eapply rely_trans. Qed.

Lemma ready_ok_rely cs g w g' w' t v v' :
  ready_ok cs g w t v → rely t g w g' w' → w_tasks w !! t = Some v → w_tasks w' !! t = Some v' →
  ready_ok cs g' w' t v'.
Proof.
  unfold ready_ok. intros Hr Hre Hv Hv'. destruct (cs !! t); [by eapply cont_ok_rely|by eapply start_ok_rely].
Qed.

(** The machine between two turns: every task that has not exited can go on, and the
    contexts are those of such tasks. *)
Record machine_ok (st : machine) : Prop := {
  mo_prev : mc_prev st = NULL ∨ alive (mc_prev st) (mc_world st);
  mo_conts : ∀ t, is_Some (mc_conts st !! t) → ∃ v, w_tasks (mc_world st) !! t = Some v ∧ t_status v ≠ KILLED;
  mo_good : ∃ R ts g, good (mc_world st) R ts (mc_prev st) g ∧
    ∀ t v, w_tasks (mc_world st) !! t = Some v → t_status v ≠ KILLED → t_func v ≠ NoFunc →
      ready_ok (mc_conts st) g (mc_world st) t v
}.

Section tasks.
Context (body : cofunc_t → ptr → ptr → C unit).

(** The functions are safe for tasks that have what they need. *)
Definition bodies_ok : Prop :=
  ∀ t g w v, RUN t g w → w_tasks w !! t = Some v → t_hook v = 1 → start_ok P g t v →
    csafe t (λ _ g' w', RUN t g' w') g w (body (t_func v) (t_iparam v) (t_oparam v)) w.

Context (Hbody : bodies_ok).

Lemma resume_ok cs t g w v :
  ACT t g w → w_tasks w !! t = Some v → ready_ok cs g w t v → csafe t (λ _ _ _, False) g w (resume body cs t) w.
Proof.
  intros Ha Hv Hr. unfold resume. unfold ready_ok in Hr. destruct (cs !! t) as [k|].
  { apply Hr; [done|apply rely_refl]. }
  assert (Hw : RUN t g w) by (split; [done|by apply Hr]).
  unfold csafe. rewrite Hv. apply (csafe_task_func P t); [done|].
  destruct (run_set_hook P t 1 g w Hw) as [Hw1 _].
  apply (Hbody t g (hooked_world t 1 w) (with_hook 1 v)); [done| |done|exact Hr].
  cbn. by rewrite lookup_alter_eq, Hv.
Qed.

(** What a turn does to the tasks, from the contexts [cs] before it. *)
Record turned (cs : gmap Z (C unit)) (p : ptr) (k : C unit) (w : world) : Prop := {
  tr_good : ∃ R ts g, good w R ts p g ∧
    ((∀ v, w_tasks w !! p = Some v → t_status v ≠ KILLED) → cont_ok p g w k) ∧
    ∀ u v, u ≠ p → w_tasks w !! u = Some v → t_status v ≠ KILLED → t_func v ≠ NoFunc → ready_ok cs g w u v;
  tr_alive : alive p w;
  tr_live : ∀ u, is_Some (cs !! u) → is_Some (w_tasks w !! u)
}.

(** The run of task [t], from the state in which the scheduler hands over. *)
Lemma run_task_ok cs t g w :
  ACT t g w → (∀ u v, w_tasks w !! u = Some v → t_func v ≠ NoFunc → ready_ok cs g w u v) →
  (∀ u, is_Some (cs !! u) → is_Some (w_tasks w !! u)) →
  swp (a ← resume body cs t; set_in_sched 1;; th ← rd_self; let prev := g_current th in set_current NULL;; mret (prev, Some a))
    (λ r w', ∃ k, r.2 = Some (CYield k) ∧ turned cs r.1 k w') w.
Proof.
  intros Ha Hrd Hcs. pose proof Ha as (_ & _ & _ & _ & (v & Hv & Hf) & _). apply swp_bind.
  eapply swp_mono; [exact (resume_ok cs t g w v Ha Hv (Hrd t v Hv Hf))|].
  intros [[]|k] w4 (g4 & Hk4 & Hr); [done|]. destruct Hr as [(R4 & ts4 & Hg4 & (th & Hth & Hc) & Hal4) Hcont].
  apply swp_bind, swp_wp. eapply wp_mono; [by apply set_in_sched_good|]. intros [] w5 (Hg5 & Hs5 & Eth5 & Et5).
  apply swp_bind, swp_wp. eapply wp_rd_self; [by rewrite (sd_self _ _ Hs5), Eth5|].
  apply swp_bind, swp_wp. eapply wp_mono; [by apply set_current_good|]. intros [] w6 (Hg6 & Hs6 & Et6 & _).
  assert (Hs : steady w4 w6) by (by etrans). assert (Et : w_tasks w6 = w_tasks w4) by congruence.
  rewrite Hc. apply swp_wp, wp_ret. exists k. split; [done|]. cbn [fst]. split.
  - exists R4, ts4, g4. split_and!; [done| |].
    + rewrite Et. intros Hnk g' w' Ha' Hre. unfold csafe, outcome. pose proof (Hcont Hnk g' w' Ha') as Hx.
      assert (Hre4 : rely t g4 w4 g' w') by (eapply rely_trans; [by eapply steady_rely|done]).
      specialize (Hx Hre4). by destruct (k w') as [[]| | |].
    + intros u x Hne Hx Hnk Hnf. rewrite Et in Hx. destruct (w_tasks w !! u) as [x0|] eqn:Hx0.
      * eapply (ready_ok_rely cs g w); [eapply Hrd; [exact Hx0|]| |exact Hx0|by rewrite Et].
        -- destruct (entry_func _ _ _ _ (rl_entry _ _ _ _ _ _ (kp_rely _ _ _ _ _ _ Hk4 u Hne ltac:(by eauto))) Hx0) as (x1 & Hx1 & _ & E).
           congruence.
        -- eapply rely_trans; [by apply (kp_rely _ _ _ _ _ _ Hk4); eauto|by apply steady_rely].
      * unfold ready_ok. destruct (cs !! u) eqn:Ecs; [destruct (Hcs u) as [? ?]; [by eauto|congruence]|].
        eapply start_ok_rely; [by eapply (kp_new _ _ _ _ _ _ Hk4)|by apply (steady_rely u g4 w4)|done|by rewrite Et].
  - destruct Hal4 as (x & ? & ?). exists x. by rewrite Et.
  - intros u Hu. rewrite Et. eapply keeps_live; [exact Hk4|]. by apply Hcs.
Qed.

Lemma machine_turn_ok fuel st :
  machine_ok st → Z.of_nat (size (w_tasks (mc_world st))) ≤ THREAD_MAX_TASK_SIZE →
  outcome (machine_turn body fuel st) machine_ok.
Proof.
  intros [Hp Hcs (R & ts & g & Hg & Hrd)] Hsz. destruct st as [w cs p]. cbn in *.
  assert (Hturn : swp (schedule_turn_with fuel (resume body cs) p) (λ r w', ∃ k, r.2 = Some (CYield k) ∧ turned cs r.1 k w') w).
  { unfold schedule_turn_with. apply swp_bind, swp_wp. eapply wp_mono; [by eapply recycle_good|].
    intros [] w1 (R1 & ts1 & Hg1 & Hrc). apply swp_bind.
    eapply swp_mono; [by eapply picknext_good|]. intros t w2 (R2 & ts2 & Hg2 & Hk2 & Ht).
    destruct (rt_live _ _ _ _ (gd_rt _ _ _ _ _ _ Hg2) t Ht) as [v2 Hv2].
    rewrite decide_False by (by eapply rt_nonnull_task; [apply Hg2|]).
    eapply dispatch_good; [done..|]. intros w3 Ha3 Hs3. eapply run_task_ok; [done| |].
    - intros u v3 Hv3 Hnf. assert (Hs : steady w1 w3) by (etrans; [by apply woke_steady|done]).
      destruct (steady_back _ _ _ _ Hs Hv3) as (v1 & Hv1 & Ef).
      destruct (rc_back _ _ _ Hrc u v1 Hv1) as (v & Hv & Hnk & Hre).
      destruct (entry_func _ _ _ _ (rl_entry _ _ _ _ _ _ Hre) Hv) as (v1' & Hv1' & _ & Ef').
      eapply (ready_ok_rely cs g w); [apply Hrd; [exact Hv|done|congruence]| |done|done].
      eapply rely_trans; [exact Hre|by apply steady_rely].
    - intros u Hu. eapply steady_live; [exact Hs3|]. eapply woke_live; [exact Hk2|].
      destruct (Hcs u Hu) as (v & Hv & Hnk). by eapply (rc_live _ _ _ Hrc). }
  unfold machine_turn. cbn [mc_conts mc_prev mc_world]. unfold swp in Hturn.
  destruct (schedule_turn_with fuel (resume body cs) p w) as [[[p' c] w']| | |]; try done. cbn in *.
  destruct Hturn as (k & -> & [(R' & ts' & g' & Hg' & Hk' & Hrd') Hal' Hlive]). cbn [save].
  assert (Hother : ∀ u v, w_tasks w' !! u = Some v → t_status v = KILLED → u = p') by (apply (gd_killed _ _ _ _ _ _ Hg')).
  pose proof Hal' as (vp & Hvp & Hfp). rewrite Hvp. cbn [fmap option_fmap option_map].
  split; cbn; [by right| |exists R', ts', g'; split; [done|]].
  - intros u. case_decide as Hkl.
    + intros [x [Hne Hx]%lookup_delete_Some]. destruct (Hlive u) as [v Hv]; [by eauto|]. exists v. split; [done|]. intros ?.
      by destruct Hne; symmetry; eapply Hother.
    + intros [x [[<- _]|[Hne Hx]]%lookup_insert_Some]; [exists vp; split; [done|congruence]|].
      destruct (Hlive u) as [v Hv]; [by eauto|]. exists v. split; [done|]. intros ?. by destruct Hne; symmetry; eapply Hother.
  - intros u v Hv Hnk Hnf. unfold ready_ok. destruct (decide (u = p')) as [->|Hne].
    + rewrite decide_False by congruence. rewrite lookup_insert_eq. apply Hk'. intros x Hx. congruence.
    + specialize (Hrd' u v Hne Hv Hnk Hnf). unfold ready_ok in Hrd'. case_decide; [by rewrite lookup_delete_ne|by rewrite lookup_insert_ne].
Qed.

(** Any number of turns. *)
Lemma machine_turns_ok n fuel st :
  machine_ok st → within_limit body n fuel st → outcome (machine_turns body n fuel st) machine_ok.
Proof.
  revert st. induction n as [|n IH]; intros st Hok Hl; [done|]. cbn [machine_turns within_limit] in *.
  destruct Hl as [Hsz Hl]. pose proof (machine_turn_ok fuel st Hok Hsz) as Ht.
  destruct (machine_turn body fuel st) as [st1| | |]; try done. by apply IH.
Qed.

End tasks.

(** The functions of a typed program and of the service tasks are safe. *)
Lemma task_body_ok lfuel prog : typed_program P prog → bodies_ok (task_body lfuel prog).
Proof.
  intros Hp t g w v Hw Hv Hh [_ Hs]. destruct (t_func v) eqn:Ef; cbn [task_body].
  - done.
  - destruct Hs as [-> Ho]. by apply csafe_timeout_task.
  - apply csafe_active_task; [done|by exists v|by exists v].
  - eapply exec_ok; [apply Hp|done|]. split; [by exists v|done].
Qed.

End soundness.
