(* ===== verification/Boot.v ===== *)
(** From the first call to the last turn: a program that creates its first task,
    initialises its mutexes, conditions, semaphores, channels and barriers and calls
    [schedule].

    [current_sched] (task_sched.c) makes the scheduler, its epoll object with the
    timer, and the two service tasks; the state it leaves is in order ([good]), and
    stays so while the program is set up and, by the lemmas of Machine.v, while it
    runs. *)

From Stdlib Require Import ZArith Lia.
From stdpp Require Import base numbers strings sets gmap list.
From S2P Require Import Prelude IntrusiveList Links Deque Array Heap Cid SpinLock TimeWheel HashMap World Coroutine InnerFd.
From S2P Require Import Task Sched Event Schedule Mutex Cond Sem Blocking Hook Helper Chan ChanObjects Descriptors Runtime TaskSafety IoSafety.
From S2P Require Import WakeSafety HookSafety ChanSafety Scripts Machine.
Open Scope Z_scope.

(** * Setting up a program *)

(** An object of the program, and the call that initialises it. *)
Inductive object :=
| OMutex (m : ptr)
| OCond (c : ptr)
| OSem (p : ptr) (count : Z)
| OChan (c : ptr) (nelems : Z)
| OBar (b : ptr) (count : Z).

(** The lists that lie in it. *)
Definition obj_heads (o : object) : list laddr :=
  match o with
  | OMutex m => [mutex_wait m]
  | OCond c => [cond_wait_list c]
  | OSem p _ => [sem_wait_list p]
  | OChan c _ => [mutex_wait (chan_mutex c); cond_wait_list (chan_not_full c); cond_wait_list (chan_not_empty c)]
  | OBar b _ => [mutex_wait (bar_mutex b); cond_wait_list (bar_cond b)]
  end.

(** The arguments of the call are in range. *)
Definition obj_fits (o : object) : Prop :=
  match o with OChan c n => c ≠ NULL ∧ 0 ≤ n ≤ INT_MAX | _ => True end.

Section program.
Context {K : Kernel}.

Definition init_object (o : object) : M unit :=
  match o with
  | OMutex m => _ ← co_mutex_init m; mret ()
  | OCond c => co_cond_init c
  | OSem p n => co_sem_init p n
  | OChan c n => chan_open c n 0
  | OBar b n => co_bar_init b n
  end.

Fixpoint init_objects (os : list object) : M unit :=
  match os with [] => mret () | o :: os => init_object o;; init_objects os end.

(** What [main] does before the loop of [schedule]. *)
Definition program_start (n : Z) (ip op : ptr) (os : list object) : M unit :=
  co_create (UserFunc n) ip op;; init_objects os;; schedule_begin.

End program.

(** The setup with one more object. *)
Definition add_mutex (m : ptr) (P : setup) : setup := Setup ({[m]} ∪ su_mutexes P) (su_conds P) (su_sems P)
  (su_chans P) (su_bars P) (su_needs P) (su_sched P) (su_epoll P) (su_timer P).
Definition add_cond (c : ptr) (P : setup) : setup := Setup (su_mutexes P) ({[c]} ∪ su_conds P) (su_sems P)
  (su_chans P) (su_bars P) (su_needs P) (su_sched P) (su_epoll P) (su_timer P).
Definition add_sem (p : ptr) (P : setup) : setup := Setup (su_mutexes P) (su_conds P) ({[p]} ∪ su_sems P)
  (su_chans P) (su_bars P) (su_needs P) (su_sched P) (su_epoll P) (su_timer P).
Definition add_chan (c : ptr) (P : setup) : setup := Setup (su_mutexes P) (su_conds P) (su_sems P)
  ({[c]} ∪ su_chans P) (su_bars P) (su_needs P) (su_sched P) (su_epoll P) (su_timer P).
Definition add_bar (b : ptr) (P : setup) : setup := Setup (su_mutexes P) (su_conds P) (su_sems P)
  (su_chans P) ({[b]} ∪ su_bars P) (su_needs P) (su_sched P) (su_epoll P) (su_timer P).

Definition declare (o : object) (P : setup) : setup :=
  match o with
  | OMutex m => add_mutex m P
  | OCond c => add_cond c P
  | OSem p _ => add_sem p P
  | OChan c _ => add_chan c (add_cond (chan_not_empty c) (add_cond (chan_not_full c) (add_mutex (chan_mutex c) P)))
  | OBar b _ => add_bar b (add_cond (bar_cond b) (add_mutex (bar_mutex b) P))
  end.
Definition declares (P : setup) (os : list object) : setup := foldl (λ P o, declare o P) P os.

(** The setup of a program. *)
Definition program_setup (needs : Z → ptr → ptr → gset Z) (os : list object) (s ep : ptr) (fd : Z) : setup :=
  declares (Setup ∅ ∅ ∅ ∅ ∅ needs s ep fd) os.

(** The names of the scheduler do not matter for the typing. *)
Definition at_sched (s ep : ptr) (fd : Z) (P : setup) : setup :=
  Setup (su_mutexes P) (su_conds P) (su_sems P) (su_chans P) (su_bars P) (su_needs P) s ep fd.

Lemma typed_at s ep fd P c sc : typed P c sc → typed (at_sched s ep fd P) c sc.
Proof.
  induction 1 as [|c a k Ha _ IH]; [constructor|]. constructor; [by destruct a|].
  intros r Hr. specialize (IH r Hr). by destruct a.
Qed.

Lemma declares_at s ep fd P os : declares (at_sched s ep fd P) os = at_sched s ep fd (declares P os).
Proof. revert P. induction os as [|o os IH]; intros P; [done|]. cbn. rewrite <-IH. by destruct o. Qed.

Lemma program_setup_at needs os s ep fd :
  program_setup needs os s ep fd = at_sched s ep fd (program_setup needs os NULL NULL 0).
Proof. exact (declares_at s ep fd (Setup ∅ ∅ ∅ ∅ ∅ needs NULL NULL 0) os). Qed.

Lemma declares_needs P os : su_needs (declares P os) = su_needs P.
Proof. revert P. induction os as [|o os IH]; intros P; [done|]. cbn. rewrite IH. by destruct o. Qed.

Section boot.
Context `{Sk : Sockets} {Fv : FdView} {D : Descriptors}.

(** * The state after the first call *)

Lemma in_rings_slots n tw i R c : in_rings (slots_abs n tw i R) c → lk c = LWheelSlot ∨ in_rings R c.
Proof.
  revert i R. induction n as [|n IH]; intros i R; cbn; [by right|]. intros [?|[->|?]%in_rings_head]%IH; [by left|by left|by right].
Qed.

Section state.
Context (w w' : world) (s ep st t1 t2 i : ptr) (fd1 fd2 : Z) (k : kstate) (R : gmap laddr (list laddr)).
Context (needs : Z → ptr → ptr → gset Z) (th : thread_t) (cur : ptr).
Context (Hb : booted w w' s ep st t1 t2 i fd1 fd2 k R) (Hrt : rt w' s R [t2; t1]).
Context (Hth : w_threads w' !! w_self w' = Some th) (Hbt : boot_thread th cur s 3).
Context (Hif : w_ifds w = ∅) (Hft : w_fdtab w = ∅) (Hfd : 0 ≤ fd2 < MAX_FD_NUM).
Context (Hint : interest fd1 k = ∅) (Hop : fd2 ∈ opened k).

Let P := Setup ∅ ∅ ∅ ∅ ∅ needs s ep fd2.
Let g : own := {[fd2 := (t1, false)]}.

Lemma boot_rings_in c :
  in_rings R c → lk c = LRunList ∨ lk c = LWheelSlot ∨ c = run_link t1 ∨ c = run_link t2 ∨ c = mutex_wait (dns_mutex (w_self w)).
Proof.
  rewrite (bd_rings _ _ _ _ _ _ _ _ _ _ _ _ Hb). intros [->|Hc]%in_rings_head; [by do 4 right|].
  set (R0 := slots_abs _ _ _ _) in Hc.
  assert (H0 : R0 !! run_list s = Some (run_link <$> [])) by (unfold R0; by rewrite slots_abs_other, lookup_singleton_eq).
  apply (in_rings_enqueue P) in Hc as [->|Hc]; [by do 3 right; left| |].
  - apply (in_rings_enqueue P) in Hc as [->|Hc]; [by do 2 right; left| |exact H0]. unfold R0 in Hc.
    apply in_rings_slots in Hc as [?|(h & xs & [<- <-]%lookup_singleton_Some & Hc)]; [by right; left|].
    apply list_elem_of_singleton in Hc as ->. by left.
  - unfold enqueue_rings. by rewrite lookup_insert_eq.
Qed.

Lemma boot_slots j : 0 ≤ j < 600 → R !! slot (boot_wheel w fd2 600) j = Some (ifd_link <$> []).
Proof.
  intros Hj. rewrite (bd_rings _ _ _ _ _ _ _ _ _ _ _ _ Hb), lookup_insert_ne by done.
  rewrite !enqueue_rings_other by done. rewrite slots_abs_lookup; [done|]. left. lia.
Qed.

Lemma boot_tasks_are u v :
  w_tasks w' !! u = Some v →
  (u = st ∧ v = new_task NoFunc NULL NULL 0) ∨
  (u = t1 ∧ v = enqueued_task (w_self w) (new_task TimeoutTask ep NULL 1)) ∨
  (u = t2 ∧ v = enqueued_task (w_self w) (new_task ActiveTask NULL NULL 2)).
Proof.
  rewrite (bd_tasks _ _ _ _ _ _ _ _ _ _ _ _ Hb), !lookup_insert_Some, lookup_singleton_Some. naive_solver.
Qed.

Lemma boot_cids : cids_ok (g_cids th) (w_tasks w').
Proof.
  destruct Hbt as (_ & _ & _ & h & ht & Hh & ->). destruct (bd_names _ _ _ _ _ _ _ _ _ _ _ _ Hb) as (N1 & N2 & N3 & _).
  exists (list_to_set (seqZ 0 3)). split.
  - eexists _, []. split_and!; [done|done|unfold THREAD_MAX_TASK_SIZE; cbn; lia|unfold THREAD_MAX_TASK_SIZE; cbn; lia|done| |].
    + intros j Hj. cbn in Hj. lia.
    + cbn [app id_base]. apply elements_list_to_set, NoDup_seqZ.
  - right. split_and!.
    + rewrite (bd_tasks _ _ _ _ _ _ _ _ _ _ _ _ Hb). rewrite map_size_insert_None.
      * rewrite map_size_insert_None, map_size_singleton by (by rewrite lookup_singleton_ne). by vm_compute.
      * by rewrite lookup_insert_ne, lookup_singleton_ne.
    + intros u v [[-> ->]|[[-> ->]|[-> ->]]]%boot_tasks_are; apply elem_of_list_to_set, elem_of_seqZ; cbn; lia.
    + intros u v u' v' [[-> ->]|[[-> ->]|[-> ->]]]%boot_tasks_are [[-> ->]|[[-> ->]|[-> ->]]]%boot_tasks_are; done.
Qed.

Lemma boot_io : io_ok P w' R g.
Proof.
  destruct (bd_names _ _ _ _ _ _ _ _ _ _ _ _ Hb) as (N1 & N2 & N3 & N4).
  destruct Hb as [_ _ _ _ Hsc Hep Hk Hifd Hftb Hlk _ _]. rewrite Hif in Hifd. rewrite Hft in Hftb.
  assert (Hna : ∀ u fd, ¬ armed g u fd).
  { intros u fd. unfold armed, g. rewrite lookup_singleton_Some. by intros [_ [=]]. }
  assert (Hnl : ∀ p, ¬ in_rings R (ifd_link p)) by (by intros p [[=]|[[=]|[[=]|[[=]|[=]]]]]%boot_rings_in).
  split; cbn.
  - exists (Epoll 1024 0 fd1 1 (Some (boot_wheel w fd2 600))), (boot_wheel w fd2 600). split_and!.
    + split; [|split_and!; [done|done|by vm_compute|done]]. destruct (w_scheds w' !! s) as [sv|] eqn:E; [|done].
      exists sv. split; [done|]. cbn in Hsc. by injection Hsc as ->.
    + intros j Hj. exists []. by apply boot_slots.
    + cbn. rewrite Hk, Hint. set_solver.
  - rewrite Hftb. intros fd p [[<- <-]|[_ ?]]%lookup_insert_Some; [|done]. split_and!; [lia|lia|done|done|].
    eexists. by rewrite Hifd, lookup_insert_eq.
  - rewrite Hifd. intros p v [[<- <-]|[_ ?]]%lookup_insert_Some; [|done]. by rewrite Hftb, lookup_insert_eq.
  - intros p. apply eq_None_not_Some. intros [xs Hx]. apply (Hnl p). exists (ifd_link p), xs. split; [done|by left].
  - intros p Hp. by destruct (Hnl p).
  - intros fd u Ha. by destruct (Hna u fd).
  - intros fd Hx. rewrite Hk. assert (fd = fd2) as ->; [|done]. rewrite Hftb in Hx. unfold g in Hx.
    destruct Hx as [[x [[<- _]|[_ ?]]%lookup_insert_Some]|[x [<- _]%lookup_singleton_Some]]; done.
  - intros u v [[-> ->]|[[-> ->]|[-> ->]]]%boot_tasks_are; [|done|done]. intros _. by intros [[=]|[[=]|[[=]|[[=]|[=]]]]]%boot_rings_in.
  - intros u v u' v' [[-> ->]|[[-> ->]|[-> ->]]]%boot_tasks_are [[-> ->]|[[-> ->]|[-> ->]]]%boot_tasks_are; done.
Qed.

Lemma boot_good : good P w' R [t2; t1] NULL g ∧ ∀ u v, w_tasks w' !! u = Some v → t_func v ≠ NoFunc → start_ok P g u v.
Proof.
  split; [split; [exact Hrt| | | | |exact boot_io|by split]|].
  - split; cbn; set_solver.
  - intros th'. rewrite Hth. intros [= <-]. apply boot_cids.
  - by intros u v m [[-> ->]|[[-> ->]|[-> ->]]]%boot_tasks_are.
  - by intros u v [[-> ->]|[[-> ->]|[-> ->]]]%boot_tasks_are.
  - assert (Hna : ∀ u fd, ¬ armed g u fd).
    { intros u fd. unfold armed, g. rewrite lookup_singleton_Some. by intros [_ [=]]. }
    intros u v [[-> ->]|[[-> ->]|[-> ->]]]%boot_tasks_are; cbn; [done| |done]. intros _. split; [done|]. cbn.
    split; [done|]. unfold owns, g. by rewrite lookup_singleton_eq.
Qed.

End state.
(** * The objects of the program *)

Lemma io_ok_head P w w' R g h :
  io_ok P w R g → lk h ≠ LWheelSlot → lk h ≠ LFdLink → lk h ≠ LRunLink →
  w_fdtab w' = w_fdtab w → w_ifds w' = w_ifds w → w_epolls w' = w_epolls w → w_kernel w' = w_kernel w →
  w_scheds w' = w_scheds w → w_tasks w' = w_tasks w → dom (w_links w) ⊆ dom (w_links w') → io_ok P w' (<[h := []]> R) g.
Proof.
  intros [(e & tw & Hw & Hsl & Hint) Htb Hif Hhd Hlk Har Hop Hno Hac] K1 K2 K3 E1 E2 E3 E4 E5 E6 El.
  split; rewrite ?E1, ?E2, ?E4, ?E6; try done.
  - exists e, tw. split_and!; [| |done].
    + destruct Hw as ((sv & ? & ?) & ? & ?). split; [exists sv; by rewrite E5|by rewrite E3].
    + intros j (il & Hj)%Hsl. exists il. rewrite lookup_insert_ne; [done|]. intros ->. by apply K1.
  - intros fd p Hp. destruct (Htb _ _ Hp) as (? & ? & Hl & ?). split_and!; [by lia..|done| |done].
    apply elem_of_dom, El. by apply elem_of_dom.
  - intros p. rewrite lookup_insert_ne; [by apply Hhd|]. intros ->. by apply K2.
  - intros p [<-|?]%in_rings_head; [by destruct K2|by apply Hlk].
  - intros u v Hv Hf [<-|Hr]%in_rings_head; [by destruct K3|by eapply Hno].
Qed.

(** A list head of an object. *)
Definition head_kind (h : laddr) : Prop :=
  lk h ≠ LWheelSlot ∧ lk h ≠ LFdLink ∧ lk h ≠ LRunLink ∧ lk h ≠ LRunList.

Lemma head_kept (R : gmap laddr (list laddr)) h h' xs :
  ¬ in_rings R h → R !! h' = Some xs → <[h := []]> R !! h' = Some xs.
Proof. intros Hn Hx. rewrite lookup_insert_ne; [done|]. intros <-. apply Hn. exists h, xs. split; [done|by left]. Qed.

Lemma objs_ok_more P P' o :
  objs_ok P o → su_mutexes P ⊆ su_mutexes P' → su_conds P ⊆ su_conds P' → su_chans P' = su_chans P →
  su_bars P' = su_bars P → objs_ok P' o.
Proof.
  intros [Hc Hb] Hm Hcd E1 E2. split; rewrite ?E1, ?E2.
  - intros c [(? & ? & ? & ?) ?]%Hc. split; [|done]. split_and!; [done|by apply Hm|by apply Hcd|by apply Hcd].
  - intros b [(? & ?) ?]%Hb. split; [|done]. split; [by apply Hm|by apply Hcd].
Qed.

(** What the initialisation of one list does to the rest of the state. *)
Record headed (w w' : world) (h : laddr) : Prop := {
  hd_self : w_self w' = w_self w;
  hd_threads : w_threads w' = w_threads w;
  hd_scheds : w_scheds w' = w_scheds w;
  hd_epolls : w_epolls w' = w_epolls w;
  hd_tasks : w_tasks w' = w_tasks w;
  hd_links : w_links w' = list_init (w_links w) h;
  hd_fds : w_fdtab w' = w_fdtab w ∧ w_ifds w' = w_ifds w;
  hd_kernel : w_kernel w' = w_kernel w;
  hd_objs : w_objs w' = w_objs w
}.

Lemma good_head P ms cs ps w w' R ts g h :
  let P' := Setup ms cs ps (su_chans P) (su_bars P) (su_needs P) (su_sched P) (su_epoll P) (su_timer P) in
  good P w R ts NULL g → head_kind h → ¬ in_rings R h → headed w w' h → su_mutexes P ⊆ ms → su_conds P ⊆ cs →
  sync_ok P' w' (<[h := []]> R) → good P' w' (<[h := []]> R) ts NULL g.
Proof.
  intros P' [Hrt Hsy Hc Hsp Hk Hio Hob] (K1 & K2 & K3 & K4) Hn [E1 E2 E3 E4 E5 E6 [E7 E8] E9 E10] Hms Hcs Hsy'.
  assert (Hob' : objs_ok P' (w_objs w')) by (rewrite E10; by eapply (objs_ok_more P)).
  split; rewrite ?E1, ?E2, ?E5; try done.
  - destruct Hrt as [Hnn Hself Hsch Htk Hq Hlv]. split; rewrite ?E1, ?E2, ?E3, ?E4, ?E5; try done.
    + eapply (tasks_ok_frame (with_links w (list_init (w_links w) h))); [by apply tasks_ok_head|done..].
    + rewrite lookup_insert_ne; [done|]. intros E. apply K4. by rewrite E.
  - assert (Hio' : io_ok P w' (<[h := []]> R) g).
    { eapply io_ok_head; try done. rewrite E6. unfold list_init. rewrite dom_insert_L. set_solver. }
    destruct Hio'. by split.
Qed.

(** Only what the program declares, and its objects, change. *)
Lemma good_declared P cs bs w R ts k g o :
  let P' := Setup (su_mutexes P) (su_conds P) (su_sems P) cs bs (su_needs P) (su_sched P) (su_epoll P) (su_timer P) in
  good P w R ts k g → objs_ok P' o → good P' (with_objs w o) R ts k g.
Proof.
  intros P' [Hrt [] Hc Hsp Hk [] _] Hob. split; try done; by eapply rt_frame.
Qed.

Definition inited (P' : setup) (R' : gmap laddr (list laddr)) (ts : list Z) (g : own) (w w' : world) : Prop :=
  good P' w' R' ts NULL g ∧ w_tasks w' = w_tasks w ∧ w_objs w' = w_objs w.

Lemma mutex_init_good P m w R ts g :
  good P w R ts NULL g → ¬ in_rings R (mutex_wait m) →
  wp (co_mutex_init m) (λ _ w', inited (add_mutex m P) (<[mutex_wait m := []]> R) ts g w w') w.
Proof.
  intros Hg Hn. unfold co_mutex_init. wp_steps. eapply wp_upd_links; [done|]. wp_steps. split; [|done].
  eapply (good_head P); [done|done|done|by split|cbn; set_solver|done|].
  destruct (gd_sync _ _ _ _ _ _ Hg) as [Hm Hc Hs]. split; cbn.
  - intros m' Hin. destruct (decide (m' = m)) as [->|Hne].
    + exists NULL, []. by rewrite !lookup_insert_eq.
    + destruct (Hm m') as (o & ws & ? & ?); [set_solver|]. exists o, ws. rewrite lookup_insert_ne by done.
      split; [done|by apply head_kept].
  - intros c (ws & ?)%Hc. exists ws. by apply head_kept.
  - intros p (n & ws & ? & ?)%Hs. exists n, ws. split; [done|by apply head_kept].
Qed.

Lemma cond_init_good P c w R ts g :
  good P w R ts NULL g → ¬ in_rings R (cond_wait_list c) →
  wp (co_cond_init c) (λ _ w', inited (add_cond c P) (<[cond_wait_list c := []]> R) ts g w w') w.
Proof.
  intros Hg Hn. unfold co_cond_init. eapply wp_upd_links; [done|]. split; [|done].
  eapply (good_head P); [done|done|done|by split|done|cbn; set_solver|].
  destruct (gd_sync _ _ _ _ _ _ Hg) as [Hm Hc Hs]. split; cbn.
  - intros m (o & ws & ? & ?)%Hm. exists o, ws. split; [done|by apply head_kept].
  - intros c' Hin. destruct (decide (c' = c)) as [->|Hne]; [exists []; by rewrite lookup_insert_eq|].
    destruct (Hc c') as (ws & ?); [set_solver|]. exists ws. by apply head_kept.
  - intros p (n & ws & ? & ?)%Hs. exists n, ws. split; [done|by apply head_kept].
Qed.

Lemma sem_init_good P p n w R ts g :
  good P w R ts NULL g → ¬ in_rings R (sem_wait_list p) →
  wp (co_sem_init p n) (λ _ w', inited (add_sem p P) (<[sem_wait_list p := []]> R) ts g w w') w.
Proof.
  intros Hg Hn. unfold co_sem_init. wp_steps. eapply wp_upd_links; [done|]. split; [|done].
  eapply (good_head P); [done|done|done|by split|done|done|].
  destruct (gd_sync _ _ _ _ _ _ Hg) as [Hm Hc Hs]. split; cbn.
  - intros m (o & ws & ? & ?)%Hm. exists o, ws. split; [done|by apply head_kept].
  - intros c (ws & ?)%Hc. exists ws. by apply head_kept.
  - intros p' Hin. destruct (decide (p' = p)) as [->|Hne].
    + exists (atomic_set n), []. by rewrite !lookup_insert_eq.
    + destruct (Hs p') as (n' & ws & ? & ?); [set_solver|]. exists n', ws. rewrite lookup_insert_ne by done.
      split; [done|by apply head_kept].
Qed.

(** An object with a list of its own is a new one. *)
Lemma chan_fresh P w R ts k g c : good P w R ts k g → ¬ in_rings R (mutex_wait (chan_mutex c)) → c ∉ su_chans P.
Proof.
  intros [_ [Hm _ _] _ _ _ _ [Hc _]] Hn [(_ & Hin & _) _]%Hc. destruct (Hm _ Hin) as (o & ws & _ & Hw). apply Hn.
  eexists _, _. split; [exact Hw|by left].
Qed.

Definition heads_init (R : gmap laddr (list laddr)) (hs : list laddr) : gmap laddr (list laddr) :=
  foldl (λ R h, <[h := []]> R) R hs.

Lemma obj_heads_kind os h : h ∈ os ≫= obj_heads → head_kind h.
Proof.
  intros (o & Hh & _)%list_elem_of_bind. destruct o; cbn in Hh; repeat (apply elem_of_cons in Hh as [->|Hh]; [by split_and!|]);
    by apply not_elem_of_nil in Hh.
Qed.

Lemma in_rings_heads R hs c : in_rings (heads_init R hs) c → c ∈ hs ∨ in_rings R c.
Proof.
  revert R. induction hs as [|h hs IH]; intros R; cbn; [by right|]. intros [?|[->|?]%in_rings_head]%IH; [|by left; left|by right].
  left. by right.
Qed.

Lemma chan_open_good P c n w R ts g :
  good P w R ts NULL g → NoDup (obj_heads (OChan c n)) → (∀ h, h ∈ obj_heads (OChan c n) → ¬ in_rings R h) →
  obj_fits (OChan c n) →
  wp (chan_open c n 0) (λ _ w', good (declare (OChan c n) P) w' (heads_init R (obj_heads (OChan c n))) ts NULL g ∧
    w_tasks w' = w_tasks w) w.
Proof.
  intros Hg Hnd Hn [Hnn Hr]. cbn [obj_heads] in *. apply NoDup_cons in Hnd as [Hnd1 [Hnd2 _]%NoDup_cons].
  unfold chan_open, assert_chan. rewrite decide_False by done. wp_step. wp_step. wp_step. apply wp_wr_chan. wp_step.
  pose proof (chan_fresh _ _ _ _ _ _ c Hg (Hn _ (list_elem_of_here _ _))) as Hc.
  set (v0 := Chan _ 0 0). set (o1 := with_chan (w_objs w) c v0).
  assert (Hg1 : good P (with_objs w o1) R ts NULL g).
  { apply good_objs; [done|]. destruct (gd_objs _ _ _ _ _ _ Hg) as [Hch Hb]. split; [|exact Hb].
    intros c' Hin. destruct (Hch c' Hin) as [Hd (n' & q & Hh)]. split; [done|]. exists n', q.
    eapply chan_holds_other; [apply only_chan_with| |exact Hh]. by intros ->. }
  eapply wp_mono; [eapply mutex_init_good; [exact Hg1|apply Hn; set_solver]|]. intros z w2 (Hg2 & Et2 & Eo2). wp_step.
  eapply wp_mono; [eapply cond_init_good; [exact Hg2|]|].
  { intros [E|Hi]%in_rings_head; [done|]. by eapply Hn; [|exact Hi]; set_solver. }
  intros [] w3 (Hg3 & Et3 & Eo3). wp_step. eapply wp_mono; [eapply cond_init_good; [exact Hg3|]|].
  { intros [E|[E|Hi]%in_rings_head]%in_rings_head; [|done|by eapply Hn; [|exact Hi]; set_solver].
    apply Hnd2. rewrite E. by left. }
  intros [] w4 (Hg4 & Et4 & Eo4). wp_step.
  assert (Eo : w_objs w4 = o1) by (by rewrite Eo4, Eo3, Eo2).
  eapply wp_rd_chan; [rewrite Eo; cbn; by rewrite lookup_insert_eq|]. cbn [ch_msgs v0]. apply wp_wr_chan.
  split; [|cbn; rewrite Et4, Et3, Et2; done]. eapply good_declared; [exact Hg4|].
  destruct (gd_objs _ _ _ _ _ _ Hg4) as [Hch Hb]. split; [|exact Hb]. cbn [su_chans add_chan]. intros c' Hin.
  destruct (decide (c' = c)) as [->|Hne].
  - split; [cbn; set_solver|]. exists n, []. split; [done|]. split; [cbn; lia|]. eexists _, [], []. cbn.
    rewrite lookup_insert_eq, u32_small by (unfold INT_MAX in *; lia). by split; [|split; [apply deque_init_rep|]].
  - destruct (Hch c') as [Hd (n' & q & Hh)]; [set_solver|]. split; [done|]. exists n', q.
    eapply chan_holds_other; [apply only_chan_with|done|exact Hh].
Qed.

Lemma bar_init_good P b n w R ts g :
  good P w R ts NULL g → (∀ h, h ∈ obj_heads (OBar b n) → ¬ in_rings R h) →
  wp (co_bar_init b n) (λ _ w', good (declare (OBar b n) P) w' (heads_init R (obj_heads (OBar b n))) ts NULL g ∧
    w_tasks w' = w_tasks w) w.
Proof.
  intros Hg Hn. cbn [obj_heads] in *. unfold co_bar_init. wp_step.
  eapply wp_mono; [eapply mutex_init_good; [exact Hg|apply Hn; set_solver]|]. intros z w2 (Hg2 & Et2 & Eo2). wp_step.
  eapply wp_mono; [eapply cond_init_good; [exact Hg2|]|].
  { intros [E|Hi]%in_rings_head; [done|]. by eapply Hn; [|exact Hi]; set_solver. }
  intros [] w3 (Hg3 & Et3 & Eo3). apply wp_wr_bar. split; [|cbn; by rewrite Et3, Et2].
  eapply good_declared; [exact Hg3|]. destruct (gd_objs _ _ _ _ _ _ Hg3) as [Hch Hb]. split; [exact Hch|].
  cbn [su_bars add_bar]. intros b' Hin. cbn. rewrite lookup_insert. case_decide as E.
  - subst b'. split; [set_solver|by eauto].
  - destruct (Hb b') as [? ?]; [set_solver|]. done.
Qed.

Lemma init_object_good P o w R ts g :
  good P w R ts NULL g → NoDup (obj_heads o) → (∀ h, h ∈ obj_heads o → ¬ in_rings R h) → obj_fits o →
  wp (init_object o) (λ _ w', good (declare o P) w' (heads_init R (obj_heads o)) ts NULL g ∧ w_tasks w' = w_tasks w) w.
Proof.
  intros Hg Hnd Hn Hf. destruct o as [m|c|p n|c n|b n]; cbn [init_object].
  - wp_step. eapply wp_mono; [eapply mutex_init_good; [done|apply Hn; by left]|]. intros z w' (? & ? & _). by wp_step.
  - eapply wp_mono; [eapply cond_init_good; [done|apply Hn; by left]|]. by intros [] w' (? & ? & _).
  - eapply wp_mono; [eapply sem_init_good; [done|apply Hn; by left]|]. by intros [] w' (? & ? & _).
  - by apply chan_open_good.
  - by apply bar_init_good.
Qed.

Lemma init_objects_good P os w R ts g :
  good P w R ts NULL g → NoDup (os ≫= obj_heads) → (∀ h, h ∈ os ≫= obj_heads → ¬ in_rings R h) → Forall obj_fits os →
  wp (init_objects os) (λ _ w', ∃ R', good (declares P os) w' R' ts NULL g ∧ w_tasks w' = w_tasks w) w.
Proof.
  revert P w R. induction os as [|o os IH]; intros P w R Hg Hnd Hn Hf; cbn [init_objects declares foldl]; [wp_steps; by eauto|].
  rewrite bind_cons in Hnd, Hn. apply NoDup_app in Hnd as (Hnd1 & Hdis & Hnd2). apply Forall_cons in Hf as [Hf1 Hf2]. wp_step.
  eapply wp_mono; [eapply (init_object_good P); [done|done|intros h Hh; apply Hn; set_solver|done]|]. intros [] w1 [Hg1 E1].
  eapply wp_mono; [eapply (IH (declare o P)); [done|done| |done]|].
  - intros h Hh [Ho|Hr]%in_rings_heads; [by apply (Hdis h)|]. apply (Hn h); [set_solver|done].
  - intros [] w2 (R2 & ? & E2). exists R2. split; [done|congruence].
Qed.

Lemma start_ok_objects P os g u v : start_ok P g u v → start_ok (declares P os) g u v.
Proof.
  revert P. induction os as [|o os IH]; intros P Hs; [done|]. cbn. apply IH. destruct Hs as [Ha Hs]. split; [done|].
  by destruct o.
Qed.

(** * The program *)

(** The first call makes the scheduler; the second finds it. *)
Lemma co_create_first n ip op w w' s th :
  current_sched w = Ok (s, w') → w_threads w' !! w_self w' = Some th → g_sched th = s → s ≠ NULL →
  co_create (UserFunc n) ip op w = co_create (UserFunc n) ip op w'.
Proof.
  intros Hc Hth <- Hs. assert (Hc' : wp current_sched (λ s' w'', s' = g_sched th ∧ w'' = w') w').
  { by eapply current_sched_ready. }
  destruct Hc' as (s' & w'' & Hc' & -> & ->). unfold co_create, mbind, M_bind. by rewrite Hc, Hc'.
Qed.

Lemma program_start_ok needs os n ip op w en fd1 e1 k1 fd2 e2 k2 e3 k3 :
  needs n ip op = ∅ → NoDup (os ≫= obj_heads) → mutex_wait (dns_mutex (w_self w)) ∉ os ≫= obj_heads → Forall obj_fits os →
  boot w NULL en → w_ifds w = ∅ → w_fdtab w = ∅ →
  sys_epoll_create (w_kernel w) = ((fd1, e1), k1) → 0 ≤ fd1 →
  sys_timerfd_create k1 = ((fd2, e2), k2) → 0 ≤ fd2 → sys_timerfd_settime fd2 1 0 1 k2 = ((0, e3), k3) →
  ∃ w1 s ep, program_start n ip op os w = Ok ((), w1) ∧
    machine_ok (program_setup needs os s ep fd2) (Machine w1 ∅ NULL).
Proof.
  intros Hnd Hos Hdns Hfit Hb Hif Hft Hk1 Hf1 Hk2 Hf2 Hk3.
  destruct (epoll_create_opens _ _ _ _ Hk1) as [[? _]|[Ho1 Hi1]]; [lia|].
  destruct (timerfd_opens _ _ _ _ Hk2) as [[? _]|Ho2]; [lia|]. pose proof Ho2 as (Hfd2 & _ & Eo2 & Ei2).
  assert (Hq : calm k2 k3) by (pose proof (settime_quiet fd2 1 0 1 k2) as Hq; by rewrite Hk3 in Hq). destruct Hq as [Eo3 Ei3].
  destruct (current_sched_boot _ _ _ _ _ _ _ _ _ _ _ Hb Hk1 Hf1 Hk2 Hfd2 Hk3)
    as (s & w' & Hc & R & t1 & t2 & v1 & v2 & th & Hrt & _ & _ & _ & _ & Hth & Hbt & ep & st & i & Hbd).
  destruct (boot_good w w' s ep st t1 t2 i fd1 fd2 k3 R needs th NULL Hbd Hrt Hth Hbt Hif Hft Hfd2) as [Hg Hst].
  { specialize (Ei3 fd1). specialize (Ei2 fd1). set_solver. }
  { rewrite Eo3, Eo2. set_solver. }
  set (P := Setup ∅ ∅ ∅ ∅ ∅ needs s ep fd2) in *. set (g := {[fd2 := (t1, false)]} : own) in *.
  assert (Hwp : wp (program_start n ip op os) (λ _ w1, machine_ok (program_setup needs os s ep fd2) (Machine w1 ∅ NULL)) w').
  { unfold program_start. wp_step. eapply wp_mono; [eapply (create_good P NULL n ip op g w'); [done|by left| |]|].
    - intros fd Ha. destruct (io_armed _ _ _ _ (gd_io _ _ _ _ _ _ Hg) _ _ Ha) as (v & Hv & _).
      by destruct (rt_nonnull_task P _ _ _ _ _ Hrt Hv).
    - cbn. rewrite Hnd. set_solver.
    - intros [] w2 (u & v & g2 & Hun & Hu & HT & Hkp & Hg2 & _ & _ & _). wp_step.
      eapply wp_mono; [eapply (init_objects_good P os w2); [exact Hg2|done| |done]|].
      + intros h Hh [Hr|Hr]%(in_rings_enqueue P); [by destruct (obj_heads_kind os h Hh) as [_ [_ [? _]]]; subst| |apply Hrt].
        destruct (obj_heads_kind os h Hh) as (K1 & _ & K3 & K4).
        apply (boot_rings_in w w' s ep st t1 t2 i fd1 fd2 k3 R needs Hbd) in Hr as [?|[?|[E|[E|E]]]]; subst; try done.
      + intros [] w3 (R3 & Hg3 & E3). change (declares P os) with (program_setup needs os s ep fd2) in Hg3.
        destruct (rt_self _ _ _ _ (gd_rt _ _ _ _ _ _ Hg3)) as (th3 & Hth3 & Hs3). rewrite program_setup_at in Hs3. cbn in Hs3.
        unfold schedule_begin. wp_step. eapply current_sched_ready; [done|rewrite Hs3; apply (rt_nonnull _ _ _ _ Hrt)|].
        eapply wp_mono; [by apply (set_in_sched_good (program_setup needs os s ep fd2))|]. intros [] w4 (Hg4 & Hsd & _ & E4).
        split; cbn; [by left|by intros ? []|]. eexists _, _, g2. split; [exact Hg4|]. intros x y Hx _ Hf. unfold ready_ok. rewrite lookup_empty.
        apply start_ok_objects. rewrite E4, E3, HT in Hx. destruct (decide (x = u)) as [->|Hne].
        * eapply (kp_new _ _ _ _ _ _ Hkp); [done|done|by rewrite HT].
        * pose proof Hx as Hx'. rewrite lookup_insert_ne in Hx' by done.
          eapply start_ok_rely; [by apply Hst| |exact Hx'|by rewrite HT].
          apply (kp_rely _ _ _ _ _ _ Hkp); [exact (rt_nonnull_task P _ _ _ _ _ Hrt Hx')|by eauto]. }
  destruct Hwp as ([] & w1 & Hrun & Hok). exists w1, s, ep. split; [|done]. rewrite <-Hrun. unfold program_start, mbind, M_bind.
  destruct Hbt as (_ & Hs & _). by rewrite (co_create_first n ip op w w' s th Hc Hth Hs (rt_nonnull _ _ _ _ Hrt)).
Qed.

(** C1. Type safety of programs, from the first call on.  Let every function of a
    program be typed: it uses only the mutexes, conditions, semaphores,
    channels of pointers and barriers that are initialised and only descriptors it
    owns (those it was given, opened or accepted), closes with the hook on, and
    otherwise creates, yields, locks, unlocks, waits, signals, posts, sends,
    receives, reads, writes, connects, accepts and exits in whatever way it likes,
    depending on the results.  When the kernel has let the
    first call set up the scheduler, then any number of turns of its loop, with all
    switches between the tasks and with the timer task and the active task of the
    library among them, ends in a well-formed state again, in a deliberate panic (a
    mutex locked twice, or unlocked or waited with by a task that does not hold it;
    a failing [epoll_wait]; no pipe left), or in a loop that is cut off; it never
    reads or writes a freed task, descriptor object or id, or a broken list.  This
    holds while no more tasks exist than there are ids, for every kernel that keeps
    to its manual on descriptors. *)
Theorem program_type_safety prog needs os n ip op w en fd1 e1 k1 fd2 e2 k2 e3 k3 lfuel :
  typed_program (program_setup needs os NULL NULL 0) prog →
  needs n ip op = ∅ → NoDup (os ≫= obj_heads) → mutex_wait (dns_mutex (w_self w)) ∉ os ≫= obj_heads → Forall obj_fits os →
  boot w NULL en → w_ifds w = ∅ → w_fdtab w = ∅ →
  sys_epoll_create (w_kernel w) = ((fd1, e1), k1) → 0 ≤ fd1 →
  sys_timerfd_create k1 = ((fd2, e2), k2) → 0 ≤ fd2 → sys_timerfd_settime fd2 1 0 1 k2 = ((0, e3), k3) →
  ∃ w1 s ep, program_start n ip op os w = Ok ((), w1) ∧
    ∀ turns fuel, within_limit (task_body lfuel prog) turns fuel (Machine w1 ∅ NULL) →
      match machine_turns (task_body lfuel prog) turns fuel (Machine w1 ∅ NULL) with
      | Ok st => machine_ok (program_setup needs os s ep fd2) st
      | Panic msg => deliberate msg
      | OutOfFuel => True
      | Undef => False
      end.
Proof.
  intros Hty Hnd Hos Hdns Hfit Hb Hif Hft Hk1 Hf1 Hk2 Hf2 Hk3.
  destruct (program_start_ok needs os n ip op w en fd1 e1 k1 fd2 e2 k2 e3 k3) as (w1 & s & ep & Hrun & Hok); [done..|].
  exists w1, s, ep. split; [done|]. intros turns fuel Hl. apply machine_turns_ok; [|done|done]. apply task_body_ok.
  rewrite program_setup_at. intros i a b. apply typed_at, Hty.
Qed.

End boot.

(** * Example *)

(** A small kernel.  Descriptors are numbered upwards; a registered descriptor is
    always ready; every second call to [read] or [accept] would block; [write] takes
    up to three bytes. *)
Record ex_k := ExK { k_open : gset Z; k_int : gmap Z (gset Z); k_next : Z; k_ready : bool; k_sent : list Z }.

Definition k_interest (ep : Z) (k : ex_k) : gset Z := default ∅ (k_int k !! ep).
Definition k_set_int (ep : Z) (X : gset Z) (k : ex_k) : ex_k :=
  ExK (k_open k) (<[ep := X]> (k_int k)) (k_next k) (k_ready k) (k_sent k).
Definition k_set_ready (b : bool) (k : ex_k) : ex_k := ExK (k_open k) (k_int k) (k_next k) b (k_sent k).

Definition k_opens (k : ex_k) : (Z * Z) * ex_k :=
  if decide ((k_next k ∉ k_open k) ∧ 0 ≤ k_next k < MAX_FD_NUM)
  then ((k_next k, 0), ExK ({[k_next k]} ∪ k_open k) (k_int k) (k_next k + 1) (k_ready k) (k_sent k))
  else ((-1, 24), k).

Definition k_epoll_create (k : ex_k) : (Z * Z) * ex_k :=
  let r := k_opens k in if decide (r.1.1 < 0) then r else (r.1, k_set_int r.1.1 ∅ r.2).
Definition k_ctl (ep op fd ev : Z) (k : ex_k) : (Z * Z) * ex_k :=
  ((0, 0), k_set_int ep (if decide (op = EPOLL_CTL_DEL) then k_interest ep k ∖ {[fd]} else {[fd]} ∪ k_interest ep k) k).
Definition k_close (fd : Z) (k : ex_k) : (Z * Z) * ex_k :=
  ((0, 0), ExK (k_open k ∖ {[fd]}) ((λ X, X ∖ {[fd]}) <$> k_int k) (k_next k) (k_ready k) (k_sent k)).
Definition k_write (bs : list Z) (k : ex_k) : (Z * Z) * ex_k :=
  ((Z.of_nat (length (take 3 bs)), 0), ExK (k_open k) (k_int k) (k_next k) (k_ready k) (k_sent k ++ take 3 bs)).
Definition k_read (n : Z) (k : ex_k) : (Z * list Z * Z) * ex_k :=
  if k_ready k then let bs := take (Z.to_nat n) [104; 101; 108; 108; 111; 33; 33; 33] in
    ((Z.of_nat (length bs), bs, 0), k_set_ready false k)
  else ((-1, [], EAGAIN), k_set_ready true k).
Definition k_accept (k : ex_k) : (Z * Z) * ex_k :=
  if k_ready k then k_opens (k_set_ready false k) else ((-1, EAGAIN), k_set_ready true k).
Definition k_pipe (k : ex_k) : (Z * (Z * Z)) * ex_k :=
  let r0 := k_opens k in
  if decide (r0.1.1 < 0) then ((-1, (0, 0)), k) else
  let r1 := k_opens r0.2 in
  if decide (r1.1.1 < 0) then ((-1, (0, 0)), k) else ((0, (r0.1.1, r1.1.1)), r1.2).

Definition ex_os : Kernel := {|
  kstate := ex_k;
  sys_epoll_create := k_epoll_create;
  sys_epoll_ctl := k_ctl;
  sys_epoll_wait := λ ep _ _ k, (inr ((λ fd, (fd, Z.lor EPOLLIN EPOLLOUT)) <$> elements (k_interest ep k)), k);
  sys_close := k_close;
  sys_write := λ _ bs, k_write bs;
  sys_timerfd_create := k_opens;
  sys_timerfd_settime := λ _ _ _ _ k, ((0, 0), k);
  sys_gettid := λ th _, 1000 + th
|}.

#[local] Existing Instance ex_os.

Definition ex_net : Sockets (K := ex_os) := {|
  sys_read := λ _ n, k_read n;
  sys_recv := λ _ n _, k_read n;
  sys_recvfrom := λ _ n _, k_read n;
  sys_recvmsg := λ _ _, k_read 8;
  sys_send := λ _ bs _, k_write bs;
  sys_sendto := λ _ bs _ _, k_write bs;
  sys_sendmsg := λ _ _ _ k, ((0, 0), k);
  sys_fcntl := λ _ _ _ k, ((0, 0), k);
  sys_socket := λ _ _ _, k_opens;
  sys_listen := λ _ _ k, ((0, 0), k);
  sys_connect := λ _ _ k, ((0, 0), k);
  sys_accept := λ _, k_accept;
  sys_so_error := λ _ k, (0, k);
  sys_pipe := k_pipe;
  sys_sleep := λ _ k, (0, k);
  sys_gethostbyname_r := λ _ h k, ((-1, h), k)
|}.

#[local] Existing Instance ex_net.
#[local] Instance ex_view : FdView (K := ex_os) := {| opened := k_open; interest := k_interest |}.

Lemma k_opens_ok k fd e k' : k_opens k = ((fd, e), k') → (fd < 0 ∧ calm k k') ∨ opens fd k k'.
Proof.
  unfold k_opens. case_decide as H; intros [= <- <- <-]; [right|left; split; [lia|done]].
  destruct H as [? [? ?]]. by split_and!.
Qed.

Lemma k_read_quiet n : quiet (k_read n).
Proof. intros k. unfold k_read. by destruct (k_ready k). Qed.

Lemma k_write_sends bs : sends (length bs) (k_write bs).
Proof. split; [done|]. intros k. cbn. rewrite length_take. lia. Qed.

Lemma k_set_int_interest ep X k : k_interest ep (k_set_int ep X k) = X.
Proof. unfold k_interest. cbn. by rewrite lookup_insert_eq. Qed.

Lemma k_set_int_other ep ep' X k : ep' ≠ ep → k_interest ep' (k_set_int ep X k) = k_interest ep' k.
Proof. intros H. unfold k_interest. cbn. by rewrite lookup_insert_ne. Qed.

#[local] Instance ex_descriptors : Descriptors.
Proof.
  split; try done.
  - intros k fd e k'. cbn. unfold k_epoll_create. case_decide as H.
    + intros Hk. destruct (k_opens_ok k fd e k' Hk) as [?|[? _]]; [by left|]. rewrite Hk in H. cbn in H. lia.
    + destruct (k_opens k) as [[fd0 e0] k0] eqn:Hk. cbn in *. intros [= <- <- <-].
      destruct (k_opens_ok k fd0 e0 k0 Hk) as [[? _]|(? & ? & ? & Hi)]; [lia|]. right. split; [|apply k_set_int_interest].
      split_and!; [lia|lia|done|done|]. intros ep. destruct (decide (ep = fd0)) as [->|].
      * cbn. rewrite k_set_int_interest. set_solver.
      * cbn. rewrite k_set_int_other by done. apply Hi.
  - intros k fd e k'. apply k_opens_ok.
  - intros ep n t k evs ev [= <-] (fd & -> & ?%elem_of_elements)%list_elem_of_fmap. done.
  - intros ep op fd ev k ep' H. cbn. by rewrite k_set_int_other.
  - intros ep op fd ev k. cbn. rewrite k_set_int_interest. case_decide; set_solver.
  - intros ep fd ev k. cbn. rewrite k_set_int_interest. set_solver.
  - intros fd k ep. cbn. unfold k_interest. cbn. rewrite lookup_fmap. destruct (k_int k !! ep); set_solver.
  - intros d t p k fd e k'. apply k_opens_ok.
  - intros l k fd e k'. cbn. unfold k_accept. destruct (k_ready k).
    + intros Hk. exact (k_opens_ok _ _ _ _ Hk).
    + intros [= <- <- <-]. by left.
  - intros k r p0 p1 k'. cbn. unfold k_pipe. destruct (k_opens k) as [[fd0 e0] k0] eqn:H0. cbn. case_decide as D0.
    { intros [= <- _ _ <-]. by left. }
    destruct (k_opens k0) as [[fd1 e1] k1] eqn:H1. cbn. case_decide as D1; intros [= <- <- <- <-]; [by left|right].
    destruct (k_opens_ok _ _ _ _ H0) as [[? _]|?]; [lia|]. destruct (k_opens_ok _ _ _ _ H1) as [[? _]|?]; [lia|]. by exists k0.
  - intros fd n. apply k_read_quiet.
  - intros fd n fl. apply k_read_quiet.
  - intros fd n fl. apply k_read_quiet.
  - intros fd fl. apply k_read_quiet.
  - intros fd bs. apply k_write_sends.
  - intros fd bs fl. apply k_write_sends.
  - intros fd bs fl a. apply k_write_sends.
Qed.

(** A process that has not called the library. *)
Definition ex_process : world :=
  World 1 ∅ ∅ ∅ ∅ ∅ ∅ {[1 := Thread NULL NULL None 0 0 0]} ∅ ∅ no_objects 0 (ExK {[0; 1; 2]} ∅ 3 false []).

(** A server: the first function listens, accepts a connection and hands it to the
    second one, which echoes what it reads; it waits, with the mutex, to be told that
    the other is done, gets a last word over the channel and meets it at the
    barrier. *)
Definition ex_needs (n : Z) (ip op : ptr) : gset Z := if decide (n = 1) then {[ip]} else ∅.
Definition ex_call (a : action) (sc : script) : script := Do a (λ _, sc).
Definition ex_server (n : Z) (ip op : ptr) : script :=
  if decide (n = 0) then
    ex_call (ALock 5) (Do (ASocket 2 1 0) (λ r, if decide (r.1 < 0) then Done else
      ex_call (AListen r.1 16) (Do (AAccept r.1) (λ c, if decide (c.1 < 0) then Done else
        ex_call (ACreate 1 c.1 0) (ex_call (AWait 6 5) (ex_call (AUnlock 5) (ex_call (AChanRecv 40) (ex_call (ABarWait 200)
          (ex_call (AClose r.1) Done)))))))))
  else if decide (n = 1) then
    Do (ARead ip 5) (λ r, ex_call (AWrite ip (take 100 r.2)) (ex_call (AClose ip) (ex_call (ALock 5)
      (ex_call (ASignal 6) (ex_call (AUnlock 5) (ex_call (AChanSend 40 7) (ex_call (ABarWait 200) Done)))))))
  else ex_call AExit Done.

(** The objects of the program. *)
Definition ex_objects : list object := [OMutex 5; OCond 6; OChan 40 1; OBar 200 2].

Lemma ex_server_typed : typed_program (program_setup ex_needs ex_objects NULL NULL 0) ex_server.
Proof.
  intros n ip op. unfold ex_server, ex_call. set (P := program_setup _ _ _ _ _).
  assert (HP : su_needs P = ex_needs) by done. assert (Hm : 5 ∈ su_mutexes P) by (cbn; set_solver).
  assert (Hc : 6 ∈ su_conds P) by (cbn; set_solver). assert (Hch : 40 ∈ su_chans P) by (cbn; set_solver).
  assert (Hb : 200 ∈ su_bars P) by (cbn; set_solver). clearbody P. rewrite HP. unfold ex_needs at 1.
  assert (Hf : ∀ bs, fits (take 100 bs)) by (intros bs; unfold fits, INT_MAX; rewrite length_take; lia).
  repeat first [case_decide; [|] | apply typed_done
    | apply typed_do; [cbn [allowed hooked fds fst snd]; rewrite ?HP
                      |intros ? ?; cbn [possible after hooked fds fst snd] in *; rewrite ?HP]].
  all: try done; unfold ex_needs; try (split; [done|]); try (rewrite decide_True by done).
  all: repeat match goal with H : 0 ≤ ?x → _, _ : ¬ ?x < 0 |- _ => specialize (H ltac:(lia)) end; set_solver.
Qed.

Definition ex_ready : world :=
  match program_start 0 0 0 ex_objects ex_process with Ok (_, w) => w | _ => ex_process end.
Definition ex_run (n : nat) : res machine := machine_turns (task_body 20 ex_server) n 3 (Machine ex_ready ∅ NULL).

(** After nine turns the server has answered and all of its tasks have exited; the
    last one to do so will be destroyed in the next turn. *)
Example ex_server_run :
  (λ r, match r with Ok st => Some (dom (w_tasks (mc_world st)), k_sent (w_kernel (mc_world st))) | _ => None end)
    (ex_run 9) = Some ({[1; 5]}, [104; 101; 108; 108; 111]).
Proof. vm_compute. reflexivity. Qed.

Lemma program_type_safety_witness :
  ∃ w1 s ep, program_start 0 0 0 ex_objects ex_process = Ok ((), w1) ∧
    match machine_turns (task_body 20 ex_server) 9 3 (Machine w1 ∅ NULL) with
    | Ok st => machine_ok (program_setup ex_needs ex_objects s ep 4) st
    | Panic msg => deliberate msg
    | OutOfFuel => True
    | Undef => False
    end.
Proof.
  destruct (program_type_safety ex_server ex_needs ex_objects 0 0 0 ex_process 0 3 0
    (k_epoll_create (w_kernel ex_process)).2 4 0 (k_opens (k_epoll_create (w_kernel ex_process)).2).2 0
    (k_opens (k_epoll_create (w_kernel ex_process)).2).2 20) as (w1 & s & ep & Hrun & H).
  - exact ex_server_typed.
  - reflexivity.
  - by apply (bool_decide_unpack _); vm_compute.
  - apply (bool_decide_unpack _); vm_compute. done.
  - repeat constructor; cbn; unfold NULL, INT_MAX; lia.
  - by split.
  - reflexivity.
  - reflexivity.
  - reflexivity.
  - done.
  - reflexivity.
  - done.
  - reflexivity.
  - exists w1, s, ep. split; [exact Hrun|]. apply H.
    assert (E : w1 = ex_ready) by (unfold ex_ready; rewrite Hrun; reflexivity). rewrite E.
    vm_compute. repeat split; discriminate.
Defined.
