(* ===== verification/Lifecycle.v ===== *)
(** The end of a thread: [schedule] (task_sched.c) leaves its loop, with
    [CO_SCHED_STOP], when only the scheduler's own task and the timer task are left,
    and [sched_destory] and [delete_epoll] (event.c) take everything down. *)

From Stdlib Require Import ZArith Lia.
From stdpp Require Import base numbers strings sets gmap list.
From S2P Require Import Prelude IntrusiveList Links Array Heap Cid SpinLock TimeWheel HashMap World Coroutine InnerFd.
From S2P Require Import Task Sched Event Schedule Mutex Cond Sem Blocking Hook Helper Runtime TaskSafety Machine.
Open Scope Z_scope.

Section lifecycle.
Context {K : Kernel}.

(** What taking a thread down relies on: the run queue, the ids of the tasks and
    their specific data are in order. *)
Record base (w : world) (s : ptr) (R : gmap laddr (list laddr)) (ts : list Z) : Prop := {
  ba_rt : rt w s R ts;
  ba_cids : ∀ th, w_threads w !! w_self w = Some th → cids_ok (g_cids th) (w_tasks w);
  ba_specs : specs_ok (w_tasks w)
}.

(** A task is destroyed. *)
Lemma destroy_base w s R ts t v th :
  base w s R ts → w_tasks w !! t = Some v → Z.of_nat (size (w_tasks w)) ≤ THREAD_MAX_TASK_SIZE →
  w_threads w !! w_self w = Some th →
  wp (task_destory t) (λ _ w', ∃ l al, w' = destroyed w t th al l ∧ dom l = dom (w_links w) ∧
    base w' s (ring_remove (run_link t) R) (filter (λ x, x ≠ t) ts)) w.
Proof.
  intros [Hrt Hci Hsp] Hv Hsz Hth.
  destruct (good_cids_delete _ _ _ _ (Hci th Hth) Hv Hsz) as (al & Hf & Hc').
  eapply task_destory_wp; [done|done|done|exact Hf| |].
  { destruct (t_specs v) as [m|] eqn:Em; [|done]. by eapply Hsp. }
  intros l Hdom Hrt'. exists l, al. split; [done|]. split; [done|]. split; [exact Hrt'| |].
  - intros th'. cbn. rewrite lookup_insert_eq. by intros [= <-].
  - intros u x m. cbn. intros [_ Hx]%lookup_delete_Some. by eapply Hsp.
Qed.

(** Only [errno] and the kernel change in [close]. *)
Lemma close_base w s R ts th th' k :
  base w s R ts → w_threads w !! w_self w = Some th → g_sched th' = g_sched th → g_cids th' = g_cids th →
  base (with_threads (with_kernel w k) (<[w_self w := th']> (w_threads w))) s R ts.
Proof.
  intros [Hrt Hci Hsp] Hth Es Ec. destruct (rt_self _ _ _ _ Hrt) as (th0 & Hth0 & Hs). split; [|intros th1; cbn|done].
  - apply (rt_threads (with_kernel w k)); [by destruct Hrt as [? ? ? [] ? ?]|cbn; congruence].
  - rewrite lookup_insert_eq. intros [= <-]. rewrite Ec. by apply Hci.
Qed.

(** The block under [CO_SCHED_STOP], case by case. *)
Lemma schedule_stop_busy w th :
  w_threads w !! w_self w = Some th → 3 < g_task_alive th → schedule_stop w = Ok (false, w).
Proof.
  intros Hth Ha. unfold schedule_stop, no_task, task_count, rd_self, mbind, M_bind, lift. cbn. rewrite Hth. cbn.
  by rewrite bool_decide_eq_false_2 by lia.
Qed.

Lemma schedule_stop_idle w th v :
  w_threads w !! w_self w = Some th → w_scheds w !! g_sched th = Some v → g_task_alive th ≤ 3 →
  s_active0 v < 0 → schedule_stop w = Ok (bool_decide (g_task_alive th ≤ 2), w).
Proof.
  intros Hth Hv Ha H0. unfold schedule_stop, no_task, can_destory, task_count, rd_self, rd_sched, mbind, M_bind, lift.
  cbn. rewrite Hth. cbn. rewrite bool_decide_eq_true_2 by lia. cbn. rewrite Hth. cbn. rewrite Hv. cbn.
  rewrite decide_False by lia. cbn. by rewrite Hth.
Qed.

(** Only the scheduler's task [st] and the timer task [tt] are left, the latter
    waiting for the timer descriptor; no task runs and the pipe is closed. *)
Record ending (w : world) (s st tt : ptr) (e : epoll_t) (tw : time_wheel_t) : Prop := {
  en_base : ∃ R ts, base w s R ts;
  en_self : ∃ th, w_threads w !! w_self w = Some th ∧ g_current th = NULL ∧ g_task_alive th = 2;
  en_sched : ∃ v, w_scheds w !! s = Some v ∧ s_sched_task v = st ∧ s_active0 v < 0 ∧
    w_epolls w !! s_epoll v = Some e;
  en_timer : ep_timer e = Some tw ∧ 0 ≤ tw_fd tw < MAX_FD_NUM ∧
    ∃ i iv, w_fdtab w !! tw_fd tw = Some i ∧ w_ifds w !! i = Some iv ∧ i_task iv = tt;
  en_tasks : dom (w_tasks w) = {[st; tt]} ∧ st ≠ tt
}.

Lemma ending_live w s st tt e tw t :
  ending w s st tt e tw → t = st ∨ t = tt → is_Some (w_tasks w !! t).
Proof. intros [_ _ _ _ [Hd _]] Ht. apply elem_of_dom. rewrite Hd. set_solver. Qed.

(** With no task left all ids are free. *)
Lemma cids_ok_empty al : cids_ok al ∅ → cid_inv THREAD_MAX_TASK_SIZE al ∅.
Proof.
  intros (live & Hinv & Hl); rewrite map_size_empty in Hl.
  destruct Hl as [Hl|(Hs & _)]; [unfold THREAD_MAX_TASK_SIZE in Hl; lia|]. assert (live = ∅) as -> by (apply leibniz_equiv, size_empty_inv; lia). done.
Qed.

(** [close] outside a task is the system call. *)
Lemma close_outside fd w th :
  w_threads w !! w_self w = Some th → g_current th = NULL →
  wp (close fd) (λ _ w', ∃ k e, w' = with_threads (with_kernel w k)
    (<[w_self w := Thread NULL (g_sched th) (g_cids th) (g_task_alive th) e (g_cached_tid th)]> (w_threads w))) w.
Proof.
  intros Hth Hc. unfold close, co_hooked, co_self. wp_steps. rewrite Hc, decide_True by done. wp_steps. cbn.
  eapply wp_syscall; [done|]. intros r e k _. case_decide; [exists k, e; by rewrite Hc|].
  exists k, (g_errno th). f_equal. rewrite insert_id; [done|]. rewrite Hth. destruct th; cbn in *; congruence.
Qed.

(** While the pipe is open the block closes its write end, in every turn anew: the
    field keeps the number, which may be somebody else's by the second time. *)
Lemma schedule_stop_closes w th v :
  w_threads w !! w_self w = Some th → g_current th = NULL → w_scheds w !! g_sched th = Some v →
  g_task_alive th ≤ 3 → 0 ≤ s_active0 v →
  wp schedule_stop (λ r w', r = false ∧ w_kernel w' = (sys_close (s_active1 v) (w_kernel w)).2 ∧
    w_scheds w' = w_scheds w ∧ ∃ th', w_threads w' !! w_self w' = Some th' ∧ g_current th' = NULL ∧
    g_sched th' = g_sched th ∧ g_task_alive th' = g_task_alive th) w.
Proof.
  intros Hth Hc Hv Ha H0. unfold schedule_stop, no_task, task_count. wp_steps.
  rewrite bool_decide_eq_true_2 by lia. cbn [negb]. wp_steps. rewrite decide_True by done.
  unfold close, co_hooked, co_self. wp_steps. rewrite Hc, decide_True by done. wp_steps. cbn [negb].
  eapply wp_syscall; [done|]. intros r e k Hk. wp_steps. cbn. rewrite Hk. split_and!; [done..|].
  case_decide; eexists; (split; [by rewrite ?lookup_insert_eq|done]).
Qed.

Lemma free_slots_none n tw i (m : lmem) h : m !! h = None → free_slots n tw i m !! h = None.
Proof.
  revert i m. induction n as [|n IH]; intros i m Hh; [done|]. cbn. apply IH. by apply lookup_delete_None; right.
Qed.

Lemma free_slots_gone n tw i j (m : lmem) :
  i ≤ j < i + Z.of_nat n → free_slots n tw i m !! slot tw j = None.
Proof.
  revert i m. induction n as [|n IH]; intros i m Hj; [lia|]. cbn.
  destruct (decide (j = i)) as [->|Hne]; [apply free_slots_none, lookup_delete_eq|apply IH; lia].
Qed.

Lemma free_slots_dom n tw i (m : lmem) : dom (free_slots n tw i m) ⊆ dom m.
Proof.
  intros h. rewrite !elem_of_dom. destruct (m !! h) eqn:E; [by eauto|]. by rewrite (free_slots_none n tw i m h E).
Qed.

(** What [delete_epoll] takes down: the timer task, the wheel and the object. *)
Lemma delete_epoll_wp w s R ts ep e tw i iv ttv th :
  base w s R ts → ep ≠ NULL → w_epolls w !! ep = Some e → ep_timer e = Some tw →
  0 ≤ tw_fd tw < MAX_FD_NUM → w_fdtab w !! tw_fd tw = Some i → w_ifds w !! i = Some iv →
  w_tasks w !! i_task iv = Some ttv → Z.of_nat (size (w_tasks w)) ≤ THREAD_MAX_TASK_SIZE →
  w_threads w !! w_self w = Some th → g_current th = NULL →
  wp (delete_epoll ep) (λ _ w', w_tasks w' = delete (i_task iv) (w_tasks w) ∧ w_scheds w' = w_scheds w ∧
    w_epolls w' = delete ep (w_epolls w) ∧ w_self w' = w_self w ∧
    dom (w_links w') ⊆ dom (w_links w) ∖ {[run_link (i_task iv)]} ∧
    (∀ j, 0 ≤ j < tw_size tw → w_links w' !! slot tw j = None) ∧
    ∃ th', w_threads w' !! w_self w' = Some th' ∧ g_current th' = NULL ∧ g_sched th' = g_sched th ∧
      g_task_alive th' = u32 (g_task_alive th - 1) ∧ cids_ok (g_cids th') (w_tasks w')) w.
Proof.
  intros Hg Hep He Etw Hfd Hi Hiv Htt Hsz Hth Hc. unfold delete_epoll. rewrite decide_False by done.
  wp_step. wp_step. wp_step. eapply wp_mono; [by eapply close_outside|].
  intros r1 w1 (k1 & e1 & Hw1). set (th1 := Thread NULL _ _ _ e1 _) in Hw1. rewrite Etw. wp_step. wp_step.
  apply wp_get_inner_fd; [done|]. replace (w_fdtab w1) with (w_fdtab w) by (by rewrite Hw1). rewrite Hi. cbn [default].
  wp_step. eapply wp_rd_ifd; [rewrite Hw1; exact Hiv|]. wp_step.
  assert (Hg1 : base w1 s R ts) by (rewrite Hw1; by eapply close_base).
  assert (Hth1 : w_threads w1 !! w_self w1 = Some th1) by (rewrite Hw1; apply lookup_insert_eq).
  eapply wp_mono; [eapply (destroy_base w1); [exact Hg1|rewrite Hw1; exact Htt|by rewrite Hw1|done]|].
  intros [] w2 (l & al & Hw2 & Hdom & Hg2).
  assert (Hth2 : w_threads w2 !! w_self w2 = Some (Thread NULL (g_sched th) al (u32 (g_task_alive th - 1)) e1 (g_cached_tid th))).
  { rewrite Hw2. apply lookup_insert_eq. }
  wp_step. eapply wp_mono; [by eapply close_outside|]. intros r3 w3 (k3 & e3 & Hw3). eapply wp_upd_links; [done|].
  wp_step. wp_step. wp_step.
  assert (HT : w_tasks w2 = delete (i_task iv) (w_tasks w)) by (by rewrite Hw2, Hw1).
  assert (HL : w_links w2 = delete (run_link (i_task iv)) l) by (by rewrite Hw2).
  assert (HD : dom l = dom (w_links w)) by (by rewrite Hdom, Hw1).
  split_and!.
  - rewrite Hw3. exact HT.
  - by rewrite Hw3, Hw2, Hw1.
  - by rewrite Hw3, Hw2, Hw1.
  - by rewrite Hw3, Hw2, Hw1.
  - rewrite Hw3. cbn. rewrite HL. etrans; [apply free_slots_dom|]. rewrite dom_delete_L, HD. done.
  - intros j Hj. rewrite Hw3. apply free_slots_gone. lia.
  - eexists. split; [rewrite Hw3; apply lookup_insert_eq|]. split_and!; [done..|].
    rewrite Hw3. cbn. apply (ba_cids _ _ _ _ Hg2) in Hth2. exact Hth2.
Qed.

(** What is left of the thread. *)
Record ended (w w' : world) (s st tt : ptr) (tw : time_wheel_t) : Prop := {
  ed_tasks : w_tasks w' = ∅;
  ed_scheds : w_scheds w' = delete s (w_scheds w);
  ed_epolls : ∃ v, w_scheds w !! s = Some v ∧ w_epolls w' = delete (s_epoll v) (w_epolls w);
  ed_self : ∃ th, w_threads w' !! w_self w' = Some th ∧ g_sched th = NULL ∧ g_task_alive th = 0 ∧
    cid_inv THREAD_MAX_TASK_SIZE (g_cids th) ∅;
  ed_links : w_links w' !! run_list s = None ∧ w_links w' !! run_link st = None ∧
    w_links w' !! run_link tt = None ∧ ∀ j, 0 ≤ j < tw_size tw → w_links w' !! slot tw j = None
}.

Lemma dom_delete_empty (T : gmap Z task_t) a b : dom T = {[a; b]} → delete b (delete a T) = ∅.
Proof. intros Hd. apply dom_empty_inv_L. rewrite !dom_delete_L, Hd. set_solver. Qed.

Lemma size_dom_pair (T : gmap Z task_t) a b : dom T = {[a; b]} → (size T ≤ 2)%nat.
Proof.
  intros Hd. rewrite <-size_dom, Hd. rewrite size_union_alt, size_singleton.
  pose proof (subseteq_size ({[b]} ∖ {[a]} : gset Z) {[b]} ltac:(set_solver)) as H. rewrite size_singleton in H. lia.
Qed.

Lemma sched_destory_ends w s st tt e tw :
  ending w s st tt e tw → wp (sched_destory s) (λ _ w', ended w w' s st tt tw) w.
Proof.
  intros Hen. pose proof Hen as [(R & ts & Hg) (th & Hth & Hc & Ha) (v & Hv & <- & _ & He)
    (Etw & Hfd & i & iv & Hi & Hiv & <-) (Hd & Hne)].
  destruct (ending_live _ _ _ _ _ _ _ Hen (or_introl eq_refl)) as [stv Hst].
  destruct (ending_live _ _ _ _ _ _ _ Hen (or_intror eq_refl)) as [ttv Htt].
  pose proof (size_dom_pair _ _ _ Hd) as Hsz. pose proof (ba_rt _ _ _ _ Hg) as Hrt.
  assert (Hmax : 2 ≤ THREAD_MAX_TASK_SIZE) by (unfold THREAD_MAX_TASK_SIZE; lia).
  destruct (rt_sched _ _ _ _ Hrt) as (v' & Hv' & _ & Hep & _). rewrite Hv in Hv'. injection Hv' as <-.
  unfold sched_destory. rewrite decide_False by apply Hrt. wp_step. wp_step. wp_step.
  eapply wp_mono; [eapply destroy_base; [exact Hg|exact Hst|lia|done]|].
  intros [] w1 (l1 & al1 & Hw1 & Hdom1 & Hg1).
  assert (HT1 : w_tasks w1 = delete (s_sched_task v) (w_tasks w)) by (by rewrite Hw1).
  wp_step. eapply wp_mono.
  { eapply (delete_epoll_wp w1 s _ _ _ e tw i iv ttv (Thread (g_current th) (g_sched th) al1
      (u32 (g_task_alive th - 1)) (g_errno th) (g_cached_tid th))); try (rewrite Hw1; done); try done.
    - rewrite HT1. by rewrite lookup_delete_ne.
    - rewrite HT1, map_size_delete, Hst. cbn. lia.
    - rewrite Hw1. apply lookup_insert_eq. }
  intros [] w2 (HT2 & Hs2 & He2 & Es2 & Hl2 & Hsl2 & th2 & Hth2 & Hc2 & Hgs2 & Ha2 & Hci2).
  cbn in Ha2. rewrite HT2, HT1, dom_delete_empty in Hci2 by done.
  do 5 wp_step. eapply wp_upd_links; [done|]. unfold set_g_sched. eapply wp_upd_self; [exact Hth2|].
  assert (Hgone : ∀ h, h ∉ dom (w_links w2) → (delete (run_list s) (w_links w2) : lmem) !! h = None).
  { intros h Hh. apply lookup_delete_None. right. by apply not_elem_of_dom. }
  split.
  - cbn. by rewrite HT2, HT1, dom_delete_empty.
  - cbn. by rewrite Hs2, Hw1.
  - exists v. split; [done|]. cbn. by rewrite He2, Hw1.
  - eexists. split; [apply lookup_insert_eq|]. split_and!; [done| |by apply cids_ok_empty]. cbn. rewrite Ha2, Ha. done.
  - cbn. split_and!; [apply lookup_delete_eq|apply Hgone..|].
    + intros Hin%Hl2. rewrite Hw1 in Hin. cbn in Hin. rewrite dom_delete_L in Hin. set_solver.
    + intros Hin%Hl2. set_solver.
    + intros j Hj. apply lookup_delete_None. right. by apply Hsl2.
Qed.

(** C32. A thread whose work is done goes down without a trace: when a turn of
    the loop leaves only the scheduler's own task and the timer task and the
    wake-up pipe is closed, [schedule] (with [CO_SCHED_STOP]) leaves its loop, destroys
    both tasks, returns all ids, frees the queue, the timer wheel, the epoll object
    and the scheduler, and the thread has no scheduler any more. *)
Theorem schedule_ends_clean n fuel run p w0 p' w s st tt e tw :
  schedule_turn fuel run p w0 = Ok (p', w) → ending w s st tt e tw →
  ∃ w', (schedule_loop true (S n) fuel run p;; th ← rd_self; sched_destory (g_sched th)) w0 = Ok ((), w') ∧
    ended w w' s st tt tw.
Proof.
  intros Ht Hen. pose proof Hen as [(R & ts & Hg) (th & Hth & Hc & Ha) (v & Hv & _ & H0 & _) _ _].
  destruct (rt_self _ _ _ _ (ba_rt _ _ _ _ Hg)) as (th' & Hth' & Hs). rewrite Hth in Hth'. injection Hth' as <-.
  destruct (sched_destory_ends w s st tt e tw Hen) as ([] & w' & Hrun & Hed). exists w'. split; [|done].
  assert (Hstop : schedule_stop w = Ok (true, w)).
  { rewrite (schedule_stop_idle w th v); [by rewrite bool_decide_eq_true_2 by lia|done|by rewrite Hs|lia|done]. }
  unfold mbind, M_bind. cbn [schedule_loop]. unfold mbind, M_bind. rewrite Ht. cbn [res_bind fst snd].
  rewrite Hstop. cbn [res_bind fst snd].
  unfold mret, M_ret, rd_self, lift, mbind, M_bind. cbn. rewrite Hth. cbn. by rewrite Hs.
Qed.
End lifecycle.

(** * Examples *)

(** The scheduler's task 5 and the timer task 2, which has just run and waits for
    descriptor 4 again. *)
Definition ex_two_cids : option id_dispatch_t := Some (IdDispatch (heap_init (Some _id_cmp)) 2 THREAD_MAX_TASK_SIZE 0).
Definition ex_timer_task (st : task_status_t) : task_t := Task TimeoutTask 1 0 RUN_STACK_SIZE None 1 1 0 st (Some 1).
Definition ex_last_links : lmem := list_init ex_links (run_link 5).
Definition ex_last (al : option id_dispatch_t) : world (K := ex_kernel) :=
  World (K := ex_kernel) 1 ex_last_links
    {[5 := Task NoFunc 0 0 0 None 0 0 0 READY None; 2 := ex_timer_task IO_BLOCK]}
    {[1 := Sched 1 0 5 1 1 0 7 (-1) (-1)]} {[1 := Epoll 1024 0 3 1 (Some ex_tw)]}
    {[1 := InnerFd 4 O_NONBLOCK 0 2 (-1) 0]} {[4 := 1]} {[1 := Thread NULL 1 al 2 0 7]}
    ∅ ∅ no_objects 3 (9 : kstate (Kernel := ex_kernel)).

(** The timer fires, the timer task runs and waits again. *)
Definition ex_tick (al : option id_dispatch_t) : world (K := ex_kernel) :=
  match sched_rq_enqueue (K := ex_kernel) 2 (ex_last al) with Ok (_, w) => w | _ => ex_last al end.
Definition ex_wait (t : ptr) : M (K := ex_kernel) unit := set_status t IO_BLOCK.
Definition ex_end (al : option id_dispatch_t) : world (K := ex_kernel) :=
  match schedule_turn 2 ex_wait NULL (ex_tick al) with Ok (_, w) => w | _ => ex_last al end.

Lemma ex_last_rt al : rt (K := ex_kernel) (ex_last al) 1 ex_rings [].
Proof.
  split; [done|by eexists| | |reflexivity|by intros t []%not_elem_of_nil].
  - eexists. split_and!; [done|done|done|by eexists].
  - split; cbn -[ex_last_links ex_rings].
    + apply lrep_init; [apply ex_links_lrep|]. intros Hin. by apply (ex_rings_no_kind LRunLink) in Hin.
    + intros t. unfold ex_rings. rewrite slots_abs_other by done. by rewrite lookup_singleton_ne.
    + apply map_Forall_lookup. apply map_Forall_insert_2; [|apply map_Forall_singleton];
        (split_and!; [done|by eexists|]); [by left|by right].
    + intros t _ Hin. by apply (ex_rings_no_kind LRunLink) in Hin.
Qed.

Lemma ex_wait_ok : run_ok (K := ex_kernel) 1 ex_wait.
Proof.
  intros w R ts t v Hrt Hv Hn Hst Hcur. unfold ex_wait, set_status. wp_steps. exists R, []. split_and!; [|done|done|].
  - by eapply rt_task_upd.
  - eexists. cbn. split; [apply lookup_insert_eq|done].
Qed.

Lemma ex_turn al : ∃ R ts, schedule_turn 2 ex_wait NULL (ex_tick al) = Ok (2, ex_end al) ∧ rt (ex_end al) 1 R ts.
Proof.
  assert (Ht : wp (sched_rq_enqueue (K := ex_kernel) 2) (λ _ w', ∃ R, rt w' 1 R [2]) (ex_last al)).
  { eapply sched_rq_enqueue_wp; [apply ex_last_rt|reflexivity|]. intros sv l _ Hrt _. by eexists. }
  destruct Ht as ([] & w' & He & R & Hrt). assert (Hw : w' = ex_tick al) by (unfold ex_tick; by rewrite He). rewrite Hw in Hrt.
  destruct (schedule_turn_wp (EventSource0 := ex_event_source 1) 1 ex_wait (ex_tick al) R [] [] 2 NULL ex_wait_ok Hrt)
    as (p & w2 & Hr & -> & R2 & ts2 & Hrt2 & _); [by left|].
  assert (Hw2 : w2 = ex_end al) by (unfold ex_end; by rewrite Hr). rewrite Hw2 in Hr, Hrt2.
  exists R2, (ts2 ++ []). split; [exact Hr|exact Hrt2].
Qed.

Definition ex_one_cid : option id_dispatch_t := Some (IdDispatch (heap_init (Some _id_cmp)) 1 THREAD_MAX_TASK_SIZE 0).

Lemma ex_one_cid_inv : cid_inv THREAD_MAX_TASK_SIZE ex_one_cid {[0]}.
Proof.
  pose proof (cid_inv_init 0 THREAD_MAX_TASK_SIZE ltac:(done)) as Hi.
  destruct (alloc_cid_inv 0 _ _ _ max_tasks_range Hi) as (id & al & Ha & Hc).
  assert (E : alloc_cid 0 (cid_allocator_init 0 THREAD_MAX_TASK_SIZE None).2 = Ok (0, ex_one_cid)).
  { apply (alloc_next 0 _ 0 0). unfold THREAD_MAX_TASK_SIZE. lia. }
  rewrite E in Ha. injection Ha as <- <-. destruct Hc as [[? _]|(_ & _ & Hc)]; [done|].
  by rewrite union_empty_r_L in Hc.
Qed.

Lemma ex_two_cids_inv : cid_inv THREAD_MAX_TASK_SIZE ex_two_cids {[1; 0]}.
Proof.
  destruct (alloc_cid_inv 0 _ _ _ max_tasks_range ex_one_cid_inv) as (id & al & Ha & Hc).
  assert (E : alloc_cid 0 ex_one_cid = Ok (1, ex_two_cids)).
  { apply (alloc_next 0 _ 1 0). unfold THREAD_MAX_TASK_SIZE. lia. }
  rewrite E in Ha. injection Ha as <- <-. destruct Hc as [[? _]|(_ & _ & Hc)]; [done|exact Hc].
Qed.

Lemma ex_end_fields al :
  w_tasks (ex_end al) = {[5 := Task NoFunc 0 0 0 None 0 0 0 READY None; 2 := ex_timer_task IO_BLOCK]} ∧
  w_threads (ex_end al) !! w_self (ex_end al) = Some (Thread NULL 1 al 2 0 7) ∧
  w_scheds (ex_end al) !! 1 = Some (Sched 1 0 5 1 1 0 7 (-1) (-1)) ∧
  w_epolls (ex_end al) !! 1 = Some (Epoll 1024 0 3 1 (Some ex_tw)) ∧
  w_fdtab (ex_end al) !! 4 = Some 1 ∧ w_ifds (ex_end al) !! 1 = Some (InnerFd 4 O_NONBLOCK 0 2 (-1) 0).
Proof. vm_compute. repeat split. Qed.

Lemma ex_end_ending : ending (K := ex_kernel) (ex_end ex_two_cids) 1 5 2 (Epoll 1024 0 3 1 (Some ex_tw)) ex_tw.
Proof.
  destruct (ex_turn ex_two_cids) as (R & ts & _ & Hrt). destruct (ex_end_fields ex_two_cids) as (HT & Hth & Hsc & Hep & Hft & Hif).
  set (w := ex_end ex_two_cids) in *. clearbody w.
  assert (Htask : ∀ u v, w_tasks w !! u = Some v →
    u = 5 ∧ v = Task NoFunc 0 0 0 None 0 0 0 READY None ∨ u = 2 ∧ v = ex_timer_task IO_BLOCK).
  { intros u v. rewrite HT, lookup_insert_Some, lookup_singleton_Some. naive_solver. }
  split.
  - exists R, ts. split; [done| |].
    + intros th. rewrite Hth. intros [= <-]. exists {[1; 0]}. split; [apply ex_two_cids_inv|right].
      split_and!; [by rewrite HT| |].
      * intros u v [[-> ->]|[-> ->]]%Htask; cbn; set_solver.
      * intros u v u' v' [[-> ->]|[-> ->]]%Htask [[-> ->]|[-> ->]]%Htask; done.
    + by intros u v m [[-> ->]|[-> ->]]%Htask.
  - eexists. split; [exact Hth|done].
  - eexists. split; [exact Hsc|]. split_and!; [done|done|exact Hep].
  - split_and!; [done|done|by vm_compute|]. eexists _, _. split; [exact Hft|]. split; [exact Hif|done].
  - rewrite HT. split; [|done]. rewrite dom_insert_L, dom_singleton_L. set_solver.
Qed.

Lemma schedule_ends_clean_witness :
  ∃ w', (schedule_loop true 1 2 ex_wait NULL;; th ← rd_self; sched_destory (g_sched th)) (ex_tick ex_two_cids) = Ok ((), w') ∧
    ended (ex_end ex_two_cids) w' 1 5 2 ex_tw.
Proof.
  destruct (ex_turn ex_two_cids) as (R & ts & Ht & _).
  exact (schedule_ends_clean 0 2 ex_wait NULL (ex_tick ex_two_cids) 2 (ex_end ex_two_cids) 1 5 2 _ ex_tw Ht ex_end_ending).
Defined.
