(* ===== verification/ChanSteps.v ===== *)
(** What the functions of chan.c and co_bar.h do between two switches, when the
    tasks of one thread share a channel or a barrier.

    [sync] describes a mutex and conditions from the point of view of the running
    task; the operations on them become operations on the lists of waiting
    tasks.  The theorems then say that a send or a receive, however often it had
    to wait, is a number of waits that leave the channel alone and one step that
    does the whole operation. *)

From Stdlib Require Import ZArith Lia.
From stdpp Require Import base numbers strings sets gmap list.
From S2P Require Import Prelude IntrusiveList Links Deque SpinLock World Coroutine InnerFd Task Sched.
From S2P Require Import Event Mutex Cond Sem Blocking Chan ChanObjects.
Open Scope Z_scope.


(** [L] says who waits at which condition. *)
Definition enlist (c t : ptr) (L : gmap Z (list Z)) : gmap Z (list Z) := alter (λ ws, ws ++ [t]) c L.
Definition wake (c : ptr) (L : gmap Z (list Z)) : gmap Z (list Z) := alter (drop 1) c L.
Definition wake_all (c : ptr) (L : gmap Z (list Z)) : gmap Z (list Z) := alter (λ _, []) c L.
Definition first_waiter (c : ptr) (L : gmap Z (list Z)) : list Z := take 1 (default [] (L !! c)).

Section steps.
Context {K : Kernel}.

(** * Mutex and conditions *)

(** Task [t] runs; [m] is held by [o] and nobody waits for it; [L] tells who
    waits at the conditions; [ts] is the run queue of scheduler [s]. *)
Record sync (w : world) (t m o : ptr) (L : gmap Z (list Z)) (s : ptr) (R : gmap laddr (list laddr)) (ts : list Z)
    : Prop := {
  sy_rt : rt w s R ts;
  sy_mutex : mutex_at w R t m o [];
  sy_task : is_Some (w_tasks w !! t);
  sy_out : ¬ in_rings R (run_link t);
  sy_conds : ∀ c ws, L !! c = Some ws → R !! cond_wait_list c = Some (run_link <$> ws)
}.

(** Task [t] has switched away with the mutex free. *)
Record asleep (w : world) (t m : ptr) (L : gmap Z (list Z)) (s : ptr) (R : gmap laddr (list laddr)) (ts : list Z)
    : Prop := {
  as_rt : rt w s R ts;
  as_mutex : mutex_at w R t m NULL [];
  as_task : ∃ tv, w_tasks w !! t = Some tv ∧ t_status tv = SYS_BLOCK;
  as_conds : ∀ c ws, L !! c = Some ws → R !! cond_wait_list c = Some (run_link <$> ws)
}.

Lemma sync_nonnull w t m o L s R ts : sync w t m o L s R ts → t ≠ NULL.
Proof. intros [Hrt _ [tv Htv] _ _]. by apply (rt_tasks _ _ _ _ _ _ Hrt Htv). Qed.

Lemma sync_objs w t m o L s R ts x : sync w t m o L s R ts → sync (with_objs w x) t m o L s R ts.
Proof. intros [Hrt [] Ht Hn Hc]. split; try done. by eapply rt_frame. Qed.

Lemma sync_lock_wp w t m L s R ts Q :
  sync w t m NULL L s R ts → (∀ w', sync w' t m t L s R ts → w_objs w' = w_objs w → Q Acquired w') →
  wp (co_mutex_lock m) Q w.
Proof.
  intros Hs HQ. eapply co_mutex_lock_free_wp; [apply Hs|by eapply sync_nonnull|]. apply HQ; [|done].
  destruct Hs as [Hrt Hm Ht Hn Hc]. split; try done; [by apply rt_mutexes|by eapply mutex_at_owner].
Qed.

Lemma sync_unlock_wp w t m L s R ts Q :
  sync w t m t L s R ts → (∀ w', sync w' t m NULL L s R ts → w_objs w' = w_objs w → Q () w') →
  wp (co_mutex_unlock m) Q w.
Proof.
  intros Hs HQ. pose proof (sync_nonnull _ _ _ _ _ _ _ _ Hs) as Hn. destruct Hs as [Hrt Hm Ht Hni Hc].
  eapply (co_mutex_unlock_wp w s R ts t m []); [done..|]. intros w' Hrt' Hm' _ _ Hob Hts _ _.
  apply HQ; [|done]. split; try done. rewrite Hts; [done|apply not_elem_of_nil].
Qed.

Lemma sync_signal_all_wp w t m o L s R ts c ws all Q :
  sync w t m o L s R ts → L !! c = Some ws →
  (∀ w' R', sync w' t m o (<[c := drop (length (to_wake all ws)) ws]> L) s R' (reverse (to_wake all ws) ++ ts) →
     w_objs w' = w_objs w → Q () w') →
  wp (_co_cond_signal_all c all) Q w.
Proof.
  intros [Hrt Hm [tv Ht] Hni Hc] Hws HQ. pose proof (Hc _ _ Hws) as Hcw.
  eapply wp_mono; [by apply (signal_all_wp w s R ts c ws all)|].
  intros [] w' (R' & Hrt' & Hcw' & Hctx & Hmx & Hob & (Hmv1 & Hmv2 & _) & Hoth & _). eapply HQ; [|done].
  assert (Htw : t ∉ to_wake all ws).
  { intros Hin. apply Hni. exists (cond_wait_list c), (run_link <$> ws). split; [done|]. right.
    apply list_elem_of_fmap_2. destruct all; [done|]. destruct ws; [done|]. cbn in Hin. set_solver. }
  destruct Hm as [(th & Hth & Hcur) Hmm Hmw]. destruct Hctx as (Hself & Hcc & _).
  split; try done.
  - split.
    + rewrite Hth in Hcc. destruct (w_threads w' !! w_self w') as [th'|]; [|done]. cbn in Hcc. simplify_eq. by eauto.
    + congruence.
    + by apply (Hmv1 _ []).
  - rewrite Hoth by done. by eauto.
  - intros Hin. apply Hni. by apply Hmv2.
  - intros c' ws' Hw'. apply lookup_insert_Some in Hw' as [[<- <-]|[Hne Hw']]; [done|].
    apply Hmv1; [by intros [=]|apply cond_wait_head|by apply Hc].
Qed.

Lemma sync_signal_wp w t m o L s R ts c ws Q :
  sync w t m o L s R ts → L !! c = Some ws →
  (∀ w' R', sync w' t m o (wake c L) s R' (first_waiter c L ++ ts) → w_objs w' = w_objs w → Q () w') →
  wp (co_cond_signal c) Q w.
Proof.
  intros Hs Hws HQ. eapply sync_signal_all_wp; [done..|]. intros w' R' Hs' Hob. eapply HQ; [|done].
  unfold wake, first_waiter. rewrite Hws. cbn. replace (alter (drop 1) c L) with (<[c := drop 1 ws]> L).
  - cbn in Hs'. destruct ws; exact Hs'.
  - apply map_eq. intros c'. destruct (decide (c' = c)) as [->|Hne].
    + by rewrite lookup_insert_eq, lookup_alter_eq, Hws.
    + by rewrite lookup_insert_ne, lookup_alter_ne.
Qed.

Lemma sync_wait_wp w t m L s R ts c ws Q :
  sync w t m t L s R ts → L !! c = Some ws →
  (∀ w' R', asleep w' t m (enlist c t L) s R' ts → w_objs w' = w_objs w → Q () w') →
  wp (co_cond_wait_begin c m) Q w.
Proof.
  intros [Hrt Hm [tv Ht] Hni Hc] Hws HQ.
  eapply (co_cond_wait_begin_wp w s R ts t tv c ws m []); [done|done|done|done|by apply Hc|].
  intros w' R' tv' Hrt' Hcw Hm' Ht' Hst Hob Hoth _ _ _. eapply HQ; [|done]. split; try done; [by eauto|].
  intros c' ws' Hw'. unfold enlist in Hw'. destruct (decide (c' = c)) as [->|Hne].
  - rewrite lookup_alter_eq, Hws in Hw'. by injection Hw' as <-.
  - rewrite lookup_alter_ne in Hw' by done. apply Hoth; [by intros [=]|done|apply cond_wait_head|by apply Hc].
Qed.

(** * Waiting loops *)

(** An object with abstract value [x : X], protected by mutex [m]: [ready] for
    the running task with the mutex in the hands of [o], [parked] for a task
    that has switched away. *)
Section waiting.
Context (t m : ptr) {X : Type} (holds : objects → X → Prop).

Definition ready (o : ptr) (w : world) (x : X) (L : gmap Z (list Z)) (ts : list Z) : Prop :=
  (∃ s R, sync w t m o L s R ts) ∧ holds (w_objs w) x.
Definition parked (w : world) (x : X) (L : gmap Z (list Z)) : Prop :=
  (∃ s R ts, asleep w t m L s R ts) ∧ holds (w_objs w) x.

(** The others keep [J]: the task that began to wait at [c] when [J x L] held
    finds [J] again when it is back, and the mutex free. *)
Definition comes_back (c : ptr) (stay : X → Prop) (J : X → gmap Z (list Z) → Prop)
    (E : world → world → Prop) : Prop :=
  ∀ w1 w2 x L, E w1 w2 → parked w1 x (enlist c t L) → stay x → J x L →
    ∃ x' L' ts', ready NULL w2 x' L' ts' ∧ J x' L'.

(** A state in which the task may switch away. *)
Definition waits_at (c : ptr) (stay : X → Prop) (J : X → gmap Z (list Z) → Prop) (w : world) : Prop :=
  ∃ x L, parked w x (enlist c t L) ∧ stay x ∧ J x L.

Context (c : ptr) (stay : X → Prop) (J : X → gmap Z (list Z) → Prop) (E : world → world → Prop).
Context (J_cond : ∀ x L, J x L → is_Some (L !! c)) (E_back : comes_back c stay J E).

Lemma mutex_lock_ready lax Y F fuel w x L ts (Q : unit → world → Prop) :
  ready NULL w x L ts → (∀ w', ready t w' x L ts → w_objs w' = w_objs w → Q () w') →
  cwp lax Y F (mutex_lock fuel m) Q w.
Proof.
  intros [(s & R & Hs) Hx] HQ. unfold mutex_lock. cwp_step. cwp_step. eapply sync_lock_wp; [done|].
  intros w' Hs' Hob. cwp_step. apply HQ; [|done]. split; [by eauto|]. by rewrite Hob.
Qed.

(** [cond_wait]: the task is on the list of the condition, comes back and takes
    the mutex. *)
Lemma cond_wait_ready lax Y fuel w x L ts Q :
  ready t w x L ts → is_Some (L !! c) →
  (∀ w1, parked w1 x (enlist c t L) → Y w1 ∧ ∀ w2, E w1 w2 →
     ∃ x' L' ts', ready NULL w2 x' L' ts' ∧ ∀ w', ready t w' x' L' ts' → Q () w') →
  cwp lax Y E (cond_wait fuel c m) Q w.
Proof.
  intros [(s & R & Hs) Hx] [ws Hws] HQ. unfold cond_wait.
  cwp_step. cwp_step. eapply sync_wait_wp; [done..|]. intros w1 R1 Has Hob.
  destruct (HQ w1) as [HY HQ2]; [split; [by eauto|by rewrite Hob]|].
  cwp_step. apply cwp_yield; [done|]. intros w2 HE. destruct (HQ2 w2 HE) as (x2 & L2 & ts2 & Hr2 & HQ3).
  eapply mutex_lock_ready; [done|]. intros w' Hr' _. by apply HQ3.
Qed.

(** The same where the others keep [J]. *)
Lemma cond_wait_back lax (Y : world → Prop) fuel w x L ts Q :
  ready t w x L ts → stay x → J x L → (∀ w1, waits_at c stay J w1 → Y w1) →
  (∀ w' x' L' ts', ready t w' x' L' ts' → J x' L' → Q () w') →
  cwp lax Y E (cond_wait fuel c m) Q w.
Proof.
  intros Hr Hst HJ HY HQ. eapply cond_wait_ready; [done|by eapply J_cond|]. intros w1 Hp. split.
  - apply HY. by exists x, L.
  - intros w2 HE. destruct (E_back _ _ _ _ HE Hp Hst HJ) as (x2 & L2 & ts2 & Hr2 & HJ2).
    exists x2, L2, ts2. split; [done|]. intros w' Hr'. by eapply HQ.
Qed.

Lemma wait_while_ready fuel (test : M bool) w x L ts :
  (∀ w x L ts (Q : bool → world → Prop), ready t w x L ts → J x L →
     (stay x → Q true w) → (¬ stay x → Q false w) → wp test Q w) →
  ready t w x L ts → J x L →
  cwp True (waits_at c stay J) E (wait_while fuel test c m)
    (λ _ w', ∃ x L ts, ready t w' x L ts ∧ J x L ∧ ¬ stay x) w.
Proof.
  intros Htest. revert w x L ts. induction fuel as [|fuel IH]; intros w x L ts Hr HJ; cbn [wait_while];
    cwp_step; cwp_step; (eapply Htest; [done|done| |]); intros Hst; cbn [negb].
  - by apply cwp_act_cut.
  - cwp_step. by exists x, L, ts.
  - cwp_step. eapply cond_wait_back; [done..|]. intros w' x' L' ts' Hr' HJ'. by eapply IH.
  - cwp_step. by exists x, L, ts.
Qed.
End waiting.

Lemma wait_while_pass lax Y F fuel (test : M bool) c m (Q : unit → world → Prop) w :
  wp test (λ b w', b = false ∧ Q () w') w → cwp lax Y F (wait_while fuel test c m) Q w.
Proof.
  intros Ht. destruct fuel; cbn [wait_while]; cwp_step; cwp_step; (eapply wp_mono; [done|]);
    intros b w' [-> HQ]; cbn [negb]; by cwp_step.
Qed.

(** * Buffered channels *)

Lemma ready_holds {X X'} t m (H : objects → X → Prop) (H' : objects → X' → Prop) o w w' x x' L ts ob :
  ready t m H o w x L ts → w' = with_objs w ob → H' ob x' → ready t m H' o w' x' L ts.
Proof. intros [(s & R & Hs) _] -> Hx. split; [|done]. exists s, R. by apply sync_objs. Qed.

(** Signal and release at the end of an operation. *)
Lemma signal_ready {X} t m (H : objects → X → Prop) o w x L ts c ws (Q : unit → world → Prop) :
  ready t m H o w x L ts → L !! c = Some ws →
  (∀ w', ready t m H o w' x (wake c L) (first_waiter c L ++ ts) → w_objs w' = w_objs w → Q () w') → wp (co_cond_signal c) Q w.
Proof.
  intros [(s & R & Hs) Hx] Hws HQ. eapply sync_signal_wp; [done..|]. intros w' R' Hs' Hob.
  apply HQ; [|done]. split; [by eauto|by rewrite Hob].
Qed.

Lemma unlock_ready {X} t m (H : objects → X → Prop) w x L ts (Q : unit → world → Prop) :
  ready t m H t w x L ts → (∀ w', ready t m H NULL w' x L ts → w_objs w' = w_objs w → Q () w') → wp (co_mutex_unlock m) Q w.
Proof.
  intros [(s & R & Hs) Hx] HQ. eapply sync_unlock_wp; [done..|]. intros w' Hs' Hob.
  apply HQ; [|done]. split; [by eauto|by rewrite Hob].
Qed.

(** Tasks that share channel [c] and keep [J]. *)
Section channel.
Context (E : world → world → Prop) (c n es t : Z) (J : list value → gmap Z (list Z) → Prop).
Context (J_conds : ∀ q L, J q L → is_Some (L !! chan_not_full c) ∧ is_Some (L !! chan_not_empty c)).
Context (c_nonnull : c ≠ NULL).

(** After a send: [v] is the newest message and the longest waiting receiver is
    in the run queue. *)
Definition sent (msg : ptr) (v : value) (q : list value) (L : gmap Z (list Z)) (r : Z) (w : world) : Prop :=
  r = 0 ∧ ∃ ts, ready t (chan_mutex c) (sending c n es msg v) NULL w (q ++ [v]) (wake (chan_not_empty c) L)
    (first_waiter (chan_not_empty c) L ++ ts).

Lemma buffer_send_end lax Y F msg v w q L ts :
  ready t (chan_mutex c) (sending c n es msg v) t w q L ts → Z.of_nat (length q) < Z.max 1 n →
  is_Some (L !! chan_not_empty c) →
  cwp lax Y F (do! act (chan_push_msg c msg) in
               do! act (co_cond_signal (chan_not_empty c)) in
               do! act (co_mutex_unlock (chan_mutex c)) in cret 0) (sent msg v q L) w.
Proof.
  intros Hr Hlt [ws Hws]. cwp_step. cwp_step. eapply push_wp; [apply Hr|done|]. intros o' Ho' _.
  eapply (ready_holds _ _ _ (sending c n es msg v)) in Hr; [|reflexivity|exact Ho'].
  cwp_step. cwp_step. eapply signal_ready; [done..|]. intros w1 Hr1 _.
  cwp_step. cwp_step. eapply unlock_ready; [done|]. intros w2 Hr2 _. cwp_step. split; [done|by eexists].
Qed.

Lemma full_test msg v : 0 < n → ∀ w q L ts (Q : bool → world → Prop),
  ready t (chan_mutex c) (sending c n es msg v) t w q L ts → J q L →
  (full n q → Q true w) → (¬ full n q → Q false w) → wp (chan_msgs_full c) Q w.
Proof.
  intros Hn w q L ts Q [_ [Hh _]] _ Ht Hf. eapply chan_msgs_full_wp; [done|done|]. case_bool_decide; auto.
Qed.

Lemma not_full_room o q : 0 < n → chan_holds c n es o q → ¬ full n q → Z.of_nat (length q) < Z.max 1 n.
Proof. intros Hn (_ & Hlen & _) Hf. unfold full in Hf. lia. Qed.

Lemma buffer_send_steps fuel msg v w q L ts :
  0 < n → comes_back t (chan_mutex c) (sending c n es msg v) (chan_not_full c) (full n) J E →
  ready t (chan_mutex c) (sending c n es msg v) NULL w q L ts → J q L →
  cwp True (waits_at t (chan_mutex c) (sending c n es msg v) (chan_not_full c) (full n) J) E
    (chan_buffer_send fuel c msg) (λ r w', ∃ q L, J q L ∧ ¬ full n q ∧ sent msg v q L r w') w.
Proof.
  intros Hn HE Hr HJ. unfold chan_buffer_send. cwp_step. eapply mutex_lock_ready; [exact Hr|]. intros w1 Hr1 _.
  cwp_step. eapply cwp_mono; [eapply wait_while_ready; [|exact HE|by apply full_test|exact Hr1|exact HJ]|].
  { intros ?? H. apply (J_conds _ _ H). }
  intros [] w2 (q2 & L2 & ts2 & Hr2 & HJ2 & Hf).
  eapply cwp_mono; [eapply buffer_send_end; [exact Hr2| |by apply J_conds in HJ2 as [_ ?]]|].
  - destruct Hr2 as [_ [Hh _]]. by eapply not_full_room.
  - intros r w' Hs. by exists q2, L2.
Qed.

Lemma buffer_send_now lax Y F fuel msg v w q L ts :
  0 < n → ready t (chan_mutex c) (sending c n es msg v) NULL w q L ts → ¬ full n q →
  is_Some (L !! chan_not_empty c) → cwp lax Y F (chan_buffer_send fuel c msg) (sent msg v q L) w.
Proof.
  intros Hn Hr Hf Hne. unfold chan_buffer_send. cwp_step. eapply mutex_lock_ready; [exact Hr|]. intros w1 Hr1 _.
  cwp_step. apply wait_while_pass. pose proof (proj1 (proj2 Hr1)) as Hh. eapply chan_msgs_full_wp; [done|done|].
  rewrite bool_decide_eq_false_2 by done. split; [done|]. eapply buffer_send_end; [done| |done].
  by eapply not_full_room.
Qed.

(** After a receive: the oldest message is gone and in the hands of the caller,
    and [L] tells who still waits. *)
Definition received (v : value) (q : list value) (L : gmap Z (list Z)) (r : Z * ptr) (w : world) : Prop :=
  r.1 = 0 ∧ carries (o_mem (w_objs w)) es r.2 v ∧
  ∃ ts, ready t (chan_mutex c) (chan_holds c n es) NULL w q L ts.

Lemma empty_test : ∀ w q L ts (Q : bool → world → Prop),
  ready t (chan_mutex c) (chan_holds c n es) t w q L ts → J q L →
  (q = [] → Q true w) → (q ≠ [] → Q false w) → wp (chan_msgs_empty c) Q w.
Proof.
  intros w q L ts Q [_ Hh] _ Ht Hf. eapply chan_msgs_empty_wp; [done|]. case_bool_decide; auto.
Qed.

(** Receiving up to what follows the pop, whose effect on the waiting tasks is
    [sig]. *)
Lemma recv_steps (tail : ptr → C (Z * ptr)) sig fuel w q L ts :
  (∀ lax Y F w v q L ts p, ready t (chan_mutex c) (chan_holds c n es) t w q L ts →
     carries (o_mem (w_objs w)) es p v → is_Some (L !! chan_not_full c) →
     cwp lax Y F (tail p) (received v q (sig L)) w) →
  comes_back t (chan_mutex c) (chan_holds c n es) (chan_not_empty c) (λ q, q = []) J E →
  ready t (chan_mutex c) (chan_holds c n es) NULL w q L ts → J q L →
  cwp True (waits_at t (chan_mutex c) (chan_holds c n es) (chan_not_empty c) (λ q, q = []) J) E
    (do! mutex_lock fuel (chan_mutex c) in
     do! wait_while fuel (chan_msgs_empty c) (chan_not_empty c) (chan_mutex c) in
     let! msg := act (chan_pop_msg c) in tail msg)
    (λ r w', ∃ v q L, J (v :: q) L ∧ received v q (sig L) r w') w.
Proof.
  intros Htail HE Hr HJ. cwp_step. eapply mutex_lock_ready; [exact Hr|]. intros w1 Hr1 _.
  cwp_step. eapply cwp_mono; [eapply wait_while_ready; [|exact HE|by apply empty_test|exact Hr1|exact HJ]|].
  { intros ?? H. apply (J_conds _ _ H). }
  intros [] w2 ([|v q2] & L2 & ts2 & Hr2 & HJ2 & Hf); [done|].
  cwp_step. cwp_step. eapply pop_wp; [apply Hr2|]. intros o' p Ho' Hp _.
  eapply (ready_holds _ _ _ (chan_holds c n es)) in Hr2; [|reflexivity|exact Ho'].
  eapply cwp_mono; [eapply Htail; [exact Hr2|done|apply (J_conds _ _ HJ2)]|].
  intros r w' Hrec. by exists v, q2, L2.
Qed.

(** What follows the pop when there is a message at once. *)
Lemma recv_now (tail : ptr → C (Z * ptr)) sig lax Y F fuel w v q L ts :
  (∀ lax Y F w v q L ts p, ready t (chan_mutex c) (chan_holds c n es) t w q L ts →
     carries (o_mem (w_objs w)) es p v → is_Some (L !! chan_not_full c) →
     cwp lax Y F (tail p) (received v q (sig L)) w) →
  ready t (chan_mutex c) (chan_holds c n es) NULL w (v :: q) L ts → is_Some (L !! chan_not_full c) →
  cwp lax Y F
    (do! mutex_lock fuel (chan_mutex c) in
     do! wait_while fuel (chan_msgs_empty c) (chan_not_empty c) (chan_mutex c) in
     let! msg := act (chan_pop_msg c) in tail msg) (received v q (sig L)) w.
Proof.
  intros Htail Hr Hnf. cwp_step. eapply mutex_lock_ready; [exact Hr|]. intros w1 Hr1 _. cwp_step.
  apply wait_while_pass. eapply chan_msgs_empty_wp; [apply Hr1|]. split; [done|].
  cwp_step. cwp_step. eapply pop_wp; [apply Hr1|]. intros o' p Ho' Hp _.
  eapply Htail; [|done|done]. by eapply (ready_holds _ _ _ (chan_holds c n es)) in Hr1.
Qed.

Lemma buffer_recv_tail lax Y F w v q L ts p :
  ready t (chan_mutex c) (chan_holds c n es) t w q L ts →
  carries (o_mem (w_objs w)) es p v → is_Some (L !! chan_not_full c) →
  cwp lax Y F (do! act (co_cond_signal (chan_not_full c)) in
               do! act (co_mutex_unlock (chan_mutex c)) in cret (0, p))
    (received v q (wake (chan_not_full c) L)) w.
Proof.
  intros Hr Hp [ws Hws]. cwp_step. cwp_step. eapply signal_ready; [done..|]. intros w1 Hr1 Hob1.
  cwp_step. cwp_step. eapply unlock_ready; [done|]. intros w2 Hr2 Hob2. cwp_step.
  split; [done|]. split; [by rewrite Hob2, Hob1|by eexists].
Qed.

Lemma nobuffer_recv_tail lax Y F w v q L ts p :
  ready t (chan_mutex c) (chan_holds c n es) t w q L ts →
  carries (o_mem (w_objs w)) es p v → is_Some (L !! chan_not_full c) →
  cwp lax Y F (do! act (co_cond_signal (chan_not_full c)) in
               do! act (co_cond_signal (chan_not_full c)) in
               do! act (co_mutex_unlock (chan_mutex c)) in cret (0, p))
    (received v q (wake (chan_not_full c) (wake (chan_not_full c) L))) w.
Proof.
  intros Hr Hp [ws Hws]. cwp_step. cwp_step. eapply signal_ready; [done..|]. intros w1 Hr1 Hob1.
  eapply buffer_recv_tail; [exact Hr1|by rewrite Hob1|]. unfold wake. rewrite lookup_alter_eq, Hws. by eexists.
Qed.

(** * Unbuffered channels *)

(** The state a sender waits in after it has put its message into the empty
    channel: the message is alone in it and the longest waiting receiver has
    been woken. *)
Definition delivered (v : value) (q : list value) (L : gmap Z (list Z)) : Prop :=
  q = [v] ∧ ∃ L0, L = wake (chan_not_empty c) L0 ∧ J [] L0.

(** Either wait of an unbuffered send. *)
Definition nobuffer_waits (msg : ptr) (v : value) (w : world) : Prop :=
  waits_at t (chan_mutex c) (sending c n es msg v) (chan_not_full c) (λ q, q ≠ []) J w ∨
  waits_at t (chan_mutex c) (sending c n es msg v) (chan_not_full c) (λ _, True) (delivered v) w.

Lemma nobuffer_push_wp msg v w q L ts (Q : bool → world → Prop) :
  ready t (chan_mutex c) (sending c n es msg v) t w q L ts → J q L →
  (q ≠ [] → Q false w) →
  (∀ w' q' L' ts', q = [] → delivered v q' L' →
     ready t (chan_mutex c) (sending c n es msg v) t w' q' L' ts' → Q true w') →
  wp (nobuffer_push c msg) Q w.
Proof.
  intros Hr HJ Hf Ht. destruct (J_conds _ _ HJ) as [_ [vs Hvs]]. unfold nobuffer_push. wp_step.
  eapply chan_msgs_empty_wp; [apply Hr|]. case_bool_decide as Hq; [|wp_step; auto]. wp_step.
  eapply push_wp; [apply Hr|rewrite Hq; cbn; lia|]. intros o' Ho' _.
  eapply (ready_holds _ _ _ (sending c n es msg v)) in Hr; [|reflexivity|exact Ho'].
  wp_step. eapply signal_ready; [done..|]. intros w1 Hr1 _. wp_step. eapply Ht; [done| |done].
  split; [by rewrite Hq|]. exists L. split; [done|]. by rewrite <-Hq.
Qed.

(** The wait before the message is in the channel. *)
Lemma nobuffer_wait_before fuel msg v w q L ts :
  comes_back t (chan_mutex c) (sending c n es msg v) (chan_not_full c) (λ q, q ≠ []) J E →
  ready t (chan_mutex c) (sending c n es msg v) t w q L ts → J q L →
  cwp True (nobuffer_waits msg v) E (nobuffer_wait fuel c false)
    (λ _ w', ∃ q L ts, ready t (chan_mutex c) (sending c n es msg v) t w' q L ts ∧ J q L) w.
Proof.
  intros HE. revert w q L ts. induction fuel as [|fuel IH]; intros w q L ts Hr HJ; cbn [nobuffer_wait];
    cwp_step; cwp_step; (eapply chan_msgs_empty_wp; [apply Hr|]); case_bool_decide as Hq.
  1,3: cwp_step; by exists q, L, ts.
  - by apply cwp_act_cut.
  - cwp_step. eapply cond_wait_back; [|exact HE|exact Hr|done|exact HJ|by left|].
    + intros ?? H. apply (J_conds _ _ H).
    + intros w' q' L' ts' Hr' HJ'. by eapply IH.
Qed.

(** The wait for a receiver. *)
Lemma nobuffer_wait_after J2 fuel msg v w q L ts :
  (∀ w1 w2 q L, E w1 w2 → parked t (chan_mutex c) (sending c n es msg v) w1 q (enlist (chan_not_full c) t L) →
     delivered v q L → ∃ q' L' ts', ready t (chan_mutex c) (sending c n es msg v) NULL w2 q' L' ts' ∧ J2 q' L') →
  ready t (chan_mutex c) (sending c n es msg v) t w q L ts → delivered v q L →
  cwp True (nobuffer_waits msg v) E (nobuffer_wait fuel c true)
    (λ _ w', ∃ q L ts, ready t (chan_mutex c) (sending c n es msg v) t w' q L ts ∧ J2 q L) w.
Proof.
  intros HE Hr Hdel. pose proof Hdel as (-> & L0 & HL & HJ0).
  destruct fuel; cbn [nobuffer_wait]; cwp_step; cwp_step; (eapply chan_msgs_empty_wp; [apply Hr|]);
    rewrite bool_decide_eq_false_2 by done; [by apply cwp_act_cut|].
  cwp_step. eapply cond_wait_ready; [exact Hr| |].
  - rewrite HL. unfold wake. destruct (J_conds _ _ HJ0) as [[us Hus] _].
    rewrite lookup_alter_ne by (unfold chan_not_empty, chan_not_full; lia). by eexists.
  - intros w1 Hp. split; [right; by exists [v], L|]. intros w2 HE2.
    destruct (HE _ _ _ _ HE2 Hp Hdel) as (q2 & L2 & ts2 & Hr2 & HJ2). exists q2, L2, ts2. split; [done|].
    intros w' Hr'. cwp_step. by exists q2, L2, ts2.
Qed.

Lemma nobuffer_turns_steps J2 fuel msg v w q L ts :
  comes_back t (chan_mutex c) (sending c n es msg v) (chan_not_full c) (λ q, q ≠ []) J E →
  (∀ w1 w2 q L, E w1 w2 → parked t (chan_mutex c) (sending c n es msg v) w1 q (enlist (chan_not_full c) t L) →
     delivered v q L → ∃ q' L' ts', ready t (chan_mutex c) (sending c n es msg v) NULL w2 q' L' ts' ∧ J2 q' L') →
  ready t (chan_mutex c) (sending c n es msg v) t w q L ts → J q L →
  cwp True (nobuffer_waits msg v) E (nobuffer_turns fuel c msg)
    (λ _ w', ∃ q L ts, ready t (chan_mutex c) (sending c n es msg v) t w' q L ts ∧ J2 q L) w.
Proof.
  intros HE HE2. revert w q L ts. induction fuel as [|fuel IH]; intros w q L ts Hr HJ; cbn [nobuffer_turns];
    [by apply cwp_act_cut|].
  cwp_step. cwp_step. eapply nobuffer_push_wp; [exact Hr|exact HJ| |].
  - intros Hq. cwp_step. eapply cwp_mono; [by eapply nobuffer_wait_before|].
    intros [] w' (q' & L' & ts' & Hr' & HJ'). by eapply IH.
  - intros w1 q1 L1 ts1 _ Hdel Hr1. cwp_step. eapply cwp_mono; [by eapply nobuffer_wait_after|].
    intros [] w' Hw'. by cwp_step.
Qed.
End channel.

(** * The operations *)

(** A send goes the buffered way or the other by the capacity. *)
Lemma chan_send_cwp {X} lax Y F fuel c n es msg t m (H : objects → X → Prop) o q w x L ts Q :
  ready t m H o w x L ts → (∀ ob, H ob x → chan_holds c n es ob q) → c ≠ NULL →
  cwp lax Y F (if decide (n ≠ 0) then chan_buffer_send fuel c msg else chan_nobuffer_send fuel c msg) Q w →
  cwp lax Y F (chan_send fuel c msg) Q w.
Proof.
  intros [_ Hx] HH Hc HQ. unfold chan_send, assert_chan. rewrite decide_False by done.
  cwp_step. cwp_step. wp_step. cwp_step. cwp_step. eapply buffered_wp; [done|by apply HH|done].
Qed.

Lemma chan_recv_cwp {X} lax Y F fuel c n es t m (H : objects → X → Prop) o q w x L ts Q :
  ready t m H o w x L ts → (∀ ob, H ob x → chan_holds c n es ob q) → c ≠ NULL →
  cwp lax Y F (if decide (n ≠ 0) then chan_buffer_recv fuel c else chan_nobuffer_recv fuel c) Q w →
  cwp lax Y F (chan_recv fuel c) Q w.
Proof.
  intros [_ Hx] HH Hc HQ. unfold chan_recv, assert_chan. rewrite decide_False by done.
  cwp_step. cwp_step. wp_step. cwp_step. cwp_step. eapply buffered_wp; [done|by apply HH|done].
Qed.

(** C12. [chan_send] on a buffered channel that tasks of one thread share: for
    every [J] that the others keep, the sender waits only while the channel is
    full and leaves its contents alone, and returns after one step that puts the
    message behind the others in a channel that was not full, and makes the
    longest waiting receiver runnable.  With room in the channel it does so at
    once, without a switch. *)
Theorem chan_send_atomic E c n es t J fuel msg v w q L ts :
  (∀ q L, J q L → is_Some (L !! chan_not_full c) ∧ is_Some (L !! chan_not_empty c)) → c ≠ NULL → 0 < n →
  comes_back t (chan_mutex c) (sending c n es msg v) (chan_not_full c) (full n) J E →
  ready t (chan_mutex c) (sending c n es msg v) NULL w q L ts → J q L →
  cwp True (waits_at t (chan_mutex c) (sending c n es msg v) (chan_not_full c) (full n) J) E
    (chan_send fuel c msg) (λ r w', ∃ q L, J q L ∧ ¬ full n q ∧ sent c n es t msg v q L r w') w ∧
  (¬ full n q → cwp False (λ _, False) E (chan_send fuel c msg) (sent c n es t msg v q L) w).
Proof.
  intros HJc Hc Hn HE Hr HJ. split.
  - eapply chan_send_cwp; [exact Hr|by intros ? []|done|]. rewrite decide_True by lia.
    by eapply buffer_send_steps.
  - intros Hf. eapply chan_send_cwp; [exact Hr|by intros ? []|done|]. rewrite decide_True by lia.
    eapply buffer_send_now; [done|done|done|]. apply (HJc _ _ HJ).
Qed.


(** [chan_send] on an unbuffered channel: the sender waits while the
    channel is occupied, puts its message into the empty channel in one step that
    wakes the longest waiting receiver, and then waits until it is woken; nothing
    else changes the channel. *)
Theorem chan_rendezvous_send E c es t J J2 fuel msg v w q L ts :
  (∀ q L, J q L → is_Some (L !! chan_not_full c) ∧ is_Some (L !! chan_not_empty c)) → c ≠ NULL →
  comes_back t (chan_mutex c) (sending c 0 es msg v) (chan_not_full c) (λ q, q ≠ []) J E →
  (∀ w1 w2 q L, E w1 w2 → parked t (chan_mutex c) (sending c 0 es msg v) w1 q (enlist (chan_not_full c) t L) →
     delivered c J v q L →
     ∃ q' L' ts', ready t (chan_mutex c) (sending c 0 es msg v) NULL w2 q' L' ts' ∧ J2 q' L') →
  ready t (chan_mutex c) (sending c 0 es msg v) NULL w q L ts → J q L →
  cwp True (nobuffer_waits c 0 es t J msg v) E (chan_send fuel c msg)
    (λ r w', r = 0 ∧ ∃ q L ts, ready t (chan_mutex c) (sending c 0 es msg v) NULL w' q L ts ∧ J2 q L) w.
Proof.
  intros HJc Hc HE HE2 Hr HJ. eapply chan_send_cwp; [exact Hr|by intros ? []|done|].
  rewrite decide_False by (intros H; by apply H). unfold chan_nobuffer_send.
  cwp_step. eapply mutex_lock_ready; [exact Hr|]. intros w1 Hr1 _.
  cwp_step. eapply cwp_mono; [by eapply nobuffer_turns_steps|].
  intros [] w2 (q2 & L2 & ts2 & Hr2 & HJ2). cwp_step. cwp_step. eapply unlock_ready; [done|].
  intros w3 Hr3 _. cwp_step. split; [done|]. by exists q2, L2, ts2.
Qed.

(** * Barriers *)

Lemma broadcast_ready {X} t m (H : objects → X → Prop) o w x L ts c ws (Q : unit → world → Prop) :
  ready t m H o w x L ts → L !! c = Some ws →
  (∀ w', ready t m H o w' x (<[c := []]> L) (reverse ws ++ ts) → w_objs w' = w_objs w → Q () w') →
  wp (co_cond_broadcast c) Q w.
Proof.
  intros [(s & R & Hs) Hx] Hws HQ. eapply sync_signal_all_wp; [done..|]. intros w' R' Hs' Hob.
  cbn in Hs'. rewrite drop_all in Hs'. apply HQ; [|done]. split; [by eauto|by rewrite Hob].
Qed.

(** Barrier [b] waits for [n] more arrivals. *)
Definition bar_holds (b : ptr) (o : objects) (n : Z) : Prop := o_bars o !! b = Some n ∧ 0 ≤ n ≤ INT_MAX.

Lemma bar_open_wp b n (Q : bool → world → Prop) w :
  bar_holds b (w_objs w) n → Q (bool_decide (0 = n)) w → wp (bar_open b) Q w.
Proof. intros [Hb _] HQ. unfold bar_open. wp_step. eapply wp_rd_bar; [done|]. by wp_step. Qed.

Lemma bar_arrive_wp b n (Q : bool → world → Prop) w :
  bar_holds b (w_objs w) n → 0 < n →
  Q (bool_decide (n = 1)) (with_objs w (with_bar (w_objs w) b (n - 1))) → wp (bar_arrive b) Q w.
Proof.
  intros [Hb Hn] Hpos HQ. unfold bar_arrive. wp_step. eapply wp_rd_bar; [done|]. cbn.
  rewrite s32_small by (unfold INT_MAX in *; lia). wp_step. apply wp_wr_bar. wp_step.
  replace (bool_decide (0 = n - 1)) with (bool_decide (n = 1)); [done|]. apply bool_decide_ext. lia.
Qed.

Lemma bar_holds_arrived b o n : bar_holds b o n → 0 < n → bar_holds b (with_bar o b (n - 1)) (n - 1).
Proof. intros [_ ?] ?. split; [cbn; by rewrite lookup_insert_eq|lia]. Qed.

(** Up to the decision whether to wait. *)
Lemma bar_wait_arrives lax Y F fuel b t w n L ts (Q : unit → world → Prop) :
  ready t (bar_mutex b) (bar_holds b) NULL w n L ts → 0 < n →
  (∀ w1, ready t (bar_mutex b) (bar_holds b) t w1 (n - 1) L ts →
     cwp lax Y F (if bool_decide (n = 1) then act (co_cond_broadcast (bar_cond b))
                  else wait_while fuel (bar_shut b) (bar_cond b) (bar_mutex b))
       (λ _, cwp lax Y F (act (co_mutex_unlock (bar_mutex b))) Q) w1) →
  cwp lax Y F (co_bar_wait fuel b) Q w.
Proof.
  intros Hr Hn HQ. unfold co_bar_wait. cwp_step. cwp_step. eapply bar_open_wp; [apply Hr|].
  rewrite bool_decide_eq_false_2 by lia. cwp_step. eapply mutex_lock_ready; [exact Hr|]. intros w1 Hr1 _.
  cwp_step. cwp_step. eapply bar_open_wp; [apply Hr1|]. rewrite bool_decide_eq_false_2 by lia.
  cwp_step. cwp_step. cwp_step. eapply bar_arrive_wp; [apply Hr1|lia|].
  pose proof (bar_holds_arrived _ _ _ (proj2 Hr1) Hn) as Ha.
  eapply (ready_holds _ _ _ (bar_holds b)) in Hr1; [|reflexivity|exact Ha]. by apply HQ.
Qed.

Lemma bar_shut_test b t J : ∀ w n L ts (Q : bool → world → Prop),
  ready t (bar_mutex b) (bar_holds b) t w n L ts → J n L →
  (0 < n → Q true w) → (¬ 0 < n → Q false w) → wp (bar_shut b) Q w.
Proof.
  intros w n L ts Q [_ [Hb _]] _ Ht Hf. unfold bar_shut, atomic_get. wp_step. eapply wp_rd_bar; [done|]. wp_step.
  case_bool_decide; auto.
Qed.

(** C16. The barrier: a task that arrives at a barrier that waits for [n] more
    lowers the count by one and, unless it is the last, waits and returns only
    when the count is 0; the last one wakes all that wait and returns at once, as
    does every task that comes later. *)
Theorem bar_wait_gathers E b t J fuel w n L ts ws :
  (∀ n L, J n L → is_Some (L !! bar_cond b)) →
  comes_back t (bar_mutex b) (bar_holds b) (bar_cond b) (λ n, 0 < n) J E →
  ready t (bar_mutex b) (bar_holds b) NULL w n L ts → L !! bar_cond b = Some ws →
  (1 < n → J (n - 1) L →
     cwp True (waits_at t (bar_mutex b) (bar_holds b) (bar_cond b) (λ n, 0 < n) J) E (co_bar_wait fuel b)
       (λ _ w', ∃ L ts, J 0 L ∧ ready t (bar_mutex b) (bar_holds b) NULL w' 0 L ts) w) ∧
  (n = 1 → cwp False (λ _, False) E (co_bar_wait fuel b) (λ _ w',
     ready t (bar_mutex b) (bar_holds b) NULL w' 0 (<[bar_cond b := []]> L) (reverse ws ++ ts)) w) ∧
  (n = 0 → cwp False (λ _, False) E (co_bar_wait fuel b) (λ _ w', w' = w) w).
Proof.
  intros HJc HE Hr Hws. split_and!.
  - intros Hn HJ. eapply bar_wait_arrives; [exact Hr|lia|]. intros w1 Hr1.
    rewrite bool_decide_eq_false_2 by lia.
    eapply cwp_mono; [eapply wait_while_ready; [exact HJc|exact HE|apply bar_shut_test|exact Hr1|exact HJ]|].
    intros [] w2 (n2 & L2 & ts2 & Hr2 & HJ2 & Hn2). pose proof (proj2 Hr2) as [_ ?]. assert (n2 = 0) as -> by lia.
    cwp_step. eapply unlock_ready; [exact Hr2|]. intros w3 Hr3 _. by exists L2, ts2.
  - intros ->. eapply bar_wait_arrives; [exact Hr|lia|]. intros w1 Hr1. rewrite bool_decide_eq_true_2 by lia.
    cwp_step. eapply broadcast_ready; [exact Hr1|exact Hws|]. intros w2 Hr2 _. cwp_step.
    eapply unlock_ready; [exact Hr2|]. intros w3 Hr3 _. exact Hr3.
  - intros ->. unfold co_bar_wait. cwp_step. cwp_step. eapply bar_open_wp; [apply Hr|].
    rewrite bool_decide_eq_true_2 by done. by cwp_step.
Qed.

(** * A new channel *)

Lemma rt_head w s R ts h :
  rt w s R ts → ¬ in_rings R h → wait_head h →
  rt (with_links w (list_init (w_links w) h)) s (<[h := []]> R) ts.
Proof.
  intros [] Hn [Hk1 Hk2]. split; try done; [by apply tasks_ok_head|]. rewrite lookup_insert_ne; [done|by intros ->].
Qed.

(** [chan_open] gives an empty channel nobody waits at. *)
Lemma chan_open_ready c n es w s R ts th t :
  rt w s R ts → w_threads w !! w_self w = Some th → g_current th = t → is_Some (w_tasks w !! t) →
  ¬ in_rings R (run_link t) → (∀ h, h = mutex_wait (chan_mutex c) ∨ h = cond_wait_list (chan_not_full c) ∨
     h = cond_wait_list (chan_not_empty c) → ¬ in_rings R h) →
  c ≠ NULL → 0 ≤ n ≤ INT_MAX → 0 ≤ es < 2 ^ 32 →
  wp (chan_open c n es) (λ _ w', ready t (chan_mutex c) (chan_holds c n es) NULL w' []
    {[chan_not_full c := []; chan_not_empty c := []]} ts) w.
Proof.
  intros Hrt Hth Hcur Htk Hni Hfr Hc Hn Hes.
  unfold chan_open, assert_chan, co_mutex_init, co_cond_init. rewrite decide_False by done.
  wp_step. wp_step. wp_step. apply wp_wr_chan. wp_steps. eapply wp_upd_links; [done|]. wp_steps.
  eapply wp_upd_links; [done|]. wp_steps. eapply wp_upd_links; [done|]. wp_step.
  eapply wp_rd_chan; [cbn; by rewrite lookup_insert_eq|]. apply wp_wr_chan. cbn.
  set (R1 := <[mutex_wait (chan_mutex c) := []]> R).
  set (R2 := <[cond_wait_list (chan_not_full c) := []]> R1).
  set (R3 := <[cond_wait_list (chan_not_empty c) := []]> R2).
  assert (Hn1 : ¬ in_rings R1 (cond_wait_list (chan_not_full c))) by (intros [?|?]%in_rings_head; [done|naive_solver]).
  assert (Hn2 : ¬ in_rings R2 (cond_wait_list (chan_not_empty c))).
  { intros [[=H]|[?|?]%in_rings_head]%in_rings_head; [unfold chan_not_empty, chan_not_full in H; lia|done|naive_solver]. }
  split.
  - exists s, R3. split.
    + apply (rt_head w s R ts (mutex_wait (chan_mutex c))) in Hrt; [|naive_solver|done].
      apply rt_head with (h := cond_wait_list (chan_not_full c)) in Hrt; [|done|done].
      apply rt_head with (h := cond_wait_list (chan_not_empty c)) in Hrt; [|done|done].
      by eapply rt_frame.
    + split; cbn; [by eauto|by rewrite lookup_insert_eq|].
      unfold R3, R2, R1. rewrite !lookup_insert_ne by done. by rewrite lookup_insert_eq.
    + done.
    + by intros [?|[?|[?|?]%in_rings_head]%in_rings_head]%in_rings_head.
    + intros c' ws Hw. apply lookup_insert_Some in Hw as [[<- <-]|[Hne [<- <-]%lookup_singleton_Some]].
      * unfold R3, R2. rewrite lookup_insert_ne; [by rewrite lookup_insert_eq|].
        intros [=H]. unfold chan_not_empty, chan_not_full in H. lia.
      * unfold R3. by rewrite lookup_insert_eq.
  - split; [done|]. split; [cbn; lia|]. exists (deque_init (Deque ∅ ∅ c 0)), [], []. split_and!.
    + cbn. rewrite lookup_insert_eq, !u32_small by (unfold INT_MAX in *; lia). done.
    + apply deque_init_rep.
    + constructor.
Qed.

End steps.

(** * Examples *)

(** The runtime of Mutex.v in which task 2 has opened channel 40. *)
Definition ex_open (n : Z) : world (K := ex_kernel) :=
  match chan_open 40 n 0 (ex_sync ex_sync_links 0 0) with Ok (_, w) => w | _ => ex_world end.
Definition ex_nobody : gmap Z (list Z) := {[chan_not_full 40 := []; chan_not_empty 40 := []]}.

Lemma ex_open_ready n :
  0 ≤ n ≤ INT_MAX → ready (K := ex_kernel) 2 40 (chan_holds 40 n 0) NULL (ex_open n) [] ex_nobody [].
Proof.
  intros Hn. destruct (chan_open_ready 40 n 0 (ex_sync ex_sync_links 0 0) 1 ex_sync_rings []
    (Thread 2 1 None 1 0 7) 2) as ([] & w' & Hw & Hr);
    [apply ex_sync_rt|reflexivity|done|by eexists|by intros []%ex_sync_in%ex_heads_no_task| |done|done|done|].
  - intros h Hh Hin%ex_sync_in. unfold ex_heads in Hin. rewrite !elem_of_cons, elem_of_nil in Hin.
    destruct Hh as [->|[->| ->]]; destruct_or! Hin; try done.
  - unfold ex_open. by rewrite Hw.
Qed.

#[local] Opaque ex_open.

Lemma ex_sending_ready n :
  0 ≤ n ≤ INT_MAX → ready (K := ex_kernel) 2 40 (sending 40 n 0 7 (inl 7)) NULL (ex_open n) [] ex_nobody [].
Proof. intros Hn. destruct (ex_open_ready n Hn) as [? ?]. split; [done|]. split; [done|]. split; [by left|done]. Qed.

(** The others use the channel as they like and leave it empty with nobody
    waiting. *)
Definition ex_back (n : Z) (w1 w2 : world (K := ex_kernel)) : Prop := w2 = ex_open n.
Definition ex_J (q : list value) (L : gmap Z (list Z)) : Prop :=
  is_Some (L !! chan_not_full 40) ∧ is_Some (L !! chan_not_empty 40).

Lemma ex_J_nobody q : ex_J q ex_nobody.
Proof. split; by eexists. Qed.

Lemma chan_send_atomic_witness :
  cwp True (waits_at 2 40 (sending 40 2 0 7 (inl 7)) (chan_not_full 40) (full 2) ex_J) (ex_back 2)
    (chan_send 5 40 7) (λ r w', ∃ q L, ex_J q L ∧ ¬ full 2 q ∧ sent 40 2 0 2 7 (inl 7) q L r w') (ex_open 2) ∧
  cwp False (λ _, False) (ex_back 2) (chan_send 5 40 7) (sent 40 2 0 2 7 (inl 7) [] ex_nobody) (ex_open 2).
Proof.
  destruct (chan_send_atomic (ex_back 2) 40 2 0 2 ex_J 5 7 (inl 7) (ex_open 2) [] ex_nobody []) as [H1 H2];
    [done|done|lia| |by apply ex_sending_ready|apply ex_J_nobody|split; [done|by apply H2]].
  intros w1 w2 q L -> _ _ _. exists [], ex_nobody, []. split; [by apply ex_sending_ready|apply ex_J_nobody].
Defined.


Lemma chan_rendezvous_send_witness :
  cwp True (nobuffer_waits 40 0 0 2 ex_J 7 (inl 7)) (ex_back 0) (chan_send 5 40 7)
    (λ r w', r = 0 ∧ ∃ q L ts, ready 2 40 (sending 40 0 0 7 (inl 7)) NULL w' q L ts ∧ q = []) (ex_open 0).
Proof.
  apply (chan_rendezvous_send (ex_back 0) 40 0 2 ex_J (λ q _, q = []) 5 7 (inl 7) (ex_open 0) [] ex_nobody []);
    [done|done| | |by apply ex_sending_ready|apply ex_J_nobody].
  - intros w1 w2 q L -> _ _ _. exists [], ex_nobody, []. split; [by apply ex_sending_ready|apply ex_J_nobody].
  - intros w1 w2 q L -> _ _. exists [], ex_nobody, []. split; [by apply ex_sending_ready|done].
Defined.

(** A barrier in the place of the channel: mutex and condition are at the same
    offsets. *)
Definition ex_bar (n : Z) : world (K := ex_kernel) :=
  with_objs (ex_open 0) (with_bar (w_objs (ex_open 0)) 40 n).

Lemma ex_bar_ready n :
  0 ≤ n ≤ INT_MAX → ready (K := ex_kernel) 2 40 (bar_holds 40) NULL (ex_bar n) n ex_nobody [].
Proof.
  intros Hn. eapply (ready_holds _ _ (chan_holds 40 0 0)); [apply ex_open_ready; unfold INT_MAX; lia|reflexivity|].
  split; [cbn; by rewrite lookup_insert_eq|done].
Qed.

(** One of three arrives; the others open the barrier. *)
Lemma bar_wait_gathers_witness :
  cwp True (waits_at 2 40 (bar_holds 40) (bar_cond 40) (λ n, 0 < n) (λ _ L, L = ex_nobody))
    (λ _ w2, w2 = ex_bar 0) (co_bar_wait 5 40)
    (λ _ w', ∃ L ts, L = ex_nobody ∧ ready 2 40 (bar_holds 40) NULL w' 0 L ts) (ex_bar 3) ∧
  cwp False (λ _, False) (λ _ w2, w2 = ex_bar 0) (co_bar_wait 5 40)
    (λ _ w', ready 2 40 (bar_holds 40) NULL w' 0 (<[bar_cond 40 := []]> ex_nobody) []) (ex_bar 1).
Proof.
  assert (HE : comes_back (K := ex_kernel) 2 40 (bar_holds 40) (bar_cond 40) (λ n, 0 < n)
    (λ _ L, L = ex_nobody) (λ _ w2, w2 = ex_bar 0)).
  { intros w1 w2 x L -> _ _ ->. exists 0, ex_nobody, []. split; [apply ex_bar_ready; unfold INT_MAX; lia|done]. }
  assert (HJ : ∀ (n : Z) (L : gmap Z (list Z)), L = ex_nobody → is_Some (L !! bar_cond 40))
    by (intros n L ->; by eexists).
  split.
  - destruct (bar_wait_gathers (λ _ w2, w2 = ex_bar 0) 40 2 (λ _ L, L = ex_nobody) 5 (ex_bar 3) 3 ex_nobody [] [])
      as [H _]; [exact HJ|exact HE|apply ex_bar_ready; unfold INT_MAX; lia|reflexivity|apply H; [lia|reflexivity]].
  - destruct (bar_wait_gathers (λ _ w2, w2 = ex_bar 0) 40 2 (λ _ L, L = ex_nobody) 5 (ex_bar 1) 1 ex_nobody [] [])
      as (_ & H & _); [exact HJ|exact HE|apply ex_bar_ready; unfold INT_MAX; lia|reflexivity|apply H; reflexivity].
Defined.

#[local] Transparent ex_open.

(** Task [u] runs [c] to its end while the others wait. *)
Definition run_as {A} (u : ptr) (c : C (K := ex_kernel) A) (w : world (K := ex_kernel)) : world (K := ex_kernel) :=
  let set x w := with_threads w ((λ th, Thread x (g_sched th) (g_cids th) (g_task_alive th) (g_errno th)
    (g_cached_tid th)) <$> w_threads w) in
  match c (set u w) with Ok (CRet _, w') => set 2 w' | _ => w end.

(** With room for one message the second send waits until task 3 has received
    the first; the second is then in the channel. *)
Example ex_chan_run :
  (λ r, match r with
        | Ok (a, w) => match chan_pop_msg (K := ex_kernel) 40 w with Ok (p, _) => Some (a, p) | _ => None end
        | _ => None
        end)
    (crun [run_as 3 (chan_recv 5 40)] (do! chan_send 5 40 7 in chan_send 5 40 8) (ex_open 1)) =
  Some (Some 0, 8).
Proof. vm_compute. reflexivity. Qed.

