(* ===== verification/ChanProtocol.v ===== *)
(** Tasks that share a channel: every interleaving of sends and receives.

    A pending operation is in one of three places: [awake], where the task is in
    the run queue or has just called the function; [nf] or [ne], where it waits
    at a condition of the channel.  [exec] lets one awake operation run to its
    next switch or to its return, which is the step ChanSteps.v proves of the
    code.  Operations carry a serial number, so that two sends of the same value
    can be told apart. *)

From Stdlib Require Import ZArith Lia.
From stdpp Require Import base numbers strings sets gmap list.
From S2P Require Import Prelude IntrusiveList Links Deque SpinLock World Coroutine InnerFd Task Sched.
From S2P Require Import Event Mutex Cond Sem Blocking Chan ChanObjects ChanSteps.
Open Scope Z_scope.

(** A send that has yet to put its message into the channel, a send on an
    unbuffered channel that has and waits for the receiver, a receive. *)
Inductive op :=
| OSend (t : Z) (k : nat) (v : value)
| ODone (t : Z) (k : nat) (v : value)
| ORecv (t : Z) (k : nat).

Definition op_task (o : op) : Z := match o with OSend t _ _ | ODone t _ _ | ORecv t _ => t end.

Record state := State {
  msgs : list (nat * value);      (* in the channel, with the number of the send *)
  nf : list op;                   (* waiting at not_full *)
  ne : list op;                   (* waiting at not_empty *)
  awake : list op;
  sents : list (nat * value);     (* everything ever put in *)
  recvd : list (nat * value);     (* everything ever taken out *)
  next : nat
}.

(** The [i]-th awake operation puts its message in and wakes a receiver. *)
Definition put_in (s : state) (i : nat) (k : nat) (v : value) (nf' : list op) : state :=
  State (msgs s ++ [(k, v)]) nf' (drop 1 (ne s)) (delete i (awake s) ++ take 1 (ne s))
    (sents s ++ [(k, v)]) (recvd s) (next s).

(** No send can go on. *)
Definition busy (n : nat) (s : state) : bool :=
  if decide (n = 0)%nat then bool_decide (msgs s ≠ []) else bool_decide (length (msgs s) = n).

(** The [i]-th awake operation runs on a channel with room for [n]. *)
Definition exec (n i : nat) (s : state) : option state :=
  match awake s !! i with
  | None => None
  | Some (OSend t k v) =>
      if busy n s then
        Some (State (msgs s) (nf s ++ [OSend t k v]) (ne s) (delete i (awake s)) (sents s) (recvd s) (next s))
      else Some (put_in s i k v (if decide (n = 0)%nat then nf s ++ [ODone t k v] else nf s))
  | Some (ODone t k v) =>
      Some (State (msgs s) (nf s) (ne s) (delete i (awake s)) (sents s) (recvd s) (next s))
  | Some (ORecv t k) =>
      match msgs s with
      | [] => Some (State [] (nf s) (ne s ++ [ORecv t k]) (delete i (awake s)) (sents s) (recvd s) (next s))
      | m :: q =>
          let j := if decide (n = 0)%nat then 2%nat else 1%nat in
          Some (State q (drop j (nf s)) (ne s) (delete i (awake s) ++ take j (nf s))
                  (sents s) (recvd s ++ [m]) (next s))
      end
  end.

(** A task calls [chan_send] or [chan_recv]. *)
Definition start (o : nat → op) (s : state) : state :=
  State (msgs s) (nf s) (ne s) (awake s ++ [o (next s)]) (sents s) (recvd s) (S (next s)).

Definition init : state := State [] [] [] [] [] [] 0.

Inductive reach (n : nat) : state → Prop :=
| reach_init : reach n init
| reach_send s t v : reach n s → reach n (start (λ k, OSend t k v) s)
| reach_recv s t : reach n s → reach n (start (ORecv t) s)
| reach_exec s i s' : reach n s → exec n i s = Some s' → reach n s'.

(** * Invariants *)

Definition is_send (o : op) : bool := match o with OSend _ _ _ => true | _ => false end.
Definition is_recv (o : op) : bool := match o with ORecv _ _ => true | _ => false end.

(** How many operations of a kind a list has. *)
Definition count (p : op → bool) (l : list op) : nat := length (filter p l).

Lemma count_app p l1 l2 : count p (l1 ++ l2) = (count p l1 + count p l2)%nat.
Proof. unfold count. by rewrite filter_app, length_app. Qed.

Lemma count_delete p l i o : l !! i = Some o → count p l = (count p (delete i l) + if p o then 1 else 0)%nat.
Proof.
  intros Hi. rewrite <-(take_drop_middle l i o Hi) at 1. rewrite delete_take_drop.
  change (o :: drop (S i) l) with ([o] ++ drop (S i) l). rewrite !count_app.
  assert (count p [o] = if p o then 1 else 0)%nat; [|lia]. unfold count. cbn. by destruct (p o).
Qed.

(** The first elements of a list of receivers, of senders. *)
Lemma count_all p l : Forall (λ o, p o = true) l → count p l = length l.
Proof.
  intros H. unfold count. induction H as [|o l Ho _ IH]; [done|]. rewrite filter_cons, decide_True; [cbn; by rewrite IH|].
  by rewrite Ho.
Qed.

Record inv (n : nat) (s : state) : Prop := {
  inv_history : sents s = recvd s ++ msgs s;
  inv_capacity : (length (msgs s) ≤ Nat.max 1 n)%nat;
  inv_ne : Forall (λ o, is_recv o = true) (ne s);
  inv_nf : Forall (λ o, is_recv o = false) (nf s);
  inv_nf_send : (n ≠ 0)%nat → Forall (λ o, is_send o = true) (nf s);
  inv_recv : ne s ≠ [] → (length (msgs s) ≤ count is_recv (awake s))%nat;
  inv_send : (n ≠ 0)%nat → nf s ≠ [] → (n - length (msgs s) ≤ count is_send (awake s))%nat
}.

Lemma count_take1 p l : Forall (λ o, p o = true) l → l ≠ [] → count p (take 1 l) = 1%nat.
Proof. intros H Hl. rewrite count_all by (by apply Forall_take). destruct l; [done|]. done. Qed.

Lemma put_in_inv n s i t k v nf' :
  inv n s → awake s !! i = Some (OSend t k v) → busy n s = false →
  nf' = (if decide (n = 0)%nat then nf s ++ [ODone t k v] else nf s) → inv n (put_in s i k v nf').
Proof.
  intros [Hh Hc Hne Hnf Hns Hr Hs] Hi Hb ->. pose proof (count_delete is_send _ _ _ Hi) as Hcs.
  pose proof (count_delete is_recv _ _ _ Hi) as Hcr. cbn in Hcs, Hcr.
  assert (Hlen : (length (msgs s) < Nat.max 1 n)%nat).
  { unfold busy in Hb. destruct (decide (n = 0)%nat); case_bool_decide as Hx; try done.
    - destruct (msgs s); [cbn; lia|discriminate].
    - lia. }
  split; cbn -[count].
  - by rewrite Hh, app_assoc.
  - rewrite length_app. cbn. lia.
  - by apply Forall_drop.
  - case_decide; [|done]. apply Forall_app. split; [done|]. by constructor.
  - intros Hn. rewrite decide_False by done. by apply Hns.
  - intros Hd. assert (Hne' : ne s ≠ []) by (by intros E; rewrite E in Hd).
    rewrite count_app, (count_take1 is_recv (ne s)), length_app by done. cbn. specialize (Hr Hne'). lia.
  - intros Hn. rewrite decide_False by done. intros Hnf'. specialize (Hs Hn Hnf').
    rewrite count_app, length_app. cbn. lia.
Qed.

Lemma chan_exec_inv n i s s' : inv n s → exec n i s = Some s' → inv n s'.
Proof.
  intros Hinv He. unfold exec in He. destruct (awake s !! i) as [[t k v|t k v|t k]|] eqn:Hi; [| | |done].
  - destruct (busy n s) eqn:Hb; simplify_eq; [|by eapply put_in_inv].
    destruct Hinv as [Hh Hc Hne Hnf Hns Hr Hs]. pose proof (count_delete is_recv _ _ _ Hi) as Hcr. cbn in Hcr.
    split; cbn -[count]; try done.
    + apply Forall_app. split; [done|]. by constructor.
    + intros Hn. apply Forall_app. split; [by apply Hns|]. by constructor.
    + intros H. specialize (Hr H). lia.
    + intros Hn _. unfold busy in Hb. rewrite decide_False in Hb by done. case_bool_decide; [lia|done].
  - simplify_eq. destruct Hinv as [Hh Hc Hne Hnf Hns Hr Hs]. pose proof (count_delete is_recv _ _ _ Hi) as Hcr.
    pose proof (count_delete is_send _ _ _ Hi) as Hcs. cbn in Hcr, Hcs. split; cbn -[count]; try done.
    + intros H. specialize (Hr H). lia.
    + intros Hn H. specialize (Hs Hn H). lia.
  - pose proof (count_delete is_recv _ _ _ Hi) as Hcr. pose proof (count_delete is_send _ _ _ Hi) as Hcs.
    cbn in Hcr, Hcs. destruct Hinv as [Hh Hc Hne Hnf Hns Hr Hs].
    destruct (msgs s) as [|m q] eqn:Hq; simplify_eq; split; cbn -[count] in *; try done.
    + apply Forall_app. split; [done|]. by constructor.
    + lia.
    + intros Hn H. specialize (Hs Hn H). lia.
    + by rewrite Hh, <-app_assoc.
    + lia.
    + by apply Forall_drop.
    + intros Hn. apply Forall_drop. by apply Hns.
    + intros H. specialize (Hr H). rewrite count_app. lia.
    + intros Hn. rewrite !decide_False by done. intros Hd.
      assert (Hnf' : nf s ≠ []) by (by intros E; rewrite E in Hd). specialize (Hs Hn Hnf').
      rewrite count_app, (count_take1 is_send (nf s)) by auto. lia.
Qed.

Lemma chan_start_inv n o s : inv n s → inv n (start o s).
Proof.
  intros [Hh Hc Hne Hnf Hns Hr Hs]. split; cbn -[count]; try done; rewrite count_app.
  - intros H. specialize (Hr H). lia.
  - intros Hn H. specialize (Hs Hn H). lia.
Qed.

Lemma chan_reach_inv n s : reach n s → inv n s.
Proof.
  induction 1 as [|s t v _ IH|s t _ IH|s i s' _ IH He]; [|by apply chan_start_inv..|by eapply chan_exec_inv].
  split; cbn; try done; try constructor. lia.
Qed.

(** * Exactly once *)

(** The number of a send that has yet to put its message in. *)
Definition pending1 (o : op) : list nat := match o with OSend _ k _ => [k] | _ => [] end.
Definition pending (l : list op) : list nat := l ≫= pending1.

(** Every send that was ever made: not in the channel yet, or in the history. *)
Definition numbers (s : state) : list nat := pending (awake s) ++ pending (nf s) ++ (fst <$> sents s).

Lemma pending_app l1 l2 : pending (l1 ++ l2) = pending l1 ++ pending l2.
Proof. apply bind_app. Qed.

Lemma pending_delete l i o : l !! i = Some o → pending l ≡ₚ pending1 o ++ pending (delete i l).
Proof.
  intros Hi. rewrite <-(take_drop_middle l i o Hi) at 1. rewrite delete_take_drop, !pending_app.
  cbn. fold (pending (drop (S i) l)). by rewrite (Permutation_app_swap_app (pending _)).
Qed.

Lemma pending_recv l : Forall (λ o, is_recv o = true) l → pending l = [].
Proof. intros H. induction H as [|[] l Ho _ IH]; done. Qed.

Lemma numbers_exec n i s s' : inv n s → exec n i s = Some s' → numbers s' ≡ₚ numbers s.
Proof.
  intros Hinv He. unfold numbers, exec in *. destruct (awake s !! i) as [o|] eqn:Hi; [|done].
  rewrite (pending_delete _ _ _ Hi). destruct o as [t k v|t k v|t k].
  - destruct (busy n s); simplify_eq; cbn.
    + rewrite pending_app, <-app_assoc. cbn. solve_Permutation.
    + rewrite pending_app, (pending_recv (take 1 (ne s))), app_nil_r, fmap_app by (apply Forall_take, Hinv).
      cbn. case_decide; [rewrite pending_app, app_nil_r|]; solve_Permutation.
  - by simplify_eq.
  - destruct (msgs s) as [|m q]; simplify_eq; [done|]. cbn -[take drop]. set (j := if decide _ then _ else _).
    rewrite <-(take_drop j (nf s)) at 3. rewrite !pending_app. solve_Permutation.
Qed.

(** Numbers are fresh, and a woken sender of an unbuffered channel has been
    served. *)
Record once (n : nat) (s : state) : Prop := {
  once_nodup : NoDup (numbers s);
  once_fresh : Forall (λ k, (k < next s)%nat) (numbers s);
  once_waiting : ∀ t k v, ODone t k v ∈ nf s → (k, v) ∈ sents s;
  once_served : ∀ t k v, ODone t k v ∈ awake s → (k, v) ∈ recvd s
}.

Lemma elem_of_delete_inv {A} (l : list A) i x : x ∈ delete i l → x ∈ l.
Proof. intros H. eapply elem_of_submseteq; [exact H|]. apply sublist_submseteq, sublist_delete. Qed.

Lemma elem_of_take_inv {A} (l : list A) j x : x ∈ take j l → x ∈ l.
Proof. intros H. rewrite <-(take_drop j l). apply elem_of_app. by left. Qed.

Lemma elem_of_drop_inv {A} (l : list A) j x : x ∈ drop j l → x ∈ l.
Proof. intros H. rewrite <-(take_drop j l). apply elem_of_app. by right. Qed.

(** What a receive wakes has been served: the channel of an unbuffered channel is
    empty after it. *)
Lemma woken_served n s m q t k v :
  inv n s → once n s → msgs s = m :: q → ODone t k v ∈ take (if decide (n = 0)%nat then 2 else 1) (nf s) →
  (k, v) ∈ recvd s ++ [m].
Proof.
  intros Hinv [_ _ Hw _] Hq Hin%elem_of_take_inv. destruct (decide (n = 0)%nat) as [->|Hn].
  - assert (q = []) as ->.
    { pose proof (inv_capacity _ _ Hinv) as Hc. rewrite Hq in Hc. destruct q; [done|]. cbn in Hc. lia. }
    rewrite <-Hq, <-(inv_history _ _ Hinv). by eapply Hw.
  - pose proof (inv_nf_send _ _ Hinv Hn) as Hall. rewrite Forall_forall in Hall. by specialize (Hall _ Hin).
Qed.

Lemma once_start n o s : (∀ k, pending1 (o k) = [k] ∨ pending1 (o k) = []) → (∀ t k v k', o k' ≠ ODone t k v) →
  once n s → once n (start o s).
Proof.
  intros Ho Hd [Hnd Hf Hw Hs].
  assert (Hp : numbers (start o s) ≡ₚ pending1 (o (next s)) ++ numbers s).
  { unfold numbers. cbn. rewrite pending_app. cbn. rewrite app_nil_r. solve_Permutation. }
  split.
  - rewrite Hp. destruct (Ho (next s)) as [-> | ->]; [|done]. cbn. constructor; [|done].
    intros Hin. rewrite Forall_forall in Hf. specialize (Hf _ Hin). lia.
  - rewrite Hp. apply Forall_app. split.
    + destruct (Ho (next s)) as [-> | ->]; repeat constructor; cbn; lia.
    + eapply Forall_impl; [exact Hf|]. cbn. lia.
  - done.
  - intros t k v. cbn. rewrite elem_of_app, list_elem_of_singleton. intros [?|H]; [by eapply Hs|].
    by destruct (Hd t k v (next s)).
Qed.

Lemma once_exec n i s s' : inv n s → once n s → exec n i s = Some s' → once n s'.
Proof.
  intros Hinv [Hnd Hf Hw Hs] He. pose proof (numbers_exec _ _ _ _ Hinv He) as Hp.
  pose proof (chan_exec_inv _ _ _ _ Hinv He) as [Hh' Hc' _ _ _ _ _].
  assert (Hnx : next s' = next s) by (unfold exec, put_in in He; by repeat case_match; simplify_eq).
  assert (Hrecv : ∀ o, o ∈ take 1 (ne s) → is_recv o = true).
  { intros o Ho%elem_of_take_inv. pose proof (inv_ne _ _ Hinv) as Hall. rewrite Forall_forall in Hall. by apply Hall. }
  assert (Honce : once n s) by done.
  split; [by rewrite Hp|by rewrite Hp, Hnx|..]; clear Hp Hnx; unfold exec, put_in in He;
    (destruct (awake s !! i) as [[t k v|t k v|t k]|] eqn:Hi; [| | |done]).
  all: intros t' k' v'.
  - destruct (busy n s); simplify_eq; cbn.
    + rewrite elem_of_app, list_elem_of_singleton. intros [?|?]; [by eapply Hw|done].
    + rewrite elem_of_app, list_elem_of_singleton. case_decide; [rewrite elem_of_app, list_elem_of_singleton|].
      * intros [?|[= -> -> ->]]; [left; by eapply Hw|by right].
      * intros ?. left. by eapply Hw.
  - simplify_eq. apply Hw.
  - destruct (msgs s); simplify_eq; cbn; [apply Hw|]. intros H%elem_of_drop_inv. by eapply Hw.
  - destruct (busy n s); simplify_eq; cbn.
    + intros H%elem_of_delete_inv. by eapply Hs.
    + rewrite elem_of_app. intros [H%elem_of_delete_inv|H%Hrecv]; [by eapply Hs|done].
  - simplify_eq. cbn. intros H%elem_of_delete_inv. by eapply Hs.
  - destruct (msgs s) as [|m q] eqn:Hq; simplify_eq; cbn -[take].
    + intros H%elem_of_delete_inv. by eapply Hs.
    + rewrite elem_of_app. intros [H%elem_of_delete_inv|H]; [apply elem_of_app; left; by eapply Hs|].
      by eapply woken_served.
Qed.

Lemma reach_once n s : reach n s → once n s.
Proof.
  induction 1 as [|s t v Hr IH|s t Hr IH|s i s' Hr IH He].
  - split; cbn; try constructor; by intros ??? ?%elem_of_nil.
  - apply once_start; [by left|done|done].
  - apply once_start; [by right|done|done].
  - eapply once_exec; [by apply chan_reach_inv|done|done].
Qed.

(** * Coming to rest *)

(** An awake operation runs. *)
Definition istep (n : nat) (s s' : state) : Prop := ∃ i, exec n i s = Some s'.

(** Waking costs one; the operation that wakes pays for it. *)
Definition weight (o : op) : nat := match o with ODone _ _ _ => 1 | _ => 3 end.
Definition effort (s : state) : nat :=
  (sum_list_with (λ o, S (weight o)) (awake s) + sum_list_with weight (nf s) + sum_list_with weight (ne s))%nat.

Lemma sum_delete f (l : list op) i o :
  l !! i = Some o → sum_list_with f l = (f o + sum_list_with f (delete i l))%nat.
Proof.
  intros Hi. rewrite <-(take_drop_middle l i o Hi) at 1. rewrite delete_take_drop, !sum_list_with_app. cbn. lia.
Qed.

Lemma sum_wake j (l : list op) :
  (sum_list_with (λ o, S (weight o)) (take j l) + sum_list_with weight (drop j l) ≤
   j + sum_list_with weight l)%nat.
Proof.
  revert l. induction j as [|j IH]; intros [|o l]; cbn; try lia. specialize (IH l). lia.
Qed.

Lemma exec_effort n i s s' : exec n i s = Some s' → (effort s' < effort s)%nat.
Proof.
  intros He. unfold exec in He. destruct (awake s !! i) as [o|] eqn:Hi; [|done]. unfold effort.
  rewrite (sum_delete _ _ _ _ Hi). destruct o as [t k v|t k v|t k].
  - destruct (busy n s); simplify_eq; unfold put_in; cbn -[take drop]; rewrite ?sum_list_with_app; cbn -[take drop]; [lia|].
    pose proof (sum_wake 1 (ne s)). case_decide; rewrite ?sum_list_with_app; cbn -[take drop]; lia.
  - simplify_eq. cbn. lia.
  - destruct (msgs s); simplify_eq; cbn -[take drop]; rewrite ?sum_list_with_app; cbn -[take drop]; [lia|].
    set (j := if decide _ then _ else _). assert (j ≤ 2)%nat by (unfold j; case_decide; lia).
    pose proof (sum_wake j (nf s)). lia.
Qed.

Lemma chan_istep_acc n s : Acc (flip (istep n)) s.
Proof.
  remember (effort s) as e eqn:Ee. revert s Ee. induction e as [e IH] using lt_wf_ind. intros s ->.
  constructor. intros s' (i & He). eapply IH; [by eapply exec_effort|done].
Qed.

Lemma rtc_istep_reach n s s' : reach n s → rtc (istep n) s s' → reach n s'.
Proof. intros Hr H. induction H as [|s1 s2 s3 (i & He) _ IH]; [done|]. apply IH. by eapply reach_exec. Qed.

Lemma chan_at_rest n s : (∀ i, exec n i s = None) → awake s = [].
Proof.
  intros H. specialize (H 0%nat). unfold exec in H. destruct (awake s) as [|[] l]; [done|..]; cbn in H;
    repeat case_match; done.
Qed.

(** * The code and the protocol *)

Section refinement.
Context {K : Kernel} (c : ptr) (n : nat) (es t : Z).

(** [s] is the channel with contents [q] and waiting tasks [L]. *)
Definition mirrors (s : state) (q : list value) (L : gmap Z (list Z)) : Prop :=
  snd <$> msgs s = q ∧ L !! chan_not_full c = Some (op_task <$> nf s) ∧
  L !! chan_not_empty c = Some (op_task <$> ne s).

(** The tasks follow the protocol and [o] is awake. *)
Definition follows (o : op) (q : list value) (L : gmap Z (list Z)) : Prop :=
  ∃ s, reach n s ∧ mirrors s q L ∧ o ∈ awake s.

Lemma follows_conds o q L : follows o q L → is_Some (L !! chan_not_full c) ∧ is_Some (L !! chan_not_empty c).
Proof. intros (s & _ & (_ & -> & ->) & _). by split; eexists. Qed.

Lemma not_full_empty : chan_not_full c ≠ chan_not_empty c.
Proof. unfold chan_not_full, chan_not_empty. lia. Qed.

Lemma mirrors_full s q L : (n ≠ 0)%nat → mirrors s q L → busy n s = bool_decide (full (Z.of_nat n) q).
Proof.
  intros Hn (<- & _). unfold busy. rewrite decide_False by done.
  apply bool_decide_ext. unfold full. rewrite (length_fmap snd (msgs s)). lia.
Qed.

(** One step of the code is one step of the protocol. *)
Lemma follows_wait_full k v q L :
  (n ≠ 0)%nat → follows (OSend t k v) q L → full (Z.of_nat n) q →
  ∃ s, reach n s ∧ mirrors s q (enlist (chan_not_full c) t L).
Proof.
  intros Hn (s & Hr & Hm & [i Hi]%list_elem_of_lookup) Hf. pose proof Hm as (Hq & Hnf & Hne). eexists. split.
  - eapply reach_exec; [exact Hr|]. unfold exec. rewrite Hi, (mirrors_full _ _ _ Hn Hm), bool_decide_eq_true_2 by done.
    reflexivity.
  - unfold enlist. split_and!; cbn; [done| |].
    + by rewrite lookup_alter_eq, Hnf, fmap_app.
    + by rewrite lookup_alter_ne by apply not_full_empty.
Qed.

Lemma follows_sent k v q L :
  (n ≠ 0)%nat → follows (OSend t k v) q L → ¬ full (Z.of_nat n) q →
  ∃ s, reach n s ∧ mirrors s (q ++ [v]) (wake (chan_not_empty c) L) ∧ (k, v) ∈ sents s.
Proof.
  intros Hn (s & Hr & Hm & [i Hi]%list_elem_of_lookup) Hf. pose proof Hm as (Hq & Hnf & Hne). eexists. split_and!.
  - eapply reach_exec; [exact Hr|]. unfold exec. rewrite Hi, (mirrors_full _ _ _ Hn Hm), bool_decide_eq_false_2 by done.
    rewrite decide_False by done. reflexivity.
  - unfold wake. split_and!; cbn -[drop].
    + by rewrite fmap_app, Hq.
    + by rewrite lookup_alter_ne by apply not_eq_sym, not_full_empty.
    + by rewrite lookup_alter_eq, Hne, fmap_drop.
  - cbn. apply elem_of_app. right. by left.
Qed.

Lemma follows_wait_empty k q L :
  follows (ORecv t k) q L → q = [] → ∃ s, reach n s ∧ mirrors s q (enlist (chan_not_empty c) t L).
Proof.
  intros (s & Hr & (Hq & Hnf & Hne) & [i Hi]%list_elem_of_lookup) ->. apply fmap_nil_inv in Hq. eexists. split.
  - eapply reach_exec; [exact Hr|]. unfold exec. rewrite Hi, Hq. reflexivity.
  - unfold enlist. split_and!; cbn; [done| |].
    + by rewrite lookup_alter_ne by apply not_eq_sym, not_full_empty.
    + by rewrite lookup_alter_eq, Hne, fmap_app.
Qed.

Lemma follows_received k v q L :
  follows (ORecv t k) (v :: q) L →
  ∃ s, reach n s ∧ (∃ j, (j, v) ∈ recvd s) ∧
    mirrors s q (if decide (Z.of_nat n = 0) then wake (chan_not_full c) (wake (chan_not_full c) L)
                 else wake (chan_not_full c) L).
Proof.
  intros (s & Hr & (Hq & Hnf & Hne) & [i Hi]%list_elem_of_lookup).
  destruct (msgs s) as [|[j v'] ms] eqn:Hms; [done|]. cbn in Hq. simplify_eq. eexists. split_and!.
  - eapply reach_exec; [exact Hr|]. unfold exec. rewrite Hi, Hms. reflexivity.
  - exists j. cbn. apply elem_of_app. right. by left.
  - unfold wake. destruct (decide (n = 0)%nat) as [Hn|Hn].
    + rewrite decide_True by lia. split_and!; cbn -[drop]; [done| |].
      * rewrite !lookup_alter_eq, Hnf. cbn [fmap option_fmap option_map]. f_equal. by rewrite drop_drop, fmap_drop.
      * by rewrite !lookup_alter_ne by apply not_full_empty.
    + rewrite decide_False by lia. split_and!; cbn -[drop]; [done| |].
      * rewrite lookup_alter_eq, Hnf. cbn [fmap option_fmap option_map]. f_equal. by rewrite fmap_drop.
      * by rewrite lookup_alter_ne by apply not_full_empty.
Qed.

(** A state of the process that mirrors one of the protocol. *)
Definition idle_at (H : objects → list value → Prop) (P : state → Prop) (w : world) : Prop :=
  ∃ s q L ts, reach n s ∧ mirrors s q L ∧ P s ∧ ready t (chan_mutex c) H NULL w q L ts.
Definition away_at (H : objects → list value → Prop) (w : world) : Prop :=
  ∃ s q L, reach n s ∧ mirrors s q L ∧ parked t (chan_mutex c) H w q L.

(** C11. The functions of chan.c implement the protocol: among tasks that follow
    it, a send on a buffered channel and a receive on any channel take the
    process, at every switch and at their return, to a state that mirrors a
    reachable state of the protocol; when the send returns its message has gone
    into the channel, and a receive hands out a message the protocol counts as
    received. *)
Theorem chan_follows_protocol E fuel k msg v w q L ts :
  c ≠ NULL →
  ((n ≠ 0)%nat → comes_back t (chan_mutex c) (sending c (Z.of_nat n) es msg v) (chan_not_full c)
       (full (Z.of_nat n)) (follows (OSend t k v)) E →
     ready t (chan_mutex c) (sending c (Z.of_nat n) es msg v) NULL w q L ts → follows (OSend t k v) q L →
     cwp True (away_at (sending c (Z.of_nat n) es msg v)) E (chan_send fuel c msg)
       (λ r w', r = 0 ∧ idle_at (sending c (Z.of_nat n) es msg v) (λ s, (k, v) ∈ sents s) w') w) ∧
  (comes_back t (chan_mutex c) (chan_holds c (Z.of_nat n) es) (chan_not_empty c) (λ q, q = [])
       (follows (ORecv t k)) E →
     ready t (chan_mutex c) (chan_holds c (Z.of_nat n) es) NULL w q L ts → follows (ORecv t k) q L →
     cwp True (away_at (chan_holds c (Z.of_nat n) es)) E (chan_recv fuel c)
       (λ r w', r.1 = 0 ∧ ∃ v j, carries (o_mem (w_objs w')) es r.2 v ∧
          idle_at (chan_holds c (Z.of_nat n) es) (λ s, (j, v) ∈ recvd s) w') w).
Proof.
  intros Hc. split.
  - intros Hn HE Hr HJ. eapply chan_send_cwp; [exact Hr|by intros ? []|done|]. rewrite decide_True by lia.
    eapply cwp_weaken, cwp_mono;
      [|eapply (buffer_send_steps E c (Z.of_nat n) es t (follows (OSend t k v)));
        [apply follows_conds|lia|done|done|done]|].
    + intros w1 (q1 & L1 & Hp & Hf & HJ1). destruct (follows_wait_full _ _ _ _ Hn HJ1 Hf) as (s & ? & ?).
      by exists s, q1, (enlist (chan_not_full c) t L1).
    + intros r w' (q1 & L1 & HJ1 & Hf & -> & ts1 & Hr1). split; [done|].
      destruct (follows_sent _ _ _ _ Hn HJ1 Hf) as (s & ? & ? & ?). by eexists s, _, _, _.
  - intros HE Hr HJ. eapply chan_recv_cwp; [exact Hr|done|done|].
    set (sig := λ L, if decide (Z.of_nat n = 0) then wake (chan_not_full c) (wake (chan_not_full c) L)
                     else wake (chan_not_full c) L).
    assert (Hrec : cwp True (waits_at t (chan_mutex c) (chan_holds c (Z.of_nat n) es) (chan_not_empty c)
        (λ q, q = []) (follows (ORecv t k))) E
      (if decide (Z.of_nat n ≠ 0) then chan_buffer_recv fuel c else chan_nobuffer_recv fuel c)
      (λ r w', ∃ v q L, follows (ORecv t k) (v :: q) L ∧ received c (Z.of_nat n) es t v q (sig L) r w') w).
    { unfold sig. destruct (decide (Z.of_nat n = 0)) as [E0|E0].
      - rewrite decide_False by (intros H; by apply H).
        eapply recv_steps; [apply follows_conds|intros; by eapply nobuffer_recv_tail|done..].
      - rewrite decide_True by done.
        eapply recv_steps; [apply follows_conds|intros; by eapply buffer_recv_tail|done..]. }
    eapply cwp_weaken, cwp_mono; [|exact Hrec|].
    + intros w1 (q1 & L1 & Hp & Hf & HJ1). destruct (follows_wait_empty _ _ _ HJ1 Hf) as (s & ? & ?).
      by exists s, q1, (enlist (chan_not_empty c) t L1).
    + intros r w' (v1 & q1 & L1 & HJ1 & Hr1 & Hcar & ts1 & Hr2). split; [done|].
      destruct (follows_received _ _ _ _ HJ1) as (s & ? & (j & ?) & ?). exists v1, j. split; [done|].
      by exists s, q1, (sig L1), ts1.
Qed.
End refinement.

(** C9. Exactly once and in order: in every interleaving of any number of sends
    and receives, what has been received is what was sent first, each send has
    put its message in at most once, the channel never holds more than its
    capacity (one for an unbuffered channel), and a send on an unbuffered channel
    that is about to return has had its message received. *)
Theorem chan_exactly_once n s :
  reach n s → sents s = recvd s ++ msgs s ∧ NoDup (fst <$> sents s) ∧ (length (msgs s) ≤ Nat.max 1 n)%nat ∧
    ∀ t k v, ODone t k v ∈ awake s → (k, v) ∈ recvd s.
Proof.
  intros Hr. pose proof (chan_reach_inv _ _ Hr) as [Hh Hc _ _ _ _ _].
  pose proof (reach_once _ _ Hr) as [Hnd _ _ Hs]. split_and!; [done| |done|done].
  by apply NoDup_app in Hnd as (_ & _ & [_ [_ ?]]%NoDup_app).
Qed.

(** C10. No lost wakeup: left alone, the operations come to rest after finitely
    many steps; then a receiver waits only if the channel is empty, and a sender
    on a buffered channel only if it is full. *)
Theorem chan_no_lost_wakeup n s :
  reach n s → Acc (flip (istep n)) s ∧
  ∀ s', rtc (istep n) s s' → (∀ i, exec n i s' = None) →
    (ne s' ≠ [] → msgs s' = []) ∧ ((n ≠ 0)%nat → nf s' ≠ [] → length (msgs s') = n).
Proof.
  intros Hr. split; [apply chan_istep_acc|]. intros s' Hs Hrest.
  pose proof (chan_reach_inv _ _ (rtc_istep_reach _ _ _ Hr Hs)) as [_ Hc _ _ _ Hrv Hsd].
  apply chan_at_rest in Hrest. rewrite Hrest in Hrv, Hsd. cbn in Hrv, Hsd. split.
  - intros H. specialize (Hrv H). destruct (msgs s'); [done|]. cbn in Hrv. lia.
  - intros Hn H. specialize (Hsd Hn H). lia.
Qed.

(** A run given by its actions: a send of task [t], a receive, the [i]-th awake
    operation. *)
Inductive action := ASend (t : Z) (v : value) | ARecv (t : Z) | AExec (i : nat).

Definition do_action (n : nat) (a : action) (s : state) : option state :=
  match a with
  | ASend t v => Some (start (λ k, OSend t k v) s)
  | ARecv t => Some (start (ORecv t) s)
  | AExec i => exec n i s
  end.

Fixpoint run (n : nat) (l : list action) (s : state) : option state :=
  match l with
  | [] => Some s
  | a :: l => match do_action n a s with Some s => run n l s | None => None end
  end.

Lemma run_chan_reach n l s s' : reach n s → run n l s = Some s' → reach n s'.
Proof.
  revert s. induction l as [|a l IH]; intros s Hr H; cbn in H; [by simplify_eq|].
  destruct (do_action n a s) as [s1|] eqn:E; [|done]. eapply IH; [|exact H].
  destruct a; cbn in E; simplify_eq; [by constructor|by constructor|by eapply reach_exec].
Qed.

(** Four senders and four receivers on an unbuffered channel; the oldest awake
    operation always runs first. *)
Definition ex_stuck_run : list action :=
  [ASend 1 (inl 1); ASend 2 (inl 2); ASend 3 (inl 3); ASend 4 (inl 4); AExec 0; AExec 0; AExec 0; AExec 0;
   ARecv 5; AExec 0; AExec 0; AExec 0;
   ARecv 6; AExec 0; AExec 0; AExec 0;
   ARecv 7; AExec 0; AExec 0; AExec 0;
   ARecv 8; AExec 0].

(** C37. An unbuffered channel can lose a wakeup: with four senders and four
    receivers a state is reachable in which nobody runs, the channel is empty, a
    sender waits for it to become empty and a receiver for a message. *)
Theorem chan_unbuffered_deadlock :
  ∃ s, reach 0 s ∧ (∀ i, exec 0 i s = None) ∧ msgs s = [] ∧ ne s = [ORecv 8 7] ∧ nf s = [OSend 4 3 (inl 4)].
Proof.
  destruct (run 0 ex_stuck_run init) as [s|] eqn:E; [|by vm_compute in E].
  exists s. split; [eapply run_chan_reach; [constructor|exact E]|].
  vm_compute in E. injection E as <-. split; [|done]. intros [|i]; done.
Qed.

(** * Examples *)

(** Room for one message; the second send waits until the first is received. *)
Definition ex_run : list action :=
  [ASend 1 (inl 7); AExec 0; ASend 2 (inl 8); AExec 0; ARecv 3; AExec 0].
Definition ex_state : state :=
  State [] [] [] [OSend 2 1 (inl 8)] [(0%nat, inl 7)] [(0%nat, inl 7)] 3.

Lemma chan_exactly_once_witness :
  run 1 ex_run init = Some ex_state ∧ sents ex_state = recvd ex_state ++ msgs ex_state ∧
  NoDup (fst <$> sents ex_state).
Proof.
  assert (E : run 1 ex_run init = Some ex_state) by reflexivity. split; [exact E|].
  destruct (chan_exactly_once 1 ex_state) as (? & ? & _); [|done].
  eapply run_chan_reach; [constructor|exact E].
Defined.

Lemma chan_no_lost_wakeup_witness :
  ∃ s', rtc (istep 1) ex_state s' ∧ (ne s' ≠ [] → msgs s' = []) ∧ (nf s' ≠ [] → length (msgs s') = 1%nat) ∧
    msgs s' = [(1%nat, inl 8)].
Proof.
  exists (State [(1%nat, inl 8)] [] [] [] [(0%nat, inl 7); (1%nat, inl 8)] [(0%nat, inl 7)] 3).
  assert (Hs : rtc (istep 1) ex_state
    (State [(1%nat, inl 8)] [] [] [] [(0%nat, inl 7); (1%nat, inl 8)] [(0%nat, inl 7)] 3)).
  { eapply rtc_l; [by exists 0%nat|]. apply rtc_refl. }
  destruct (chan_no_lost_wakeup 1 ex_state) as [_ H].
  { eapply (run_chan_reach 1 ex_run init); [constructor|reflexivity]. }
  destruct (H _ Hs) as [H1 H2]; [by intros [|i]|]. split; [done|]. split; [done|]. split; [by apply H2|done].
Defined.

Lemma ex_follows o :
  (∃ t v, o = λ k, OSend t k v) ∨ (∃ t, o = ORecv t) → follows 40 2 (o 0%nat) [] ex_nobody.
Proof.
  intros Ho. exists (start o init). split.
  - destruct Ho as [(t & v & ->)|(t & ->)]; [apply reach_send|apply reach_recv]; constructor.
  - split; [|by left]. done.
Qed.

#[local] Opaque ex_open.

Lemma chan_follows_protocol_witness :
  cwp True (away_at 40 2 2 (sending 40 2 0 7 (inl 7))) (ex_back 2) (chan_send 5 40 7)
    (λ r w', r = 0 ∧ idle_at 40 2 2 (sending 40 2 0 7 (inl 7)) (λ s, (0%nat, inl 7) ∈ sents s) w') (ex_open 2).
Proof.
  assert (Hf : follows 40 2 (OSend 2 0 (inl 7)) [] ex_nobody)
    by (apply (ex_follows (λ k, OSend 2 k (inl 7))); left; by eexists _, _).
  destruct (chan_follows_protocol 40 2 0 2 (ex_back 2) 5 0 7 (inl 7) (ex_open 2) [] ex_nobody []) as [H _]; [done|].
  change (Z.of_nat 2) with 2 in H. apply H; [done| |apply ex_sending_ready; unfold INT_MAX; lia|exact Hf].
  intros w1 w2 q L -> _ _ _. exists [], ex_nobody, []. split; [apply ex_sending_ready; unfold INT_MAX; lia|exact Hf].
Defined.

#[local] Transparent ex_open.

(** The same deadlock in the code: tasks 11 to 14 send on an unbuffered channel,
    15 to 18 receive.  [drive] takes the tasks of a list off the run
    queue in turn, lets each run to its next switch, and drops those that have
    returned. *)
Definition add_task (t : Z) (w : world (K := ex_kernel)) : world (K := ex_kernel) :=
  World.with_links (with_tasks w (<[t := Task (UserFunc 9) 0 0 0 None 0 1 0 RUNNABLE (Some 1)]> (w_tasks w)))
    (list_init (w_links w) (run_link t)).
Definition ex_eight : world (K := ex_kernel) := foldr add_task (ex_open 0) [11; 12; 13; 14; 15; 16; 17; 18].
Definition ex_code : gmap Z (C (K := ex_kernel) unit) :=
  foldr (λ t, insert t (do! chan_send 9 40 t in cret ())) (foldr (λ t, insert t (do! chan_recv 9 40 in cret ())) ∅
    [15; 16; 17; 18]) [11; 12; 13; 14].

Fixpoint drive (l : list Z) (ks : gmap Z (C (K := ex_kernel) unit)) (w : world (K := ex_kernel))
    : option (gmap Z (C (K := ex_kernel) unit) * world (K := ex_kernel)) :=
  match l with
  | [] => Some (ks, w)
  | t :: l =>
      let w := with_threads w ((λ th, Thread t (g_sched th) (g_cids th) (g_task_alive th) (g_errno th)
        (g_cached_tid th)) <$> w_threads w) in
      match ks !! t, list_delete (w_links w) (run_link t) with
      | Some k, Ok m =>
          match k (World.with_links w m) with
          | Ok (CRet _, w) => drive l (delete t ks) w
          | Ok (CYield k, w) => drive l (<[t := k]> ks) w
          | _ => None
          end
      | _, _ => None
      end
  end.

(** Sender 14 and receiver 18 are left, the run queue and the channel are empty. *)
Example ex_unbuffered_stuck :
  (λ r, match r with
        | Some (ks, w) => Some (fst <$> map_to_list ks, list_next (w_links w) (run_list 1),
            match chan_size (K := ex_kernel) 40 w with Ok (n, _) => n | _ => -1 end)
        | None => None
        end)
    (drive [11; 12; 13; 14; 15; 11; 12; 16; 13; 14; 17; 12; 13; 18] ex_code ex_eight) =
  Some ([14; 18], Ok (run_list 1), 0).
Proof. vm_compute. reflexivity. Qed.
